(** * saltrouteDataEnrichment: a shallow embedding of the enrichment scripts

    The development follows the repository's layout:
    - [IdNumbers/sa_id_mask_solver.py]        : [valid_date], [gender_ok];
    - [BirthDay Backfill/backfill_birthdates.py] : the century rule of [TSQL];
    - [BirthDay Backfill/correct_birthdates.py]  : [TSQL_CORRECT_RECORDS];
    - [OpenAI_Prediction/enrich_and_update_master_items.py] :
      [get_person_prediction_async], [batch_upsert_genders],
      [batch_upsert_languages], [process_master_items_in_batches_async].

    Strings are ASCII strings, integers are [Z], SQL tables are lists of
    records (order and duplicates matter for a heap table), Python dicts are
    [gmap string _].  Everything the scripts obtain from their environment
    (the clock, the prediction service, database faults) is an explicit
    argument of the embedded function. *)

From Stdlib Require Import ZArith Lia Ascii String List Bool Sorted Permutation.
From Stdlib Require DecimalString DecimalPos.
From stdpp Require Import base decidable option list sorting gmap strings.

Import ListNotations.
Local Open Scope string_scope.
Local Open Scope Z_scope.

(** ** Python values shared by the scripts *)

Module Py.

(** The exceptions that the modelled code can meet. *)
Inductive exn : Type :=
| ValueError
| JSONDecodeError (msg : string)
| AttributeError
| OtherException (type_name msg : string).

(** [isinstance(e, Exception)].  Of the exceptions the scripts can meet,
    the cancellation of a task and the interpreter's exits derive from
    [BaseException] only: [except Exception] lets them through. *)
Definition is_Exception (e : exn) : bool :=
  match e with
  | OtherException type_name _ =>
      negb (existsb (String.eqb type_name)
              ["CancelledError"; "KeyboardInterrupt"; "SystemExit"; "GeneratorExit"])
  | _ => true
  end.

(** Outcome of evaluating a Python expression or call. *)
Inductive result (A : Type) : Type :=
| Returned (a : A)
| Raised (e : exn).
Arguments Returned {A} a.
Arguments Raised {A} e.

Definition bind {A B} (r : result A) (k : A -> result B) : result B :=
  match r with
  | Returned a => k a
  | Raised e => Raised e
  end.

(** [try: body except ValueError: handler] *)
Definition try_except_ValueError {A} (body : result A) (handler : result A)
  : result A :=
  match body with
  | Raised ValueError => handler
  | other => other
  end.

Definition digit_of_ascii (c : ascii) : option Z :=
  let n := Z.of_N (N_of_ascii c) in
  if (48 <=? n) && (n <=? 57) then Some (n - 48) else None.

(** The value of a run of decimal digits, most significant first. *)
Fixpoint int_digits (acc : Z) (s : string) : option Z :=
  match s with
  | EmptyString => Some acc
  | String c rest =>
      match digit_of_ascii c with
      | Some d => int_digits (10 * acc + d) rest
      | None => None
      end
  end.

(** The ASCII characters for which [str.isspace] holds. *)
Definition isspace (c : ascii) : bool :=
  let n := N_of_ascii c in
  (((9 <=? n) && (n <=? 13)) || ((28 <=? n) && (n <=? 32)))%N.

Fixpoint lstrip_chars (l : list ascii) : list ascii :=
  match l with
  | [] => []
  | c :: rest => if isspace c then lstrip_chars rest else l
  end.

(** [s.strip()] *)
Definition strip (s : string) : string :=
  string_of_list_ascii
    (rev (lstrip_chars (rev (lstrip_chars (list_ascii_of_string s))))).

(** The digits of [int(s)] after the sign: decimal digits, single
    underscores allowed between two digits. *)
Fixpoint int_body (acc : Z) (after_digit : bool) (s : string) : option Z :=
  match s with
  | EmptyString => if after_digit then Some acc else None
  | String c rest =>
      match digit_of_ascii c with
      | Some d => int_body (10 * acc + d) true rest
      | None =>
          if Ascii.eqb c "_" && after_digit then int_body acc false rest else None
      end
  end.

(** [sys.get_int_max_str_digits()], at its default: a decimal literal or
    numeral of more digits is refused by [int] and by [str]. *)
Definition max_str_digits : Z := 4300.

(** The number of digit characters of a literal. *)
Fixpoint digit_count (s : string) : Z :=
  match s with
  | EmptyString => 0
  | String c rest =>
      match digit_of_ascii c with
      | Some _ => 1 + digit_count rest
      | None => digit_count rest
      end
  end.

(** [int(s)] on an ASCII string: surrounding blanks are dropped, a sign may
    come first, anything else raises [ValueError]; so does a literal of
    more than [max_str_digits] digits. *)
Definition int (s : string) : result Z :=
  let parsed :=
    match strip s with
    | EmptyString => None
    | String c rest =>
        if Ascii.eqb c "+" then int_body 0 false rest
        else if Ascii.eqb c "-" then Z.opp <$> int_body 0 false rest
        else int_body 0 false (String c rest)
    end in
  match parsed with
  | Some v => if max_str_digits <? digit_count s then Raised ValueError else Returned v
  | None => Raised ValueError
  end.

(** The number a digit run denotes (0 when [s] is not a digit run). *)
Definition digits_value (s : string) : Z := default 0 (int_digits 0 s).

(** [s[i:j]] for [0 <= i <= j]. *)
Definition slice (s : string) (i j : nat) : string :=
  String.substring i (j - i) s.

Definition upper_ascii (c : ascii) : ascii :=
  let n := N_of_ascii c in
  if ((97 <=? n) && (n <=? 122))%N then ascii_of_N (n - 32) else c.

(** [s.upper()] on ASCII strings. *)
Fixpoint upper (s : string) : string :=
  match s with
  | EmptyString => EmptyString
  | String c rest => String (upper_ascii c) (upper rest)
  end.

Fixpoint all_digits (s : string) : bool :=
  match s with
  | EmptyString => true
  | String c rest => bool_decide (is_Some (digit_of_ascii c)) && all_digits rest
  end.

(** A run of exactly [n] decimal digits. *)
Definition digit_block (n : nat) (s : string) : bool :=
  (String.length s =? n)%nat && all_digits s.

(** The decimal numeral of an integer. *)
Definition numeral (n : Z) : string :=
  DecimalString.NilZero.string_of_int (Z.to_int n).

(** The least magnitude whose numeral has more than [max_str_digits]
    digits, [10 ^ max_str_digits], evaluated once. *)
Definition str_limit : Z := Eval vm_compute in 10 ^ max_str_digits.

(** [str(n)] for an integer: its decimal numeral, or [ValueError] when
    that has more than [max_str_digits] digits. *)
Definition str (n : Z) : result string :=
  if str_limit <=? Z.abs n then Raised ValueError
  else Returned (numeral n).

(** [map(f, l)] consumed to its end: the first exception ends it. *)
Fixpoint map_result {A B} (f : A -> result B) (l : list A) : result (list B) :=
  match l with
  | [] => Returned []
  | x :: rest =>
      bind (f x) (fun y => bind (map_result f rest) (fun ys => Returned (y :: ys)))
  end.

(** [[int(x) for x in s]]: every character read as a number. *)
Fixpoint ints_of_chars (s : string) : result (list Z) :=
  match s with
  | EmptyString => Returned []
  | String c rest =>
      match int (String c EmptyString) with
      | Returned d =>
          match ints_of_chars rest with
          | Returned ds => Returned (d :: ds)
          | Raised e => Raised e
          end
      | Raised e => Raised e
      end
  end.

(** [l[::2]]: the elements at positions 0, 2, 4, ... *)
Fixpoint every_other {A} (l : list A) : list A :=
  match l with
  | [] => []
  | x :: rest => x :: match rest with [] => [] | _ :: rest' => every_other rest' end
  end.

(** [sum(l)] *)
Definition sum (l : list Z) : Z := fold_right Z.add 0 l.

(** [s[:-1]]: all but the last character. *)
Fixpoint but_last (s : string) : string :=
  match s with
  | EmptyString => EmptyString
  | String c EmptyString => EmptyString
  | String c rest => String c (but_last rest)
  end.

(** [s[-1]]: the last character; [IndexError] on the empty string. *)
Fixpoint last_char (s : string) : result string :=
  match s with
  | EmptyString => Raised (OtherException "IndexError" "string index out of range")
  | String c EmptyString => Returned (String c EmptyString)
  | String _ rest => last_char rest
  end.

End Py.

Notation "'let*' x ':=' r 'in' k" := (Py.bind r (fun x => k))
  (at level 10, x name, r at level 100, k at level 200).

(** ** The proleptic Gregorian calendar of [datetime] and of SQL [date] *)

Module Calendar.

Record date : Type := mkdate { year : Z; month : Z; day : Z }.

Global Instance date_eq_dec : EqDecision date.
Proof. solve_decision. Defined.

Definition is_leap (y : Z) : bool :=
  (y mod 4 =? 0) && (negb (y mod 100 =? 0) || (y mod 400 =? 0)).

Definition days_in_month (y m : Z) : Z :=
  if m =? 2 then (if is_leap y then 29 else 28)
  else if (m =? 4) || (m =? 6) || (m =? 9) || (m =? 11) then 30
  else 31.

(** The check made by [datetime(year, month, day)] and by a conversion to
    SQL [date]: years 1..9999, months 1..12, a day of that month. *)
Definition is_date (y m d : Z) : bool :=
  (1 <=? y) && (y <=? 9999) && (1 <=? m) && (m <=? 12) &&
  (1 <=? d) && (d <=? days_in_month y m).

Definition valid (x : date) : bool := is_date (year x) (month x) (day x).

(** Chronological order, as SQL compares [date] values. *)
Definition ltb (a b : date) : bool :=
  (year a <? year b) ||
  ((year a =? year b) &&
   ((month a <? month b) || ((month a =? month b) && (day a <? day b)))).

(** An integer that fits the C [int] the constructors of [datetime] and
    [date] take their arguments as. *)
Definition c_int (n : Z) : bool := (-2147483648 <=? n) && (n <=? 2147483647).

(** What the constructors raise on an argument that does not fit (the
    wording of the message depends on the platform and is left out). *)
Definition OverflowError : Py.exn := Py.OtherException "OverflowError" "".

(** [datetime(y, m, d)]: the constructor raises [OverflowError] on an
    argument beyond a C [int], and [ValueError] on an impossible date. *)
Definition datetime (y m d : Z) : Py.result date :=
  if c_int y && c_int m && c_int d then
    if is_date y m d then Py.Returned (mkdate y m d) else Py.Raised Py.ValueError
  else Py.Raised OverflowError.

End Calendar.

(** ** IdNumbers/sa_id_mask_solver.py *)

Module IdNumbers.
Import Py Calendar.

(** [int(datetime.now().strftime("%y"))]: the two-digit year of the clock. *)
Definition now_yy (now_year : Z) : Z := now_year mod 100.

(** The century chosen on line 29:
    [1900 if int(yy) > int(datetime.now().strftime("%y")) else 2000]. *)
Definition century (now_year y : Z) : Z :=
  if y >? now_yy now_year then 1900 else 2000.

Definition valid_date (now_year : Z) (yy mm dd : string) : result bool :=
  try_except_ValueError
    (let* y := int yy in
     let* y' := int yy in
     let year := y + century now_year y' in
     let* m := int mm in
     let* d := int dd in
     let* _ := datetime year m d in
     Returned true)
    (Returned false).

(** [gender_ok], with the module constant [GENDER] as an argument. *)
Definition gender_ok (GENDER : string) (id13 : string) : result bool :=
  let* block := int (slice id13 6 10) in
  if String.eqb (upper GENDER) "M" then Returned (5000 <=? block)
  else if String.eqb (upper GENDER) "F" then Returned (block <? 5000)
  else Returned true.

(** [luhn_sa]: the check digit of a twelve-digit stem. *)
Definition luhn_sa (stem12 : string) : result string :=
  let* d := ints_of_chars stem12 in
  let odd := sum (every_other d) in
  let* strs := map_result str (every_other (List.tl d)) in
  let* joined := int (String.concat "" strs) in
  let* doubled := str (joined * 2) in
  let* digits := ints_of_chars doubled in
  let even := sum digits in
  str ((10 - (odd + even) mod 10) mod 10).

(** [opts] of [generate_ids]: the characters each position may take. *)
Definition options (mask : string) : list (list ascii) :=
  List.map (fun ch => if Ascii.eqb ch "*"
                      then list_ascii_of_string "0123456789"
                      else [ch])
           (list_ascii_of_string mask).

(** [itertools.product]: the first position varies slowest. *)
Fixpoint product {A} (opts : list (list A)) : list (list A) :=
  match opts with
  | [] => [[]]
  | o :: rest => List.flat_map (fun c => List.map (cons c) (product rest)) o
  end.

(** The two tests of the loop body of [generate_ids]: whether [cand] is
    yielded.  [gender_ok] is only evaluated when [valid_date] holds. *)
Definition yields (now_year : Z) (GENDER : string) (cand : string) : result bool :=
  let* dated := valid_date now_year (slice cand 0 2) (slice cand 2 4) (slice cand 4 6) in
  let* kept := (if dated then gender_ok GENDER cand else Returned false) in
  if negb kept then Returned false
  else
    let* check := luhn_sa (but_last cand) in
    let* final := last_char cand in
    Returned (String.eqb check final).

(** The loop over the candidates, collecting what is yielded; an exception
    ends the generator. *)
Fixpoint generate_from (now_year : Z) (GENDER : string) (cands : list string)
  : result (list string) :=
  match cands with
  | [] => Returned []
  | cand :: rest =>
      let* y := yields now_year GENDER cand in
      let* more := generate_from now_year GENDER rest in
      Returned (if y then cand :: more else more)
  end.

Definition generate_ids (now_year : Z) (GENDER : string) (mask : string)
  : result (list string) :=
  generate_from now_year GENDER
    (List.map string_of_list_ascii (product (options mask))).

(** The module-level assertion on [MASK]: thirteen characters, each a
    digit or the wildcard. *)
Definition mask_ok (mask : string) : bool :=
  (String.length mask =? 13)%nat &&
  forallb (fun ch => Ascii.eqb ch "*" || bool_decide (is_Some (digit_of_ascii ch)))
          (list_ascii_of_string mask).

(** [cand] agrees with [mask] wherever the mask is not a wildcard. *)
Fixpoint matches (mask cand : string) : bool :=
  match mask, cand with
  | EmptyString, EmptyString => true
  | String m mask', String c cand' =>
      (Ascii.eqb m "*" || Ascii.eqb m c) && matches mask' cand'
  | _, _ => false
  end.

End IdNumbers.

(** ** BirthDay Backfill/backfill_birthdates.py: the decoding expression *)

Module Backfill.
Import Py Calendar.

Definition LEFT (s : string) (n : nat) : string := String.substring 0 n s.
Definition RIGHT (s : string) (n : nat) : string :=
  String.substring (String.length s - n) n s.

(** Comparison of two character strings of the same length made of digits,
    as the server's collation orders them: character by character. *)
Definition str_gt (a b : string) : bool :=
  match String.compare a b with Gt => true | _ => false end.

(** [TRY_CONVERT(date, s)] for an eight-character [yyyymmdd] string:
    the date, or NULL when the string is not a date. *)
Definition TRY_CONVERT_date (s : string) : option date :=
  match int (slice s 0 4), int (slice s 4 6), int (slice s 6 8) with
  | Returned y, Returned m, Returned d =>
      if (String.length s =? 8)%nat && is_date y m d
      then Some (mkdate y m d) else None
  | _, _, _ => None
  end.

(** The [CASE] expression of lines 79-81; [year4] is
    [CONVERT(char(4), YEAR(GETDATE()))]. *)
Definition century_prefix (year4 IDNumber : string) : string :=
  if str_gt (LEFT IDNumber 2) (RIGHT year4 2) then "19" else "20".

Definition DOB (year4 IDNumber : string) : option date :=
  TRY_CONVERT_date (String.append (century_prefix year4 IDNumber) (LEFT IDNumber 6)).

End Backfill.

(** ** BirthDay Backfill/correct_birthdates.py *)

Module Correction.
Import Py Calendar.

(** A row of [dbo.BirthDates]; [BirthDate] is NULL until it is derived. *)
Record BirthDateRow : Type := mkBirthDateRow
  { Id : Z; MasterItemId : Z; BirthDate : option date }.

(** A row of the table variable [@ChangedRecords], which keeps
    [MasterItemId] as text: the number is recorded here as it is. *)
Record ChangedRecord : Type := mkChangedRecord
  { c_Id : Z; c_MasterItemId : Z; OldBirthDate : date; NewBirthDate : date }.

Global Instance BirthDateRow_eq_dec : EqDecision BirthDateRow.
Proof. solve_decision. Defined.
Global Instance ChangedRecord_eq_dec : EqDecision ChangedRecord.
Proof. solve_decision. Defined.

(** [DATEADD(year, n, d)]: same month and day in year [year d + n], the
    day clamped to the end of the month (29 February in a year that has
    none becomes the 28th); outside years 1..9999 the statement fails
    with an overflow error. *)
Definition DATEADD_year (n : Z) (d : date) : option date :=
  let y := year d + n in
  if (1 <=? y) && (y <=? 9999)
  then Some (mkdate y (month d) (Z.min (day d) (days_in_month y (month d))))
  else None.

(** [WHERE BirthDate > @ThresholdDate]; a NULL date compares as unknown
    and is not selected. *)
Definition over_threshold (threshold : date) (r : BirthDateRow) : bool :=
  match BirthDate r with
  | Some d => ltb threshold d
  | None => false
  end.

(** The [UPDATE ... OUTPUT deleted.*, inserted.BirthDate INTO
    @ChangedRecords WHERE BirthDate > @ThresholdDate] statement: the new
    table and the captured rows, or [None] when the statement fails. *)
Fixpoint UPDATE_BirthDates (threshold : date) (rows : list BirthDateRow)
  : option (list BirthDateRow * list ChangedRecord) :=
  match rows with
  | [] => Some ([], [])
  | r :: rest =>
      match BirthDate r with
      | Some old =>
          if ltb threshold old then
            match DATEADD_year (-100) old, UPDATE_BirthDates threshold rest with
            | Some new, Some (rest', changed) =>
                Some (mkBirthDateRow (Id r) (MasterItemId r) (Some new) :: rest',
                      mkChangedRecord (Id r) (MasterItemId r) old new :: changed)
            | _, _ => None
            end
          else
            match UPDATE_BirthDates threshold rest with
            | Some (rest', changed) => Some (r :: rest', changed)
            | None => None
            end
      | None =>
          match UPDATE_BirthDates threshold rest with
          | Some (rest', changed) => Some (r :: rest', changed)
          | None => None
          end
      end
  end.

(** [ORDER BY OldBirthDate ASC, Id ASC] *)
Definition export_le (a b : ChangedRecord) : Prop :=
  ltb (OldBirthDate a) (OldBirthDate b) = true \/
  (OldBirthDate a = OldBirthDate b /\ c_Id a <= c_Id b).

Global Instance export_le_dec : RelDecision export_le.
Proof. intros a b. unfold export_le. apply _. Defined.

Definition ORDER_BY_OldBirthDate_Id (l : list ChangedRecord) : list ChangedRecord :=
  merge_sort export_le l.

(** The connection: [durable] is what the database holds once every
    transaction is closed, [current] what statements of the open
    transaction see.  The script connects with [autocommit=False], so the
    batch runs inside the driver's transaction ([trancount] 1) and
    [BEGIN TRANSACTION] nests one more level. *)
Record Connection : Type := mkConnection
  { durable : list BirthDateRow; current : list BirthDateRow; trancount : nat }.

Definition connect (db : list BirthDateRow) : Connection :=
  mkConnection db db 1.

Definition BEGIN_TRANSACTION (cn : Connection) : Connection :=
  mkConnection (durable cn) (current cn) (S (trancount cn)).

(** [ROLLBACK TRANSACTION] undoes every open level. *)
Definition ROLLBACK_TRANSACTION (cn : Connection) : Connection :=
  mkConnection (durable cn) (durable cn) 0.

(** [COMMIT TRANSACTION] closes one level; the outermost one makes the
    changes durable. *)
Definition COMMIT_TRANSACTION (cn : Connection) : Connection :=
  match trancount cn with
  | 1%nat => mkConnection (current cn) (current cn) 0
  | n => mkConnection (durable cn) (current cn) (Nat.pred n)
  end.

(** Leaving [with pyodbc.connect(...) as cn:] commits when the block ended
    normally and rolls back when it ended with an exception. *)
Definition connection_exit (normal : bool) (cn : Connection) : list BirthDateRow :=
  if normal then current cn else durable cn.

(** The batch [TSQL_CORRECT_RECORDS]: the connection afterwards and the
    result set of the final [SELECT]; [None] when the [UPDATE] fails (the
    driver then raises [pyodbc.Error]). *)
Definition TSQL_CORRECT_RECORDS (CORRECTION_THRESHOLD_DATE : date)
    (DRY_RUN : bool) (cn : Connection)
  : option (Connection * list ChangedRecord) :=
  let cn1 := BEGIN_TRANSACTION cn in
  match UPDATE_BirthDates CORRECTION_THRESHOLD_DATE (current cn1) with
  | None => None
  | Some (updated, ChangedRecords) =>
      let cn2 := mkConnection (durable cn1) updated (trancount cn1) in
      let cn3 := if DRY_RUN then ROLLBACK_TRANSACTION cn2
                 else COMMIT_TRANSACTION cn2 in
      Some (cn3, ORDER_BY_OldBirthDate_Id ChangedRecords)
  end.

(** What a run of the script leaves behind. *)
Record Outcome : Type := mkOutcome
  { database : list BirthDateRow;         (* dbo.BirthDates after the run *)
    csv_rows : option (list ChangedRecord) (* rows of the CSV, if one is written *) }.

(** The [__main__] block.  [confirm] is the operator's answer after
    [.strip().upper()]; it is only asked for in a live run. *)
Definition main (CORRECTION_THRESHOLD_DATE : date) (DRY_RUN : bool)
    (confirm : string) (db : list BirthDateRow) : Outcome :=
  if negb DRY_RUN && negb (String.eqb confirm "YES") then
    mkOutcome db None                               (* sys.exit before connecting *)
  else
    let cn := connect db in
    match TSQL_CORRECT_RECORDS CORRECTION_THRESHOLD_DATE DRY_RUN cn with
    | None => mkOutcome (connection_exit false cn) None   (* pyodbc.Error *)
    | Some (cn', rows) =>
        mkOutcome (connection_exit true cn')
                  (match rows with [] => None | _ => Some rows end)
    end.

(** *** Vocabulary for the statements about the correction pass *)

(** Every stored [date] is a date (the column type guarantees it). *)
Definition stored_dates_valid (db : list BirthDateRow) : Prop :=
  forall r d, r ∈ db -> BirthDate r = Some d -> valid d = true.

(** The audit record of row [r], if the pass is to change it. *)
Definition change_of (threshold : date) (r : BirthDateRow) : option ChangedRecord :=
  match BirthDate r with
  | Some old =>
      if ltb threshold old then
        match DATEADD_year (-100) old with
        | Some new => Some (mkChangedRecord (Id r) (MasterItemId r) old new)
        | None => None
        end
      else None
  | None => None
  end.

(** [new] is [old] a hundred years earlier: same month, same day, except
    that 29 February falls back to the 28th in a year without one. *)
Definition hundred_years_earlier (old new : date) : Prop :=
  year new = year old - 100 /\ month new = month old /\
  (day new = day old \/ (month old = 2 /\ day old = 29 /\ day new = 28)).

(** Row [r'] is what the pass makes of row [r]. *)
Definition corrected (threshold : date) (r r' : BirthDateRow) : Prop :=
  Id r' = Id r /\ MasterItemId r' = MasterItemId r /\
  match BirthDate r with
  | Some old =>
      if ltb threshold old
      then exists new, BirthDate r' = Some new /\ hundred_years_earlier old new
      else r' = r
  | None => r' = r
  end.

End Correction.

(** ** BirthDay Backfill/backfill_birthdates.py: the two batched phases *)

Module BackfillRun.
Import Py Calendar Backfill Correction.

(** A row of [dbo.MasterItems], as far as the batch reads it: the columns
    [Id] and [IDNumber]. *)
Record MasterItem : Type := mkMasterItem
  { mi_Id : Z; IDNumber : option string }.

Global Instance MasterItem_eq_dec : EqDecision MasterItem.
Proof. solve_decision. Defined.

(** [x LIKE '[0-9][0-9][0-9][0-9][0-9][0-9]%']; NULL is not selected. *)
Definition LIKE_six_digits (x : option string) : bool :=
  match x with
  | Some s => digit_block 6 (LEFT s 6)
  | None => false
  end.

(** The expression [TRY_CONVERT(date, CASE ... END)] on the nullable column. *)
Definition DOB_of (year4 : string) (x : option string) : option date :=
  match x with
  | Some s => DOB year4 s
  | None => None
  end.

(** The two conditions on [IDNumber] that both phases share. *)
Definition decodable (year4 : string) (mi : MasterItem) : bool :=
  LIKE_six_digits (IDNumber mi) &&
  bool_decide (is_Some (DOB_of year4 (IDNumber mi))).

(** [LEFT JOIN dbo.BirthDates bd ON bd.Id = mi.Id WHERE bd.Id IS NULL] *)
Definition unmatched (BirthDates : list BirthDateRow) (mi : MasterItem) : bool :=
  negb (existsb (fun bd => Z.eqb (Id bd) (mi_Id mi)) BirthDates).

Definition by_mi_Id (a b : MasterItem) : Prop := mi_Id a <= mi_Id b.

Global Instance by_mi_Id_dec : RelDecision by_mi_Id.
Proof. intros a b. unfold by_mi_Id. apply _. Defined.

(** The select list of Phase 1: [mi.Id, mi.Id, DOB]. *)
Definition row_of (year4 : string) (mi : MasterItem) : BirthDateRow :=
  mkBirthDateRow (mi_Id mi) (mi_Id mi) (DOB_of year4 (IDNumber mi)).

(** The master items Phase 1 still has to insert. *)
Definition missing (year4 : string) (MasterItems : list MasterItem)
    (BirthDates : list BirthDateRow) : list MasterItem :=
  List.filter (fun mi => unmatched BirthDates mi && decodable year4 mi) MasterItems.

(** [SELECT TOP (@BatchSize) ... ORDER BY mi.Id] of lines 75-90. *)
Definition SELECT_missing (year4 : string) (BatchSize : nat)
    (MasterItems : list MasterItem) (BirthDates : list BirthDateRow)
  : list BirthDateRow :=
  List.map (row_of year4)
    (firstn BatchSize (merge_sort by_mi_Id (missing year4 MasterItems BirthDates))).

(** The [WHILE @i_v5 > 0] loop of Phase 1; [fuel] bounds the number of
    passes, [None] when it is used up. *)
Fixpoint Phase1 (fuel : nat) (year4 : string) (BatchSize : nat)
    (MasterItems : list MasterItem) (BirthDates : list BirthDateRow)
    (totalInserted : Z) : option (list BirthDateRow * Z) :=
  match fuel with
  | O => None
  | S fuel' =>
      let inserted := SELECT_missing year4 BatchSize MasterItems BirthDates in
      let BirthDates' := (BirthDates ++ inserted)%list in
      let i := Z.of_nat (length inserted) in              (* @@ROWCOUNT *)
      let totalInserted' := totalInserted + i in
      if i =? 0 then Some (BirthDates', totalInserted')   (* BREAK *)
      else Phase1 fuel' year4 BatchSize MasterItems BirthDates' totalInserted'
  end.

Definition is_null (d : option date) : bool :=
  match d with None => true | Some _ => false end.

(** The rows of [dbo.MasterItems m JOIN dbo.BirthDates b ON b.Id = m.Id
    WHERE b.BirthDate IS NULL AND ...]: one for each matching pair. *)
Definition undated_pairs (year4 : string) (MasterItems : list MasterItem)
    (BirthDates : list BirthDateRow) : list MasterItem :=
  List.flat_map
    (fun m => List.map (fun _ => m)
                (List.filter (fun b => Z.eqb (Id b) (mi_Id m) && is_null (BirthDate b))
                             BirthDates))
    (List.filter (decodable year4) MasterItems).

(** The derived table [todo] of lines 114-125. *)
Definition todo (year4 : string) (BatchSize : nat)
    (MasterItems : list MasterItem) (BirthDates : list BirthDateRow) : list Z :=
  List.map mi_Id
    (firstn BatchSize
       (merge_sort by_mi_Id (undated_pairs year4 MasterItems BirthDates))).

(** The partner of [bd] in [JOIN todo ON todo.Id = bd.Id JOIN
    dbo.MasterItems mi ON mi.Id = bd.Id]. *)
Definition joined_item (MasterItems : list MasterItem) (todo_ids : list Z)
    (bd : BirthDateRow) : option MasterItem :=
  if existsb (Z.eqb (Id bd)) todo_ids
  then List.find (fun mi => Z.eqb (mi_Id mi) (Id bd)) MasterItems
  else None.

(** The [UPDATE bd SET bd.BirthDate = ... FROM ...] of lines 107-126: the
    table afterwards and [@@ROWCOUNT]. *)
Definition UPDATE_undated (year4 : string) (BatchSize : nat)
    (MasterItems : list MasterItem) (BirthDates : list BirthDateRow)
  : list BirthDateRow * Z :=
  let ids := todo year4 BatchSize MasterItems BirthDates in
  (List.map (fun bd =>
               match joined_item MasterItems ids bd with
               | Some mi => mkBirthDateRow (Id bd) (MasterItemId bd)
                                           (DOB_of year4 (IDNumber mi))
               | None => bd
               end) BirthDates,
   Z.of_nat (length (List.filter
                       (fun bd => bool_decide (is_Some (joined_item MasterItems ids bd)))
                       BirthDates))).

(** The [WHILE @u_v5 > 0] loop of Phase 2. *)
Fixpoint Phase2 (fuel : nat) (year4 : string) (BatchSize : nat)
    (MasterItems : list MasterItem) (BirthDates : list BirthDateRow)
    (totalUpdated : Z) : option (list BirthDateRow * Z) :=
  match fuel with
  | O => None
  | S fuel' =>
      let '(BirthDates', u) := UPDATE_undated year4 BatchSize MasterItems BirthDates in
      let totalUpdated' := totalUpdated + u in
      if u =? 0 then Some (BirthDates', totalUpdated')    (* BREAK *)
      else Phase2 fuel' year4 BatchSize MasterItems BirthDates' totalUpdated'
  end.

(** What a run of the batch leaves: the table and the row of the final
    [SELECT]. *)
Record Summary : Type := mkSummary
  { BirthDates_after : list BirthDateRow;
    TotalInsertedInRun : Z;
    TotalUpdatedInRun : Z }.

(** The batch [TSQL], run with [autocommit=True]. *)
Definition TSQL (fuel : nat) (year4 : string) (BatchSize : nat)
    (MasterItems : list MasterItem) (BirthDates : list BirthDateRow)
  : option Summary :=
  match Phase1 fuel year4 BatchSize MasterItems BirthDates 0 with
  | None => None
  | Some (BirthDates1, totalInserted) =>
      match Phase2 fuel year4 BatchSize MasterItems BirthDates1 0 with
      | None => None
      | Some (BirthDates2, totalUpdated) =>
          Some (mkSummary BirthDates2 totalInserted totalUpdated)
      end
  end.

(** *** Vocabulary for the statements about the back-fill *)

(** [Id] is the key of both tables. *)
Definition keyed (MasterItems : list MasterItem) (BirthDates : list BirthDateRow) : Prop :=
  NoDup (List.map mi_Id MasterItems) /\ NoDup (List.map Id BirthDates).

Definition item_of (MasterItems : list MasterItem) (id : Z) : option MasterItem :=
  List.find (fun mi => Z.eqb (mi_Id mi) id) MasterItems.

(** The master items with a row that has no date yet and an [IDNumber]
    that gives one. *)
Definition undated (year4 : string) (MasterItems : list MasterItem)
    (BirthDates : list BirthDateRow) : list MasterItem :=
  List.filter
    (fun m => existsb (fun b => Z.eqb (Id b) (mi_Id m) && is_null (BirthDate b)) BirthDates
              && decodable year4 m)
    MasterItems.

(** What Phase 2 makes of a row: a row without a date gets the date of
    its master item, if the [IDNumber] gives one. *)
Definition filled (year4 : string) (MasterItems : list MasterItem)
    (bd : BirthDateRow) : BirthDateRow :=
  match BirthDate bd, item_of MasterItems (Id bd) with
  | None, Some mi =>
      if decodable year4 mi
      then mkBirthDateRow (Id bd) (MasterItemId bd) (DOB_of year4 (IDNumber mi))
      else bd
  | _, _ => bd
  end.

End BackfillRun.

(** ** OpenAI_Prediction/enrich_and_update_master_items.py: the writers *)

Module Upsert.

(** A row of [dbo.Genders]. *)
Record GenderRow : Type := mkGenderRow
  { g_MasterItemId : Z; g_Description : string }.

(** A row of [dbo.Languages]; [DateCreated] is set by the insert branch. *)
Record LanguageRow : Type := mkLanguageRow
  { l_MasterItemId : Z; l_Description : string; l_DateCreated : option Z }.

Global Instance GenderRow_eq_dec : EqDecision GenderRow.
Proof. solve_decision. Defined.
Global Instance LanguageRow_eq_dec : EqDecision LanguageRow.
Proof. solve_decision. Defined.

(** What the two [MERGE] statements need from their target table.  The
    [Description] column is written only by these statements, always from
    a non-empty prediction field, and is compared as exact text. *)
Class Target (R : Type) : Type := mkTarget
  { MasterItemId : R -> Z;
    Description : R -> string;
    (** [UPDATE SET target.Description = source.Description] *)
    update_row : string -> R -> R;
    (** [INSERT (...) VALUES (source.MasterItemId, source.Description ...)];
        the first argument is [GETDATE()]. *)
    insert_row : Z -> Z -> string -> R;
    MasterItemId_update : forall d r, MasterItemId (update_row d r) = MasterItemId r;
    Description_update : forall d r, Description (update_row d r) = d;
    MasterItemId_insert : forall now k d, MasterItemId (insert_row now k d) = k;
    Description_insert : forall now k d, Description (insert_row now k d) = d }.

Global Instance Genders_target : Target GenderRow :=
  {| MasterItemId := g_MasterItemId;
     Description := g_Description;
     update_row := fun d r => mkGenderRow (g_MasterItemId r) d;
     insert_row := fun _ k d => mkGenderRow k d;
     MasterItemId_update := fun _ _ => eq_refl;
     Description_update := fun _ _ => eq_refl;
     MasterItemId_insert := fun _ _ _ => eq_refl;
     Description_insert := fun _ _ _ => eq_refl |}.

Global Instance Languages_target : Target LanguageRow :=
  {| MasterItemId := l_MasterItemId;
     Description := l_Description;
     update_row := fun d r => mkLanguageRow (l_MasterItemId r) d (l_DateCreated r);
     insert_row := fun now k d => mkLanguageRow k d (Some now);
     MasterItemId_update := fun _ _ => eq_refl;
     Description_update := fun _ _ => eq_refl;
     MasterItemId_insert := fun _ _ _ => eq_refl;
     Description_insert := fun _ _ _ => eq_refl |}.

(** The temporary table: [(MasterItemId INT PRIMARY KEY, Description
    NVARCHAR(50))], filled by [executemany] from the list of pairs. *)
Definition source := list (Z * string).

Definition source_find (src : source) (k : Z) : option string :=
  snd <$> List.find (fun p => Z.eqb (fst p) k) src.

Section Merge.
Context {R : Type} `{Target R}.

(** [WHEN MATCHED AND target.Description <> source.Description] *)
Definition needs_update (src : source) (r : R) : option string :=
  match source_find src (MasterItemId r) with
  | Some d => if String.eqb (Description r) d then None else Some d
  | None => None
  end.

Definition merge_matched (src : source) (r : R) : R :=
  match needs_update src r with
  | Some d => update_row d r
  | None => r
  end.

(** [WHEN NOT MATCHED BY TARGET] *)
Definition not_matched (target : list R) (p : Z * string) : bool :=
  negb (existsb (fun r => Z.eqb (MasterItemId r) (fst p)) target).

(** The [MERGE] statement: the target afterwards and its row count
    (rows updated plus rows inserted), which is what the writers return
    ([rowcount] is taken to be known, i.e. not -1). *)
Definition MERGE (now : Z) (target : list R) (src : source) : list R * Z :=
  let updates := List.filter (fun r => bool_decide (is_Some (needs_update src r))) target in
  let inserts := List.filter (not_matched target) src in
  ((List.map (merge_matched src) target
      ++ List.map (fun p => insert_row now (fst p) (snd p)) inserts)%list,
   Z.of_nat (length updates) + Z.of_nat (length inserts)).

(** Filling the temporary table fails ([pyodbc.Error]) on a duplicate
    primary key or on a description longer than fifty characters. *)
Definition temp_table_ok (data : source) : bool :=
  bool_decide (NoDup (List.map fst data)) &&
  forallb (fun p => (String.length (snd p) <=? 50)%nat) data.

(** The common body of [batch_upsert_genders] and
    [batch_upsert_languages]; [fault] says that the connection raises
    [pyodbc.Error] somewhere before the commit returns, in which case
    the handler rolls back.  Returns the table and the function's
    return value. *)
Definition batch_upsert (fault : bool) (now : Z) (data : source)
    (target : list R) : list R * Z :=
  match data with
  | [] => (target, 0)                      (* [if not ... data_list: return 0] *)
  | _ =>
      if fault || negb (temp_table_ok data) then (target, 0)
      else MERGE now target data
  end.
End Merge.

(** *** Vocabulary for the statements about the writers *)

Section Reconciled.
Context {R : Type} `{Target R}.

(** Row [r'] is what the merge makes of the existing row [r]: left as it
    is when the mapping has no entry for its key or has the very same
    description, updated in place otherwise. *)
Definition row_reconciled (data : source) (r r' : R) : Prop :=
  match source_find data (MasterItemId r) with
  | Some d =>
      if String.eqb (Description r) d then (r' = r) else (r' = update_row d r)
  | None => r' = r
  end.

(** Table [t1] is [target] reconciled with [data]: the existing rows in
    their places, followed by one new row for each key of [data] that
    [target] did not have. *)
Definition reconciled (now : Z) (data : source) (target t1 : list R) : Prop :=
  exists kept inserted,
    t1 = (kept ++ inserted)%list /\
    Forall2 (row_reconciled data) target kept /\
    (forall r, r ∈ inserted <->
       exists k d, (k, d) ∈ data /\ (k ∉ List.map MasterItemId target) /\
                   r = insert_row now k d).
End Reconciled.

Definition batch_upsert_genders (fault : bool) (now : Z)
    (gender_data_list : source) (Genders : list GenderRow) : list GenderRow * Z :=
  batch_upsert fault now gender_data_list Genders.

Definition batch_upsert_languages (fault : bool) (now : Z)
    (language_data_list : source) (Languages : list LanguageRow)
  : list LanguageRow * Z :=
  batch_upsert fault now language_data_list Languages.

End Upsert.

(** ** The prediction client and its retry loop *)

Module Prediction.
Import Py.

(** The value [json.loads] returns, as far as the driver looks at it: an
    object, of which only the members [gender] and [language] are read
    (strings by the response schema; [None] for an absent or null
    member), or some other JSON value. *)
Inductive payload : Type :=
| JObject (gender language : option string)
| JOther.

(** Values stored in the result dictionaries. *)
Inductive pyval : Type :=
| VInt (n : Z)
| VStr (s : string)
| VJson (p : payload).

Global Instance payload_eq_dec : EqDecision payload.
Proof. solve_decision. Defined.
Global Instance pyval_eq_dec : EqDecision pyval.
Proof. solve_decision. Defined.

(** What one [await async_client.responses.create(...)] and the reading of
    the response do: the first output carries text ([Some raw]) or the
    response has no such content ([None]), or an exception is raised. *)
Inductive reply : Type :=
| Response (content : option string)
| Fault (e : exn).

(** What the coroutine does besides computing its result. *)
Inductive event : Type :=
| ApiCall (attempt : nat)
| AwaitSleep (seconds : Z).

Global Instance event_eq_dec : EqDecision event.
Proof. solve_decision. Defined.

Definition exn_type_name (e : exn) : string :=
  match e with
  | ValueError => "ValueError"
  | JSONDecodeError _ => "JSONDecodeError"
  | AttributeError => "AttributeError"
  | OtherException t _ => t
  end.

Definition exn_str (e : exn) : string :=
  match e with
  | ValueError => ""
  | JSONDecodeError m => m
  | AttributeError => ""
  | OtherException _ m => m
  end.

Definition concat_str (l : list string) : string := String.concat "" l.

Section Client.
(** [json.loads] is the library's; the embedding takes it as given. *)
Variable json_loads : string -> result payload.
(** [async_client] is [None] when the client could not be built. *)
Variable async_client : bool.
Variable RETRY_ATTEMPTS : nat.
Variable RETRY_DELAY_SECONDS : Z.
(** The service, as this coroutine meets it: the reply to each attempt. *)
Variable service : nat -> reply.

(** The [try] block of one attempt: [Some p] when it reaches the
    [return] with the parsed prediction, [None] when it falls into the
    [else] branch (unexpected structure). The second component is
    [raw_response_content] at the point the block is left. *)
Definition attempt_body (attempt : nat) : result (option payload) * option string :=
  match service attempt with
  | Fault e => (Raised e, None)
  | Response None => (Returned None, None)
  | Response (Some raw) =>
      match json_loads raw with
      | Returned p => (Returned (Some p), Some raw)
      | Raised e => (Raised e, Some raw)
      end
  end.

Definition raw_repr (raw : option string) : string :=
  match raw with Some r => r | None => "None" end.

(** Outcome of one pass through the loop body: a value to return, or an
    error message with which the loop goes on (or gives up); an exception
    that neither [except json.JSONDecodeError] nor [except Exception]
    catches leaves the coroutine. *)
Definition attempt_outcome (attempt : nat) : result (payload + string) :=
  match attempt_body attempt with
  | (Returned (Some p), _) => Returned (inl p)
  | (Returned None, _) =>
      Returned (inr "Unexpected response structure from OpenAI API.")
  | (Raised (JSONDecodeError m), raw) =>
      Returned (inr (concat_str ["JSONDecodeError: "; m; ". Raw: "; raw_repr raw]))
  | (Raised e, _) =>
      if is_Exception e
      then Returned (inr (concat_str ["API Error: "; exn_type_name e; " - "; exn_str e]))
      else Raised e
  end.

Definition prediction_result (item_id : Z) (p : payload) : gmap string pyval :=
  <["prediction" := VJson p]> (<["item_id" := VInt item_id]> ∅).

Definition error_result (item_id : Z) (msg : string) : gmap string pyval :=
  <["error" := VStr msg]> (<["item_id" := VInt item_id]> ∅).

(** [for attempt in range(RETRY_ATTEMPTS)], from index [attempt] with
    [remaining] iterations left. *)
Fixpoint retry_loop (item_id : Z) (remaining attempt : nat)
  : result (gmap string pyval) * list event :=
  match remaining with
  | O => (Returned (error_result item_id "All retry attempts failed."), [])
  | S remaining' =>
      match attempt_outcome attempt with
      | Raised e => (Raised e, [ApiCall attempt])
      | Returned (inl p) => (Returned (prediction_result item_id p), [ApiCall attempt])
      | Returned (inr error_msg) =>
          if (attempt <? RETRY_ATTEMPTS - 1)%nat then
            let '(r, evs) := retry_loop item_id remaining' (S attempt) in
            (r, ApiCall attempt
                  :: AwaitSleep (RETRY_DELAY_SECONDS * (Z.of_nat attempt + 1))
                  :: evs)
          else
            (Returned (error_result item_id error_msg), [ApiCall attempt])
      end
  end.

(** [if not s] on a string. *)
Definition falsy (s : string) : bool := String.eqb s "".

Definition get_person_prediction_async (first_name last_name : string)
    (item_id : Z) : result (gmap string pyval) * list event :=
  if negb async_client then
    (Returned (error_result item_id "OpenAI client not initialized."), [])
  else if falsy first_name || falsy last_name then
    (Returned (error_result item_id "Missing first name or last name."), [])
  else retry_loop item_id RETRY_ATTEMPTS 0.

End Client.

(** *** Vocabulary for the statements about the retry loop *)

(** The trace of [k] failed attempts starting at attempt [from], each
    followed by its pause, and then one more attempt: between the
    [a]-th and the [a+1]-th attempt (counted from one) the coroutine
    awaits [base_delay * a]. *)
Fixpoint backoff_trace (base_delay : Z) (from k : nat) : list event :=
  match k with
  | O => [ApiCall from]
  | S k' =>
      ApiCall from :: AwaitSleep (base_delay * (Z.of_nat from + 1))
        :: backoff_trace base_delay (S from) k'
  end.

(** The call and [json.loads] raise exceptions of class [Exception] only:
    no attempt is cancelled or interrupted. *)
Definition only_Exceptions (json_loads : string -> result payload)
    (service : nat -> reply) : Prop :=
  (forall a e, service a = Fault e -> is_Exception e = true) /\
  (forall raw e, json_loads raw = Raised e -> is_Exception e = true).

(** The dictionary has exactly one of the keys [prediction] and [error]. *)
Definition one_outcome (d : gmap string pyval) : Prop :=
  (is_Some (d !! "prediction") /\ d !! "error" = None) \/
  (d !! "prediction" = None /\ is_Some (d !! "error")).

End Prediction.

(** ** The chunked fan-out of the driver (lines 327-333) *)

Module Scheduler.
Import Py.

(** What the event loop observes of the fan-out; tasks are named by their
    position in [tasks]. *)
Inductive event : Type :=
| Start (task : nat)
| Settle (task : nat)
| Pause (seconds : Z).

Global Instance event_eq_dec : EqDecision event.
Proof. solve_decision. Defined.

(** [range(0, stop, step)]; a zero step raises [ValueError]. *)
Definition range_step (stop step : nat) : result (list nat) :=
  match step with
  | O => Raised ValueError
  | _ => Returned (List.map (fun k => k * step)%nat
                            (seq 0 ((stop + step - 1) / step)))
  end.

(** [await asyncio.gather] of a chunk, on the outcomes of the awaited
    coroutines: the list of their results in argument order, or the
    exception of the first one that raised. *)
Fixpoint gather {A} (outcomes : list (result A)) : result (list A) :=
  match outcomes with
  | [] => Returned []
  | Returned a :: rest =>
      match gather rest with
      | Returned l => Returned (a :: l)
      | Raised e => Raised e
      end
  | Raised e :: _ => Raised e
  end.

(** Task [a] settles no later than task [b]. *)
Definition sooner (latency : nat -> Z) (a b : nat) : Prop :=
  latency a <= latency b.

Global Instance sooner_dec latency : RelDecision (sooner latency).
Proof. intros a b. unfold sooner. apply _. Defined.

Section Chunks.
Context {T A : Type}.
(** Running one coroutine to its end. *)
Variable run : T -> result A.
(** The time each task takes; tasks of a chunk settle in that order. *)
Variable latency : nat -> Z.
Variable API_CALL_CONCURRENCY : nat.
Variable tasks : list T.

Definition settle_order (ids : list nat) : list nat :=
  merge_sort (sooner latency) ids.

(** The body of the [for i in range(...)] loop, over the remaining
    indices [starts], with [api_results] as accumulated so far. *)
Fixpoint for_chunks (starts : list nat) (api_results : list A)
  : result (list A) * list event :=
  match starts with
  | [] => (Returned api_results, [])
  | i :: rest =>
      let chunk := firstn API_CALL_CONCURRENCY (skipn i tasks) in
      let ids := seq i (length chunk) in
      let evs := (List.map Start ids ++ List.map Settle (settle_order ids))%list in
      match gather (List.map run chunk) with
      | Raised e => (Raised e, evs)
      | Returned rs =>
          let api_results' := (api_results ++ rs)%list in
          let pause :=
            if (API_CALL_CONCURRENCY <? length tasks)%nat
               && (i + API_CALL_CONCURRENCY <? length tasks)%nat
            then [Pause 1] else [] in
          let '(r, evs') := for_chunks rest api_results' in
          (r, (evs ++ pause ++ evs')%list)
      end
  end.

Definition run_in_chunks : result (list A) * list event :=
  match range_step (length tasks) API_CALL_CONCURRENCY with
  | Raised e => (Raised e, [])
  | Returned starts => for_chunks starts []
  end.

(** The chunks themselves: [tasks[i:i+C]] for the indices of the range. *)
Definition chunks : list (list T) :=
  match range_step (length tasks) API_CALL_CONCURRENCY with
  | Raised _ => []
  | Returned starts =>
      List.map (fun i => firstn API_CALL_CONCURRENCY (skipn i tasks)) starts
  end.
End Chunks.

(** Number of tasks started and not yet settled after a trace, starting
    from [cur] of them, and the largest such number along the trace. *)
Fixpoint in_flight (cur : nat) (tr : list event) : nat :=
  match tr with
  | [] => cur
  | Start _ :: tr' => in_flight (S cur) tr'
  | Settle _ :: tr' => in_flight (Nat.pred cur) tr'
  | Pause _ :: tr' => in_flight cur tr'
  end.

Fixpoint peak (cur : nat) (tr : list event) : nat :=
  match tr with
  | [] => cur
  | Start _ :: tr' => Nat.max cur (peak (S cur) tr')
  | Settle _ :: tr' => Nat.max cur (peak (Nat.pred cur) tr')
  | Pause _ :: tr' => Nat.max cur (peak cur tr')
  end.

(** *** Vocabulary for the statements about the fan-out *)

(** The trace of running [groups] one after the other, the first task of the
    first group being task number [offset]: every member of a group is
    started, then every member settles (in the order of their latencies),
    and only then, after a pause of one second if another group follows, is
    the next group admitted. *)
Fixpoint group_trace {T} (latency : nat -> Z) (offset : nat) (groups : list (list T))
  : list event :=
  match groups with
  | [] => []
  | g :: rest =>
      let ids := seq offset (length g) in
      ((List.map Start ids ++ List.map Settle (settle_order latency ids))
         ++ (match rest with [] => [] | _ => [Pause 1] end)
         ++ group_trace latency (offset + length g) rest)%list
  end.

(** [m] chunks of size [C], starting with chunk number [k0], cover the rest
    of [tasks]. *)
Definition covers {T} (C : nat) (tasks : list T) (k0 m : nat) : Prop :=
  (length tasks <= (k0 + m) * C)%nat /\
  (1 <= m -> (k0 + m - 1) * C < length tasks)%nat.

End Scheduler.

(** ** The pipeline driver: [process_master_items_in_batches_async] *)

Module Driver.
Import Py Upsert Prediction.

(** A row of [dbo.MasterItems], as far as the query reads it. *)
Record MasterItem : Type := mkMasterItem
  { Id : Z; FullName : option string; Surname : option string }.

Global Instance MasterItem_eq_dec : EqDecision MasterItem.
Proof. solve_decision. Defined.

Record Store : Type := mkStore
  { MasterItems : list MasterItem;
    Genders : list GenderRow;
    Languages : list LanguageRow }.

(** The module constants. *)
Record Config : Type := mkConfig
  { DB_BATCH_SIZE : Z;
    MAX_TOTAL_RECORDS_TO_PROCESS : option Z;
    API_CALL_CONCURRENCY : nat;
    RETRY_ATTEMPTS : nat;
    RETRY_DELAY_SECONDS : Z;
    INTER_BATCH_DELAY_SECONDS : Z }.

(** The local variables that live across iterations of [while True]. *)
Record State : Type := mkState
  { last_processed_id : Z;
    cumulative_records_fetched_for_processing : Z;
    total_api_predictions_successful : Z;
    total_api_errors : Z;
    total_genders_upserted : Z;
    total_languages_upserted : Z;
    batch_number : Z }.

(** What the outside world does during one iteration. *)
Record World : Type := mkWorld
  { conn_available : bool;          (* [get_db_connection] returns a connection *)
    fetch_fault : bool;             (* the SELECT raises [pyodbc.Error] *)
    service : nat -> nat -> reply;  (* task position, attempt |-> reply *)
    latency : nat -> Z;             (* how long each task takes *)
    genders_fault : bool;           (* [pyodbc.Error] inside [batch_upsert_genders] *)
    languages_fault : bool;         (* [pyodbc.Error] inside [batch_upsert_languages] *)
    GETDATE : Z }.

Definition initial_state : State := mkState 0 0 0 0 0 0 0.

(** *** The page query *)

(** [x IS NOT NULL AND LTRIM(RTRIM(x)) <> '']: some character of [x] is
    not a space. *)
Fixpoint only_spaces (s : string) : bool :=
  match s with
  | EmptyString => true
  | String c rest => Ascii.eqb c " " && only_spaces rest
  end.

Definition non_blank (x : option string) : bool :=
  match x with
  | Some s => negb (only_spaces s)
  | None => false
  end.

(** The rows that the two [LEFT JOIN]s and the test
    [g.MasterItemId IS NULL OR l.MasterItemId IS NULL] keep for one master
    item: one per unmatched combination. *)
Definition joined (db : Store) (mi : MasterItem) : list MasterItem :=
  let g := List.filter (fun r => Z.eqb (Id mi) (g_MasterItemId r)) (Genders db) in
  let l := List.filter (fun r => Z.eqb (Id mi) (l_MasterItemId r)) (Languages db) in
  match g, l with
  | [], [] => [mi]
  | [], _ => List.map (fun _ => mi) l
  | _, [] => List.map (fun _ => mi) g
  | _, _ => []
  end.

Definition eligible (last_id : Z) (mi : MasterItem) : bool :=
  (last_id <? Id mi) && non_blank (FullName mi) && non_blank (Surname mi).

Definition by_Id (a b : MasterItem) : Prop := Id a <= Id b.

Global Instance by_Id_dec : RelDecision by_Id.
Proof. intros a b. unfold by_Id. apply _. Defined.

(** [SELECT TOP (?) ... WHERE ... AND mi.Id > ? ... ORDER BY mi.Id ASC]
    executed with [(n, last_id)]. *)
Definition fetch_page (db : Store) (n : Z) (last_id : Z) : list MasterItem :=
  firstn (Z.to_nat n)
    (merge_sort by_Id
       (List.filter (eligible last_id)
          (List.concat (List.map (joined db) (MasterItems db))))).

(** *** One iteration of the loop *)

Inductive event : Type :=
| Sleep (seconds : Z)
| Fetch (n last_id : Z)
| Fanout (tr : list Scheduler.event)
| UpsertGenders (returned : Z)
| UpsertLanguages (returned : Z)
| Advance (new_last_id : Z).

Inductive stop : Type :=
| BudgetReached      (* line 240 *)
| NothingToFetch     (* line 251, the safeguard *)
| EmptyPage          (* line 297 *)
| Uncaught (e : exn). (* no [break]: an exception leaves the function *)

(** One pass through the loop body ends at a [break], goes on to the next
    iteration, or is left by an exception that no handler of the loop
    catches. *)
Inductive step : Type :=
| Break (why : stop) (st : State) (db : Store) (tr : list event)
| Continue (st : State) (db : Store) (tr : list event)
| Abort (e : exn) (st : State) (db : Store) (tr : list event).

Definition records_to_fetch (cfg : Config) (st : State) : Z :=
  match MAX_TOTAL_RECORDS_TO_PROCESS cfg with
  | Some m =>
      Z.min (DB_BATCH_SIZE cfg) (m - cumulative_records_fetched_for_processing st)
  | None => DB_BATCH_SIZE cfg
  end.

(** The arguments of the coroutine created for a fetched row, or [None]
    when the row is skipped (lines 307-314). *)
Definition task_of_row (row : MasterItem) : option (string * string * Z) :=
  let processed_full_name := match FullName row with Some s => strip s | None => "" end in
  let processed_surname := match Surname row with Some s => strip s | None => "" end in
  if falsy processed_full_name || falsy processed_surname then None
  else Some (processed_full_name, processed_surname, Id row).

Definition truthy (x : option string) : bool :=
  match x with
  | Some s => negb (falsy s)
  | None => false
  end.

(** [prediction.get(key)] needs a dictionary. *)
Definition get_gender (v : pyval) : result (option string) :=
  match v with
  | VJson (JObject g _) => Returned g
  | _ => Raised AttributeError
  end.

Definition get_language (v : pyval) : result (option string) :=
  match v with
  | VJson (JObject _ l) => Returned l
  | _ => Raised AttributeError
  end.

(** What the loop of lines 342-356 accumulates. *)
Record Tally : Type := mkTally
  { genders_to_upsert : source;
    languages_to_upsert : source;
    current_batch_api_success : Z;
    current_batch_api_errors : Z }.

Definition tally_one (t : Tally) (res : gmap string pyval) : result Tally :=
  match res !! "item_id" with
  | Some (VInt item_id) =>
      match res !! "prediction" with
      | Some prediction =>
          let* predicted_gender := get_gender prediction in
          let* predicted_language := get_language prediction in
          Returned
            (mkTally
               (if truthy predicted_gender
                then (genders_to_upsert t ++ [(item_id, default "" predicted_gender)])%list
                else genders_to_upsert t)
               (if truthy predicted_language
                then (languages_to_upsert t ++ [(item_id, default "" predicted_language)])%list
                else languages_to_upsert t)
               (current_batch_api_success t + 1)
               (current_batch_api_errors t))
      | None =>
          Returned (mkTally (genders_to_upsert t) (languages_to_upsert t)
                            (current_batch_api_success t)
                            (current_batch_api_errors t + 1))
      end
  | _ => Raised (OtherException "KeyError" "item_id")
  end.

Fixpoint tally (t : Tally) (api_results : list (gmap string pyval)) : result Tally :=
  match api_results with
  | [] => Returned t
  | res :: rest => let* t' := tally_one t res in tally t' rest
  end.

Definition set_last_processed_id (st : State) (rows : list MasterItem) : State :=
  match last rows with
  | Some row =>
      mkState (Id row) (cumulative_records_fetched_for_processing st)
              (total_api_predictions_successful st) (total_api_errors st)
              (total_genders_upserted st) (total_languages_upserted st)
              (batch_number st)
  | None => st
  end.

Definition inter_batch_pause (cfg : Config) : list event :=
  if 0 <? INTER_BATCH_DELAY_SECONDS cfg
  then [Sleep (INTER_BATCH_DELAY_SECONDS cfg)] else [].

Definition next_batch (st : State) : State :=
  mkState (last_processed_id st) (cumulative_records_fetched_for_processing st)
          (total_api_predictions_successful st) (total_api_errors st)
          (total_genders_upserted st) (total_languages_upserted st)
          (batch_number st + 1).

Definition add_fetched (st : State) (n : Z) : State :=
  mkState (last_processed_id st) (cumulative_records_fetched_for_processing st + n)
          (total_api_predictions_successful st) (total_api_errors st)
          (total_genders_upserted st) (total_languages_upserted st)
          (batch_number st).

Definition add_api_totals (st : State) (t : Tally) : State :=
  mkState (last_processed_id st) (cumulative_records_fetched_for_processing st)
          (total_api_predictions_successful st + current_batch_api_success t)
          (total_api_errors st + current_batch_api_errors t)
          (total_genders_upserted st) (total_languages_upserted st)
          (batch_number st).

Definition add_upserted (st : State) (affected_g affected_l : Z) : State :=
  mkState (last_processed_id st) (cumulative_records_fetched_for_processing st)
          (total_api_predictions_successful st) (total_api_errors st)
          (total_genders_upserted st + affected_g)
          (total_languages_upserted st + affected_l)
          (batch_number st).

Definition budget_reached (cfg : Config) (st : State) : bool :=
  match MAX_TOTAL_RECORDS_TO_PROCESS cfg with
  | Some m => m <=? cumulative_records_fetched_for_processing st
  | None => false
  end.

Definition empty_tally : Tally := mkTally [] [] 0 0.

(** What [fetch_cursor.close()] raises on a cursor that is closed already. *)
Definition closed_cursor : exn :=
  OtherException "ProgrammingError" "Attempt to use a closed cursor.".

Section Loop.
Variable json_loads : string -> result payload.
Variable cfg : Config.

(** The coroutine built on line 314 for the task at position [fst t],
    run to its end. *)
Definition coroutine (w : World) (t : nat * (string * string * Z))
  : result (gmap string pyval) :=
  let '(pos, (first_name, last_name, item_id)) := t in
  fst (get_person_prediction_async json_loads true (RETRY_ATTEMPTS cfg)
         (RETRY_DELAY_SECONDS cfg) (service w pos)
         first_name last_name item_id).

(** Lines 361-363: [batch_upsert_genders] is called for a non-empty list;
    the table afterwards, the count added to the total, and the trace. *)
Definition write_genders (w : World) (t : Tally) (db : Store)
  : list GenderRow * Z * list event :=
  match genders_to_upsert t with
  | [] => (Genders db, 0, [])
  | data =>
      let '(tbl, affected_g) :=
        batch_upsert_genders (genders_fault w) (GETDATE w) data (Genders db) in
      (tbl, affected_g, [UpsertGenders affected_g])
  end.

(** Lines 364-366, the same for [batch_upsert_languages]. *)
Definition write_languages (w : World) (t : Tally) (db : Store)
  : list LanguageRow * Z * list event :=
  match languages_to_upsert t with
  | [] => (Languages db, 0, [])
  | data =>
      let '(tbl, affected_l) :=
        batch_upsert_languages (languages_fault w) (GETDATE w) data (Languages db) in
      (tbl, affected_l, [UpsertLanguages affected_l])
  end.

Definition reconcile (w : World) (t : Tally) (db : Store)
  : Store * Z * Z * list event :=
  let '(genders', affected_g, ev_g) := write_genders w t db in
  let '(languages', affected_l, ev_l) := write_languages w t db in
  (mkStore (MasterItems db) genders' languages', affected_g, affected_l,
   (ev_g ++ ev_l)%list).

(** One pass through the body of [while True]. *)
Definition loop_body (w : World) (st : State) (db : Store) : step :=
  if budget_reached cfg st then Break BudgetReached st db []
  else
    let n := records_to_fetch cfg st in
    if n <=? 0 then Break NothingToFetch st db []
    else
      let st1 := next_batch st in
      if negb (conn_available w) then Continue st1 db [Sleep 60]
      else if fetch_fault w then Continue st1 db [Sleep 30]
      else
        let fetched := Fetch n (last_processed_id st1) in
        let rows_in_current_batch := fetch_page db n (last_processed_id st1) in
        match rows_in_current_batch with
        | [] => Break EmptyPage st1 db [fetched]
        | _ =>
            let st2 := add_fetched st1 (Z.of_nat (length rows_in_current_batch)) in
            let tasks := omap task_of_row rows_in_current_batch in
            match tasks with
            | [] =>
                (* Lines 317-323 move the watermark, close the cursor and
                   the connection, pause and [continue]; the [finally] of
                   lines 385-388 then closes the cursor a second time,
                   which pyodbc refuses, and no handler is left. *)
                let st3 := set_last_processed_id st2 rows_in_current_batch in
                Abort closed_cursor st3 db
                  ([fetched; Advance (last_processed_id st3)]
                     ++ inter_batch_pause cfg)%list
            | _ =>
                let '(gathered, fan) :=
                  Scheduler.run_in_chunks (coroutine w) (latency w)
                    (API_CALL_CONCURRENCY cfg)
                    (combine (seq 0 (length tasks)) tasks) in
                match (let* api_results := gathered in
                       tally empty_tally api_results) with
                | Raised e =>
                    if is_Exception e then   (* [except Exception], line 381 *)
                      Continue st2 db
                        ([fetched; Fanout fan; Sleep 10] ++ inter_batch_pause cfg)%list
                    else Abort e st2 db [fetched; Fanout fan]
                | Returned t =>
                    let st3 := add_api_totals st2 t in
                    let '(db', affected_g, affected_l, writes) := reconcile w t db in
                    let st4 := add_upserted st3 affected_g affected_l in
                    let st5 := set_last_processed_id st4 rows_in_current_batch in
                    Continue st5 db'
                      ([fetched; Fanout fan] ++ writes
                         ++ [Advance (last_processed_id st5)]
                         ++ inter_batch_pause cfg)%list
                end
            end
        end.

(** The loop, one [World] per iteration, once the client exists; [None]
    when the given worlds are used up before the loop has left, and
    [Uncaught e] when the function is left by the exception [e].  (The
    early return for a non-positive [MAX_TOTAL_RECORDS_TO_PROCESS] is the
    first iteration's budget test.) *)
Fixpoint process_master_items_in_batches_async
    (worlds : list World) (st : State) (db : Store)
  : option (stop * State * Store) :=
  match worlds with
  | [] => None
  | w :: rest =>
      match loop_body w st db with
      | Break why st' db' _ => Some (why, st', db')
      | Continue st' db' _ => process_master_items_in_batches_async rest st' db'
      | Abort e st' db' _ => Some (Uncaught e, st', db')
      end
  end.
End Loop.

(** *** Vocabulary for the statements about the driver *)

Definition is_sleep (e : event) : bool :=
  match e with Sleep _ => true | _ => false end.

Definition state_of (s : step) : State :=
  match s with Break _ st _ _ => st | Continue st _ _ => st | Abort _ st _ _ => st end.

Definition store_of (s : step) : Store :=
  match s with Break _ _ db _ => db | Continue _ db _ => db | Abort _ _ db _ => db end.

Definition trace_of (s : step) : list event :=
  match s with Break _ _ _ tr => tr | Continue _ _ tr => tr | Abort _ _ _ tr => tr end.

(** The same world, except for the faults of the two writers. *)
Definition with_faults (gf lf : bool) (w : World) : World :=
  mkWorld (conn_available w) (fetch_fault w) (service w) (latency w) gf lf (GETDATE w).

(** No coroutine of the iteration is cancelled or interrupted. *)
Definition uninterrupted (json_loads : string -> result payload) (w : World) : Prop :=
  forall pos, only_Exceptions json_loads (service w pos).

(** The master item [id] has no gender row or no language row. *)
Definition missing_attribute (db : Store) (id : Z) : Prop :=
  (forall g, g ∈ Genders db -> g_MasterItemId g <> id) \/
  (forall l, l ∈ Languages db -> l_MasterItemId l <> id).

End Driver.

(** ** BirthDay Backfill/get_birthdate_by_masterid.py and
    check_missing_birthdates.py *)

Module BirthDateTools.
Import Py Calendar Correction BackfillRun.

(** [re.search(r'\d{6}', idnum)]: the leftmost six consecutive digits,
    [None] when there are none.  The text is taken to be ASCII. *)
Fixpoint first_six (idnum : string) : option string :=
  match idnum with
  | EmptyString => None
  | String _ rest =>
      if digit_block 6 (String.substring 0 6 idnum)
      then Some (String.substring 0 6 idnum)
      else first_six rest
  end.

(** [derive_dob]; [today_year] is [date.today().year].  The three calls of
    [int] are outside the [try]. *)
Definition derive_dob (today_year : Z) (six : string) : result (option date) :=
  let* yy := int (slice six 0 2) in
  let* mm := int (slice six 2 4) in
  let* dd := int (slice six 4 6) in
  let pivot := today_year mod 100 in
  let century := if yy >? pivot then 1900 else 2000 in
  try_except_ValueError
    (let* d := datetime (century + yy) mm dd in Returned (Some d))
    (Returned None).

(** [get_idnumber]: the [IDNumber] of the first row with this [Id], [None]
    when there is no row or the value is NULL or empty. *)
Definition get_idnumber (MasterItems : list MasterItem) (master_id : Z)
  : option string :=
  match List.find (fun mi => Z.eqb (mi_Id mi) master_id) MasterItems with
  | Some mi =>
      match IDNumber mi with
      | Some s => if String.eqb s "" then None else Some s
      | None => None
      end
  | None => None
  end.

(** [upsert_birthdate]: the [UPDATE ... WHERE Id = ?], and the [INSERT]
    when it has touched no row. *)
Definition upsert_birthdate (BirthDates : list BirthDateRow) (master_id : Z)
    (dob : date) : list BirthDateRow :=
  let rowcount :=
    length (List.filter (fun bd => Z.eqb (Id bd) master_id) BirthDates) in
  if (0 <? rowcount)%nat
  then List.map (fun bd => if Z.eqb (Id bd) master_id
                           then mkBirthDateRow (Id bd) (MasterItemId bd) (Some dob)
                           else bd)
                BirthDates
  else (BirthDates ++ [mkBirthDateRow master_id master_id (Some dob)])%list.

(** [main(master_id)]: [dbo.BirthDates] afterwards, once the connection
    block has been left; an exception leaves the block with a rollback. *)
Definition main (today_year : Z) (master_id : Z) (MasterItems : list MasterItem)
    (BirthDates : list BirthDateRow) : result (list BirthDateRow) :=
  match get_idnumber MasterItems master_id with
  | None => Returned BirthDates
  | Some idnum =>
      match first_six idnum with
      | None => Returned BirthDates
      | Some six =>
          let* dob := derive_dob today_year six in
          match dob with
          | None => Returned BirthDates
          | Some d => Returned (upsert_birthdate BirthDates master_id d)
          end
      end
  end.

(** [QUERY] of check_missing_birthdates.py: a row for each master item
    without a row in [dbo.BirthDates], and for each pair of a master item
    and a row of its [Id] that has no date. *)
Definition QUERY (MasterItems : list MasterItem) (BirthDates : list BirthDateRow)
  : list MasterItem :=
  List.flat_map
    (fun mi =>
       match List.filter (fun bd => Z.eqb (Id bd) (mi_Id mi)) BirthDates with
       | [] => [mi]
       | rows => List.map (fun _ => mi)
                          (List.filter (fun bd => is_null (BirthDate bd)) rows)
       end)
    MasterItems.

(** [SELECT COUNT( * ) FROM (QUERY) x] *)
Definition remaining (MasterItems : list MasterItem) (BirthDates : list BirthDateRow) : Z :=
  Z.of_nat (length (QUERY MasterItems BirthDates)).

End BirthDateTools.

(** ** The driver over several iterations *)

Module DriverRun.
Import Py Upsert Prediction Driver.

Section Run.
Variable json_loads : string -> result payload.
Variable cfg : Config.

(** The local variables and the store after the iterations met in
    [worlds], whether the loop has been left by then or not. *)
Fixpoint after_iterations (worlds : list World) (st : State) (db : Store)
  : State * Store :=
  match worlds with
  | [] => (st, db)
  | w :: rest =>
      match loop_body json_loads cfg w st db with
      | Break _ st' db' _ => (st', db')
      | Continue st' db' _ => after_iterations rest st' db'
      | Abort _ st' db' _ => (st', db')
      end
  end.
End Run.

(** *** Vocabulary for the statements about a run *)

(** The database answers: a connection is made and the page query runs. *)
Definition reachable (w : World) : Prop :=
  conn_available w = true /\ fetch_fault w = false.

(** Whatever [json.loads] returns for a response is an object. *)
Definition objects_only (json_loads : string -> result payload) : Prop :=
  forall raw p, json_loads raw = Returned p -> exists g l, p = JObject g l.

(** The master items the page query can still return: those after the
    watermark. *)
Definition ahead (last_id : Z) (db : Store) : list MasterItem :=
  List.filter (fun mi => last_id <? Id mi) (MasterItems db).

(** A result dictionary the loop of lines 342-356 can read: it has an
    integer [item_id], and its [prediction], if any, is an object. *)
Definition readable (res : gmap string pyval) : Prop :=
  (exists k, res !! "item_id" = Some (VInt k)) /\
  (res !! "prediction" = None \/
   exists g l, res !! "prediction" = Some (VJson (JObject g l))).

Definition has_prediction (res : gmap string pyval) : bool :=
  bool_decide (is_Some (res !! "prediction")).

(** The pair a result contributes to [genders_to_upsert], if any. *)
Definition gender_pair (res : gmap string pyval) : option (Z * string) :=
  match res !! "item_id", res !! "prediction" with
  | Some (VInt k), Some (VJson (JObject (Some g) _)) =>
      if falsy g then None else Some (k, g)
  | _, _ => None
  end.

(** The pair a result contributes to [languages_to_upsert], if any. *)
Definition language_pair (res : gmap string pyval) : option (Z * string) :=
  match res !! "item_id", res !! "prediction" with
  | Some (VInt k), Some (VJson (JObject _ (Some l))) =>
      if falsy l then None else Some (k, l)
  | _, _ => None
  end.

(** Every character of [x] is white space for [str.strip]. *)
Definition whitespace_only (x : option string) : bool :=
  match x with
  | Some s => forallb isspace (list_ascii_of_string s)
  | None => true
  end.

(** [l1] is the beginning of [l2]. *)
Definition begins {A} (l1 l2 : list A) : Prop :=
  exists more, l2 = (l1 ++ more)%list.

End DriverRun.

(** ** What a trace of the prediction client amounts to *)

Module RetryTrace.
Import Prediction.

(** The number of calls to the service in a trace. *)
Definition calls (tr : list event) : nat :=
  length (List.filter (fun e => match e with ApiCall _ => true | _ => false end) tr).

(** The seconds the coroutine has slept in a trace. *)
Definition slept (tr : list event) : Z :=
  fold_right (fun e acc => match e with AwaitSleep s => s + acc | _ => acc end) 0 tr.

End RetryTrace.

(** ** What a trace of the fan-out amounts to *)

Module FanoutTrace.
Import Scheduler.

(** The tasks started, settled, and the pauses slept, in the order of the
    trace. *)
Definition started (tr : list event) : list nat :=
  omap (fun e => match e with Start i => Some i | _ => None end) tr.

Definition settled (tr : list event) : list nat :=
  omap (fun e => match e with Settle i => Some i | _ => None end) tr.

Definition paused (tr : list event) : list Z :=
  omap (fun e => match e with Pause s => Some s | _ => None end) tr.

End FanoutTrace.

(** ** The order of strings *)

Module StringOrder.

(** One character comes before another by its code. *)
Definition code_lt (a b : ascii) : Prop := (N_of_ascii a < N_of_ascii b)%N.

(** Python's [<] on two strings of ASCII characters. *)
Definition str_lt (a b : string) : Prop := String.ltb a b = true.

End StringOrder.

(** ** A run in which nothing goes wrong *)

Module QuietRun.
Import Py Upsert Prediction Driver.

(** Each of the three tables has at most one row per key. *)
Definition one_row_per_key (db : Store) : Prop :=
  NoDup (List.map Id (MasterItems db)) /\
  NoDup (List.map g_MasterItemId (Genders db)) /\
  NoDup (List.map l_MasterItemId (Languages db)).

(** The master item [id] has a row in [dbo.Genders] and a row in
    [dbo.Languages]. *)
Definition enriched (db : Store) (id : Z) : Prop :=
  In id (List.map g_MasterItemId (Genders db)) /\
  In id (List.map l_MasterItemId (Languages db)).

(** No name that the page query lets through is skipped by the driver:
    the query trims spaces only, [str.strip] all white space. *)
Definition none_skipped (db : Store) : Prop :=
  forall mi, In mi (MasterItems db) ->
    non_blank (FullName mi) = true -> non_blank (Surname mi) = true ->
    task_of_row mi <> None.

(** A prediction the two writers can store: both members present, not
    empty, and of at most fifty characters. *)
Definition storable (p : payload) : Prop :=
  exists g l, p = JObject (Some g) (Some l) /\ g <> "" /\ l <> "" /\
              (String.length g <= 50)%nat /\ (String.length l <= 50)%nat.

(** An iteration in which nothing goes wrong: the database answers, the
    writers meet no database error, and the service answers the first
    attempt of every task with text that parses to a storable
    prediction. *)
Definition quiet (json_loads : string -> result payload) (w : World) : Prop :=
  conn_available w = true /\ fetch_fault w = false /\
  genders_fault w = false /\ languages_fault w = false /\
  forall pos, exists raw p,
    service w pos 0%nat = Response (Some raw) /\
    json_loads raw = Returned p /\ storable p.

End QuietRun.

(** ** Sample data for the examples *)

Module Samples.
Import Py Upsert Prediction Driver.

(** The constants as the script sets them. *)
Definition config : Config := mkConfig 10000 None 2000 3 5 2.

Definition json_loads (raw : string) : result payload :=
  if String.eqb raw "male-zulu" then Returned (JObject (Some "MALE") (Some "isiZulu"))
  else if String.eqb raw "female-xhosa" then Returned (JObject (Some "FEMALE") (Some "isiXhosa"))
  else if String.eqb raw "list" then Returned JOther
  else Raised (JSONDecodeError "Expecting value").

(** A world in which everything works and later tasks answer sooner. *)
Definition calm : World :=
  mkWorld true false (fun _ _ => Response (Some "male-zulu"))
          (fun task => - Z.of_nat task) false false 20250601.

(** The same, except that the call of the task at position 1 is
    cancelled. *)
Definition cancelled_second : World :=
  mkWorld true false
          (fun pos _ => if (pos =? 1)%nat
                        then Fault (OtherException "CancelledError" "")
                        else Response (Some "male-zulu"))
          (fun task => - Z.of_nat task) false false 20250601.

Definition store : Store :=
  mkStore [ mkMasterItem 7 (Some "Thabo") (Some "Mokoena");
            mkMasterItem 3 (Some " ") (Some "Nkosi");
            mkMasterItem 9 (Some "Sipho") (Some "Dlamini");
            mkMasterItem 8 (Some "Lerato") None ]
          [ mkGenderRow 9 "MALE" ]
          [ mkLanguageRow 9 "isiZulu" None ].

Definition five_tasks : list (nat * (string * string * Z)) :=
  [ (0%nat, ("A", "B", 1)); (1%nat, ("C", "D", 2)); (2%nat, ("E", "F", 3));
    (3%nat, ("G", "H", 4)); (4%nat, ("I", "J", 5)) ].

End Samples.

(** * Properties *)

(** ** Digit strings *)

Module PyFacts.
Import Py.

Lemma digit_of_ascii_range c d :
  digit_of_ascii c = Some d -> 0 <= d <= 9.
Proof.
  unfold digit_of_ascii. intros Hd.
  destruct (48 <=? Z.of_N (N_of_ascii c)) eqn:E1; simpl in Hd; [|discriminate].
  destruct (Z.of_N (N_of_ascii c) <=? 57) eqn:E2; simpl in Hd; [|discriminate].
  injection Hd as <-. lia.
Qed.

Lemma int_digits_bounds s : forall acc,
  all_digits s = true ->
  exists v, int_digits acc s = Some v /\
            acc * 10 ^ Z.of_nat (String.length s) <= v
              < (acc + 1) * 10 ^ Z.of_nat (String.length s).
Proof.
  induction s as [|c s IH]; intros acc Hs.
  - exists acc. simpl. split; [reflexivity | lia].
  - simpl in Hs. apply andb_true_iff in Hs as [Hc Hs].
    apply bool_decide_eq_true in Hc as [d Hd].
    destruct (IH (10 * acc + d) Hs) as (v & Hv & Hlo & Hhi).
    exists v. cbn [int_digits String.length]. rewrite Hd. split; [exact Hv|].
    pose proof (digit_of_ascii_range _ _ Hd) as Hr.
    rewrite Nat2Z.inj_succ, Z.pow_succ_r by lia.
    set (p := 10 ^ Z.of_nat (String.length s)) in *.
    assert (0 < p) by (apply Z.pow_pos_nonneg; lia).
    nia.
Qed.

Lemma digit_not_space c d : digit_of_ascii c = Some d -> isspace c = false.
Proof.
  unfold digit_of_ascii, isspace. intros Hd.
  destruct (Z.leb_spec 48 (Z.of_N (N_of_ascii c))); simpl in Hd; [|discriminate].
  apply orb_false_iff. split; apply andb_false_iff.
  - right. apply N.leb_gt. lia.
  - right. apply N.leb_gt. lia.
Qed.

Lemma digit_not_sign c d :
  digit_of_ascii c = Some d ->
  Ascii.eqb c "+" = false /\ Ascii.eqb c "-" = false /\ Ascii.eqb c "_" = false.
Proof.
  intros Hd. repeat split;
    match goal with |- Ascii.eqb c ?x = false =>
      destruct (Ascii.eqb_spec c x) as [->|]; [discriminate Hd | reflexivity]
    end.
Qed.

Lemma all_digits_chars s :
  all_digits s = true ->
  Forall (fun c => is_Some (digit_of_ascii c)) (list_ascii_of_string s).
Proof.
  induction s as [|c s IH]; simpl; intros Hs; [constructor|].
  apply andb_true_iff in Hs as [Hc Hs]. apply bool_decide_eq_true in Hc.
  constructor; auto.
Qed.

Lemma lstrip_chars_digits l :
  Forall (fun c => is_Some (digit_of_ascii c)) l -> lstrip_chars l = l.
Proof.
  intros Hl. destruct Hl as [|c l [d Hd] Hl]; [reflexivity|].
  simpl. now rewrite (digit_not_space c d Hd).
Qed.

(** Stripping leaves a digit run as it is. *)
Lemma strip_digits s : all_digits s = true -> strip s = s.
Proof.
  intros Hs. apply all_digits_chars in Hs. unfold strip.
  rewrite (lstrip_chars_digits _ Hs).
  rewrite lstrip_chars_digits by (apply Forall_rev; exact Hs).
  rewrite rev_involutive. apply string_of_list_ascii_of_string.
Qed.

Lemma int_body_digits s : forall acc,
  all_digits s = true -> int_body acc true s = int_digits acc s.
Proof.
  induction s as [|c s IH]; intros acc Hs; [reflexivity|].
  simpl in Hs. apply andb_true_iff in Hs as [Hc Hs].
  apply bool_decide_eq_true in Hc as [d Hd].
  simpl. rewrite Hd. now apply IH.
Qed.

Lemma digit_count_bounds s : 0 <= digit_count s <= Z.of_nat (String.length s).
Proof.
  induction s as [|c s IH]; [simpl; lia|].
  cbn [digit_count String.length]. destruct (digit_of_ascii c); lia.
Qed.

Lemma digit_count_digits s :
  all_digits s = true -> digit_count s = Z.of_nat (String.length s).
Proof.
  induction s as [|c s IH]; intros Hs; [reflexivity|].
  simpl in Hs. apply andb_true_iff in Hs as [Hc Hs].
  apply bool_decide_eq_true in Hc as [d Hd].
  cbn [digit_count String.length]. rewrite Hd, (IH Hs). lia.
Qed.

(** What [int] makes of a non-empty digit run: the number it denotes, up
    to [max_str_digits] digits, and [ValueError] beyond. *)
Lemma int_digits_run s :
  all_digits s = true -> s <> EmptyString ->
  int s = if max_str_digits <? Z.of_nat (String.length s) then Raised ValueError
          else Returned (digits_value s).
Proof.
  intros Hs Hne. unfold int. rewrite (strip_digits s Hs), (digit_count_digits s Hs).
  destruct s as [|c s]; [congruence|].
  pose proof Hs as Hs'. simpl in Hs'. apply andb_true_iff in Hs' as [Hc Hs'].
  apply bool_decide_eq_true in Hc as [d Hd].
  destruct (digit_not_sign c d Hd) as (-> & -> & _).
  cbn [int_body]. rewrite Hd, (int_body_digits s _ Hs').
  unfold digits_value. cbn [int_digits]. rewrite Hd.
  destruct (int_digits_bounds s (10 * 0 + d) Hs') as (v & -> & _). reflexivity.
Qed.

(** On a non-empty digit run of at most [max_str_digits] digits [int]
    returns the number it denotes. *)
Lemma int_value s :
  all_digits s = true -> s <> EmptyString ->
  Z.of_nat (String.length s) <= max_str_digits ->
  int s = Returned (digits_value s).
Proof.
  intros Hs Hne Hlen. rewrite (int_digits_run s Hs Hne).
  destruct (Z.ltb_spec max_str_digits (Z.of_nat (String.length s))); [lia|reflexivity].
Qed.

(** Beyond [max_str_digits] digits [int] refuses the literal. *)
Lemma int_too_long s :
  all_digits s = true -> max_str_digits < Z.of_nat (String.length s) ->
  int s = Raised ValueError.
Proof.
  intros Hs Hlen. rewrite (int_digits_run s Hs).
  - destruct (Z.ltb_spec max_str_digits (Z.of_nat (String.length s))); [reflexivity|lia].
  - intros ->. simpl in Hlen. unfold max_str_digits in Hlen. lia.
Qed.

Lemma int_digit_run s :
  all_digits s = true -> s <> EmptyString ->
  Z.of_nat (String.length s) <= max_str_digits ->
  exists v, int s = Returned v /\ 0 <= v < 10 ^ Z.of_nat (String.length s).
Proof.
  intros Hs Hne Hlen. exists (digits_value s). split; [now apply int_value|].
  destruct (int_digits_bounds s 0 Hs) as (v & Hv & Hb).
  unfold digits_value. rewrite Hv. simpl. lia.
Qed.

Example int_examples :
  int "0420" = Returned 420 /\ int " 7 " = Returned 7 /\ int "+12" = Returned 12 /\
  int "-3" = Returned (-3) /\ int "1_0" = Returned 10 /\
  int "" = Raised ValueError /\ int "1__0" = Raised ValueError /\
  int "12*" = Raised ValueError /\ int "+" = Raised ValueError.
Proof. repeat split; reflexivity. Qed.

Lemma int_raises s e : int s = Raised e -> e = ValueError.
Proof.
  unfold int. destruct (match strip s with EmptyString => _ | String _ _ => _ end);
    [destruct (max_str_digits <? digit_count s)|]; congruence.
Qed.

Lemma all_digits_substring s : forall i n,
  all_digits s = true -> all_digits (String.substring i n s) = true.
Proof.
  induction s as [|c s IH]; intros i n Hs.
  - destruct i, n; reflexivity.
  - simpl in Hs. apply andb_true_iff in Hs as [Hc Hs].
    destruct i as [|i]; destruct n as [|n]; simpl; auto.
    rewrite Hc. simpl. apply IH. exact Hs.
Qed.

Lemma length_substring s : forall i n,
  (i + n <= String.length s)%nat -> String.length (String.substring i n s) = n.
Proof.
  induction s as [|c s IH]; intros i n Hl; simpl in Hl.
  - assert (i = 0%nat) by lia. assert (n = 0%nat) by lia. subst. reflexivity.
  - destruct i as [|i]; destruct n as [|n]; simpl; auto.
    + f_equal. apply IH. simpl. lia.
    + apply IH. lia.
    + apply IH. lia.
Qed.

(** A slice of a digit run is a digit run, and [int] reads it. *)
Lemma int_slice s i j :
  all_digits s = true -> (i < j)%nat -> (j <= String.length s)%nat ->
  Z.of_nat (j - i) <= max_str_digits ->
  exists v, int (slice s i j) = Returned v /\ 0 <= v < 10 ^ Z.of_nat (j - i).
Proof.
  intros Hs Hij Hj Hmax.
  assert (Hlen : String.length (slice s i j) = (j - i)%nat)
    by (apply length_substring; lia).
  destruct (int_digit_run (slice s i j)) as (v & Hv & Hb).
  - apply all_digits_substring. exact Hs.
  - intros E. rewrite E in Hlen. simpl in Hlen. lia.
  - rewrite Hlen. exact Hmax.
  - exists v. rewrite Hlen in Hb. auto.
Qed.

Lemma int_digits_value s : forall acc,
  all_digits s = true ->
  int_digits acc s = Some (acc * 10 ^ Z.of_nat (String.length s) + digits_value s).
Proof.
  unfold digits_value.
  induction s as [|c s IH]; intros acc Hs.
  - simpl. f_equal. lia.
  - simpl in Hs. apply andb_true_iff in Hs as [Hc Hs].
    apply bool_decide_eq_true in Hc as [d Hd].
    cbn [int_digits String.length]. rewrite Hd.
    rewrite (IH (10 * acc + d) Hs), (IH (10 * 0 + d) Hs).
    rewrite Nat2Z.inj_succ, Z.pow_succ_r by lia. simpl. f_equal. ring.
Qed.

Lemma digits_value_bounds s :
  all_digits s = true -> 0 <= digits_value s < 10 ^ Z.of_nat (String.length s).
Proof.
  intros Hs. destruct (int_digits_bounds s 0 Hs) as (v & Hv & Hb).
  unfold digits_value. rewrite Hv. simpl. lia.
Qed.


(** On digit runs of one length the character order is the numeric one. *)
Lemma compare_digit_runs a : forall b,
  all_digits a = true -> all_digits b = true ->
  String.length a = String.length b ->
  String.compare a b = (digits_value a ?= digits_value b).
Proof.
  induction a as [|c1 a IH]; intros [|c2 b] Ha Hb Hl; try discriminate.
  - reflexivity.
  - simpl in Ha, Hb, Hl. injection Hl as Hl.
    apply andb_true_iff in Ha as [Hc1 Ha]. apply andb_true_iff in Hb as [Hc2 Hb].
    apply bool_decide_eq_true in Hc1 as [d1 Hd1].
    apply bool_decide_eq_true in Hc2 as [d2 Hd2].
    pose proof (digits_value_bounds a Ha) as Ba.
    pose proof (digits_value_bounds b Hb) as Bb.
    assert (Va : digits_value (String c1 a)
                 = d1 * 10 ^ Z.of_nat (String.length a) + digits_value a).
    { unfold digits_value at 1. cbn [int_digits]. rewrite Hd1.
      rewrite (int_digits_value a _ Ha). simpl. f_equal. }
    assert (Vb : digits_value (String c2 b)
                 = d2 * 10 ^ Z.of_nat (String.length b) + digits_value b).
    { unfold digits_value at 1. cbn [int_digits]. rewrite Hd2.
      rewrite (int_digits_value b _ Hb). simpl. f_equal. }
    rewrite Va, Vb, <- Hl. rewrite <- Hl in Bb.
    set (p := 10 ^ Z.of_nat (String.length a)) in *.
    cbn [String.compare]. unfold Ascii.compare.
    unfold digit_of_ascii in Hd1, Hd2.
    destruct ((48 <=? Z.of_N (N_of_ascii c1)) && (Z.of_N (N_of_ascii c1) <=? 57));
      [|discriminate].
    destruct ((48 <=? Z.of_N (N_of_ascii c2)) && (Z.of_N (N_of_ascii c2) <=? 57));
      [|discriminate].
    injection Hd1 as <-. injection Hd2 as <-.
    destruct (N.compare_spec (N_of_ascii c1) (N_of_ascii c2)) as [E|L|G].
    + rewrite E. rewrite (IH b Ha Hb Hl).
      symmetry. destruct (Z.compare_spec (digits_value a) (digits_value b));
        [apply Z.compare_eq_iff | apply Z.compare_lt_iff | apply Z.compare_gt_iff]; lia.
    + symmetry. apply Z.compare_lt_iff. nia.
    + symmetry. apply Z.compare_gt_iff. nia.
Qed.

Lemma digit_block_inv n s :
  digit_block n s = true -> String.length s = n /\ all_digits s = true.
Proof.
  unfold digit_block. intros H. apply andb_true_iff in H as [Hl Hd].
  apply Nat.eqb_eq in Hl. auto.
Qed.

End PyFacts.

(** ** The identifier decoders *)

Module IdNumbersSpec.
Import Py Calendar IdNumbers PyFacts.

Lemma century_1900 now_year y :
  century now_year y = 1900 <-> y > now_yy now_year.
Proof.
  unfold century. destruct (Z.gtb_spec y (now_yy now_year)); split; intros; lia.
Qed.

Lemma century_2000 now_year y :
  century now_year y = 2000 <-> y <= now_yy now_year.
Proof.
  unfold century. destruct (Z.gtb_spec y (now_yy now_year)); split; intros; lia.
Qed.

Lemma century_values now_year y :
  century now_year y = 1900 \/ century now_year y = 2000.
Proof. unfold century. destruct (y >? now_yy now_year); auto. Qed.

Lemma c_int_spec n : c_int n = true <-> -2147483648 <= n <= 2147483647.
Proof. unfold c_int. rewrite andb_true_iff, !Z.leb_le. tauto. Qed.

(** On three numbers that fit a C [int], [valid_date] answers whether the
    date exists in the century it selects. *)
Lemma valid_date_returns now_year yy mm dd y m d :
  int yy = Returned y -> int mm = Returned m -> int dd = Returned d ->
  c_int (y + century now_year y) && c_int m && c_int d = true ->
  valid_date now_year yy mm dd = Returned (is_date (y + century now_year y) m d).
Proof.
  intros Hy Hm Hd Hc. unfold valid_date, datetime. rewrite Hy, Hm, Hd. simpl.
  rewrite Hc.
  destruct (is_date (y + century now_year y) m d); reflexivity.
Qed.

(** A number beyond a C [int] makes the constructor raise, and the
    handler of [valid_date] does not take that exception. *)
Lemma valid_date_overflows now_year yy mm dd y m d :
  int yy = Returned y -> int mm = Returned m -> int dd = Returned d ->
  c_int (y + century now_year y) && c_int m && c_int d = false ->
  valid_date now_year yy mm dd = Raised OverflowError.
Proof.
  intros Hy Hm Hd Hc. unfold valid_date, datetime. rewrite Hy, Hm, Hd. simpl.
  rewrite Hc. reflexivity.
Qed.

(** A literal [int] refuses makes [valid_date] answer no. *)
Lemma valid_date_refuses now_year yy mm dd :
  (exists e, int yy = Raised e) \/
  (exists e, int mm = Raised e) \/
  (exists e, int dd = Raised e) ->
  valid_date now_year yy mm dd = Returned false \/
  valid_date now_year yy mm dd = Raised OverflowError.
Proof.
  intros H. unfold valid_date, datetime.
  destruct (int yy) as [y|e] eqn:Ey;
    [|apply int_raises in Ey; subst; simpl; auto].
  destruct (int mm) as [m|e] eqn:Em;
    [|apply int_raises in Em; subst; simpl; auto].
  destruct (int dd) as [d|e] eqn:Ed;
    [|apply int_raises in Ed; subst; simpl; auto].
  destruct H as [[e H]|[[e H]|[e H]]]; discriminate.
Qed.

(** On the three pairs of digits of a digit run [valid_date] returns. *)
Lemma valid_date_pairs now_year s :
  all_digits s = true -> (6 <= String.length s)%nat ->
  exists y m d,
    int (slice s 0 2) = Returned y /\ int (slice s 2 4) = Returned m /\
    int (slice s 4 6) = Returned d /\
    valid_date now_year (slice s 0 2) (slice s 2 4) (slice s 4 6)
      = Returned (is_date (y + century now_year y) m d).
Proof.
  intros Hs Hl.
  destruct (int_slice s 0 2 Hs) as (y & Hy & By);
    [lia | lia | unfold max_str_digits; lia |].
  destruct (int_slice s 2 4 Hs) as (m & Hm & Bm);
    [lia | lia | unfold max_str_digits; lia |].
  destruct (int_slice s 4 6 Hs) as (d & Hd & Bd);
    [lia | lia | unfold max_str_digits; lia |].
  change (10 ^ Z.of_nat (2 - 0)) with 100 in By.
  change (10 ^ Z.of_nat (4 - 2)) with 100 in Bm.
  change (10 ^ Z.of_nat (6 - 4)) with 100 in Bd.
  exists y, m, d. repeat (split; [assumption|]).
  apply valid_date_returns; auto.
  rewrite !andb_true_iff, !c_int_spec.
  destruct (century_values now_year y) as [-> | ->]; lia.
Qed.

(** The T-SQL expression reads the same three numbers out of the block. *)
Lemma TRY_CONVERT_prefixed c1 c2 block :
  digit_block 6 block = true ->
  all_digits (String c1 (String c2 EmptyString)) = true ->
  Backfill.TRY_CONVERT_date (String c1 (String c2 block)) =
    let y := digits_value (String c1 (String c2 EmptyString)) * 100
             + digits_value (slice block 0 2) in
    let m := digits_value (slice block 2 4) in
    let d := digits_value (slice block 4 6) in
    if is_date y m d then Some (mkdate y m d) else None.
Proof.
  intros Hb Hc. apply digit_block_inv in Hb as [Hl Hd].
  unfold Backfill.TRY_CONVERT_date.
  assert (H8 : String.length (String c1 (String c2 block)) = 8%nat)
    by (simpl; lia).
  assert (Hall : all_digits (String c1 (String c2 block)) = true).
  { simpl in Hc |- *. apply andb_true_iff in Hc as [H1 Hc].
    apply andb_true_iff in Hc as [H2 _]. now rewrite H1, H2, Hd. }
  assert (Hy : int (slice (String c1 (String c2 block)) 0 4)
               = Returned (digits_value (String c1 (String c2 EmptyString)) * 100
                           + digits_value (slice block 0 2))).
  { change (slice (String c1 (String c2 block)) 0 4)
      with (String c1 (String c2 (slice block 0 2))).
    assert (Hs : all_digits (slice block 0 2) = true)
      by (apply all_digits_substring; exact Hd).
    assert (Hsl : String.length (slice block 0 2) = 2%nat)
      by (apply length_substring; lia).
    simpl in Hc. apply andb_true_iff in Hc as [H1 Hc].
    apply andb_true_iff in Hc as [H2 _].
    apply bool_decide_eq_true in H1 as [d1 E1].
    apply bool_decide_eq_true in H2 as [d2 E2].
    rewrite int_value;
      [|simpl; rewrite E1, E2, Hs; reflexivity | discriminate
       |cbn [String.length]; rewrite Hsl; unfold max_str_digits; lia].
    f_equal. unfold digits_value at 1 2. cbn [int_digits]. rewrite E1, E2.
    rewrite (int_digits_value _ _ Hs), Hsl. reflexivity. }
  assert (Hm : int (slice (String c1 (String c2 block)) 4 6)
               = Returned (digits_value (slice block 2 4))).
  { change (slice (String c1 (String c2 block)) 4 6) with (slice block 2 4).
    apply int_value; [apply all_digits_substring; exact Hd| |].
    - intros E. apply (f_equal String.length) in E.
      unfold slice in E. rewrite length_substring in E by lia. discriminate.
    - unfold slice. rewrite length_substring by lia. unfold max_str_digits. lia. }
  assert (Hdd : int (slice (String c1 (String c2 block)) 6 8)
               = Returned (digits_value (slice block 4 6))).
  { change (slice (String c1 (String c2 block)) 6 8) with (slice block 4 6).
    apply int_value; [apply all_digits_substring; exact Hd| |].
    - intros E. apply (f_equal String.length) in E.
      unfold slice in E. rewrite length_substring in E by lia. discriminate.
    - unfold slice. rewrite length_substring by lia. unfold max_str_digits. lia. }
  rewrite Hy, Hm, Hdd, H8. reflexivity.
Qed.

(** C6. For every six-digit block YYMMDD both decoders ([valid_date] and
    the [CASE ... TRY_CONVERT] of the back-fill) read YY, MM, DD, select
    century 1900 exactly when YY is strictly greater than the clock's
    two-digit year and 2000 otherwise (so YY equal to the pivot gives
    2000), and answer without raising whether YYMMDD is a calendar date
    in that century: [valid_date] returns the truth value, the back-fill
    yields the date or NULL. *)
Theorem decoder_century_pivot (now_year : Z) (block : string) :
  digit_block 6 block = true ->
  exists y m d,
    int (slice block 0 2) = Returned y /\
    int (slice block 2 4) = Returned m /\
    int (slice block 4 6) = Returned d /\
    0 <= y < 100 /\
    (century now_year y = 1900 <-> y > now_year mod 100) /\
    (century now_year y = 2000 <-> y <= now_year mod 100) /\
    valid_date now_year (slice block 0 2) (slice block 2 4) (slice block 4 6)
      = Returned (is_date (century now_year y + y) m d) /\
    forall year4 : string,
      digit_block 4 year4 = true ->
      digits_value (Backfill.RIGHT year4 2) = now_year mod 100 ->
      (Backfill.century_prefix year4 block = "19" <-> y > now_year mod 100) /\
      (Backfill.century_prefix year4 block = "20" <-> y <= now_year mod 100) /\
      Backfill.DOB year4 block =
        if is_date (century now_year y + y) m d
        then Some (mkdate (century now_year y + y) m d) else None.
Proof.
  intros Hb. pose proof Hb as Hb'. apply digit_block_inv in Hb' as [Hl Hd].
  assert (A2 : forall i, (i + 2 <= 6)%nat ->
             all_digits (slice block i (i + 2)) = true /\
             String.length (slice block i (i + 2)) = 2%nat /\
             int (slice block i (i + 2))
               = Returned (digits_value (slice block i (i + 2)))).
  { intros i Hi.
    assert (Hs : all_digits (slice block i (i + 2)) = true)
      by (apply all_digits_substring; exact Hd).
    assert (Hsl : String.length (slice block i (i + 2)) = 2%nat).
    { unfold slice. rewrite length_substring; lia. }
    repeat split; auto. apply int_value; auto.
    - intros E. rewrite E in Hsl. discriminate.
    - rewrite Hsl. unfold max_str_digits. lia. }
  destruct (A2 0%nat ltac:(lia)) as (Dy & Ly & Iy).
  destruct (A2 2%nat ltac:(lia)) as (Dm & Lm & Im).
  destruct (A2 4%nat ltac:(lia)) as (Dd & Ld & Id).
  simpl Nat.add in *.
  exists (digits_value (slice block 0 2)), (digits_value (slice block 2 4)),
         (digits_value (slice block 4 6)).
  pose proof (digits_value_bounds _ Dy) as By. rewrite Ly in By.
  change (10 ^ Z.of_nat 2) with 100 in By.
  split; [exact Iy|]. split; [exact Im|]. split; [exact Id|].
  split; [exact By|].
  split; [apply century_1900|]. split; [apply century_2000|].
  split.
  { pose proof (digits_value_bounds _ Dm) as Bm. rewrite Lm in Bm.
    pose proof (digits_value_bounds _ Dd) as Bd. rewrite Ld in Bd.
    change (10 ^ Z.of_nat 2) with 100 in Bm, Bd.
    rewrite (valid_date_returns now_year _ _ _ _ _ _ Iy Im Id).
    - now rewrite Z.add_comm.
    - rewrite !andb_true_iff, !c_int_spec.
      destruct (century_values now_year (digits_value (slice block 0 2)))
        as [-> | ->]; lia. }
  intros year4 H4 Hp. apply digit_block_inv in H4 as [L4 D4].
  assert (Hleft2 : Backfill.LEFT block 2 = slice block 0 2) by reflexivity.
  assert (Hleft6 : Backfill.LEFT block 6 = block).
  { unfold Backfill.LEFT. clear -Hl.
    do 6 (destruct block as [|? block]; [discriminate|]).
    destruct block; [reflexivity|discriminate]. }
  assert (Hcmp : Backfill.str_gt (Backfill.LEFT block 2) (Backfill.RIGHT year4 2)
                 = (digits_value (slice block 0 2) >? now_year mod 100)).
  { unfold Backfill.str_gt. rewrite Hleft2, compare_digit_runs.
    - rewrite Hp. unfold Z.gtb. reflexivity.
    - exact Dy.
    - apply all_digits_substring. exact D4.
    - rewrite Ly. unfold Backfill.RIGHT. rewrite length_substring; lia. }
  unfold Backfill.century_prefix, Backfill.DOB, Backfill.century_prefix.
  rewrite Hcmp, Hleft6. unfold century, now_yy.
  destruct (Z.gtb_spec (digits_value (slice block 0 2)) (now_year mod 100)) as [G|G].
  - split; [split; [lia | reflexivity]|].
    split; [split; [discriminate | lia]|].
    change (String.append "19" block) with (String "1" (String "9" block)).
    rewrite (TRY_CONVERT_prefixed "1" "9" block Hb eq_refl). reflexivity.
  - split; [split; [discriminate | lia]|].
    split; [split; [lia | reflexivity]|].
    change (String.append "20" block) with (String "2" (String "0" block)).
    rewrite (TRY_CONVERT_prefixed "2" "0" block Hb eq_refl). reflexivity.
Qed.

Lemma decoder_century_pivot_witness :
  digit_block 6 "970420" = true /\
  exists y m d,
    int (slice "970420" 0 2) = Returned y /\
    int (slice "970420" 2 4) = Returned m /\
    int (slice "970420" 4 6) = Returned d /\
    0 <= y < 100 /\
    (century 2025 y = 1900 <-> y > 2025 mod 100) /\
    (century 2025 y = 2000 <-> y <= 2025 mod 100) /\
    valid_date 2025 (slice "970420" 0 2) (slice "970420" 2 4) (slice "970420" 4 6)
      = Returned (is_date (century 2025 y + y) m d) /\
    forall year4 : string,
      digit_block 4 year4 = true ->
      digits_value (Backfill.RIGHT year4 2) = 2025 mod 100 ->
      (Backfill.century_prefix year4 "970420" = "19" <-> y > 2025 mod 100) /\
      (Backfill.century_prefix year4 "970420" = "20" <-> y <= 2025 mod 100) /\
      Backfill.DOB year4 "970420" =
        if is_date (century 2025 y + y) m d
        then Some (mkdate (century 2025 y + y) m d) else None.
Proof.
  split; [reflexivity | apply (decoder_century_pivot 2025 "970420"); reflexivity].
Defined.

(** The end-to-end example of the specification, and the pivot itself. *)
Example decode_970420 :
  valid_date 2025 "97" "04" "20" = Returned true /\
  Backfill.DOB "2025" "9704201234083" = Some (mkdate 1997 4 20).
Proof. split; reflexivity. Qed.

Example decode_pivot_year :
  century 2025 25 = 2000 /\ century 2025 26 = 1900 /\
  Backfill.DOB "2025" "250101" = Some (mkdate 2025 1 1) /\
  Backfill.DOB "2025" "260101" = Some (mkdate 1926 1 1).
Proof. repeat split; reflexivity. Qed.

Example decode_impossible_date :
  valid_date 2025 "02" "30" "99" = Returned false /\
  valid_date 2025 "97" "13" "01" = Returned false /\
  Backfill.DOB "2025" "971301" = None /\
  valid_date 2025 "00" "02" "29" = Returned true /\
  valid_date 2025 "99" "02" "29" = Returned false.
Proof. repeat split; reflexivity. Qed.

(** *** [gender_ok] *)

(** C10 (amended). [gender_ok] reads the four-digit block of ID digits
    7-10 and compares the setting after upper-casing it: with GENDER 'M'
    or 'm' it accepts exactly the blocks >= 5000, with 'F' or 'f' exactly
    the blocks < 5000 (5000 itself is male-coded), with any setting whose
    upper-case form is neither it accepts every block; for every
    candidate exactly one of the 'M' and 'F' predicates holds. *)
Theorem gender_ok_partition (GENDER id13 : string) :
  digit_block 13 id13 = true ->
  exists block,
    int (slice id13 6 10) = Returned block /\ 0 <= block < 10000 /\
    (upper GENDER = "M" ->
       gender_ok GENDER id13 = Returned (bool_decide (5000 <= block))) /\
    (upper GENDER = "F" ->
       gender_ok GENDER id13 = Returned (bool_decide (block < 5000))) /\
    (upper GENDER <> "M" -> upper GENDER <> "F" ->
       gender_ok GENDER id13 = Returned true) /\
    ((gender_ok "M" id13 = Returned true /\ gender_ok "F" id13 = Returned false) \/
     (gender_ok "M" id13 = Returned false /\ gender_ok "F" id13 = Returned true)).
Proof.
  intros Hb. apply digit_block_inv in Hb as [Hl Hd].
  destruct (int_slice id13 6 10 Hd ltac:(lia) ltac:(lia)
              ltac:(unfold max_str_digits; lia)) as (block & Hi & Hr).
  change (10 ^ Z.of_nat (10 - 6)) with 10000 in Hr.
  exists block. split; [exact Hi|]. split; [exact Hr|].
  unfold gender_ok. rewrite Hi. simpl.
  assert (Hge : (5000 <=? block) = bool_decide (5000 <= block)).
  { destruct (Z.leb_spec 5000 block);
      [rewrite bool_decide_eq_true_2 | rewrite bool_decide_eq_false_2]; auto; lia. }
  assert (Hlt : (block <? 5000) = bool_decide (block < 5000)).
  { destruct (Z.ltb_spec block 5000);
      [rewrite bool_decide_eq_true_2 | rewrite bool_decide_eq_false_2]; auto; lia. }
  repeat split.
  - intros ->. simpl. now rewrite Hge.
  - intros ->. simpl. now rewrite Hlt.
  - intros HM HF.
    destruct (String.eqb_spec (upper GENDER) "M"); [contradiction|].
    destruct (String.eqb_spec (upper GENDER) "F"); [contradiction|]. reflexivity.
  - destruct (Z.leb_spec 5000 block) as [G|G].
    + left. split; [reflexivity|].
      destruct (Z.ltb_spec block 5000); [lia | reflexivity].
    + right. split; [reflexivity|].
      destruct (Z.ltb_spec block 5000); [reflexivity | lia].
Qed.

Lemma gender_ok_partition_witness :
  digit_block 13 "9704201234083" = true /\
  exists block,
    int (slice "9704201234083" 6 10) = Returned block /\ 0 <= block < 10000 /\
    (upper "f" = "M" ->
       gender_ok "f" "9704201234083" = Returned (bool_decide (5000 <= block))) /\
    (upper "f" = "F" ->
       gender_ok "f" "9704201234083" = Returned (bool_decide (block < 5000))) /\
    (upper "f" <> "M" -> upper "f" <> "F" ->
       gender_ok "f" "9704201234083" = Returned true) /\
    ((gender_ok "M" "9704201234083" = Returned true /\
      gender_ok "F" "9704201234083" = Returned false) \/
     (gender_ok "M" "9704201234083" = Returned false /\
      gender_ok "F" "9704201234083" = Returned true)).
Proof.
  split; [reflexivity | apply (gender_ok_partition "f" "9704201234083"); reflexivity].
Defined.

(** The setting 'm' is neither 'M' nor 'F', yet it does not accept every
    block: it is read as 'M'. *)
Lemma gender_ok_lowercase_setting :
  ~ (forall GENDER id13 : string,
       GENDER <> "M" -> GENDER <> "F" -> digit_block 13 id13 = true ->
       gender_ok GENDER id13 = Returned true).
Proof.
  intros H. specialize (H "m" "9704201234083").
  assert (E : gender_ok "m" "9704201234083" = Returned false) by reflexivity.
  rewrite H in E; [discriminate | discriminate | discriminate | reflexivity].
Qed.

Example gender_block_examples :
  gender_ok "F" "9704201234083" = Returned true /\
  gender_ok "M" "9704205000083" = Returned true /\
  gender_ok "F" "9704205000083" = Returned false /\
  gender_ok "M" "9704204999083" = Returned false /\
  gender_ok "U" "9704204999083" = Returned true /\
  gender_ok "M" "970420" = Raised ValueError.
Proof. repeat split; reflexivity. Qed.

End IdNumbersSpec.

(** ** The correction pass *)

Module CorrectionSpec.
Import Calendar Correction.

Lemma ltb_year a b : ltb a b = true -> year a <= year b.
Proof.
  unfold ltb. intros H. apply orb_true_iff in H as [H|H].
  - apply Z.ltb_lt in H. lia.
  - apply andb_true_iff in H as [H _]. apply Z.eqb_eq in H. lia.
Qed.

Lemma ltb_trichotomy a b : ltb a b = true \/ a = b \/ ltb b a = true.
Proof.
  destruct a as [ya ma da], b as [yb mb db]. unfold ltb. simpl.
  destruct (Z.lt_total ya yb) as [H|[H|H]].
  - left. apply orb_true_iff. left. now apply Z.ltb_lt.
  - subst yb. rewrite Z.ltb_irrefl, Z.eqb_refl. simpl.
    destruct (Z.lt_total ma mb) as [H|[H|H]].
    + left. apply orb_true_iff. left. now apply Z.ltb_lt.
    + subst mb. rewrite Z.ltb_irrefl, Z.eqb_refl. simpl.
      destruct (Z.lt_total da db) as [H|[H|H]].
      * left. now apply Z.ltb_lt.
      * right. left. now subst.
      * right. right. now apply Z.ltb_lt.
    + right. right. apply orb_true_iff. left. now apply Z.ltb_lt.
  - right. right. apply orb_true_iff. left. now apply Z.ltb_lt.
Qed.

Global Instance export_le_total : Total export_le.
Proof.
  intros a b. unfold export_le.
  destruct (ltb_trichotomy (OldBirthDate a) (OldBirthDate b)) as [H|[H|H]];
    [left; now left | | right; now left].
  destruct (Z.le_ge_cases (c_Id a) (c_Id b)); [left | right]; right; split;
    auto; lia.
Qed.

(** [DATEADD(year, -100, d)] on a date of year 101 or later. *)
Lemma DATEADD_minus_100 d :
  valid d = true -> 101 <= year d ->
  exists new, DATEADD_year (-100) d = Some new /\ hundred_years_earlier d new /\
              valid new = true.
Proof.
  intros Hv Hy. unfold valid, is_date in Hv.
  repeat (apply andb_true_iff in Hv as [Hv ?]).
  repeat match goal with H : (_ <=? _) = true |- _ => apply Z.leb_le in H end.
  unfold DATEADD_year.
  destruct (Z.leb_spec 1 (year d + -100)); [|lia].
  destruct (Z.leb_spec (year d + -100) 9999); [|lia]. simpl.
  eexists. split; [reflexivity|].
  assert (Hdim : days_in_month (year d + -100) (month d) = days_in_month (year d) (month d)
                 \/ (month d = 2 /\ days_in_month (year d) (month d) = 29
                     /\ days_in_month (year d + -100) (month d) = 28)
                 \/ (month d = 2 /\ days_in_month (year d) (month d) = 28
                     /\ days_in_month (year d + -100) (month d) = 29)).
  { unfold days_in_month. destruct (Z.eqb_spec (month d) 2) as [E|E]; [|now left].
    destruct (is_leap (year d)), (is_leap (year d + -100)); auto. }
  assert (Hmin : 28 <= days_in_month (year d + -100) (month d)).
  { unfold days_in_month.
    destruct (month d =? 2); [destruct (is_leap _); lia|].
    destruct ((month d =? 4) || (month d =? 6) || (month d =? 9) || (month d =? 11)); lia. }
  split.
  - unfold hundred_years_earlier. simpl. split; [lia|]. split; [reflexivity|].
    destruct Hdim as [E|[(E1 & E2 & E3)|(E1 & E2 & E3)]]; lia.
  - unfold valid, is_date. simpl.
    repeat (apply andb_true_iff; split); apply Z.leb_le; lia.
Qed.

Lemma stored_dates_valid_cons r db :
  stored_dates_valid (r :: db) ->
  (forall d, BirthDate r = Some d -> valid d = true) /\ stored_dates_valid db.
Proof.
  intros H. split.
  - intros d. apply H. left.
  - intros r' d Hin. apply H. now right.
Qed.

(** The [UPDATE] succeeds, rewrites exactly the rows over the threshold
    and captures one audit record for each, in table order. *)
Lemma UPDATE_BirthDates_correct threshold db :
  101 <= year threshold -> stored_dates_valid db ->
  exists updated,
    UPDATE_BirthDates threshold db = Some (updated, omap (change_of threshold) db) /\
    Forall2 (corrected threshold) db updated.
Proof.
  intros Ht. induction db as [|r db IH]; intros Hv.
  - exists []. split; [reflexivity | constructor].
  - apply stored_dates_valid_cons in Hv as [Hr Hv].
    destruct (IH Hv) as (updated & HU & HF).
    cbn [UPDATE_BirthDates omap list_omap]. fold (omap (change_of threshold) db).
    unfold change_of at 1.
    destruct (BirthDate r) as [old|] eqn:Eb.
    + destruct (ltb threshold old) eqn:El.
      * destruct (DATEADD_minus_100 old (Hr old eq_refl)) as (new & HD & HH & _).
        { apply ltb_year in El. lia. }
        rewrite HD, HU. eexists. split; [reflexivity|].
        constructor; [|exact HF].
        unfold corrected. simpl. rewrite Eb, El. eauto.
      * rewrite HU. eexists. split; [reflexivity|].
        constructor; [|exact HF].
        unfold corrected. rewrite Eb, El. auto.
    + rewrite HU. eexists. split; [reflexivity|].
      constructor; [|exact HF].
      unfold corrected. rewrite Eb. auto.
Qed.

(** What a run that is not refused leaves behind. *)
Lemma main_outcome threshold DRY_RUN confirm db :
  101 <= year threshold -> stored_dates_valid db ->
  DRY_RUN = true \/ confirm = "YES" ->
  exists updated,
    Forall2 (corrected threshold) db updated /\
    main threshold DRY_RUN confirm db =
      mkOutcome (if DRY_RUN then db else updated)
        (match ORDER_BY_OldBirthDate_Id (omap (change_of threshold) db) with
         | [] => None
         | rows => Some rows
         end).
Proof.
  intros Ht Hv Hgo.
  destruct (UPDATE_BirthDates_correct threshold db Ht Hv) as (updated & HU & HF).
  exists updated. split; [exact HF|].
  unfold main.
  assert (Hguard : negb DRY_RUN && negb (String.eqb confirm "YES") = false).
  { destruct Hgo as [-> | ->]; [reflexivity|]. simpl. apply andb_false_r. }
  rewrite Hguard. unfold TSQL_CORRECT_RECORDS. simpl. rewrite HU.
  destruct DRY_RUN; simpl;
    destruct (ORDER_BY_OldBirthDate_Id _); reflexivity.
Qed.

Lemma export_sorted l :
  Sorted export_le (ORDER_BY_OldBirthDate_Id l) /\
  ORDER_BY_OldBirthDate_Id l ≡ₚ l.
Proof.
  unfold ORDER_BY_OldBirthDate_Id. split.
  - apply Sorted_merge_sort. apply _.
  - apply merge_sort_Permutation.
Qed.

Lemma change_of_over threshold db r :
  101 <= year threshold -> stored_dates_valid db ->
  r ∈ db -> over_threshold threshold r = true ->
  exists old new,
    BirthDate r = Some old /\ hundred_years_earlier old new /\
    change_of threshold r = Some (mkChangedRecord (Id r) (MasterItemId r) old new).
Proof.
  intros Ht Hv Hin Ho. unfold over_threshold in Ho. unfold change_of.
  destruct (BirthDate r) as [old|] eqn:Eb; [|discriminate].
  rewrite Ho.
  destruct (DATEADD_minus_100 old (Hv r old Hin Eb)) as (new & HD & HH & _).
  { apply ltb_year in Ho. lia. }
  rewrite HD. eauto.
Qed.

Lemma exported threshold db r c :
  r ∈ db -> change_of threshold r = Some c ->
  exists rows,
    (match ORDER_BY_OldBirthDate_Id (omap (change_of threshold) db) with
     | [] => None
     | rows => Some rows
     end) = Some rows /\ c ∈ rows.
Proof.
  intros Hin Hc.
  assert (Hm : c ∈ ORDER_BY_OldBirthDate_Id (omap (change_of threshold) db)).
  { rewrite (proj2 (export_sorted _)). apply list_elem_of_omap. eauto. }
  destruct (ORDER_BY_OldBirthDate_Id _) as [|x l] eqn:E.
  - inversion Hm.
  - eauto.
Qed.

(** C7. A dry run executes the update inside a transaction that is rolled
    back: afterwards [dbo.BirthDates] is what it was, while the exported
    change set holds an audit record for every row over the threshold (and
    nothing else), sorted.  In particular, with threshold 2008-02-23 a row
    stored with 2009-06-01 is exported with new value 1909-06-01 and is
    still stored unchanged. *)
Theorem dry_run_rolls_back (threshold : date) (confirm : string)
    (db : list BirthDateRow) :
  101 <= year threshold -> stored_dates_valid db ->
  let out := main threshold true confirm db in
  database out = db /\
  (forall r, r ∈ db -> over_threshold threshold r = true ->
     exists old new rows,
       BirthDate r = Some old /\ hundred_years_earlier old new /\
       csv_rows out = Some rows /\
       mkChangedRecord (Id r) (MasterItemId r) old new ∈ rows) /\
  (forall rows, csv_rows out = Some rows ->
     rows ≡ₚ omap (change_of threshold) db /\ Sorted export_le rows) /\
  (threshold = mkdate 2008 2 23 ->
   forall r, r ∈ db -> BirthDate r = Some (mkdate 2009 6 1) ->
     r ∈ database out /\
     exists rows,
       csv_rows out = Some rows /\
       mkChangedRecord (Id r) (MasterItemId r) (mkdate 2009 6 1) (mkdate 1909 6 1)
         ∈ rows).
Proof.
  intros Ht Hv out.
  destruct (main_outcome threshold true confirm db Ht Hv (or_introl eq_refl))
    as (updated & _ & Hmain).
  subst out. rewrite Hmain. cbn [database csv_rows].
  split; [reflexivity|]. split; [|split].
  - intros r Hin Ho.
    destruct (change_of_over threshold db r Ht Hv Hin Ho) as (old & new & Eb & HH & Hc).
    destruct (exported threshold db r _ Hin Hc) as (rows & Hrows & Hmem).
    exists old, new, rows. auto.
  - intros rows Hrows.
    pose proof (export_sorted (omap (change_of threshold) db)) as [HS HP].
    destruct (ORDER_BY_OldBirthDate_Id _); [discriminate|].
    injection Hrows as <-. auto.
  - intros -> r Hin Eb. split; [exact Hin|].
    apply (exported _ db r _ Hin).
    unfold change_of. rewrite Eb. reflexivity.
Qed.

Lemma dry_run_rolls_back_witness :
  let threshold := mkdate 2008 2 23 in
  let db := [ mkBirthDateRow 1 1 (Some (mkdate 2009 6 1));
              mkBirthDateRow 2 2 (Some (mkdate 1985 3 14));
              mkBirthDateRow 3 3 None ] in
  101 <= year threshold /\ stored_dates_valid db /\
  let out := main threshold true "" db in
  database out = db /\
  (forall r, r ∈ db -> over_threshold threshold r = true ->
     exists old new rows,
       BirthDate r = Some old /\ hundred_years_earlier old new /\
       csv_rows out = Some rows /\
       mkChangedRecord (Id r) (MasterItemId r) old new ∈ rows) /\
  (forall rows, csv_rows out = Some rows ->
     rows ≡ₚ omap (change_of threshold) db /\ Sorted export_le rows) /\
  (threshold = mkdate 2008 2 23 ->
   forall r, r ∈ db -> BirthDate r = Some (mkdate 2009 6 1) ->
     r ∈ database out /\
     exists rows,
       csv_rows out = Some rows /\
       mkChangedRecord (Id r) (MasterItemId r) (mkdate 2009 6 1) (mkdate 1909 6 1)
         ∈ rows).
Proof.
  intros threshold db.
  assert (Ht : 101 <= year threshold) by (simpl; lia).
  assert (Hv : stored_dates_valid db).
  { intros r d Hin Eb. subst db.
    repeat (apply elem_of_cons in Hin as [-> | Hin]);
      try (simpl in Eb; injection Eb as <-; reflexivity);
      try discriminate. inversion Hin. }
  split; [exact Ht|]. split; [exact Hv|].
  exact (dry_run_rolls_back threshold "" db Ht Hv).
Defined.

Example dry_run_example :
  main (mkdate 2008 2 23) true ""
       [ mkBirthDateRow 1 1 (Some (mkdate 2009 6 1));
         mkBirthDateRow 2 2 (Some (mkdate 1985 3 14)) ]
  = mkOutcome
      [ mkBirthDateRow 1 1 (Some (mkdate 2009 6 1));
        mkBirthDateRow 2 2 (Some (mkdate 1985 3 14)) ]
      (Some [ mkChangedRecord 1 1 (mkdate 2009 6 1) (mkdate 1909 6 1) ]).
Proof. reflexivity. Qed.

(** C8. A confirmed live run subtracts exactly one hundred years from the
    [BirthDate] of every row whose date is strictly after the threshold,
    leaves every other row as it is, captures (Id, MasterItemId, old
    date, new date) for each changed row, and exports these records
    ordered by old date and then by Id. *)
Theorem correction_pass_shifts_a_century (threshold : date)
    (db : list BirthDateRow) :
  101 <= year threshold -> stored_dates_valid db ->
  let out := main threshold false "YES" db in
  Forall2 (corrected threshold) db (database out) /\
  (forall r, r ∈ db -> over_threshold threshold r = false ->
     change_of threshold r = None) /\
  (forall r, r ∈ db -> over_threshold threshold r = true ->
     exists old new rows,
       BirthDate r = Some old /\ hundred_years_earlier old new /\
       csv_rows out = Some rows /\
       mkChangedRecord (Id r) (MasterItemId r) old new ∈ rows) /\
  (forall rows, csv_rows out = Some rows ->
     rows ≡ₚ omap (change_of threshold) db /\ Sorted export_le rows).
Proof.
  intros Ht Hv out.
  destruct (main_outcome threshold false "YES" db Ht Hv (or_intror eq_refl))
    as (updated & HF & Hmain).
  subst out. rewrite Hmain. cbn [database csv_rows].
  split; [exact HF|]. split; [|split].
  - intros r Hin Ho. unfold over_threshold in Ho. unfold change_of.
    destruct (BirthDate r); [rewrite Ho|]; reflexivity.
  - intros r Hin Ho.
    destruct (change_of_over threshold db r Ht Hv Hin Ho) as (old & new & Eb & HH & Hc).
    destruct (exported threshold db r _ Hin Hc) as (rows & Hrows & Hmem).
    exists old, new, rows. auto.
  - intros rows Hrows.
    pose proof (export_sorted (omap (change_of threshold) db)) as [HS HP].
    destruct (ORDER_BY_OldBirthDate_Id _); [discriminate|].
    injection Hrows as <-. auto.
Qed.

Lemma correction_pass_shifts_a_century_witness :
  let threshold := mkdate 2008 2 23 in
  let db := [ mkBirthDateRow 4 4 (Some (mkdate 2012 2 29));
              mkBirthDateRow 1 1 (Some (mkdate 2009 6 1));
              mkBirthDateRow 2 2 (Some (mkdate 2008 2 23));
              mkBirthDateRow 3 3 None ] in
  101 <= year threshold /\ stored_dates_valid db /\
  let out := main threshold false "YES" db in
  Forall2 (corrected threshold) db (database out) /\
  (forall r, r ∈ db -> over_threshold threshold r = false ->
     change_of threshold r = None) /\
  (forall r, r ∈ db -> over_threshold threshold r = true ->
     exists old new rows,
       BirthDate r = Some old /\ hundred_years_earlier old new /\
       csv_rows out = Some rows /\
       mkChangedRecord (Id r) (MasterItemId r) old new ∈ rows) /\
  (forall rows, csv_rows out = Some rows ->
     rows ≡ₚ omap (change_of threshold) db /\ Sorted export_le rows).
Proof.
  intros threshold db.
  assert (Ht : 101 <= year threshold) by (simpl; lia).
  assert (Hv : stored_dates_valid db).
  { intros r d Hin Eb. subst db.
    repeat (apply elem_of_cons in Hin as [-> | Hin]);
      try (simpl in Eb; injection Eb as <-; reflexivity);
      try discriminate. inversion Hin. }
  split; [exact Ht|]. split; [exact Hv|].
  exact (correction_pass_shifts_a_century threshold db Ht Hv).
Defined.

Example live_run_example :
  main (mkdate 2008 2 23) false "YES"
       [ mkBirthDateRow 4 4 (Some (mkdate 2012 2 29));
         mkBirthDateRow 1 1 (Some (mkdate 2009 6 1));
         mkBirthDateRow 2 2 (Some (mkdate 2008 2 23));
         mkBirthDateRow 3 3 None ]
  = mkOutcome
      [ mkBirthDateRow 4 4 (Some (mkdate 1912 2 29));
        mkBirthDateRow 1 1 (Some (mkdate 1909 6 1));
        mkBirthDateRow 2 2 (Some (mkdate 2008 2 23));
        mkBirthDateRow 3 3 None ]
      (Some [ mkChangedRecord 1 1 (mkdate 2009 6 1) (mkdate 1909 6 1);
              mkChangedRecord 4 4 (mkdate 2012 2 29) (mkdate 1912 2 29) ]).
Proof. reflexivity. Qed.

(** A live run that is not confirmed changes nothing and writes no file. *)
Example live_run_refused db :
  main (mkdate 2008 2 23) false "NO" db = mkOutcome db None.
Proof. reflexivity. Qed.

End CorrectionSpec.

(** ** The reconciler *)

Module UpsertSpec.
Import Upsert.

Lemma filter_nil {A} (f : A -> bool) l :
  (forall x, In x l -> f x = false) -> List.filter f l = [].
Proof.
  induction l as [|a l IH]; intros Hf; [reflexivity|].
  simpl. rewrite (Hf a (or_introl eq_refl)). apply IH.
  intros x Hx. apply Hf. now right.
Qed.

Lemma map_id_on {A} (f : A -> A) l :
  (forall x, In x l -> f x = x) -> List.map f l = l.
Proof.
  induction l as [|a l IH]; intros Hf; [reflexivity|].
  simpl. rewrite (Hf a (or_introl eq_refl)). f_equal. apply IH.
  intros x Hx. apply Hf. now right.
Qed.

Lemma NoDup_keys_filter (P : Z * string -> bool) (src : source) :
  NoDup (List.map fst src) -> NoDup (List.map fst (List.filter P src)).
Proof.
  induction src as [|a src IH]; intros Hnd; [constructor|].
  simpl in Hnd. apply NoDup_cons in Hnd as [Ha Hnd]. simpl.
  destruct (P a); [|auto].
  simpl. apply NoDup_cons. split; [|auto].
  intros Hin. apply Ha. apply list_elem_of_In in Hin. apply list_elem_of_In.
  apply in_map_iff in Hin as (x & Hx1 & Hx2). apply filter_In in Hx2 as [Hx2 _].
  apply in_map_iff. eauto.
Qed.

Lemma source_find_In src k d : source_find src k = Some d -> In (k, d) src.
Proof.
  unfold source_find. destruct (List.find _ src) as [[k' d']|] eqn:E; [|discriminate].
  simpl. intros [= <-]. apply find_some in E as [Hin Hk].
  simpl in Hk. apply Z.eqb_eq in Hk. now subst.
Qed.

Lemma source_find_unique src : forall k d,
  NoDup (List.map fst src) -> In (k, d) src -> source_find src k = Some d.
Proof.
  induction src as [|[k' d'] src IH]; intros k d Hnd Hin; [destruct Hin|].
  simpl in Hnd. apply NoDup_cons in Hnd as [Hk' Hnd].
  unfold source_find. simpl. destruct (Z.eqb_spec k' k) as [->|Hne].
  - destruct Hin as [[= ->]|Hin]; [reflexivity|].
    exfalso. apply Hk'. apply list_elem_of_In. apply in_map_iff. now exists (k, d).
  - destruct Hin as [[= -> ->]|Hin]; [congruence|].
    apply (IH k d Hnd Hin).
Qed.

Section Generic.
Context {R : Type} `{Target R}.

Lemma merge_matched_key src r :
  MasterItemId (merge_matched src r) = MasterItemId r.
Proof.
  unfold merge_matched. destruct (needs_update src r); [|reflexivity].
  apply MasterItemId_update.
Qed.

(** After the merge no row asks for an update any more. *)
Lemma merge_matched_settled src r :
  needs_update src (merge_matched src r) = None.
Proof.
  unfold merge_matched. destruct (needs_update src r) as [d|] eqn:E; [|exact E].
  unfold needs_update in *. rewrite MasterItemId_update, Description_update.
  destruct (source_find src (MasterItemId r)) as [d'|]; [|discriminate].
  destruct (String.eqb (Description r) d'); [discriminate|].
  injection E as ->. now rewrite String.eqb_refl.
Qed.

Lemma merge_matched_fix src r :
  needs_update src r = None -> merge_matched src r = r.
Proof. unfold merge_matched. now intros ->. Qed.

Lemma inserted_settled now src k d :
  NoDup (List.map fst src) -> In (k, d) src ->
  needs_update src (insert_row now k d) = None.
Proof.
  intros Hnd Hin. unfold needs_update.
  rewrite MasterItemId_insert, Description_insert.
  rewrite (source_find_unique src k d Hnd Hin). now rewrite String.eqb_refl.
Qed.

Lemma not_matched_false target p :
  not_matched target p = false <-> In (fst p) (List.map MasterItemId target).
Proof.
  unfold not_matched. rewrite negb_false_iff, existsb_exists. split.
  - intros (r & Hr & Hk). apply Z.eqb_eq in Hk. apply in_map_iff. eauto.
  - intros Hin. apply in_map_iff in Hin as (r & Hk & Hr).
    exists r. split; [exact Hr|]. now apply Z.eqb_eq.
Qed.

Lemma not_matched_true target p :
  not_matched target p = true <-> ~ In (fst p) (List.map MasterItemId target).
Proof.
  rewrite <- not_matched_false. destruct (not_matched target p); split; congruence.
Qed.

Lemma MERGE_keys now target src :
  List.map MasterItemId (fst (MERGE now target src)) =
    (List.map MasterItemId target
       ++ List.map fst (List.filter (not_matched target) src))%list.
Proof.
  unfold MERGE. cbn [fst]. rewrite map_app, !map_map. f_equal.
  - apply map_ext. intros r. apply merge_matched_key.
  - apply map_ext. intros p. apply MasterItemId_insert.
Qed.

(** A second [MERGE] with the same source finds nothing to do. *)
Lemma MERGE_twice now now' target src :
  NoDup (List.map fst src) ->
  MERGE now' (fst (MERGE now target src)) src = (fst (MERGE now target src), 0).
Proof.
  intros Hnd.
  assert (Hsettled : forall r, In r (fst (MERGE now target src)) ->
                               needs_update src r = None).
  { intros r Hr. unfold MERGE in Hr. cbn [fst] in Hr.
    apply in_app_or in Hr as [Hr|Hr]; apply in_map_iff in Hr as (x & <- & Hx).
    - apply merge_matched_settled.
    - apply filter_In in Hx as [Hx _]. destruct x as [k d].
      now apply inserted_settled. }
  assert (Hmatched : forall p, In p src ->
                               not_matched (fst (MERGE now target src)) p = false).
  { intros p Hp. apply not_matched_false. rewrite MERGE_keys.
    apply in_or_app.
    destruct (not_matched target p) eqn:E.
    - right. apply in_map. apply filter_In. auto.
    - left. now apply not_matched_false. }
  set (t1 := fst (MERGE now target src)) in *.
  unfold MERGE.
  rewrite (filter_nil _ t1), (filter_nil _ src), (map_id_on _ t1); auto.
  - now rewrite app_nil_r.
  - intros r Hr. apply merge_matched_fix. auto.
  - intros r Hr. rewrite (Hsettled r Hr). reflexivity.
Qed.

Lemma MERGE_reconciled now target src :
  reconciled now src target (fst (MERGE now target src)).
Proof.
  exists (List.map (merge_matched src) target),
         (List.map (fun p => insert_row now (fst p) (snd p))
                   (List.filter (not_matched target) src)).
  split; [reflexivity|]. split.
  - induction target as [|r target IH]; constructor; [|exact IH].
    unfold row_reconciled, merge_matched, needs_update.
    destruct (source_find src (MasterItemId r)); [|reflexivity].
    destruct (String.eqb (Description r) s); reflexivity.
  - intros r. rewrite list_elem_of_In, in_map_iff. split.
    + intros ([k d] & <- & Hp). apply filter_In in Hp as [Hp Hn].
      exists k, d. split; [now apply list_elem_of_In|]. split; [|reflexivity].
      rewrite list_elem_of_In. now apply not_matched_true in Hn.
    + intros (k & d & Hp & Hn & ->). exists (k, d). split; [reflexivity|].
      apply filter_In. split; [now apply list_elem_of_In|].
      apply not_matched_true. now rewrite <- list_elem_of_In.
Qed.

Lemma MERGE_NoDup now target src :
  NoDup (List.map fst src) ->
  NoDup (List.map MasterItemId target) ->
  NoDup (List.map MasterItemId (fst (MERGE now target src))).
Proof.
  intros Hs Ht. rewrite MERGE_keys. apply NoDup_app. split; [exact Ht|].
  split; [|now apply NoDup_keys_filter].
  intros k Hk Hk'. apply list_elem_of_In in Hk, Hk'.
  apply in_map_iff in Hk' as (p & <- & Hp). apply filter_In in Hp as [_ Hp].
  now apply not_matched_true in Hp.
Qed.

Lemma temp_table_ok_NoDup data :
  temp_table_ok data = true -> NoDup (List.map fst data).
Proof.
  unfold temp_table_ok. intros Hok. apply andb_true_iff in Hok as [Hok _].
  now apply bool_decide_eq_true in Hok.
Qed.

(** The contract of the common body of the two writers. *)
Lemma batch_upsert_contract now now' fault2 data (target : list R) :
  let t1 := fst (batch_upsert false now data target) in
  batch_upsert fault2 now' data t1 = (t1, 0) /\
  (data <> [] -> temp_table_ok data = true -> reconciled now data target t1) /\
  (NoDup (List.map MasterItemId target) -> NoDup (List.map MasterItemId t1)) /\
  (forall fault, batch_upsert true now data target = (target, 0) /\
                 batch_upsert fault now [] target = (target, 0)).
Proof.
  unfold batch_upsert. destruct data as [|p data]; simpl.
  { repeat split; auto. intros; congruence. }
  set (src := p :: data).
  destruct (temp_table_ok src) eqn:Hok; simpl.
  - pose proof (temp_table_ok_NoDup src Hok) as Hnd. repeat split.
    + destruct fault2; simpl; [reflexivity|].
      now apply MERGE_twice.
    + intros _ _. apply MERGE_reconciled.
    + intros Ht. now apply MERGE_NoDup.
  - rewrite orb_true_r. repeat split; auto. intros; congruence.
Qed.
End Generic.


(** A stored row with the same value, one with another value, and a new
    key: one update and one insert the first time, nothing the second. *)
Example upsert_genders_twice :
  let Genders := [ mkGenderRow 1 "MALE"; mkGenderRow 2 "MALE"; mkGenderRow 9 "FEMALE" ] in
  let data := [ (1, "MALE"); (2, "FEMALE"); (3, "FEMALE") ] in
  batch_upsert_genders false 0 data Genders
    = ([ mkGenderRow 1 "MALE"; mkGenderRow 2 "FEMALE"; mkGenderRow 9 "FEMALE";
         mkGenderRow 3 "FEMALE" ], 2) /\
  batch_upsert_genders false 0 data (fst (batch_upsert_genders false 0 data Genders))
    = (fst (batch_upsert_genders false 0 data Genders), 0).
Proof. split; reflexivity. Qed.

Example upsert_languages_twice :
  let Languages := [ mkLanguageRow 1 "isiZulu" None; mkLanguageRow 2 "English" (Some 5) ] in
  let data := [ (2, "Afrikaans"); (3, "Sesotho") ] in
  batch_upsert_languages false 7 data Languages
    = ([ mkLanguageRow 1 "isiZulu" None; mkLanguageRow 2 "Afrikaans" (Some 5);
         mkLanguageRow 3 "Sesotho" (Some 7) ], 2) /\
  batch_upsert_languages false 8 data (fst (batch_upsert_languages false 7 data Languages))
    = (fst (batch_upsert_languages false 7 data Languages), 0).
Proof. split; reflexivity. Qed.

(** A mapping that does not load (a key given twice) or a database fault
    leaves the table alone and reports 0. *)
Example upsert_failure :
  batch_upsert_genders false 0 [ (1, "MALE"); (1, "FEMALE") ] [ mkGenderRow 1 "FEMALE" ]
    = ([ mkGenderRow 1 "FEMALE" ], 0) /\
  batch_upsert_genders true 0 [ (1, "MALE") ] [ mkGenderRow 1 "FEMALE" ]
    = ([ mkGenderRow 1 "FEMALE" ], 0).
Proof. split; reflexivity. Qed.

End UpsertSpec.

(** ** The prediction client *)

Module PredictionSpec.
Import Py Prediction.

Lemma prediction_result_shape item_id p :
  prediction_result item_id p !! "item_id" = Some (VInt item_id) /\
  prediction_result item_id p !! "prediction" = Some (VJson p) /\
  prediction_result item_id p !! "error" = None.
Proof.
  unfold prediction_result. split; [|split].
  - rewrite lookup_insert_ne by discriminate. apply lookup_insert_eq.
  - apply lookup_insert_eq.
  - rewrite !lookup_insert_ne by discriminate. apply lookup_empty.
Qed.

Lemma error_result_shape item_id msg :
  error_result item_id msg !! "item_id" = Some (VInt item_id) /\
  error_result item_id msg !! "error" = Some (VStr msg) /\
  error_result item_id msg !! "prediction" = None.
Proof.
  unfold error_result. split; [|split].
  - rewrite lookup_insert_ne by discriminate. apply lookup_insert_eq.
  - apply lookup_insert_eq.
  - rewrite !lookup_insert_ne by discriminate. apply lookup_empty.
Qed.

Section Client.
Variable json_loads : string -> result payload.
Variable RETRY_ATTEMPTS : nat.
Variable RETRY_DELAY_SECONDS : Z.
Variable service : nat -> reply.
Variable item_id : Z.

Local Abbreviation outcome := (attempt_outcome json_loads service).
Local Abbreviation loop :=
  (retry_loop json_loads RETRY_ATTEMPTS RETRY_DELAY_SECONDS service item_id).

(** What leaves an attempt uncaught is an exception of the call or of
    [json.loads] that is no [Exception]. *)
Lemma attempt_outcome_raised attempt e :
  outcome attempt = Raised e ->
  is_Exception e = false /\
  (service attempt = Fault e \/
   exists raw, service attempt = Response (Some raw) /\ json_loads raw = Raised e).
Proof.
  unfold attempt_outcome, attempt_body.
  destruct (service attempt) as [[raw|]|e0]; [|discriminate|].
  - destruct (json_loads raw) as [p|e1] eqn:Ej; [discriminate|].
    destruct e1 as [|m| |t m]; try (cbn; discriminate).
    destruct (is_Exception (OtherException t m)) eqn:E; [discriminate|].
    intros [= <-]. split; [exact E|]. right. eauto.
  - destruct e0 as [|m| |t m]; try (cbn; discriminate).
    destruct (is_Exception (OtherException t m)) eqn:E; [discriminate|].
    intros [= <-]. split; [exact E|]. now left.
Qed.

(** When every exception of the call and of [json.loads] is an
    [Exception], every attempt ends in a value or an error message. *)
Lemma attempt_outcome_caught attempt :
  (forall a e, service a = Fault e -> is_Exception e = true) ->
  (forall raw e, json_loads raw = Raised e -> is_Exception e = true) ->
  exists o, outcome attempt = Returned o.
Proof.
  intros Hs Hj. destruct (outcome attempt) as [o|e] eqn:E; [eauto|].
  apply attempt_outcome_raised in E as [Hne [Hf|(raw & _ & Hr)]].
  - rewrite (Hs _ _ Hf) in Hne. discriminate.
  - rewrite (Hj _ _ Hr) in Hne. discriminate.
Qed.

(** The loop ends with one of the two result dictionaries, or with the
    exception that left one of its attempts. *)
Lemma retry_loop_outcomes remaining : forall attempt,
  (exists p, fst (loop remaining attempt) = Returned (prediction_result item_id p)) \/
  (exists msg, fst (loop remaining attempt) = Returned (error_result item_id msg)) \/
  (exists e a, fst (loop remaining attempt) = Raised e /\
               (attempt <= a < attempt + remaining)%nat /\ outcome a = Raised e).
Proof.
  induction remaining as [|remaining IH]; intros attempt.
  - right. left. eexists. reflexivity.
  - cbn [retry_loop]. destruct (outcome attempt) as [[p|msg]|e] eqn:E.
    + left. eexists. reflexivity.
    + destruct (attempt <? RETRY_ATTEMPTS - 1)%nat.
      * specialize (IH (S attempt)).
        destruct (loop remaining (S attempt)) as [r evs]. cbn [fst] in *.
        destruct IH as [IH|[IH|(e & a & He & Ha & Hout)]]; [now left | now right; left |].
        right. right. exists e, a. split; [exact He|]. split; [lia | exact Hout].
      * right. left. eexists. reflexivity.
    + right. right. exists e, attempt. split; [reflexivity|]. split; [lia | exact E].
Qed.

(** With exceptions of class [Exception] only, the loop returns. *)
Lemma retry_loop_returns remaining attempt :
  (forall a e, service a = Fault e -> is_Exception e = true) ->
  (forall raw e, json_loads raw = Raised e -> is_Exception e = true) ->
  (exists p, fst (loop remaining attempt) = Returned (prediction_result item_id p)) \/
  (exists msg, fst (loop remaining attempt) = Returned (error_result item_id msg)).
Proof.
  intros Hs Hj.
  destruct (retry_loop_outcomes remaining attempt) as [H|[H|(e & a & _ & _ & E)]];
    [now left | now right |].
  destruct (attempt_outcome_caught a Hs Hj) as [o Ho]. congruence.
Qed.

(** [k] failures followed by a success, all within the ceiling. *)
Lemma retry_loop_succeeds p : forall k attempt remaining,
  (k < remaining)%nat -> (attempt + k < RETRY_ATTEMPTS)%nat ->
  (forall j, (j < k)%nat -> exists msg, outcome (attempt + j) = Returned (inr msg)) ->
  outcome (attempt + k) = Returned (inl p) ->
  loop remaining attempt =
    (Returned (prediction_result item_id p),
     backoff_trace RETRY_DELAY_SECONDS attempt k).
Proof.
  induction k as [|k IH]; intros attempt remaining Hrem Hceil Hfail Hok;
    (destruct remaining as [|remaining]; [lia|]); cbn [retry_loop].
  - rewrite Nat.add_0_r in Hok. rewrite Hok. reflexivity.
  - destruct (Hfail 0%nat ltac:(lia)) as [msg Hmsg].
    rewrite Nat.add_0_r in Hmsg. rewrite Hmsg.
    destruct (Nat.ltb_spec attempt (RETRY_ATTEMPTS - 1)); [|lia].
    rewrite (IH (S attempt) remaining); [reflexivity | lia | lia | |].
    + intros j Hj. replace (S attempt + j)%nat with (attempt + S j)%nat by lia.
      apply Hfail. lia.
    + now replace (S attempt + k)%nat with (attempt + S k)%nat by lia.
Qed.

(** Failure on every attempt up to the last one of the ceiling. *)
Lemma retry_loop_exhausts last_msg : forall k attempt remaining,
  (k < remaining)%nat -> (attempt + k = RETRY_ATTEMPTS - 1)%nat ->
  (forall j, (j < k)%nat -> exists msg, outcome (attempt + j) = Returned (inr msg)) ->
  outcome (attempt + k) = Returned (inr last_msg) ->
  loop remaining attempt =
    (Returned (error_result item_id last_msg),
     backoff_trace RETRY_DELAY_SECONDS attempt k).
Proof.
  induction k as [|k IH]; intros attempt remaining Hrem Hceil Hfail Hlast;
    (destruct remaining as [|remaining]; [lia|]); cbn [retry_loop].
  - rewrite Nat.add_0_r in Hlast. rewrite Hlast.
    destruct (Nat.ltb_spec attempt (RETRY_ATTEMPTS - 1)); [lia | reflexivity].
  - destruct (Hfail 0%nat ltac:(lia)) as [msg Hmsg].
    rewrite Nat.add_0_r in Hmsg. rewrite Hmsg.
    destruct (Nat.ltb_spec attempt (RETRY_ATTEMPTS - 1)); [|lia].
    rewrite (IH (S attempt) remaining); [reflexivity | lia | lia | |].
    + intros j Hj. replace (S attempt + j)%nat with (attempt + S j)%nat by lia.
      apply Hfail. lia.
    + now replace (S attempt + k)%nat with (attempt + S k)%nat by lia.
Qed.

(** [k] failures followed by an exception that is not caught: the
    coroutine is left by it, after the call that raised it. *)
Lemma retry_loop_raises e : forall k attempt remaining,
  (k < remaining)%nat -> (attempt + k < RETRY_ATTEMPTS)%nat ->
  (forall j, (j < k)%nat -> exists msg, outcome (attempt + j) = Returned (inr msg)) ->
  outcome (attempt + k) = Raised e ->
  loop remaining attempt = (Raised e, backoff_trace RETRY_DELAY_SECONDS attempt k).
Proof.
  induction k as [|k IH]; intros attempt remaining Hrem Hceil Hfail Hraise;
    (destruct remaining as [|remaining]; [lia|]); cbn [retry_loop].
  - rewrite Nat.add_0_r in Hraise. rewrite Hraise. reflexivity.
  - destruct (Hfail 0%nat ltac:(lia)) as [msg Hmsg].
    rewrite Nat.add_0_r in Hmsg. rewrite Hmsg.
    destruct (Nat.ltb_spec attempt (RETRY_ATTEMPTS - 1)); [|lia].
    rewrite (IH (S attempt) remaining); [reflexivity | lia | lia | |].
    + intros j Hj. replace (S attempt + j)%nat with (attempt + S j)%nat by lia.
      apply Hfail. lia.
    + now replace (S attempt + k)%nat with (attempt + S k)%nat by lia.
Qed.
End Client.


(** The coroutine ends with one of its two result dictionaries, or is
    left by an exception of one of its attempts that is no [Exception]. *)
Lemma get_person_prediction_async_outcomes (json_loads : string -> result payload)
    (async_client : bool) (RETRY_ATTEMPTS : nat) (RETRY_DELAY_SECONDS : Z)
    (service : nat -> reply) (first_name last_name : string) (item_id : Z) :
  let run := get_person_prediction_async json_loads async_client RETRY_ATTEMPTS
               RETRY_DELAY_SECONDS service first_name last_name item_id in
  (exists p, fst run = Returned (prediction_result item_id p)) \/
  (exists msg, fst run = Returned (error_result item_id msg)) \/
  (exists e a, fst run = Raised e /\ (a < RETRY_ATTEMPTS)%nat /\
               attempt_outcome json_loads service a = Raised e /\
               async_client = true /\ falsy first_name || falsy last_name = false).
Proof.
  cbv zeta. unfold get_person_prediction_async.
  destruct async_client; simpl negb; cbv iota; [|right; left; eexists; reflexivity].
  destruct (falsy first_name || falsy last_name); [right; left; eexists; reflexivity|].
  destruct (retry_loop_outcomes json_loads RETRY_ATTEMPTS RETRY_DELAY_SECONDS service
              item_id RETRY_ATTEMPTS 0) as [H|[H|(e & a & He & Ha & Hout)]];
    [now left | now right; left |].
  right. right. exists e, a. repeat split; auto. lia.
Qed.


(** A cancelled call: the first attempt raises [CancelledError], which
    [except Exception] does not catch. *)
Example cancelled_call :
  get_person_prediction_async (fun _ => Returned JOther) true 3 5
    (fun _ => Fault (OtherException "CancelledError" "")) "Thabo" "Mokoena" 7
  = (Raised (OtherException "CancelledError" ""), [ApiCall 0]).
Proof. reflexivity. Qed.

(** It is not the case that a unit that fails on every attempt makes the
    envelope return an error result. *)
Lemma retry_envelope_not_for_cancellation :
  ~ (forall (json_loads : string -> result payload) (RETRY_DELAY_SECONDS : Z)
            (service : nat -> reply) (first_name last_name : string) (item_id : Z),
       falsy first_name = false -> falsy last_name = false ->
       (forall a, (a < 3)%nat -> exists e, service a = Fault e) ->
       exists d,
         fst (get_person_prediction_async json_loads true 3 RETRY_DELAY_SECONDS
                service first_name last_name item_id) = Returned d).
Proof.
  intros H.
  destruct (H (fun _ => Returned JOther) 5
              (fun _ => Fault (OtherException "CancelledError" ""))
              "Thabo" "Mokoena" 7 eq_refl eq_refl) as [d Hd].
  - intros a _. eauto.
  - discriminate Hd.
Qed.

(** It is not the case that the coroutine returns on every input. *)
Lemma get_person_prediction_async_raises :
  ~ (forall (json_loads : string -> result payload) (async_client : bool)
            (RETRY_ATTEMPTS : nat) (RETRY_DELAY_SECONDS : Z) (service : nat -> reply)
            (first_name last_name : string) (item_id : Z),
       exists d,
         fst (get_person_prediction_async json_loads async_client RETRY_ATTEMPTS
                RETRY_DELAY_SECONDS service first_name last_name item_id)
           = Returned d /\
         d !! "item_id" = Some (VInt item_id) /\ one_outcome d).
Proof.
  intros H.
  destruct (H (fun _ => Returned JOther) true 3%nat 5
              (fun _ => Fault (OtherException "KeyboardInterrupt" ""))
              "Thabo" "Mokoena" 7) as (d & Hd & _).
  discriminate Hd.
Qed.


(** Two transient failures, then a success on the third attempt. *)
Example retry_then_success :
  get_person_prediction_async
    (fun raw => if String.eqb raw "payload"
                then Returned (JObject (Some "MALE") (Some "isiZulu"))
                else Raised (JSONDecodeError "Expecting value"))
    true 3 5
    (fun attempt => match attempt with
                    | 0%nat => Fault (OtherException "APITimeoutError" "Request timed out.")
                    | 1%nat => Response None
                    | _ => Response (Some "payload")
                    end)
    "Thabo" "Mokoena" 7
  = (Returned (prediction_result 7 (JObject (Some "MALE") (Some "isiZulu"))),
     [ApiCall 0; AwaitSleep 5; ApiCall 1; AwaitSleep 10; ApiCall 2]).
Proof. reflexivity. Qed.

(** Three failures: the error of the last attempt is returned. *)
Example retry_exhausted :
  get_person_prediction_async
    (fun _ => Raised (JSONDecodeError "Expecting value"))
    true 3 5
    (fun attempt => match attempt with
                    | 0%nat => Fault (OtherException "APITimeoutError" "Request timed out.")
                    | 1%nat => Response None
                    | _ => Response (Some "oops")
                    end)
    "Thabo" "Mokoena" 7
  = (Returned (error_result 7 "JSONDecodeError: Expecting value. Raw: oops"),
     [ApiCall 0; AwaitSleep 5; ApiCall 1; AwaitSleep 10; ApiCall 2]).
Proof. reflexivity. Qed.

Example missing_name_makes_no_call :
  get_person_prediction_async (fun _ => Returned JOther) true 3 5
    (fun _ => Response (Some "payload")) "" "Mokoena" 7
  = (Returned (error_result 7 "Missing first name or last name."), []).
Proof. reflexivity. Qed.

End PredictionSpec.


(** ** The chunked fan-out *)

Module SchedulerSpec.
Import Py Scheduler.

Lemma in_flight_app tr1 : forall cur tr2,
  in_flight cur (tr1 ++ tr2) = in_flight (in_flight cur tr1) tr2.
Proof.
  induction tr1 as [|[t|t|s] tr1 IH]; intros cur tr2; simpl; auto.
Qed.

Lemma peak_app tr1 : forall cur tr2,
  peak cur (tr1 ++ tr2) = Nat.max (peak cur tr1) (peak (in_flight cur tr1) tr2).
Proof.
  induction tr1 as [|[t|t|s] tr1 IH]; intros cur tr2; simpl.
  - assert (cur <= peak cur tr2)%nat; [|lia].
    destruct tr2 as [|[t|t|s] tr2]; simpl; lia.
  - rewrite IH. lia.
  - rewrite IH. lia.
  - rewrite IH. lia.
Qed.

Lemma in_flight_starts ids : forall cur,
  in_flight cur (List.map Start ids) = (cur + length ids)%nat.
Proof.
  induction ids as [|i ids IH]; intros cur; simpl; [lia|]. rewrite IH. lia.
Qed.

Lemma peak_starts ids : forall cur,
  peak cur (List.map Start ids) = (cur + length ids)%nat.
Proof.
  induction ids as [|i ids IH]; intros cur; simpl; [lia|]. rewrite IH. lia.
Qed.

Lemma in_flight_settles ids : forall cur,
  in_flight cur (List.map Settle ids) = (cur - length ids)%nat.
Proof.
  induction ids as [|i ids IH]; intros cur; simpl; [lia|]. rewrite IH. lia.
Qed.

Lemma peak_settles ids : forall cur,
  peak cur (List.map Settle ids) = cur.
Proof.
  induction ids as [|i ids IH]; intros cur; simpl; [lia|]. rewrite IH. lia.
Qed.

Lemma settle_order_length latency ids :
  length (settle_order latency ids) = length ids.
Proof.
  unfold settle_order. apply Permutation_length, merge_sort_Permutation.
Qed.

Lemma settle_order_perm latency ids : settle_order latency ids ≡ₚ ids.
Proof. unfold settle_order. apply merge_sort_Permutation. Qed.

(** Groups run one after the other: nothing is in flight at the end, and
    never more than the size of the largest group. *)
Lemma group_trace_bounded {T} latency C (groups : list (list T)) : forall offset,
  Forall (fun g => (length g <= C)%nat) groups ->
  in_flight 0 (group_trace latency offset groups) = 0%nat /\
  (peak 0 (group_trace latency offset groups) <= C)%nat.
Proof.
  induction groups as [|g rest IH]; intros offset Hall; simpl.
  - split; lia.
  - apply Forall_cons in Hall as [Hg Hrest].
    destruct (IH (offset + length g)%nat Hrest) as [IHf IHp].
    set (ids := seq offset (length g)).
    assert (Hlen : length ids = length g) by apply length_seq.
    assert (Hgroup : in_flight 0 (List.map Start ids
                        ++ List.map Settle (settle_order latency ids)) = 0%nat).
    { rewrite in_flight_app, in_flight_starts, in_flight_settles,
        settle_order_length. lia. }
    assert (Hpause : forall tr,
               in_flight 0 ((match rest with [] => [] | _ => [Pause 1] end) ++ tr)
                 = in_flight 0 tr /\
               peak 0 ((match rest with [] => [] | _ => [Pause 1] end) ++ tr)
                 = peak 0 tr).
    { intros tr. destruct rest; simpl; split; lia. }
    split.
    + rewrite in_flight_app, Hgroup. rewrite (proj1 (Hpause _)). exact IHf.
    + rewrite peak_app, Hgroup, (proj2 (Hpause _)).
      rewrite peak_app, peak_starts, in_flight_starts, peak_settles. lia.
Qed.

Lemma skipn_skipn_add {T} (l : list T) a b :
  skipn a (skipn b l) = skipn (b + a) l.
Proof.
  revert l. induction b as [|b IH]; intros l; [reflexivity|].
  destruct l as [|x l]; simpl; [now rewrite skipn_nil | apply IH].
Qed.

Lemma range_step_pos stop step :
  (1 <= step)%nat ->
  range_step stop step =
    Returned (List.map (fun k => (k * step)%nat) (seq 0 ((stop + step - 1) / step))).
Proof. destruct step; [lia | reflexivity]. Qed.

Lemma In_firstn {T} n (l : list T) x : In x (firstn n l) -> In x l.
Proof. rewrite <- !list_elem_of_In. apply subseteq_take. Qed.

Lemma In_skipn {T} (l : list T) n x : In x (skipn n l) -> In x l.
Proof. rewrite <- !list_elem_of_In. apply subseteq_drop. Qed.

Lemma gather_returns {T A} (run : T -> result A) (chunk : list T) :
  Forall (fun t => exists a, run t = Returned a) chunk ->
  exists rs, gather (List.map run chunk) = Returned rs /\
             Forall2 (fun t r => run t = Returned r) chunk rs.
Proof.
  induction 1 as [|t chunk [a Ha] _ (rs & Hg & HF)].
  - exists []. split; [reflexivity | constructor].
  - exists (a :: rs). simpl. rewrite Ha, Hg.
    split; [reflexivity | now constructor].
Qed.

(** [gather] is left with the exception of the first task, in the order
    of the arguments, that raises. *)
Lemma gather_raises {T A} (run : T -> result A) (pre : list T) t post e :
  Forall (fun t => exists a, run t = Returned a) pre ->
  run t = Raised e ->
  gather (List.map run (pre ++ t :: post)) = Raised e.
Proof.
  intros Hpre Ht. induction Hpre as [|x pre [a Ha] _ IH]; cbn.
  - now rewrite Ht.
  - now rewrite Ha, IH.
Qed.

Section Cover.
Context {T : Type}.
Variable C : nat.
Variable tasks : list T.
Hypothesis C_pos : (1 <= C)%nat.

Local Abbreviation chunk_at := (fun i => firstn C (skipn i tasks)).
Local Abbreviation starts_from := (fun k0 m => List.map (fun k => (k * C)%nat) (seq k0 m)).
Local Abbreviation cov := (covers C tasks).

Lemma covers_step k0 m : cov k0 (S m) -> cov (S k0) m.
Proof.
  unfold covers. intros [H1 H2]. split; [lia|]. intros Hm. specialize (H2 ltac:(lia)).
  replace (S k0 + m - 1)%nat with (k0 + S m - 1)%nat by lia. exact H2.
Qed.

Lemma covers_chunk_length k0 m :
  cov k0 (S m) ->
  (1 <= length (chunk_at (k0 * C)%nat) <= C)%nat /\
  ((1 <= m)%nat -> length (chunk_at (k0 * C)%nat) = C) /\
  ((C <? length tasks)%nat && (k0 * C + C <? length tasks)%nat = negb (m =? 0)%nat).
Proof.
  unfold covers. intros [H1 H2]. specialize (H2 ltac:(lia)).
  rewrite length_firstn, length_skipn.
  assert (Hk : (k0 * C < length tasks)%nat) by nia.
  split; [lia|]. split.
  - intros Hm. assert ((k0 + 1) * C <= (k0 + S m - 1) * C)%nat by nia. lia.
  - destruct m as [|m]; simpl.
    + apply andb_false_iff. right. apply Nat.ltb_ge. lia.
    + assert ((k0 + 1) * C <= (k0 + S (S m) - 1) * C)%nat by nia.
      apply andb_true_iff. split; apply Nat.ltb_lt; nia.
Qed.

Lemma covers_all : cov 0 ((length tasks + C - 1) / C).
Proof.
  unfold covers.
  pose proof (Nat.div_mod (length tasks + C - 1) C ltac:(lia)) as Hdm.
  pose proof (Nat.mod_upper_bound (length tasks + C - 1) C ltac:(lia)) as Hub.
  set (M := ((length tasks + C - 1) / C)%nat) in *.
  split; [nia|]. intros HM. nia.
Qed.

Lemma chunks_concat m : forall k0,
  cov k0 m ->
  concat (List.map chunk_at (starts_from k0 m)) = skipn (k0 * C) tasks /\
  Forall (fun g => (1 <= length g <= C)%nat) (List.map chunk_at (starts_from k0 m)).
Proof.
  induction m as [|m IH]; intros k0 Hc.
  - simpl. split; [|constructor]. symmetry. apply skipn_all2.
    destruct Hc as [H1 _]. lia.
  - destruct (IH (S k0) (covers_step _ _ Hc)) as [IHc IHf].
    destruct (covers_chunk_length _ _ Hc) as (Hl & _ & _).
    cbn [seq List.map concat]. split.
    + rewrite IHc. replace (S k0 * C)%nat with (k0 * C + C)%nat by lia.
      rewrite <- skipn_skipn_add. apply firstn_skipn.
    + constructor; assumption.
Qed.
End Cover.

Section Chunks.
Context {T A : Type}.
Variable run : T -> result A.
Variable latency : nat -> Z.
Variable C : nat.
Variable tasks : list T.
Hypothesis C_pos : (1 <= C)%nat.
Hypothesis run_returns : Forall (fun t => exists a, run t = Returned a) tasks.

Local Abbreviation chunk_at := (fun i => firstn C (skipn i tasks)).
Local Abbreviation starts_from := (fun k0 m => List.map (fun k => (k * C)%nat) (seq k0 m)).
Local Abbreviation cov := (covers C tasks).

Lemma chunk_returns i : Forall (fun t => exists a, run t = Returned a) (chunk_at i).
Proof.
  apply List.Forall_forall. intros t Ht.
  apply (proj1 (List.Forall_forall _ _) run_returns).
  apply (In_skipn tasks i), (In_firstn C). exact Ht.
Qed.

(** The loop over the remaining chunks: it returns, with the results of the
    remaining tasks appended in order, and its trace is that of running the
    remaining chunks one after the other. *)
Lemma for_chunks_spec m : forall k0 acc,
  cov k0 m ->
  exists rs,
    Forall2 (fun t r => run t = Returned r) (skipn (k0 * C) tasks) rs /\
    for_chunks run latency C tasks (starts_from k0 m) acc =
      (Returned (acc ++ rs)%list,
       group_trace latency (k0 * C) (List.map chunk_at (starts_from k0 m))).
Proof.
  induction m as [|m IH]; intros k0 acc Hc.
  - exists []. destruct Hc as [H1 _]. rewrite skipn_all2 by lia.
    split; [constructor|]. simpl. now rewrite app_nil_r.
  - destruct (covers_chunk_length C tasks C_pos _ _ Hc) as (Hl & HlC & Hpause).
    destruct (gather_returns run (chunk_at (k0 * C)%nat) (chunk_returns _))
      as (rs1 & Hg & HF1).
    destruct (IH (S k0) (acc ++ rs1)%list (covers_step C tasks C_pos _ _ Hc))
      as (rs2 & HF2 & Hrec).
    exists (rs1 ++ rs2)%list. split.
    + rewrite <- (firstn_skipn C (skipn (k0 * C) tasks)).
      apply Forall2_app; [exact HF1|].
      rewrite skipn_skipn_add. now replace (k0 * C + C)%nat with (S k0 * C)%nat by lia.
    + cbn [seq List.map for_chunks group_trace]. rewrite Hg, Hpause, Hrec.
      rewrite <- app_assoc. f_equal.
      destruct m as [|m]; [reflexivity|].
      rewrite (HlC ltac:(lia)).
      replace (k0 * C + C)%nat with (S k0 * C)%nat by lia. reflexivity.
Qed.
End Chunks.

(** When a task raises and those before it return, the loop is left at
    the chunk of that task: the chunks before it have run, its own chunk
    has been started, and no later chunk is admitted. *)
Section Raise.
Context {T A : Type}.
Variable run : T -> result A.
Variable latency : nat -> Z.
Variable C : nat.
Variable before : list T.
Variable t : T.
Variable after : list T.
Variable e : exn.
Hypothesis C_pos : (1 <= C)%nat.
Hypothesis before_return : Forall (fun t => exists a, run t = Returned a) before.
Hypothesis t_raises : run t = Raised e.

Local Abbreviation tasks := (before ++ t :: after)%list.
Local Abbreviation chunk_at := (fun i => firstn C (skipn i tasks)).
Local Abbreviation starts_from := (fun k0 m => List.map (fun k => (k * C)%nat) (seq k0 m)).

Lemma for_chunks_raises m : forall k0 acc,
  covers C tasks k0 m -> (k0 * C <= length before)%nat ->
  for_chunks run latency C tasks (starts_from k0 m) acc =
    (Raised e,
     group_trace latency (k0 * C)
       (List.map chunk_at (starts_from k0 (S (length before / C) - k0)%nat))).
Proof.
  induction m as [|m IH]; intros k0 acc Hc Hk0.
  - exfalso. destruct Hc as [H1 _]. rewrite length_app in H1. cbn [length] in H1. lia.
  - destruct (covers_chunk_length C tasks C_pos _ _ Hc) as (Hl & HlC & Hpause).
    cbn [seq List.map for_chunks].
    destruct (Nat.lt_ge_cases (length before) (k0 * C + C)) as [Hin|Hout].
    + (* the task that raises is in this chunk *)
      assert (Hq : (length before / C = k0)%nat).
      { symmetry. apply (Nat.div_unique _ _ _ (length before - k0 * C)); lia. }
      rewrite Hq. replace (S k0 - k0)%nat with 1%nat by lia.
      cbn [seq List.map group_trace]. rewrite !app_nil_r.
      assert (Hchunk : chunk_at (k0 * C)%nat =
                (skipn (k0 * C) before
                   ++ t :: firstn (C - S (length before - k0 * C)) after)%list).
      { rewrite skipn_app.
        replace (k0 * C - length before)%nat with 0%nat by lia. cbn [skipn].
        rewrite firstn_app, length_skipn.
        rewrite (firstn_all2 (skipn (k0 * C) before)) by (rewrite length_skipn; lia).
        f_equal.
        destruct (C - (length before - k0 * C))%nat as [|n] eqn:En; [lia|].
        cbn [firstn]. f_equal. f_equal. lia. }
      rewrite Hchunk at 1.
      rewrite (gather_raises run _ t _ e); [reflexivity | | exact t_raises].
      apply List.Forall_forall. intros x Hx.
      apply (proj1 (List.Forall_forall _ _) before_return).
      now apply (In_skipn before (k0 * C)).
    + (* this chunk lies before it *)
      assert (Hq : (S k0 <= length before / C)%nat).
      { apply Nat.div_le_lower_bound; lia. }
      assert (Hthis : Forall (fun t => exists a, run t = Returned a) (chunk_at (k0 * C)%nat)).
      { apply List.Forall_forall. intros x Hx.
        apply (proj1 (List.Forall_forall _ _) before_return).
        rewrite skipn_app in Hx.
        replace (k0 * C - length before)%nat with 0%nat in Hx by lia. cbn [skipn] in Hx.
        rewrite firstn_app, length_skipn in Hx.
        replace (C - (length before - k0 * C))%nat with 0%nat in Hx by lia.
        cbn [firstn] in Hx. rewrite app_nil_r in Hx.
        apply In_firstn in Hx. now apply (In_skipn before (k0 * C)). }
      destruct (gather_returns run _ Hthis) as (rs & Hg & _). rewrite Hg.
      assert (Hm : (1 <= m)%nat).
      { destruct Hc as [H1 _]. rewrite length_app in H1. cbn [length] in H1.
        destruct m; [nia | lia]. }
      rewrite Hpause.
      rewrite (IH (S k0) (acc ++ rs)%list (covers_step C tasks C_pos _ _ Hc)) by lia.
      replace (S (length before / C) - k0)%nat
        with (S (S (length before / C) - S k0))%nat by lia.
      cbn [seq List.map group_trace].
      destruct m as [|m]; [lia|]. cbn [Nat.eqb negb].
      rewrite (HlC ltac:(lia)).
      replace (k0 * C + C)%nat with (S k0 * C)%nat by lia.
      destruct (S (length before / C) - S k0)%nat as [|n] eqn:En; [lia|].
      cbn [seq List.map]. now rewrite <- app_assoc.
Qed.

Lemma run_in_chunks_raises :
  run_in_chunks run latency C tasks =
    (Raised e,
     group_trace latency 0 (firstn (S (length before / C))%nat (chunks C tasks))).
Proof.
  unfold run_in_chunks, chunks. rewrite (range_step_pos _ C C_pos).
  pose proof (covers_all C tasks C_pos) as Hcov.
  set (M := ((length tasks + C - 1) / C)%nat) in *.
  rewrite (for_chunks_raises M 0%nat [] Hcov) by lia.
  rewrite Nat.sub_0_r. cbn [Nat.mul]. f_equal. f_equal.
  rewrite !List.firstn_map, take_seq.
  assert (Hlt : (length before / C < M)%nat).
  { destruct Hcov as [H1 _]. rewrite length_app in H1. cbn [length] in H1.
    cbn [Nat.add] in H1. apply Nat.Div0.div_lt_upper_bound. nia. }
  now rewrite Nat.min_l by lia.
Qed.
End Raise.

(** Either every task returns, or there is a first one that raises. *)
Lemma first_raise {T A} (run : T -> result A) (tasks : list T) :
  Forall (fun t => exists a, run t = Returned a) tasks \/
  exists before t after e,
    tasks = (before ++ t :: after)%list /\
    Forall (fun t => exists a, run t = Returned a) before /\ run t = Raised e.
Proof.
  induction tasks as [|t tasks IH]; [left; constructor|].
  destruct (run t) as [a|e] eqn:E.
  - destruct IH as [IH|(before & t' & after & e & -> & Hb & Ht)].
    + left. constructor; eauto.
    + right. exists (t :: before), t', after, e.
      split; [reflexivity|]. split; [constructor; eauto | exact Ht].
  - right. exists [], t, tasks, e. split; [reflexivity|]. split; [constructor | exact E].
Qed.

(** A fan-out that returns has run every task to its result. *)
Lemma run_in_chunks_returned {T A} (run : T -> result A) latency C (tasks : list T) rs :
  (1 <= C)%nat -> fst (run_in_chunks run latency C tasks) = Returned rs ->
  Forall2 (fun t r => run t = Returned r) tasks rs /\
  snd (run_in_chunks run latency C tasks) = group_trace latency 0 (chunks C tasks).
Proof.
  intros HC Hrs.
  destruct (first_raise run tasks) as [Hret|(before & t & after & e & -> & Hb & Ht)].
  - pose proof (covers_all C tasks HC) as Hcov.
    destruct (for_chunks_spec run latency C tasks HC Hret _ 0%nat [] Hcov)
      as (rs' & HF & Hrun).
    unfold run_in_chunks, chunks in *. rewrite (range_step_pos _ C HC) in *.
    rewrite Hrun in *. cbn [fst snd List.app Nat.mul skipn] in *.
    injection Hrs as <-. auto.
  - rewrite (run_in_chunks_raises run latency C before t after e HC Hb Ht) in Hrs.
    discriminate.
Qed.

(** A fan-out that raises does so with the exception of one of its
    tasks. *)
Lemma run_in_chunks_raised {T A} (run : T -> result A) latency C (tasks : list T) e :
  (1 <= C)%nat -> fst (run_in_chunks run latency C tasks) = Raised e ->
  exists t, In t tasks /\ run t = Raised e.
Proof.
  intros HC Hrun.
  destruct (first_raise run tasks) as [Hret|(before & t & after & e' & -> & Hb & Ht)].
  - pose proof (covers_all C tasks HC) as Hcov.
    destruct (for_chunks_spec run latency C tasks HC Hret _ 0%nat [] Hcov)
      as (rs' & HF & Hrun').
    unfold run_in_chunks in Hrun. rewrite (range_step_pos _ C HC), Hrun' in Hrun.
    discriminate.
  - rewrite (run_in_chunks_raises run latency C before t after e' HC Hb Ht) in Hrun.
    injection Hrun as <-. exists t. split; [|exact Ht].
    apply in_or_app. right. now left.
Qed.

(** *** What a trace starts, settles and pauses *)

Lemma started_app tr1 tr2 :
  FanoutTrace.started (tr1 ++ tr2)
  = (FanoutTrace.started tr1 ++ FanoutTrace.started tr2)%list.
Proof. apply omap_app. Qed.

Lemma settled_app tr1 tr2 :
  FanoutTrace.settled (tr1 ++ tr2)
  = (FanoutTrace.settled tr1 ++ FanoutTrace.settled tr2)%list.
Proof. apply omap_app. Qed.

Lemma paused_app tr1 tr2 :
  FanoutTrace.paused (tr1 ++ tr2)
  = (FanoutTrace.paused tr1 ++ FanoutTrace.paused tr2)%list.
Proof. apply omap_app. Qed.

Lemma events_of_starts ids :
  FanoutTrace.started (List.map Start ids) = ids /\
  FanoutTrace.settled (List.map Start ids) = [] /\
  FanoutTrace.paused (List.map Start ids) = [].
Proof.
  induction ids as [|i ids (IH1 & IH2 & IH3)]; [auto|].
  cbn [List.map]. unfold FanoutTrace.started, FanoutTrace.settled, FanoutTrace.paused in *.
  cbn [omap list_omap]. now rewrite IH1, IH2, IH3.
Qed.

Lemma events_of_settles ids :
  FanoutTrace.started (List.map Settle ids) = [] /\
  FanoutTrace.settled (List.map Settle ids) = ids /\
  FanoutTrace.paused (List.map Settle ids) = [].
Proof.
  induction ids as [|i ids (IH1 & IH2 & IH3)]; [auto|].
  cbn [List.map]. unfold FanoutTrace.started, FanoutTrace.settled, FanoutTrace.paused in *.
  cbn [omap list_omap]. now rewrite IH1, IH2, IH3.
Qed.

(** The events of running groups one after the other. *)
Lemma group_trace_events {T} latency (groups : list (list T)) : forall offset,
  FanoutTrace.started (group_trace latency offset groups)
    = seq offset (length (concat groups)) /\
  FanoutTrace.settled (group_trace latency offset groups)
    ≡ₚ seq offset (length (concat groups)) /\
  FanoutTrace.paused (group_trace latency offset groups) = repeat 1 (length groups - 1).
Proof.
  induction groups as [|g rest IH]; intros offset; [cbn; auto|].
  cbn [group_trace concat]. destruct (IH (offset + length g)%nat) as (IH1 & IH2 & IH3).
  destruct (events_of_starts (seq offset (length g))) as (S1 & S2 & S3).
  destruct (events_of_settles (settle_order latency (seq offset (length g))))
    as (E1 & E2 & E3).
  rewrite List.length_app, seq_app.
  rewrite !started_app, !settled_app, !paused_app, S1, S2, S3, E1, E2, E3, IH1, IH3.
  split; [|split].
  - destruct rest; cbn; now rewrite !List.app_nil_r.
  - cbn [List.app]. apply Permutation_app.
    + apply settle_order_perm.
    + destruct rest; cbn [FanoutTrace.settled omap list_omap List.app]; exact IH2.
  - destruct rest as [|g' rest]; [reflexivity|].
    simpl. now rewrite Nat.sub_0_r.
Qed.

(** *** The coroutines of the driver *)

Lemma coroutine_outcomes json_loads cfg w t :
  (exists d, Driver.coroutine json_loads cfg w t = Returned d) \/
  (exists e, Driver.coroutine json_loads cfg w t = Raised e /\ is_Exception e = false).
Proof.
  destruct t as [pos [[first_name last_name] item_id]]. unfold Driver.coroutine.
  pose proof (PredictionSpec.get_person_prediction_async_outcomes json_loads true
                (Driver.RETRY_ATTEMPTS cfg) (Driver.RETRY_DELAY_SECONDS cfg)
                (Driver.service w pos) first_name last_name item_id) as H.
  cbv zeta in H.
  destruct H as [[p Hp]|[[msg Hm]|(e & a & He & _ & Hout & _)]]; [eauto..|].
  right. exists e. split; [exact He|].
  now apply (PredictionSpec.attempt_outcome_raised json_loads (Driver.service w pos) a e).
Qed.

Lemma coroutine_returns json_loads cfg w t :
  Driver.uninterrupted json_loads w ->
  exists d, Driver.coroutine json_loads cfg w t = Returned d.
Proof.
  intros Hw. destruct t as [pos [[first_name last_name] item_id]]. unfold Driver.coroutine.
  destruct (Hw pos) as [Hs Hj].
  pose proof (PredictionSpec.get_person_prediction_async_outcomes json_loads true
                (Driver.RETRY_ATTEMPTS cfg) (Driver.RETRY_DELAY_SECONDS cfg)
                (Driver.service w pos) first_name last_name item_id) as H.
  cbv zeta in H.
  destruct H as [[p Hp]|[[msg Hm]|(e & a & He & _ & Hout & _)]]; [eauto..|].
  destruct (PredictionSpec.attempt_outcome_caught json_loads (Driver.service w pos) a Hs Hj)
    as [o Ho]. congruence.
Qed.

Lemma tasks_return json_loads cfg w (tasks : list (nat * (string * string * Z))) :
  Driver.uninterrupted json_loads w ->
  Forall (fun t => exists d, Driver.coroutine json_loads cfg w t = Returned d) tasks.
Proof.
  intros Hw. apply List.Forall_forall. intros t _. now apply coroutine_returns.
Qed.



(** Five tasks under a ceiling of two: three groups, two pauses; within a
    group the later task settles first here, the results keep their order. *)
Example fanout_of_five :
  chunks 2 Samples.five_tasks
    = [ [ (0%nat, ("A", "B", 1)); (1%nat, ("C", "D", 2)) ];
        [ (2%nat, ("E", "F", 3)); (3%nat, ("G", "H", 4)) ];
        [ (4%nat, ("I", "J", 5)) ] ] /\
  snd (run_in_chunks (Driver.coroutine Samples.json_loads Samples.config Samples.calm)
         (Driver.latency Samples.calm) 2 Samples.five_tasks)
    = [ Start 0; Start 1; Settle 1; Settle 0; Pause 1;
        Start 2; Start 3; Settle 3; Settle 2; Pause 1;
        Start 4; Settle 4 ].
Proof. split; reflexivity. Qed.

Example fanout_single_group :
  snd (run_in_chunks (Driver.coroutine Samples.json_loads Samples.config Samples.calm)
         (Driver.latency Samples.calm) 2000 Samples.five_tasks)
    = [ Start 0; Start 1; Start 2; Start 3; Start 4;
        Settle 4; Settle 3; Settle 2; Settle 1; Settle 0 ].
Proof. vm_compute. reflexivity. Qed.

(** The call of the second task is cancelled: the fan-out is left by the
    cancellation, and the three tasks of the later groups are never
    started. *)
Example fanout_cancelled :
  let run := run_in_chunks
               (Driver.coroutine Samples.json_loads Samples.config Samples.cancelled_second)
               (Driver.latency Samples.cancelled_second) 2 Samples.five_tasks in
  fst run = Raised (OtherException "CancelledError" "") /\
  FanoutTrace.started (snd run) = [0; 1]%nat.
Proof. split; vm_compute; reflexivity. Qed.

(** It is not the case that every task reaches a terminal outcome. *)
Lemma fanout_stops_at_raise :
  ~ (forall (json_loads : string -> result Prediction.payload) (cfg : Driver.Config)
            (w : Driver.World) (C : nat) (tasks : list (nat * (string * string * Z))),
       (1 <= C)%nat ->
       let run := run_in_chunks (Driver.coroutine json_loads cfg w)
                    (Driver.latency w) C tasks in
       FanoutTrace.settled (snd run) ≡ₚ seq 0 (length tasks) /\
       exists api_results,
         fst run = Returned api_results /\
         Forall2 (fun t r => Driver.coroutine json_loads cfg w t = Returned r)
                 tasks api_results).
Proof.
  intros H.
  destruct (H Samples.json_loads Samples.config Samples.cancelled_second 2%nat
              Samples.five_tasks ltac:(lia)) as (_ & rs & Hrs & _).
  vm_compute in Hrs. discriminate Hrs.
Qed.

End SchedulerSpec.


(** ** The pipeline driver *)

Module DriverSpec.
Import Py Upsert Prediction Driver.

Global Instance by_Id_total : Total by_Id.
Proof. intros a b. unfold by_Id. lia. Qed.

Global Instance by_Id_trans : Transitive by_Id.
Proof. intros a b c. unfold by_Id. lia. Qed.

Lemma filter_nil_inv {A} (f : A -> bool) l x :
  List.filter f l = [] -> In x l -> f x = false.
Proof.
  intros Hnil Hin. destruct (f x) eqn:E; [|reflexivity].
  assert (Hx : In x (List.filter f l)) by (apply filter_In; auto).
  rewrite Hnil in Hx. destruct Hx.
Qed.

(** A joined row is the master item itself, and the item lacks a gender row
    or a language row. *)
Lemma joined_sound db mi row :
  In row (joined db mi) -> row = mi /\ missing_attribute db (Id mi).
Proof.
  unfold joined, missing_attribute.
  destruct (List.filter _ (Genders db)) as [|g gs] eqn:Eg;
    destruct (List.filter _ (Languages db)) as [|l ls] eqn:El; intros Hin.
  - destruct Hin as [<-|[]]. split; [reflexivity|]. left. intros g Hg E.
    apply list_elem_of_In in Hg.
    pose proof (filter_nil_inv _ _ g Eg Hg) as Hf. simpl in Hf. lia.
  - apply in_map_iff in Hin as (x & <- & _). split; [reflexivity|]. left.
    intros g Hg E. apply list_elem_of_In in Hg.
    pose proof (filter_nil_inv _ _ g Eg Hg) as Hf. simpl in Hf. lia.
  - apply in_map_iff in Hin as (x & <- & _). split; [reflexivity|]. right.
    intros l Hl E. apply list_elem_of_In in Hl.
    pose proof (filter_nil_inv _ _ l El Hl) as Hf. simpl in Hf. lia.
  - destruct Hin.
Qed.

Lemma joined_complete db mi :
  missing_attribute db (Id mi) -> In mi (joined db mi).
Proof.
  unfold joined, missing_attribute. intros Hmiss.
  destruct (List.filter _ (Genders db)) as [|g gs] eqn:Eg;
    destruct (List.filter _ (Languages db)) as [|l ls] eqn:El.
  - now left.
  - now left.
  - now left.
  - exfalso. destruct Hmiss as [Hm|Hm].
    + assert (Hg : In g (List.filter (fun r => Z.eqb (Id mi) (g_MasterItemId r)) (Genders db)))
        by (rewrite Eg; now left).
      apply filter_In in Hg as [Hg Hk]. apply Z.eqb_eq in Hk.
      apply (Hm g); [now apply list_elem_of_In | auto].
    + assert (Hl : In l (List.filter (fun r => Z.eqb (Id mi) (l_MasterItemId r)) (Languages db)))
        by (rewrite El; now left).
      apply filter_In in Hl as [Hl Hk]. apply Z.eqb_eq in Hk.
      apply (Hm l); [now apply list_elem_of_In | auto].
Qed.

(** Every fetched row is a master item after the watermark that lacks an
    attribute and has both names. *)
Lemma fetch_page_sound db n last_id row :
  row ∈ fetch_page db n last_id ->
  last_id < Id row /\ row ∈ MasterItems db /\ missing_attribute db (Id row) /\
  non_blank (FullName row) = true /\ non_blank (Surname row) = true.
Proof.
  unfold fetch_page. intros Hin. apply subseteq_take in Hin.
  rewrite merge_sort_Permutation in Hin. apply list_elem_of_In in Hin.
  apply filter_In in Hin as [Hin He]. apply in_concat in Hin as (l & Hl & Hin).
  apply in_map_iff in Hl as (mi & <- & Hmi).
  apply joined_sound in Hin as [-> Hmiss].
  unfold eligible in He. apply andb_true_iff in He as [He Hs].
  apply andb_true_iff in He as [He Hf]. apply Z.ltb_lt in He.
  repeat split; auto. now apply list_elem_of_In.
Qed.

Lemma fetch_page_length db n last_id :
  (length (fetch_page db n last_id) <= Z.to_nat n)%nat.
Proof. unfold fetch_page. apply firstn_le_length. Qed.

Lemma fetch_page_sorted db n last_id :
  StronglySorted by_Id (fetch_page db n last_id).
Proof.
  unfold fetch_page.
  set (l := merge_sort by_Id _).
  assert (Hs : StronglySorted by_Id l) by (apply StronglySorted_merge_sort; apply _).
  rewrite <- (take_drop (Z.to_nat n) l) in Hs.
  now apply StronglySorted_app_1_l in Hs.
Qed.

(** A page shorter than requested holds every eligible item. *)
Lemma fetch_page_complete db n last_id mi :
  (length (fetch_page db n last_id) < Z.to_nat n)%nat ->
  mi ∈ MasterItems db -> eligible last_id mi = true ->
  missing_attribute db (Id mi) ->
  mi ∈ fetch_page db n last_id.
Proof.
  unfold fetch_page. intros Hlen Hmi He Hmiss.
  rewrite length_firstn in Hlen. rewrite firstn_all2 by lia.
  rewrite merge_sort_Permutation. apply list_elem_of_In.
  apply filter_In. split; [|exact He].
  apply in_concat. exists (joined db mi). split.
  - apply in_map. now apply list_elem_of_In.
  - now apply joined_complete.
Qed.

(** When and why the loop is left. *)
Lemma loop_body_break json_loads cfg w st db why st' db' tr :
  loop_body json_loads cfg w st db = Break why st' db' tr ->
  db' = db /\ last_processed_id st' = last_processed_id st /\
  match why with
  | BudgetReached => budget_reached cfg st = true
  | NothingToFetch => budget_reached cfg st = false /\ records_to_fetch cfg st <= 0
  | EmptyPage =>
      budget_reached cfg st = false /\ 0 < records_to_fetch cfg st /\
      conn_available w = true /\ fetch_fault w = false /\
      fetch_page db (records_to_fetch cfg st) (last_processed_id st) = []
  | Uncaught _ => False
  end.
Proof.
  unfold loop_body.
  destruct (budget_reached cfg st) eqn:Hb; [intros [= <- <- <- <-]; auto|].
  destruct (Z.leb_spec (records_to_fetch cfg st) 0) as [Hn|Hn];
    [intros [= <- <- <- <-]; auto|].
  destruct (conn_available w); simpl negb; cbv iota; [|discriminate].
  destruct (fetch_fault w); [discriminate|].
  change (last_processed_id (next_batch st)) with (last_processed_id st).
  destruct (fetch_page db (records_to_fetch cfg st) (last_processed_id st))
    as [|row rows] eqn:Hpage; [intros [= <- <- <- <-]; auto 10|].
  destruct (omap task_of_row (row :: rows)); [discriminate|].
  destruct (Scheduler.run_in_chunks _ _ _ _) as [gathered fan].
  destruct (Py.bind gathered _) as [t|e]; [|destruct (is_Exception e); discriminate].
  destruct (reconcile w t db) as [[[? ?] ?] ?]. discriminate.
Qed.

Lemma loop_body_empty_page json_loads cfg w st db :
  budget_reached cfg st = false -> 0 < records_to_fetch cfg st ->
  conn_available w = true -> fetch_fault w = false ->
  fetch_page db (records_to_fetch cfg st) (last_processed_id st) = [] ->
  loop_body json_loads cfg w st db
    = Break EmptyPage (next_batch st) db
        [Fetch (records_to_fetch cfg st) (last_processed_id st)].
Proof.
  intros Hb Hn Hc Hf Hpage. unfold loop_body. rewrite Hb, Hc, Hf.
  destruct (Z.leb_spec (records_to_fetch cfg st) 0); [lia|]. simpl.
  rewrite Hpage. reflexivity.
Qed.

(** C5. For every watermark K, page size P and budget, the fetcher asks for
    [min(P, B)] rows (P when there is no budget) and gets at most that
    many; each is a master item with Id strictly greater than K that lacks a
    gender row or a language row and has a non-blank FullName and Surname;
    the page is in ascending order of Id, and a page shorter than requested
    holds every such item.  An empty page leaves the loop, and with a
    positive page size the loop is left only on an empty page or because
    the budget is used up. *)
Theorem page_fetcher (json_loads : string -> result payload) (cfg : Config)
    (st : State) (db : Store) :
  let K := last_processed_id st in
  let n := records_to_fetch cfg st in
  let page := fetch_page db n K in
  n = match MAX_TOTAL_RECORDS_TO_PROCESS cfg with
      | Some m => Z.min (DB_BATCH_SIZE cfg)
                        (m - cumulative_records_fetched_for_processing st)
      | None => DB_BATCH_SIZE cfg
      end /\
  (length page <= Z.to_nat n)%nat /\
  (forall row, row ∈ page ->
     K < Id row /\ row ∈ MasterItems db /\ missing_attribute db (Id row) /\
     non_blank (FullName row) = true /\ non_blank (Surname row) = true) /\
  StronglySorted by_Id page /\
  ((length page < Z.to_nat n)%nat ->
   forall mi, mi ∈ MasterItems db -> eligible K mi = true ->
              missing_attribute db (Id mi) -> mi ∈ page) /\
  (forall w,
     budget_reached cfg st = false -> 0 < n ->
     conn_available w = true -> fetch_fault w = false -> page = [] ->
     exists tr, loop_body json_loads cfg w st db = Break EmptyPage (next_batch st) db tr) /\
  (1 <= DB_BATCH_SIZE cfg ->
   forall w why st' db' tr,
     loop_body json_loads cfg w st db = Break why st' db' tr ->
     (why = EmptyPage /\ page = [] /\ conn_available w = true /\ fetch_fault w = false) \/
     (why = BudgetReached /\
      exists m, MAX_TOTAL_RECORDS_TO_PROCESS cfg = Some m /\
                m <= cumulative_records_fetched_for_processing st)).
Proof.
  intros K n page. subst K n page.
  split; [reflexivity|]. split; [apply fetch_page_length|].
  split; [intros row; apply fetch_page_sound|].
  split; [apply fetch_page_sorted|].
  split; [intros Hlen mi; apply fetch_page_complete; exact Hlen|].
  split.
  - intros w Hb Hn Hc Hf Hpage. eexists.
    now apply loop_body_empty_page.
  - intros HP w why st' db' tr Hbreak.
    apply loop_body_break in Hbreak as (_ & _ & Hwhy).
    destruct why.
    + right. split; [reflexivity|]. unfold budget_reached in Hwhy.
      destruct (MAX_TOTAL_RECORDS_TO_PROCESS cfg) as [m|]; [|discriminate].
      exists m. split; [reflexivity|]. now apply Z.leb_le.
    + exfalso. destruct Hwhy as [Hb Hn].
      unfold budget_reached, records_to_fetch in *.
      destruct (MAX_TOTAL_RECORDS_TO_PROCESS cfg) as [m|]; [|lia].
      apply Z.leb_gt in Hb. lia.
    + left. tauto.
    + destruct Hwhy.
Qed.

Example fetch_sample_page :
  fetch_page Samples.store 10000 0 = [ mkMasterItem 7 (Some "Thabo") (Some "Mokoena") ] /\
  fetch_page Samples.store 10000 7 = [].
Proof. split; reflexivity. Qed.

(** *** The watermark *)

Lemma last_cons_is_Some {A} (x : A) l : exists y, last (x :: l) = Some y.
Proof.
  revert x. induction l as [|z l IH]; intros x; [now exists x|].
  destruct (IH z) as [y Hy]. exists y. exact Hy.
Qed.

Lemma set_last_processed_id_last st rows row :
  last rows = Some row ->
  last_processed_id (set_last_processed_id st rows) = Id row.
Proof. unfold set_last_processed_id. now intros ->. Qed.

(** In an ascending page the last row has the largest Id. *)
Lemma sorted_last_max rows : forall row,
  StronglySorted by_Id rows -> last rows = Some row ->
  forall r, r ∈ rows -> Id r <= Id row.
Proof.
  induction rows as [|a rows IH]; intros row Hs Hl r Hr; [inversion Hr|].
  apply StronglySorted_inv in Hs as [Hs Ha].
  destruct rows as [|b rows].
  - simpl in Hl. injection Hl as <-. apply list_elem_of_singleton in Hr as ->. lia.
  - change (last (a :: b :: rows)) with (last (b :: rows)) in Hl.
    apply elem_of_cons in Hr as [->|Hr].
    + assert (Hrow : row ∈ b :: rows) by (apply last_Some_elem_of; exact Hl).
      rewrite Forall_forall in Ha. exact (Ha row Hrow).
    + now apply (IH row).
Qed.

Lemma write_genders_fault w t db :
  genders_fault w = true -> fst (fst (write_genders w t db)) = Genders db.
Proof.
  intros Hf. unfold write_genders, batch_upsert_genders, batch_upsert. rewrite Hf.
  destruct (genders_to_upsert t); reflexivity.
Qed.

Lemma write_languages_fault w t db :
  languages_fault w = true -> fst (fst (write_languages w t db)) = Languages db.
Proof.
  intros Hf. unfold write_languages, batch_upsert_languages, batch_upsert. rewrite Hf.
  destruct (languages_to_upsert t); reflexivity.
Qed.

Lemma reconcile_store w t db :
  MasterItems (fst (fst (fst (reconcile w t db)))) = MasterItems db /\
  Genders (fst (fst (fst (reconcile w t db)))) = fst (fst (write_genders w t db)) /\
  Languages (fst (fst (fst (reconcile w t db)))) = fst (fst (write_languages w t db)) /\
  forall x, Advance x ∉ snd (reconcile w t db).
Proof.
  unfold reconcile.
  destruct (write_genders w t db) as [[g ag] eg] eqn:Eg.
  destruct (write_languages w t db) as [[l al] el] eqn:El. simpl.
  repeat split; auto.
  intros x Hx. apply elem_of_app in Hx as [Hx|Hx].
  - unfold write_genders in Eg. destruct (genders_to_upsert t).
    + injection Eg as <- <- <-. inversion Hx.
    + destruct (batch_upsert_genders _ _ _ _). injection Eg as <- <- <-.
      apply list_elem_of_singleton in Hx. discriminate.
  - unfold write_languages in El. destruct (languages_to_upsert t).
    + injection El as <- <- <-. inversion Hx.
    + destruct (batch_upsert_languages _ _ _ _). injection El as <- <- <-.
      apply list_elem_of_singleton in Hx. discriminate.
Qed.

Lemma inter_batch_pause_sleeps cfg :
  Forall (fun e => is_sleep e = true) (inter_batch_pause cfg) /\
  forall x, Advance x ∉ inter_batch_pause cfg.
Proof.
  unfold inter_batch_pause. destruct (0 <? INTER_BATCH_DELAY_SECONDS cfg); split.
  - repeat constructor.
  - intros x Hx. apply list_elem_of_singleton in Hx. discriminate.
  - constructor.
  - intros x Hx. inversion Hx.
Qed.

(** The two ways an iteration can go on: without touching the watermark or
    the store (no connection, failed fetch, an exception while dispatching),
    or with the watermark moved to the last row of the page after the
    writers, if any, have been called. *)
Lemma loop_body_continue json_loads cfg w st db st' db' tr :
  loop_body json_loads cfg w st db = Continue st' db' tr ->
  (db' = db /\ last_processed_id st' = last_processed_id st /\
   (forall x, Advance x ∉ tr) /\
   forall gf lf,
     loop_body json_loads cfg (with_faults gf lf w) st db = Continue st' db' tr)
  \/
  (exists row pre t,
     last (fetch_page db (records_to_fetch cfg st) (last_processed_id st)) = Some row /\
     last_processed_id st' = Id row /\
     tr = (pre ++ Advance (Id row) :: inter_batch_pause cfg)%list /\
     (forall x, Advance x ∉ pre) /\
     MasterItems db' = MasterItems db /\
     Genders db' = fst (fst (write_genders w t db)) /\
     Languages db' = fst (fst (write_languages w t db)) /\
     forall gf lf, exists st2 db2 tr2,
       loop_body json_loads cfg (with_faults gf lf w) st db = Continue st2 db2 tr2 /\
       last_processed_id st2 = Id row /\
       Genders db2 = fst (fst (write_genders (with_faults gf lf w) t db)) /\
       Languages db2 = fst (fst (write_languages (with_faults gf lf w) t db))).
Proof.
  unfold loop_body.
  destruct (budget_reached cfg st) eqn:Hb; [discriminate|].
  destruct (records_to_fetch cfg st <=? 0) eqn:Hn; [discriminate|].
  change (last_processed_id (next_batch st)) with (last_processed_id st).
  destruct (conn_available w) eqn:Hc; simpl negb; cbv iota.
  2: { intros [= <- <- <-]. left. repeat split; auto.
       - intros x Hx. apply list_elem_of_singleton in Hx. discriminate.
       - intros gf lf. cbn [with_faults conn_available]. now rewrite Hc. }
  destruct (fetch_fault w) eqn:Hf.
  { intros [= <- <- <-]. left. repeat split; auto.
    - intros x Hx. apply list_elem_of_singleton in Hx. discriminate.
    - intros gf lf. cbn [with_faults conn_available fetch_fault]. now rewrite Hc, Hf. }
  destruct (fetch_page db (records_to_fetch cfg st) (last_processed_id st))
    as [|row0 rows] eqn:Hpage; [discriminate|].
  destruct (last_cons_is_Some row0 rows) as [row Hlast].
  destruct (omap task_of_row (row0 :: rows)) as [|tk tks] eqn:Htasks.
  - discriminate.
  - destruct (Scheduler.run_in_chunks (coroutine json_loads cfg w) (latency w)
                (API_CALL_CONCURRENCY cfg)
                (combine (seq 0 (length (tk :: tks))) (tk :: tks)))
      as [gathered fan] eqn:Hrun.
    destruct (Py.bind gathered (fun api_results => tally empty_tally api_results))
      as [t|e] eqn:Htally.
    + pose proof (reconcile_store w t db) as (HM & HG & HL & HA).
      destruct (reconcile w t db) as [[[dbr ag] al] writes] eqn:Hrec.
      cbn [fst snd] in HM, HG, HL, HA.
      intros [= <- <- <-]. right.
      exists row,
        ([Fetch (records_to_fetch cfg st) (last_processed_id st); Fanout fan] ++ writes)%list,
        t.
      rewrite (set_last_processed_id_last _ _ _ Hlast).
      split; [exact Hlast|]. split; [reflexivity|].
      split; [now rewrite <- app_assoc|].
      split.
      { intros x Hx. apply elem_of_app in Hx as [Hx|Hx]; [|now apply (HA x)].
        apply elem_of_cons in Hx as [Hx|Hx]; [discriminate|].
        apply list_elem_of_singleton in Hx. discriminate. }
      split; [exact HM|]. split; [exact HG|]. split; [exact HL|].
      intros gf lf.
      pose proof (reconcile_store (with_faults gf lf w) t db) as (HM2 & HG2 & HL2 & _).
      destruct (reconcile (with_faults gf lf w) t db) as [[[dbr2 ag2] al2] writes2] eqn:Hrec2.
      cbn [fst snd] in HM2, HG2, HL2.
      do 3 eexists.
      cbn [with_faults conn_available fetch_fault latency]. rewrite Hc, Hf.
      simpl negb. cbv iota.
      change (coroutine json_loads cfg (with_faults gf lf w))
        with (coroutine json_loads cfg w).
      rewrite Hrun, Htally, Hrec2.
      split; [reflexivity|].
      rewrite (set_last_processed_id_last _ _ _ Hlast).
      split; [reflexivity|]. split; [exact HG2 | exact HL2].
    + destruct (is_Exception e) eqn:He; [|discriminate].
      intros [= <- <- <-]. left. repeat split; auto.
      * intros x Hx.
        do 3 (apply elem_of_cons in Hx as [Hx|Hx]; [discriminate|]).
        now apply (proj2 (inter_batch_pause_sleeps cfg) x).
      * intros gf lf.
        cbn [with_faults conn_available fetch_fault latency]. rewrite Hc, Hf.
        simpl negb. cbv iota.
        change (coroutine json_loads cfg (with_faults gf lf w))
          with (coroutine json_loads cfg w).
        now rewrite Hrun, Htally, He.
Qed.



(** The gender writer fails on the page that holds master item 7: the
    language row is written all the same, and the watermark moves to 7, so
    that the item, still without a gender, is not fetched again in this run
    although it is what a fetch from watermark 0 returns. *)
Example failed_write_scenario :
  let w := with_faults true false Samples.calm in
  let s := loop_body Samples.json_loads Samples.config w initial_state Samples.store in
  trace_of s = [ Fetch 10000 0; Fanout [Scheduler.Start 0; Scheduler.Settle 0];
                 UpsertGenders 0; UpsertLanguages 1; Advance 7; Sleep 2 ] /\
  Genders (store_of s) = [ mkGenderRow 9 "MALE" ] /\
  Languages (store_of s) = [ mkLanguageRow 9 "isiZulu" None;
                             mkLanguageRow 7 "isiZulu" (Some 20250601) ] /\
  last_processed_id (state_of s) = 7 /\
  fetch_page (store_of s) 10000 (last_processed_id (state_of s)) = [] /\
  fetch_page (store_of s) 10000 0 = [ mkMasterItem 7 (Some "Thabo") (Some "Mokoena") ].
Proof. vm_compute. repeat split; reflexivity. Qed.


(** The same fault followed by a calm iteration: the run ends on the empty
    page; item 7 has its language but still no gender. *)
Example failed_write_not_retried :
  process_master_items_in_batches_async Samples.json_loads Samples.config
    [ with_faults true false Samples.calm; Samples.calm ]
    initial_state Samples.store
  = Some (EmptyPage,
          mkState 7 1 1 0 0 1 2,
          mkStore (MasterItems Samples.store)
                  [ mkGenderRow 9 "MALE" ]
                  [ mkLanguageRow 9 "isiZulu" None;
                    mkLanguageRow 7 "isiZulu" (Some 20250601) ]).
Proof. vm_compute. reflexivity. Qed.

(** An exception while the results are read (here: a prediction that is not
    an object) leaves the watermark and the store as they were. *)
Example dispatch_exception_scenario :
  let w := mkWorld true false (fun _ _ => Response (Some "list"))
                   (fun _ => 0) false false 0 in
  let s := loop_body Samples.json_loads Samples.config w initial_state Samples.store in
  trace_of s = [ Fetch 10000 0; Fanout [Scheduler.Start 0; Scheduler.Settle 0];
                 Sleep 10; Sleep 2 ] /\
  last_processed_id (state_of s) = 0 /\
  Genders (store_of s) = Genders Samples.store /\
  Languages (store_of s) = Languages Samples.store.
Proof. vm_compute. repeat split; reflexivity. Qed.

End DriverSpec.


(** ** The mask solver: check digit and enumeration *)

Module MaskSolverSpec.
Import Py Calendar IdNumbers PyFacts.

Lemma numeral_digit k :
  0 <= k <= 9 ->
  exists c, numeral k = String c EmptyString /\ digit_of_ascii c = Some k.
Proof.
  intros Hk.
  assert (Hc : k = 0 \/ k = 1 \/ k = 2 \/ k = 3 \/ k = 4 \/
               k = 5 \/ k = 6 \/ k = 7 \/ k = 8 \/ k = 9) by lia.
  repeat (destruct Hc as [->|Hc]; [eexists; split; reflexivity|]).
  subst. eexists; split; reflexivity.
Qed.

Lemma str_limit_value : str_limit = 10 ^ max_str_digits.
Proof. vm_compute. reflexivity. Qed.

(** [str] and the limit on the digits of a numeral. *)
Lemma str_returns n :
  Z.abs n < 10 ^ max_str_digits -> str n = Returned (numeral n).
Proof.
  rewrite <- str_limit_value. intros Hn. unfold str.
  destruct (Z.leb_spec str_limit (Z.abs n)) as [Hle|_]; [|reflexivity].
  exfalso. exact (Z.lt_irrefl _ (Z.le_lt_trans _ _ _ Hle Hn)).
Qed.

Lemma str_too_long n :
  10 ^ max_str_digits <= Z.abs n -> str n = Raised ValueError.
Proof.
  rewrite <- str_limit_value. intros Hn. unfold str.
  destruct (Z.leb_spec str_limit (Z.abs n)) as [_|Hlt]; [reflexivity|].
  exfalso. exact (Z.lt_irrefl _ (Z.le_lt_trans _ _ _ Hn Hlt)).
Qed.

Lemma str_raises n e : str n = Raised e -> e = ValueError.
Proof.
  unfold str. destruct (str_limit <=? Z.abs n); congruence.
Qed.

Lemma str_returned n s : str n = Returned s -> s = numeral n.
Proof.
  unfold str. destruct (str_limit <=? Z.abs n); congruence.
Qed.

Lemma ten_below_limit : 10 < 10 ^ max_str_digits.
Proof.
  pose proof (Z.pow_lt_mono_r 10 1 max_str_digits) as H.
  rewrite Z.pow_1_r in H. apply H; unfold max_str_digits; lia.
Qed.

Lemma str_digit k :
  0 <= k <= 9 ->
  exists c, str k = Returned (String c EmptyString) /\ digit_of_ascii c = Some k.
Proof.
  intros Hk. destruct (numeral_digit k Hk) as (c & Hc & Hd).
  exists c. split; [|exact Hd]. rewrite str_returns, Hc; [reflexivity|].
  pose proof ten_below_limit. rewrite Z.abs_eq by lia.
  apply Z.le_lt_trans with 10; [lia | assumption].
Qed.

Lemma int_single_digit c k :
  digit_of_ascii c = Some k -> int (String c EmptyString) = Returned k.
Proof.
  intros Hd. rewrite int_value.
  - unfold digits_value. simpl. rewrite Hd. reflexivity.
  - simpl. now rewrite Hd.
  - discriminate.
  - unfold max_str_digits. simpl. lia.
Qed.

(** Reading a digit run character by character gives its digits. *)
Lemma ints_of_chars_digits s :
  all_digits s = true ->
  exists ds, ints_of_chars s = Returned ds /\ length ds = String.length s /\
             Forall (fun d => 0 <= d <= 9) ds.
Proof.
  induction s as [|c s IH]; intros Hs.
  - exists []. repeat split. constructor.
  - simpl in Hs. apply andb_true_iff in Hs as [Hc Hs].
    apply bool_decide_eq_true in Hc as [d Hd].
    destruct (IH Hs) as (ds & Hds & Hlen & Hall).
    exists (d :: ds). cbn [ints_of_chars]. rewrite (int_single_digit c d Hd), Hds.
    repeat split; [simpl; now rewrite Hlen|].
    constructor; [now apply digit_of_ascii_range in Hd | exact Hall].
Qed.

Lemma ints_of_chars_raises s e : ints_of_chars s = Raised e -> e = ValueError.
Proof.
  induction s as [|c s IH]; [discriminate|]. cbn [ints_of_chars].
  destruct (int (String c EmptyString)) as [d|e'] eqn:Ei.
  - destruct (ints_of_chars s) as [ds|e'']; [discriminate|].
    intros [= <-]. now apply IH.
  - intros [= <-]. now apply int_raises in Ei.
Qed.

Lemma all_digits_app a b :
  all_digits a = true -> all_digits b = true -> all_digits (String.append a b) = true.
Proof.
  induction a as [|c a IH]; simpl; intros Ha Hb; [exact Hb|].
  apply andb_true_iff in Ha as [Hc Ha]. rewrite Hc. simpl. now apply IH.
Qed.

(** The numeral of a non-negative integer is a non-empty digit run. *)
Lemma str_uint_digits u :
  all_digits (DecimalString.NilEmpty.string_of_uint u) = true.
Proof. induction u; simpl; auto. Qed.

Lemma numeral_nonneg n :
  0 <= n -> all_digits (numeral n) = true /\ numeral n <> EmptyString.
Proof.
  intros Hn. unfold numeral.
  destruct n as [|p|p]; [split; [reflexivity|discriminate]| |lia].
  unfold Z.to_int, DecimalString.NilZero.string_of_int,
    DecimalString.NilZero.string_of_uint.
  pose proof (DecimalPos.Unsigned.to_uint_nonnil p) as Hnn.
  destruct (Pos.to_uint p) as [|u|u|u|u|u|u|u|u|u|u]; [congruence|..];
    (split; [apply (str_uint_digits (_ u)) | discriminate]).
Qed.

Lemma every_other_Forall {A} (P : A -> Prop) (l : list A) :
  Forall P l -> Forall P (every_other l).
Proof.
  revert l. fix IH 2. intros l Hl. destruct Hl as [|x l Hx Hl]; [constructor|].
  simpl. constructor; [exact Hx|].
  destruct Hl as [|y l Hy Hl]; [constructor | apply IH; exact Hl].
Qed.

(** [l[::2]] has half the elements of [l], rounded up. *)
Lemma every_other_length {A} (l : list A) :
  (length l <= 2 * length (every_other l) <= length l + 1)%nat.
Proof.
  revert l. fix IH 1. intros [|x [|y l]]; [simpl; lia | simpl; lia |].
  specialize (IH l). cbn [every_other length]. lia.
Qed.

(** [map(str, l)] on digits: their one-character numerals. *)
Lemma map_str_digits l :
  Forall (fun d => 0 <= d <= 9) l ->
  map_result str l = Returned (List.map numeral l).
Proof.
  induction 1 as [|d l Hd Hl IH]; [reflexivity|].
  destruct (str_digit d Hd) as (c & Hc & _).
  cbn [map_result List.map]. rewrite Hc, IH. cbn [bind].
  now rewrite (str_returned _ _ Hc).
Qed.

Lemma map_str_raises l e : map_result str l = Raised e -> e = ValueError.
Proof.
  induction l as [|d l IH]; [discriminate|]. cbn [map_result].
  destruct (str d) as [s|e'] eqn:Es; cbn [bind].
  - destruct (map_result str l) as [ss|e'']; cbn [bind]; [discriminate|].
    intros [= <-]. now apply IH.
  - intros [= <-]. now apply str_raises in Es.
Qed.

Lemma concat_digit_strs l :
  Forall (fun d => 0 <= d <= 9) l ->
  all_digits (String.concat "" (List.map numeral l)) = true /\
  String.length (String.concat "" (List.map numeral l)) = length l.
Proof.
  induction 1 as [|d l Hd Hl [IHd IHn]]; [split; reflexivity|].
  destruct (numeral_digit d Hd) as (c & Hc & Hk).
  assert (Hcd : bool_decide (is_Some (digit_of_ascii c)) = true)
    by (apply bool_decide_eq_true; eauto).
  destruct l as [|d' l].
  - simpl. rewrite Hc. simpl. rewrite Hcd. split; reflexivity.
  - change (String.concat "" (List.map numeral (d :: d' :: l)))
      with (String.append (numeral d)
              (String.append "" (String.concat "" (List.map numeral (d' :: l))))).
    rewrite Hc. simpl String.append. split.
    + simpl. rewrite Hcd. exact IHd.
    + change (S (String.length (String.concat "" (List.map numeral (d' :: l))))
              = S (length (d' :: l))).
      f_equal. exact IHn.
Qed.

Lemma int_non_digit c :
  digit_of_ascii c = None -> int (String c EmptyString) = Raised ValueError.
Proof.
  intros Hd. unfold int, strip. simpl.
  destruct (isspace c) eqn:Es; simpl; [reflexivity|].
  rewrite Es. simpl.
  destruct (Ascii.eqb c "+"); [reflexivity|].
  destruct (Ascii.eqb c "-"); [reflexivity|].
  rewrite Hd, andb_false_r. reflexivity.
Qed.

Lemma ints_of_chars_non_digits s :
  all_digits s = false -> ints_of_chars s = Raised ValueError.
Proof.
  induction s as [|c s IH]; [discriminate|]. simpl. intros Hs.
  destruct (digit_of_ascii c) as [d|] eqn:Hd.
  - rewrite (int_single_digit c d Hd).
    rewrite bool_decide_eq_true_2 in Hs by eauto. simpl in Hs.
    now rewrite (IH Hs).
  - now rewrite (int_non_digit c Hd).
Qed.

(** The even-position group of a digit run, as [luhn_sa] joins it. *)
Lemma even_group stem :
  all_digits stem = true ->
  exists ds evens,
    ints_of_chars stem = Returned ds /\ length ds = String.length stem /\
    Forall (fun d => 0 <= d <= 9) ds /\
    map_result str (every_other (List.tl ds)) = Returned evens /\
    all_digits (String.concat "" evens) = true /\
    (String.length stem - 1 <= 2 * String.length (String.concat "" evens)
       <= String.length stem)%nat.
Proof.
  intros Hs. destruct (ints_of_chars_digits stem Hs) as (ds & Hds & Hl & Hall).
  assert (Hev : Forall (fun d => 0 <= d <= 9) (every_other (List.tl ds))).
  { apply every_other_Forall. destruct Hall; [constructor | assumption]. }
  destruct (concat_digit_strs _ Hev) as [Hj Hjl].
  exists ds, (List.map numeral (every_other (List.tl ds))).
  split; [exact Hds|]. split; [exact Hl|]. split; [exact Hall|].
  split; [now apply map_str_digits|]. split; [exact Hj|].
  rewrite Hjl, <- Hl. pose proof (every_other_length (List.tl ds)) as He.
  destruct ds; simpl in *; lia.
Qed.

Lemma luhn_sa_returns (stem : string) :
  all_digits stem = true -> 2 <= Z.of_nat (String.length stem) < 8600 ->
  exists c k, luhn_sa stem = Returned (String c EmptyString) /\
              digit_of_ascii c = Some k.
Proof.
  intros Hs Hlen. unfold luhn_sa.
  destruct (even_group stem Hs) as (ds & evens & Hds & Hl & Hall & Hev & Hj & Hjl).
  rewrite Hds. cbn [bind]. rewrite Hev. cbn [bind].
  assert (Hne : String.concat "" evens <> EmptyString).
  { intros E. rewrite E in Hjl. simpl in Hjl. lia. }
  rewrite (int_value _ Hj Hne) by (unfold max_str_digits; lia). cbn [bind].
  pose proof (digits_value_bounds _ Hj) as Hv.
  assert (Hd : Z.abs (digits_value (String.concat "" evens) * 2)
               < 10 ^ max_str_digits).
  { assert (Hp : 10 ^ Z.of_nat (String.length (String.concat "" evens))
                 <= 10 ^ 4299) by (apply Z.pow_le_mono_r; lia).
    assert (Hq : 10 ^ max_str_digits = 10 * 10 ^ 4299).
    { unfold max_str_digits. change 4300 with (Z.succ 4299).
      apply Z.pow_succ_r. lia. }
    rewrite Hq. revert Hv Hp.
    generalize (10 ^ Z.of_nat (String.length (String.concat "" evens))).
    generalize (10 ^ 4299). intros P Q Hv Hp. lia. }
  rewrite (str_returns _ Hd). cbn [bind].
  destruct (numeral_nonneg (digits_value (String.concat "" evens) * 2)
              ltac:(lia)) as [Hdd _].
  destruct (ints_of_chars_digits _ Hdd) as (es & -> & _ & _). cbn [bind].
  pose proof (Z.mod_pos_bound
                (10 - (sum (every_other ds) + sum es) mod 10) 10 ltac:(lia)) as Hk.
  destruct (str_digit ((10 - (sum (every_other ds) + sum es) mod 10) mod 10))
    as (c & Hc & Hck); [lia|].
  exists c. eexists. rewrite Hc. split; [reflexivity | exact Hck].
Qed.

Lemma luhn_sa_raises (stem : string) :
  all_digits stem = false \/ (String.length stem < 2)%nat ->
  luhn_sa stem = Raised ValueError.
Proof.
  intros [Hs|Hlen]; unfold luhn_sa.
  - now rewrite (ints_of_chars_non_digits stem Hs).
  - destruct (all_digits stem) eqn:Hs.
    + destruct stem as [|c [|c' stem]]; [reflexivity| |simpl in Hlen; lia].
      simpl in Hs. rewrite andb_true_r in Hs.
      apply bool_decide_eq_true in Hs as [d Hd].
      cbn [ints_of_chars]. rewrite (int_single_digit c d Hd). reflexivity.
    + now rewrite (ints_of_chars_non_digits stem Hs).
Qed.

(** From 8602 digits on the even-position group is a literal [int] refuses. *)
Lemma luhn_sa_too_long (stem : string) :
  all_digits stem = true -> 8602 <= Z.of_nat (String.length stem) ->
  luhn_sa stem = Raised ValueError.
Proof.
  intros Hs Hlen. unfold luhn_sa.
  destruct (even_group stem Hs) as (ds & evens & Hds & Hl & Hall & Hev & Hj & Hjl).
  rewrite Hds. cbn [bind]. rewrite Hev. cbn [bind]. rewrite (int_too_long _ Hj) by (unfold max_str_digits; lia).
  reflexivity.
Qed.

(** Whatever [luhn_sa] raises is a [ValueError]. *)
Lemma luhn_sa_raises_ValueError stem e : luhn_sa stem = Raised e -> e = ValueError.
Proof.
  unfold luhn_sa.
  destruct (ints_of_chars stem) as [ds|e1] eqn:E1; cbn [bind];
    [|intros [= <-]; now apply ints_of_chars_raises in E1].
  destruct (map_result str _) as [evens|e2] eqn:E2; cbn [bind];
    [|intros [= <-]; now apply map_str_raises in E2].
  destruct (int _) as [joined|e3] eqn:E3; cbn [bind];
    [|intros [= <-]; now apply int_raises in E3].
  destruct (str (joined * 2)) as [doubled|e4] eqn:E4; cbn [bind];
    [|intros [= <-]; now apply str_raises in E4].
  destruct (ints_of_chars doubled) as [es|e5] eqn:E5; cbn [bind];
    [|intros [= <-]; now apply ints_of_chars_raises in E5].
  apply str_raises.
Qed.

(** Whatever [luhn_sa] returns is one decimal digit. *)
Lemma luhn_sa_check stem check :
  luhn_sa stem = Returned check ->
  exists c k, check = String c EmptyString /\ digit_of_ascii c = Some k.
Proof.
  unfold luhn_sa.
  destruct (ints_of_chars stem) as [ds|e1]; cbn [bind]; [|discriminate].
  destruct (map_result str _) as [evens|e2]; cbn [bind]; [|discriminate].
  destruct (int _) as [joined|e3]; cbn [bind]; [|discriminate].
  destruct (str (joined * 2)) as [doubled|e4]; cbn [bind]; [|discriminate].
  destruct (ints_of_chars doubled) as [es|e5]; cbn [bind]; [|discriminate].
  intros Hc.
  pose proof (Z.mod_pos_bound
                (10 - (sum (every_other ds) + sum es) mod 10) 10 ltac:(lia)) as Hk.
  destruct (str_digit ((10 - (sum (every_other ds) + sum es) mod 10) mod 10))
    as (c & Hc' & Hck); [lia|].
  rewrite Hc' in Hc. injection Hc as <-. eauto.
Qed.


Example luhn_sa_examples :
  luhn_sa "970420123408" = Returned "3" /\
  luhn_sa "800101500908" = Returned "7" /\
  luhn_sa "9" = Raised ValueError /\
  luhn_sa "97042012340*" = Raised ValueError.
Proof. vm_compute. repeat split; reflexivity. Qed.

(** At 8600 digits the outcome depends on the digits: the double of 4300
    ones is a numeral [str] still converts, that of 4300 nines is not. *)
Example luhn_sa_at_the_limit :
  (exists check,
     luhn_sa (string_of_list_ascii (List.repeat "1"%char (Z.to_nat 8600))) = Returned check) /\
  luhn_sa (string_of_list_ascii (List.repeat "9"%char (Z.to_nat 8600))) = Raised ValueError /\
  luhn_sa (string_of_list_ascii (List.repeat "1"%char (Z.to_nat 8602))) = Raised ValueError.
Proof.
  split; [eexists; vm_compute; reflexivity|]. split; vm_compute; reflexivity.
Qed.

(** *** The enumeration *)

Lemma product_In {A} (opts : list (list A)) : forall l,
  In l (product opts) <-> List.Forall2 (fun o c => In c o) opts l.
Proof.
  induction opts as [|o opts IH]; intros l; simpl.
  - split.
    + intros [<-|[]]. constructor.
    + intros H. inversion H. now left.
  - rewrite in_flat_map. split.
    + intros (c & Hc & Hl). apply in_map_iff in Hl as (l' & <- & Hl').
      constructor; [exact Hc | now apply IH].
    + intros H. inversion H as [|? c ? l' Hc Hl']; subst.
      exists c. split; [exact Hc|]. apply in_map. now apply IH.
Qed.

Lemma product_NoDup {A} (opts : list (list A)) :
  Forall (@NoDup A) opts -> NoDup (product opts).
Proof.
  induction 1 as [|o opts Ho _ IH]; simpl.
  - constructor; [intros H; inversion H | constructor].
  - induction Ho as [|a o Ha Ho IHo]; simpl; [constructor|].
    apply NoDup_app. split; [|split; [|exact IHo]].
    + apply NoDup_ListNoDup, Finite.Injective_map_NoDup; [|now apply NoDup_ListNoDup].
      intros x y [= ->]. reflexivity.
    + intros l Hl Hl'. apply list_elem_of_In in Hl, Hl'.
      apply in_map_iff in Hl as (l1 & <- & _).
      apply in_flat_map in Hl' as (c & Hc & Hl').
      apply in_map_iff in Hl' as (l2 & [= -> _] & _).
      apply Ha. now apply list_elem_of_In.
Qed.

Lemma digit_chars c :
  In c (list_ascii_of_string "0123456789") <-> is_Some (digit_of_ascii c).
Proof.
  split.
  - simpl. intros H.
    repeat (destruct H as [<-|H]; [eexists; reflexivity|]). destruct H.
  - intros [d Hd].
    destruct c as [[] [] [] [] [] [] [] []]; try discriminate Hd; simpl; tauto.
Qed.

(** What the product of the options of a mask contains. *)
Lemma options_Forall2 mask : forall cand,
  forallb (fun ch => Ascii.eqb ch "*" || bool_decide (is_Some (digit_of_ascii ch)))
          (list_ascii_of_string mask) = true ->
  List.Forall2 (fun o c => In c o) (options mask) (list_ascii_of_string cand) <->
  String.length cand = String.length mask /\ all_digits cand = true /\
  matches mask cand = true.
Proof.
  unfold options.
  induction mask as [|m mask IH]; intros cand Hm.
  - simpl. split.
    + intros H. inversion H as [Hc|]. destruct cand; [auto | discriminate].
    + intros (Hl & _ & _). destruct cand; [constructor | discriminate].
  - simpl in Hm. apply andb_true_iff in Hm as [Hm0 Hm].
    destruct cand as [|c cand].
    + simpl. split; [intros H; inversion H | intros (Hl & _); discriminate].
    + cbn [list_ascii_of_string List.map String.length all_digits matches].
      split.
      * intros H. inversion H as [|? ? ? ? Hc Hrest]; subst.
        apply (IH cand Hm) in Hrest as (Hl & Hd & Hmt).
        rewrite Hl, Hd, Hmt, !andb_true_r. split; [reflexivity|].
        destruct (Ascii.eqb_spec m "*") as [->|Hne].
        -- apply digit_chars in Hc. split; [|reflexivity].
           now apply bool_decide_eq_true.
        -- destruct Hc as [<-|[]]. simpl in Hm0.
           split; [exact Hm0 | apply Ascii.eqb_refl].
      * intros (Hl & Hd & Hmt). injection Hl as Hl.
        apply andb_true_iff in Hd as [Hc Hd].
        apply andb_true_iff in Hmt as [Hmc Hmt].
        constructor; [|apply (IH cand Hm); auto].
        destruct (Ascii.eqb_spec m "*") as [->|Hne].
        -- apply digit_chars. now apply bool_decide_eq_true in Hc.
        -- simpl in Hmc. apply Ascii.eqb_eq in Hmc. now left.
Qed.

Lemma options_NoDup mask : Forall (@NoDup ascii) (options mask).
Proof.
  unfold options. apply Forall_forall. intros o Ho.
  apply list_elem_of_In, in_map_iff in Ho as (ch & <- & _).
  destruct (Ascii.eqb ch "*").
  - apply (bool_decide_eq_true_1 (NoDup (list_ascii_of_string "0123456789"))).
    reflexivity.
  - constructor; [intros H; inversion H | constructor].
Qed.

Lemma all_digits_but_last s : all_digits s = true -> all_digits (but_last s) = true.
Proof.
  induction s as [|c s IH]; [reflexivity|]. intros H.
  simpl in H. apply andb_true_iff in H as [Hc Hs].
  destruct s as [|c' s]; [reflexivity|].
  change (but_last (String c (String c' s))) with (String c (but_last (String c' s))).
  simpl all_digits at 1. rewrite Hc. simpl. apply IH. exact Hs.
Qed.

Lemma length_but_last s : String.length (but_last s) = pred (String.length s).
Proof.
  induction s as [|c s IH]; [reflexivity|].
  destruct s as [|c' s]; [reflexivity|].
  change (S (String.length (but_last (String c' s))) = String.length (String c' s)).
  rewrite IH. reflexivity.
Qed.

Lemma last_char_returns s :
  s <> EmptyString -> exists c, last_char s = Returned (String c EmptyString).
Proof.
  induction s as [|c s IH]; [congruence|]. intros _.
  destruct s as [|c' s]; [exists c; reflexivity|].
  change (last_char (String c (String c' s))) with (last_char (String c' s)).
  apply IH. discriminate.
Qed.

Lemma gender_ok_returns GENDER cand :
  digit_block 13 cand = true -> exists b, gender_ok GENDER cand = Returned b.
Proof.
  intros H. apply digit_block_inv in H as [Hl Hd].
  destruct (int_slice cand 6 10 Hd) as (v & Hv & _);
    [lia | lia | unfold max_str_digits; lia |].
  unfold gender_ok. rewrite Hv. simpl.
  destruct (String.eqb (upper GENDER) "M"); [eauto|].
  destruct (String.eqb (upper GENDER) "F"); eauto.
Qed.

(** The three tests of the loop body, on a candidate of thirteen digits. *)
Lemma yields_returns now_year GENDER cand :
  digit_block 13 cand = true ->
  exists b, yields now_year GENDER cand = Returned b /\
    (b = true <->
     valid_date now_year (slice cand 0 2) (slice cand 2 4) (slice cand 4 6)
       = Returned true /\
     gender_ok GENDER cand = Returned true /\
     exists check, luhn_sa (but_last cand) = Returned check /\
                   last_char cand = Returned check).
Proof.
  intros H. pose proof (gender_ok_returns GENDER cand H) as [g Hg].
  apply digit_block_inv in H as [Hl Hd].
  destruct (luhn_sa_returns (but_last cand)) as (c & k & Hc & _).
  { apply all_digits_but_last, Hd. }
  { rewrite length_but_last, Hl. simpl. lia. }
  destruct (IdNumbersSpec.valid_date_pairs now_year cand Hd ltac:(lia))
    as (y & m & d & _ & _ & _ & Hv).
  set (v := is_date (y + century now_year y) m d) in Hv.
  destruct (last_char_returns cand) as [f Hf].
  { intros ->. discriminate Hl. }
  unfold yields. rewrite Hv, Hg, Hc, Hf. simpl.
  destruct v; simpl.
  - destruct g; simpl.
    + destruct (Ascii.eqb_spec c f) as [->|Hne].
      * exists true. split; [reflexivity|]. split; [eauto | reflexivity].
      * exists false. split; [reflexivity|]. split; [discriminate|].
        intros (_ & _ & check & [= <-] & [= E]). congruence.
    + exists false. split; [reflexivity|]. split; [discriminate|].
      intros (_ & [= ] & _).
  - exists false. split; [reflexivity|]. split; [discriminate|].
    intros ([= ] & _).
Qed.

Lemma generate_from_spec now_year GENDER cands :
  Forall (fun cand => digit_block 13 cand = true) cands ->
  exists ids, generate_from now_year GENDER cands = Returned ids /\
    ids = List.filter
            (fun cand => match yields now_year GENDER cand with
                         | Returned true => true
                         | _ => false
                         end)
            cands.
Proof.
  induction 1 as [|cand cands Hc _ (ids & Hids & ->)]; [exists []; auto|].
  destruct (yields_returns now_year GENDER cand Hc) as (b & Hb & _).
  cbn [generate_from List.filter]. rewrite Hb, Hids. simpl.
  eexists. split; [reflexivity|].
  destruct b; reflexivity.
Qed.

Lemma candidates_In mask cand :
  mask_ok mask = true ->
  In cand (List.map string_of_list_ascii (product (options mask))) <->
  digit_block 13 cand = true /\ matches mask cand = true.
Proof.
  unfold mask_ok, digit_block. intros H.
  apply andb_true_iff in H as [Hl Hm]. apply Nat.eqb_eq in Hl.
  rewrite in_map_iff. split.
  - intros (l & <- & Hin). apply product_In in Hin.
    rewrite <- (list_ascii_of_string_of_list_ascii l) in Hin.
    apply (options_Forall2 mask _ Hm) in Hin as (Hlen & Hd & Hmt).
    rewrite Hlen, Hl, Hd. auto.
  - intros (Hb & Hmt). apply andb_true_iff in Hb as [Hlen Hd].
    apply Nat.eqb_eq in Hlen.
    exists (list_ascii_of_string cand).
    split; [apply string_of_list_ascii_of_string|].
    apply product_In, (options_Forall2 mask _ Hm).
    rewrite Hlen, Hl. auto.
Qed.

Lemma candidates_NoDup mask :
  NoDup (List.map string_of_list_ascii (product (options mask))).
Proof.
  apply NoDup_ListNoDup, Finite.Injective_map_NoDup.
  - intros x y E. rewrite <- (list_ascii_of_string_of_list_ascii x),
      <- (list_ascii_of_string_of_list_ascii y), E. reflexivity.
  - apply NoDup_ListNoDup, product_NoDup, options_NoDup.
Qed.

(** X2. On a mask that passes the module's assertion, [generate_ids] runs to
    the end without an exception, and what it yields is, without
    repetition, exactly the thirteen-digit strings that agree with the mask
    at every fixed position, whose first six digits are a date in the
    century [valid_date] selects, whose gender block suits [GENDER], and
    whose last digit is the check digit of the first twelve. *)
Theorem generate_ids_exact (now_year : Z) (GENDER mask : string) :
  mask_ok mask = true ->
  exists ids, generate_ids now_year GENDER mask = Returned ids /\
    NoDup ids /\
    forall cand, In cand ids <->
      digit_block 13 cand = true /\ matches mask cand = true /\
      valid_date now_year (slice cand 0 2) (slice cand 2 4) (slice cand 4 6)
        = Returned true /\
      gender_ok GENDER cand = Returned true /\
      exists check, luhn_sa (but_last cand) = Returned check /\
                    last_char cand = Returned check.
Proof.
  intros Hm. unfold generate_ids.
  destruct (generate_from_spec now_year GENDER
              (List.map string_of_list_ascii (product (options mask))))
    as (ids & Hids & ->).
  { apply List.Forall_forall. intros cand Hin.
    now apply (candidates_In mask cand Hm) in Hin as [Hb _]. }
  exists (List.filter
            (fun cand => match yields now_year GENDER cand with
                         | Returned true => true
                         | _ => false
                         end)
            (List.map string_of_list_ascii (product (options mask)))).
  split; [exact Hids|]. split.
  - apply NoDup_ListNoDup, List.NoDup_filter, NoDup_ListNoDup, candidates_NoDup.
  - intros cand. rewrite filter_In, (candidates_In mask cand Hm). split.
    + intros ((Hb & Hmt) & Hy).
      destruct (yields_returns now_year GENDER cand Hb) as (b & Hyb & Hiff).
      rewrite Hyb in Hy. destruct b; [|discriminate].
      split; [exact Hb|]. split; [exact Hmt|]. now apply Hiff.
    + intros (Hb & Hmt & Htests). split; [auto|].
      destruct (yields_returns now_year GENDER cand Hb) as (b & Hyb & Hiff).
      rewrite Hyb. apply Hiff in Htests. now subst b.
Qed.

Lemma generate_ids_exact_witness :
  mask_ok "970420****08*" = true /\
  exists ids, generate_ids 2025 "F" "970420****08*" = Returned ids /\
    NoDup ids /\
    forall cand, In cand ids <->
      digit_block 13 cand = true /\ matches "970420****08*" cand = true /\
      valid_date 2025 (slice cand 0 2) (slice cand 2 4) (slice cand 4 6)
        = Returned true /\
      gender_ok "F" cand = Returned true /\
      exists check, luhn_sa (but_last cand) = Returned check /\
                    last_char cand = Returned check.
Proof.
  split; [reflexivity|].
  apply (generate_ids_exact 2025 "F" "970420****08*"). reflexivity.
Defined.

Example generate_ids_small :
  generate_ids 2025 "F" "970420123408*" = Returned ["9704201234083"] /\
  generate_ids 2025 "F" "97042012340**" =
    Returned ["9704201234000"; "9704201234018"; "9704201234026"; "9704201234034";
              "9704201234042"; "9704201234059"; "9704201234067"; "9704201234075";
              "9704201234083"; "9704201234091"] /\
  generate_ids 2025 "M" "97042012340**" = Returned [] /\
  generate_ids 2025 "U" "9702301234***" = Returned [].
Proof. repeat split; vm_compute; reflexivity. Qed.

End MaskSolverSpec.

(** ** Lists with a key *)

Module ListFacts.

Lemma filter_all {A} (f : A -> bool) l :
  (forall x, In x l -> f x = true) -> List.filter f l = l.
Proof.
  induction l as [|a l IH]; intros H; [reflexivity|]. simpl.
  rewrite (H a) by now left. f_equal. apply IH. intros x Hx. apply H. now right.
Qed.

Lemma filter_none {A} (f : A -> bool) l :
  (forall x, In x l -> f x = false) -> List.filter f l = [].
Proof.
  induction l as [|a l IH]; intros H; [reflexivity|]. simpl.
  rewrite (H a) by now left. apply IH. intros x Hx. apply H. now right.
Qed.

Lemma filter_and {A} (f g : A -> bool) l :
  List.filter f (List.filter g l) = List.filter (fun x => g x && f x) l.
Proof.
  induction l as [|a l IH]; [reflexivity|]. simpl.
  destruct (g a); simpl; [destruct (f a)|]; now rewrite IH.
Qed.

Lemma filter_Permutation {A} (f : A -> bool) l l' :
  l ≡ₚ l' -> List.filter f l ≡ₚ List.filter f l'.
Proof.
  induction 1 as [|x l l' _ IH|x y l|l l' l'' _ IH1 _ IH2]; simpl.
  - reflexivity.
  - destruct (f x); [now constructor | exact IH].
  - destruct (f x), (f y); try reflexivity. constructor.
  - now transitivity (List.filter f l').
Qed.

Lemma filter_length_le {A} (f : A -> bool) l :
  (length (List.filter f l) <= length l)%nat.
Proof. induction l as [|a l IH]; simpl; [lia|]. destruct (f a); simpl; lia. Qed.

Lemma mem_In k ids : existsb (Z.eqb k) ids = true <-> In k ids.
Proof.
  rewrite existsb_exists. split.
  - intros (x & Hx & E). apply Z.eqb_eq in E. now subst.
  - intros H. exists k. split; [exact H | apply Z.eqb_refl].
Qed.

Lemma key_inj {A} (key : A -> Z) l x y :
  NoDup (List.map key l) -> In x l -> In y l -> key x = key y -> x = y.
Proof.
  induction l as [|a l IH]; simpl; [tauto|].
  intros ND Hx Hy E. apply NoDup_cons in ND as [Ha ND].
  rewrite list_elem_of_In in Ha.
  destruct Hx as [<-|Hx], Hy as [<-|Hy]; auto.
  - exfalso. apply Ha. rewrite E. now apply in_map.
  - exfalso. apply Ha. rewrite <- E. now apply in_map.
Qed.

Lemma NoDup_map_filter {A} (key : A -> Z) (f : A -> bool) l :
  NoDup (List.map key l) -> NoDup (List.map key (List.filter f l)).
Proof.
  induction l as [|a l IH]; simpl; [auto|]. intros ND.
  apply NoDup_cons in ND as [Ha ND]. destruct (f a); simpl; [|auto].
  apply NoDup_cons. split; [|auto]. intros Hin. apply Ha.
  apply list_elem_of_In, in_map_iff in Hin as (x & E & Hx).
  apply filter_In in Hx as [Hx _]. apply list_elem_of_In, in_map_iff. eauto.
Qed.

Lemma NoDup_map_Permutation {A} (key : A -> Z) l l' :
  l ≡ₚ l' -> NoDup (List.map key l) -> NoDup (List.map key l').
Proof. intros HP. now rewrite (Permutation_map key HP). Qed.

(** Removing from a list with distinct keys the keys of a prefix leaves
    the rest. *)
Lemma filter_not_prefix {A} (key : A -> Z) (taken rest : list A) :
  NoDup (List.map key (taken ++ rest)) ->
  List.filter (fun x => negb (existsb (Z.eqb (key x)) (List.map key taken)))
              (taken ++ rest) = rest.
Proof.
  intros ND. rewrite List.filter_app, filter_none, filter_all; [reflexivity| |].
  - intros x Hx. apply negb_true_iff, not_true_iff_false. rewrite mem_In.
    intros Hk. apply in_map_iff in Hk as (y & E & Hy).
    assert (x = y).
    { apply (key_inj key (taken ++ rest)); auto; apply in_or_app; auto. }
    subst y. rewrite List.map_app in ND. apply NoDup_app in ND as (_ & Hdis & _).
    apply (Hdis (key x)); apply list_elem_of_In, in_map; assumption.
  - intros x Hx. apply negb_false_iff, mem_In. now apply in_map.
Qed.

Lemma filter_not_firstn {A} (key : A -> Z) (l : list A) k :
  NoDup (List.map key l) ->
  List.filter (fun x => negb (existsb (Z.eqb (key x)) (List.map key (firstn k l)))) l
    = skipn k l.
Proof.
  intros ND. pose proof (filter_not_prefix key (firstn k l) (skipn k l)) as H.
  rewrite (firstn_skipn k l) in H. now apply H.
Qed.

End ListFacts.

(** ** The back-fill of birth dates *)

Module BackfillSpec.
Import Py Calendar Backfill Correction BackfillRun ListFacts.

Global Instance by_mi_Id_total : Total by_mi_Id.
Proof. intros a b. unfold by_mi_Id. lia. Qed.

Global Instance by_mi_Id_trans : Transitive by_mi_Id.
Proof. intros a b c. unfold by_mi_Id. lia. Qed.

(** The candidates of the next pass: after the first [B] candidates in
    order of [Id] have been dealt with, the candidates in order are the
    rest of that list. *)
Lemma next_candidates (P P' : MasterItem -> bool) mis B :
  NoDup (List.map mi_Id mis) ->
  (forall mi, In mi mis ->
     P' mi = P mi &&
       negb (existsb (Z.eqb (mi_Id mi))
               (List.map mi_Id (firstn B (merge_sort by_mi_Id (List.filter P mis)))))) ->
  merge_sort by_mi_Id (List.filter P' mis)
    = skipn B (merge_sort by_mi_Id (List.filter P mis)).
Proof.
  intros ND HP'.
  set (S := merge_sort by_mi_Id (List.filter P mis)) in *.
  assert (HS : S ≡ₚ List.filter P mis) by apply merge_sort_Permutation.
  assert (HSs : StronglySorted by_mi_Id S) by (apply StronglySorted_merge_sort; apply _).
  assert (HSin : forall x, In x S -> In x mis).
  { intros x Hx. apply list_elem_of_In in Hx. rewrite HS in Hx.
    apply list_elem_of_In, filter_In in Hx. tauto. }
  assert (E : List.filter P' mis =
              List.filter (fun x => negb (existsb (Z.eqb (mi_Id x))
                                            (List.map mi_Id (firstn B S))))
                          (List.filter P mis)).
  { rewrite filter_and. apply filter_ext_in. exact HP'. }
  assert (HPerm : List.filter P' mis ≡ₚ skipn B S).
  { rewrite E, <- (filter_Permutation _ _ _ HS). rewrite filter_not_firstn; [reflexivity|].
    apply (NoDup_map_Permutation mi_Id (List.filter P mis)); [now symmetry|].
    now apply NoDup_map_filter. }
  apply (StronglySorted_unique_strong by_mi_Id).
  - intros x1 x2 H1 H2 R1 R2. unfold by_mi_Id in R1, R2.
    apply (key_inj mi_Id mis); auto; [| |lia].
    + rewrite merge_sort_Permutation in H1.
      apply list_elem_of_In, filter_In in H1. tauto.
    + apply HSin, list_elem_of_In. rewrite <- (firstn_skipn B S).
      apply elem_of_app. now right.
  - apply StronglySorted_merge_sort; apply _.
  - rewrite <- (firstn_skipn B S) in HSs. now apply StronglySorted_app_1_r in HSs.
  - now rewrite merge_sort_Permutation.
Qed.

(** *** Phase 1 *)

Lemma missing_In year4 mis bds mi :
  In mi (missing year4 mis bds) <->
  In mi mis /\ unmatched bds mi = true /\ decodable year4 mi = true.
Proof. unfold missing. rewrite filter_In, andb_true_iff. tauto. Qed.

Lemma unmatched_spec bds mi :
  unmatched bds mi = true <-> ~ In (mi_Id mi) (List.map Id bds).
Proof.
  unfold unmatched. rewrite negb_true_iff, <- not_true_iff_false, existsb_exists.
  split; intros H Hin; apply H.
  - apply in_map_iff in Hin as (bd & E & Hbd). exists bd.
    split; [exact Hbd | now apply Z.eqb_eq].
  - destruct Hin as (bd & Hbd & E). apply Z.eqb_eq in E. rewrite <- E.
    now apply in_map.
Qed.

Lemma decodable_dated year4 mi :
  decodable year4 mi = true -> exists d, DOB_of year4 (IDNumber mi) = Some d.
Proof.
  unfold decodable. intros H. apply andb_true_iff in H as [_ H].
  now apply bool_decide_eq_true in H.
Qed.

Lemma Id_row_of year4 l : List.map Id (List.map (row_of year4) l) = List.map mi_Id l.
Proof. rewrite List.map_map. reflexivity. Qed.

Lemma unmatched_app year4 bds l mi :
  unmatched (bds ++ List.map (row_of year4) l) mi =
  unmatched bds mi && negb (existsb (Z.eqb (mi_Id mi)) (List.map mi_Id l)).
Proof.
  unfold unmatched. rewrite existsb_app, negb_orb. f_equal. f_equal.
  induction l as [|a l IH]; [reflexivity|]. simpl. rewrite IH.
  now rewrite (Z.eqb_sym (mi_Id a)).
Qed.

Lemma length_merge_sort (l : list MasterItem) :
  length (merge_sort by_mi_Id l) = length l.
Proof. apply Permutation_length, merge_sort_Permutation. Qed.

(** The rows the next pass has to insert. *)
Lemma missing_next year4 B mis bds :
  NoDup (List.map mi_Id mis) ->
  merge_sort by_mi_Id
    (missing year4 mis (bds ++ SELECT_missing year4 B mis bds))
  = skipn B (merge_sort by_mi_Id (missing year4 mis bds)).
Proof.
  intros ND. unfold SELECT_missing, missing at 1. apply next_candidates; [exact ND|].
  intros mi _. rewrite unmatched_app. fold (missing year4 mis bds).
  destruct (unmatched bds mi), (decodable year4 mi),
    (existsb (Z.eqb (mi_Id mi))
       (List.map mi_Id (firstn B (merge_sort by_mi_Id (missing year4 mis bds)))));
    reflexivity.
Qed.

(** The loop of Phase 1 ends, and what it has done then is one insert of
    all the missing rows in order of [Id]. *)
Lemma Phase1_closed year4 B mis :
  (1 <= B)%nat -> NoDup (List.map mi_Id mis) ->
  forall fuel bds total,
    (length (missing year4 mis bds) < fuel)%nat ->
    Phase1 fuel year4 B mis bds total =
      Some ((bds ++ List.map (row_of year4)
                      (merge_sort by_mi_Id (missing year4 mis bds)))%list,
            total + Z.of_nat (length (missing year4 mis bds))).
Proof.
  intros HB ND. induction fuel as [|fuel IH]; intros bds total Hf; [lia|].
  cbn [Phase1].
  pose proof (missing_next year4 B mis bds ND) as Hnext.
  pose proof (length_merge_sort (missing year4 mis bds)) as HlenS.
  assert (Hlen : length (SELECT_missing year4 B mis bds)
                 = Nat.min B (length (missing year4 mis bds))).
  { unfold SELECT_missing. now rewrite List.length_map, List.length_firstn, HlenS. }
  destruct (Z.eqb_spec (Z.of_nat (length (SELECT_missing year4 B mis bds))) 0) as [E|E].
  - assert (E0 : length (missing year4 mis bds) = 0%nat) by lia.
    rewrite E, E0. apply length_zero_iff_nil in E0.
    assert (SELECT_missing year4 B mis bds = []) as -> by (apply length_zero_iff_nil; lia).
    rewrite E0. reflexivity.
  - assert (Hlen' : length (missing year4 mis (bds ++ SELECT_missing year4 B mis bds))
                    = (length (missing year4 mis bds) - B)%nat).
    { rewrite <- length_merge_sort, Hnext, List.length_skipn, HlenS. reflexivity. }
    rewrite IH by lia. rewrite Hnext, Hlen', Hlen. f_equal. f_equal.
    + unfold SELECT_missing. rewrite <- List.app_assoc, <- List.map_app.
      now rewrite firstn_skipn.
    + lia.
Qed.

Lemma missing_length year4 mis bds :
  (length (missing year4 mis bds) <= length mis)%nat.
Proof. apply filter_length_le. Qed.

Lemma NoDup_inserted year4 mis bds :
  NoDup (List.map mi_Id mis) -> NoDup (List.map Id bds) ->
  NoDup (List.map Id (bds ++ List.map (row_of year4)
                         (merge_sort by_mi_Id (missing year4 mis bds)))).
Proof.
  intros NDm NDb. rewrite List.map_app, Id_row_of. apply NoDup_app.
  split; [exact NDb|]. split.
  - intros k Hk Hk'. apply list_elem_of_In in Hk.
    apply list_elem_of_In, in_map_iff in Hk' as (mi & <- & Hmi).
    apply list_elem_of_In in Hmi. rewrite merge_sort_Permutation in Hmi.
    apply list_elem_of_In, missing_In in Hmi as (_ & Hun & _).
    now apply unmatched_spec in Hun.
  - apply (NoDup_map_Permutation mi_Id (missing year4 mis bds)).
    + symmetry. apply merge_sort_Permutation.
    + now apply NoDup_map_filter.
Qed.

(** *** Phase 2 *)

Lemma undated_In year4 mis bds m :
  In m (undated year4 mis bds) <->
  In m mis /\ decodable year4 m = true /\
  exists b, In b bds /\ Id b = mi_Id m /\ BirthDate b = None.
Proof.
  unfold undated. rewrite filter_In, andb_true_iff, existsb_exists. split.
  - intros (Hm & (b & Hb & E) & Hd). apply andb_true_iff in E as [E1 E2].
    apply Z.eqb_eq in E1. split; [exact Hm|]. split; [exact Hd|].
    exists b. destruct (BirthDate b); [discriminate | auto].
  - intros (Hm & Hd & b & Hb & E1 & E2). split; [exact Hm|]. split; [|exact Hd].
    exists b. split; [exact Hb|]. rewrite E1, E2, Z.eqb_refl. reflexivity.
Qed.

Lemma filter_key_short (q : BirthDateRow -> bool) bds k :
  NoDup (List.map Id bds) ->
  (length (List.filter (fun b => Z.eqb (Id b) k && q b) bds) <= 1)%nat.
Proof.
  induction bds as [|b bds IH]; simpl; [lia|]. intros ND.
  apply NoDup_cons in ND as [Hb ND]. specialize (IH ND).
  destruct (Z.eqb_spec (Id b) k) as [E|E]; simpl; [|exact IH].
  rewrite filter_none; [destruct (q b); simpl; lia|].
  intros x Hx. apply andb_false_iff. left. apply Z.eqb_neq. intros E'.
  apply Hb, list_elem_of_In, in_map_iff. exists x. split; [congruence | exact Hx].
Qed.

Lemma existsb_filter {A} (f : A -> bool) l :
  existsb f l = negb (Nat.eqb (length (List.filter f l)) 0).
Proof.
  induction l as [|a l IH]; [reflexivity|]. simpl.
  destruct (f a); [reflexivity | exact IH].
Qed.

(** With [Id] a key of [dbo.BirthDates] the join of lines 116-117 gives
    each master item at most once. *)
Lemma undated_pairs_keyed year4 mis bds :
  NoDup (List.map Id bds) ->
  undated_pairs year4 mis bds = undated year4 mis bds.
Proof.
  intros ND. unfold undated_pairs, undated.
  induction mis as [|m mis IH]; [reflexivity|]. simpl.
  rewrite existsb_filter.
  pose proof (filter_key_short (fun b => is_null (BirthDate b)) bds (mi_Id m) ND) as Hshort.
  destruct (decodable year4 m); simpl.
  - rewrite IH.
    destruct (List.filter (fun b => Z.eqb (Id b) (mi_Id m) && is_null (BirthDate b)) bds)
      as [|b [|b' rest]]; simpl in *; [reflexivity | reflexivity | lia].
  - rewrite andb_false_r. exact IH.
Qed.

Local Abbreviation taken year4 B mis bds :=
  (firstn B (merge_sort by_mi_Id (undated year4 mis bds))).

Lemma todo_keyed year4 B mis bds :
  NoDup (List.map Id bds) ->
  todo year4 B mis bds = List.map mi_Id (taken year4 B mis bds).
Proof. intros ND. unfold todo. now rewrite undated_pairs_keyed. Qed.

Lemma taken_In year4 B mis bds m :
  In m (taken year4 B mis bds) -> In m (undated year4 mis bds).
Proof.
  intros H. apply list_elem_of_In. rewrite <- (merge_sort_Permutation by_mi_Id).
  apply list_elem_of_In. rewrite <- (firstn_skipn B (merge_sort _ _)).
  apply in_or_app. now left.
Qed.

Lemma item_of_Some mis id mi :
  item_of mis id = Some mi -> In mi mis /\ mi_Id mi = id.
Proof.
  unfold item_of. intros H. apply find_some in H as [H E].
  apply Z.eqb_eq in E. auto.
Qed.

Lemma item_of_keyed mis mi :
  NoDup (List.map mi_Id mis) -> In mi mis -> item_of mis (mi_Id mi) = Some mi.
Proof.
  intros ND Hin. unfold item_of.
  destruct (List.find (fun x => Z.eqb (mi_Id x) (mi_Id mi)) mis) as [x|] eqn:E.
  - apply find_some in E as [Hx E]. apply Z.eqb_eq in E.
    f_equal. now apply (key_inj mi_Id mis).
  - apply (find_none _ _ E) in Hin. now rewrite Z.eqb_refl in Hin.
Qed.

(** The rows one [UPDATE] writes. *)
Lemma joined_item_Some year4 B mis bds bd mi :
  NoDup (List.map mi_Id mis) -> NoDup (List.map Id bds) -> In bd bds ->
  joined_item mis (todo year4 B mis bds) bd = Some mi ->
  In mi (taken year4 B mis bds) /\ mi_Id mi = Id bd /\ BirthDate bd = None /\
  decodable year4 mi = true /\ item_of mis (Id bd) = Some mi.
Proof.
  intros NDm NDb Hbd. unfold joined_item. rewrite todo_keyed by exact NDb.
  destruct (existsb _ _) eqn:Hmem; [|discriminate]. intros Hfind.
  apply mem_In, in_map_iff in Hmem as (m & Em & Hm).
  pose proof (taken_In _ _ _ _ _ Hm) as Hu.
  apply undated_In in Hu as (Hmis & Hdec & b & Hb & Eb & Hnull).
  pose proof (item_of_Some _ _ _ Hfind) as [Hmi Emi].
  assert (mi = m) as -> by (apply (key_inj mi_Id mis); auto; congruence).
  assert (b = bd) as -> by (apply (key_inj Id bds); auto; congruence).
  auto.
Qed.

Lemma joined_item_None year4 B mis bds bd :
  NoDup (List.map Id bds) ->
  joined_item mis (todo year4 B mis bds) bd = None ->
  ~ In (Id bd) (List.map mi_Id (taken year4 B mis bds)).
Proof.
  intros NDb. unfold joined_item. rewrite todo_keyed by exact NDb.
  destruct (existsb _ _) eqn:Hmem.
  - intros Hfind _. apply mem_In, in_map_iff in Hmem as (m & Em & Hm).
    apply taken_In, undated_In in Hm as (Hmis & _).
    apply (find_none _ _ Hfind) in Hmis. apply Z.eqb_neq in Hmis. auto.
  - intros _ Hin. apply mem_In in Hin. congruence.
Qed.

Lemma joined_item_taken year4 B mis bds m :
  NoDup (List.map mi_Id mis) -> NoDup (List.map Id bds) ->
  In m (taken year4 B mis bds) ->
  exists bd, In bd bds /\ Id bd = mi_Id m /\
             joined_item mis (todo year4 B mis bds) bd = Some m.
Proof.
  intros NDm NDb Hm. pose proof (taken_In _ _ _ _ _ Hm) as Hu.
  apply undated_In in Hu as (Hmis & Hdec & b & Hb & Eb & Hnull).
  exists b. split; [exact Hb|]. split; [exact Eb|].
  unfold joined_item. rewrite todo_keyed by exact NDb.
  assert (existsb (Z.eqb (Id b)) (List.map mi_Id (taken year4 B mis bds)) = true) as ->.
  { apply mem_In. rewrite Eb. now apply in_map. }
  rewrite Eb. now apply item_of_keyed.
Qed.

Lemma Id_UPDATE year4 B mis bds :
  List.map Id (fst (UPDATE_undated year4 B mis bds)) = List.map Id bds.
Proof.
  unfold UPDATE_undated. cbn [fst]. rewrite List.map_map. apply map_ext.
  intros bd. destruct (joined_item _ _ bd); reflexivity.
Qed.

(** [@@ROWCOUNT] of one [UPDATE]. *)
Lemma rowcount_UPDATE year4 B mis bds :
  NoDup (List.map mi_Id mis) -> NoDup (List.map Id bds) ->
  snd (UPDATE_undated year4 B mis bds)
    = Z.of_nat (Nat.min B (length (undated year4 mis bds))).
Proof.
  intros NDm NDb. unfold UPDATE_undated. cbn [snd]. f_equal.
  rewrite <- (length_merge_sort (undated year4 mis bds)), <- List.length_firstn.
  rewrite <- (List.length_map Id), <- (List.length_map mi_Id (taken year4 B mis bds)).
  apply Permutation_length, NoDup_Permutation.
  - now apply NoDup_map_filter.
  - assert (ND : NoDup (List.map mi_Id (merge_sort by_mi_Id (undated year4 mis bds)))).
    { apply (NoDup_map_Permutation mi_Id (undated year4 mis bds)).
      - symmetry. apply merge_sort_Permutation.
      - now apply NoDup_map_filter. }
    rewrite <- (firstn_skipn B (merge_sort by_mi_Id (undated year4 mis bds))),
      List.map_app in ND.
    now apply NoDup_app in ND as (ND & _).
  - intros k. rewrite !list_elem_of_In, !in_map_iff. split.
    + intros (bd & <- & Hbd). apply filter_In in Hbd as [Hbd Hj].
      apply bool_decide_eq_true in Hj as [mi Hj].
      apply (joined_item_Some year4 B mis bds bd mi NDm NDb Hbd) in Hj
        as (Hmi & E & _). eauto.
    + intros (m & <- & Hm).
      destruct (joined_item_taken year4 B mis bds m NDm NDb Hm) as (bd & Hbd & E & Hj).
      exists bd. split; [exact E|]. apply filter_In. split; [exact Hbd|].
      apply bool_decide_eq_true. eauto.
Qed.

Lemma existsb_andb_const {A} (f : A -> bool) (c : bool) l :
  existsb (fun x => f x && c) l = existsb f l && c.
Proof.
  induction l as [|a l IH]; [reflexivity|]. simpl. rewrite IH.
  destruct (f a), c, (existsb f l); reflexivity.
Qed.

Lemma existsb_map_in {A B} (f : B -> bool) (g : A -> B) (h : A -> bool) l :
  (forall x, In x l -> f (g x) = h x) ->
  existsb f (List.map g l) = existsb h l.
Proof.
  induction l as [|a l IH]; intros H; [reflexivity|]. simpl.
  rewrite (H a) by now left. f_equal. apply IH. intros x Hx. apply H. now right.
Qed.

(** The master items the next pass has to deal with. *)
Lemma undated_next year4 B mis bds :
  NoDup (List.map mi_Id mis) -> NoDup (List.map Id bds) ->
  merge_sort by_mi_Id (undated year4 mis (fst (UPDATE_undated year4 B mis bds)))
  = skipn B (merge_sort by_mi_Id (undated year4 mis bds)).
Proof.
  intros NDm NDb. unfold undated at 1. apply next_candidates; [exact NDm|].
  intros m Hm. fold (undated year4 mis bds).
  set (c := negb (existsb (Z.eqb (mi_Id m)) (List.map mi_Id (taken year4 B mis bds)))).
  assert (E : existsb (fun b => Z.eqb (Id b) (mi_Id m) && is_null (BirthDate b))
                      (fst (UPDATE_undated year4 B mis bds))
              = existsb (fun b => Z.eqb (Id b) (mi_Id m) && is_null (BirthDate b)) bds && c).
  { rewrite <- existsb_andb_const. unfold UPDATE_undated. cbn [fst].
    apply existsb_map_in. intros bd Hbd.
    destruct (joined_item mis (todo year4 B mis bds) bd) as [mi|] eqn:Hj.
    - apply (joined_item_Some year4 B mis bds bd mi NDm NDb Hbd) in Hj
        as (Hmi & Emi & Hnull & Hdec & _).
      destruct (decodable_dated _ _ Hdec) as [d Hd]. cbn [Id BirthDate]. rewrite Hd, Hnull.
      cbn [is_null]. rewrite andb_false_r, andb_true_r.
      destruct (Z.eqb_spec (Id bd) (mi_Id m)) as [E|E]; [|reflexivity].
      symmetry. apply negb_false_iff, mem_In. rewrite <- E, <- Emi. now apply in_map.
    - apply (joined_item_None year4 B mis bds bd NDb) in Hj.
      destruct (Z.eqb_spec (Id bd) (mi_Id m)) as [E|E]; [|reflexivity].
      rewrite E in Hj. unfold c.
      assert (existsb (Z.eqb (mi_Id m)) (List.map mi_Id (taken year4 B mis bds)) = false) as ->.
      { apply not_true_iff_false. now rewrite mem_In. }
      now rewrite andb_true_r. }
  rewrite E. destruct (existsb _ bds), (decodable year4 m), c; reflexivity.
Qed.

Lemma filled_dated year4 mis bd d :
  BirthDate bd = Some d -> filled year4 mis bd = bd.
Proof. unfold filled. now intros ->. Qed.

(** Where no master item is left to deal with, Phase 2 changes no row. *)
Lemma filled_fix year4 mis bds bd :
  undated year4 mis bds = [] -> In bd bds -> filled year4 mis bd = bd.
Proof.
  intros Hnil Hbd. unfold filled.
  destruct (BirthDate bd) as [d|] eqn:Hnull; [reflexivity|].
  destruct (item_of mis (Id bd)) as [mi|] eqn:Hitem; [|reflexivity].
  destruct (decodable year4 mi) eqn:Hdec; [|reflexivity].
  apply item_of_Some in Hitem as [Hmi E].
  assert (In mi (undated year4 mis bds)) as Hin.
  { apply undated_In. split; [exact Hmi|]. split; [exact Hdec|]. eauto. }
  rewrite Hnil in Hin. destruct Hin.
Qed.

Lemma filled_UPDATE year4 B mis bds :
  NoDup (List.map mi_Id mis) -> NoDup (List.map Id bds) ->
  List.map (filled year4 mis) (fst (UPDATE_undated year4 B mis bds))
    = List.map (filled year4 mis) bds.
Proof.
  intros NDm NDb. unfold UPDATE_undated. cbn [fst]. rewrite List.map_map.
  apply map_ext_in. intros bd Hbd.
  destruct (joined_item mis (todo year4 B mis bds) bd) as [mi|] eqn:Hj; [|reflexivity].
  apply (joined_item_Some year4 B mis bds bd mi NDm NDb Hbd) in Hj
    as (Hmi & Emi & Hnull & Hdec & Hitem).
  destruct (decodable_dated _ _ Hdec) as [d Hd].
  rewrite (filled_dated year4 mis _ d) by (cbn [BirthDate]; exact Hd).
  unfold filled. now rewrite Hnull, Hitem, Hdec.
Qed.

Lemma undated_length year4 mis bds :
  (length (undated year4 mis bds) <= length mis)%nat.
Proof. apply filter_length_le. Qed.

(** The loop of Phase 2 ends, and what it has done then is to give every
    row without a date the date of its master item, where there is one. *)
Lemma Phase2_closed year4 B mis :
  (1 <= B)%nat -> NoDup (List.map mi_Id mis) ->
  forall fuel bds total,
    NoDup (List.map Id bds) ->
    (length (undated year4 mis bds) < fuel)%nat ->
    Phase2 fuel year4 B mis bds total =
      Some (List.map (filled year4 mis) bds,
            total + Z.of_nat (length (undated year4 mis bds))).
Proof.
  intros HB NDm. induction fuel as [|fuel IH]; intros bds total NDb Hf; [lia|].
  cbn [Phase2].
  pose proof (rowcount_UPDATE year4 B mis bds NDm NDb) as Hu.
  pose proof (undated_next year4 B mis bds NDm NDb) as Hnext.
  pose proof (filled_UPDATE year4 B mis bds NDm NDb) as Hfill.
  pose proof (Id_UPDATE year4 B mis bds) as HId.
  destruct (UPDATE_undated year4 B mis bds) as [bds1 u]. cbn [fst snd] in *. subst u.
  destruct (Z.eqb_spec (Z.of_nat (Nat.min B (length (undated year4 mis bds)))) 0) as [E|E].
  - assert (E0 : length (undated year4 mis bds) = 0%nat) by lia.
    apply length_zero_iff_nil in E0.
    assert (Hnil : undated year4 mis bds1 = []).
    { apply length_zero_iff_nil.
      rewrite <- length_merge_sort, Hnext, List.length_skipn, length_merge_sort, E0.
      reflexivity. }
    rewrite E0. cbn [length]. rewrite Nat.min_0_r. f_equal. f_equal.
    rewrite <- Hfill. symmetry. apply UpsertSpec.map_id_on.
    intros bd Hbd. now apply (filled_fix year4 mis bds1).
  - assert (Hlen' : length (undated year4 mis bds1)
                    = (length (undated year4 mis bds) - B)%nat).
    { rewrite <- length_merge_sort, Hnext, List.length_skipn, length_merge_sort.
      reflexivity. }
    rewrite IH; [|now rewrite HId|lia].
    rewrite Hfill, Hlen'. f_equal. f_equal. lia.
Qed.

(** *** The whole batch *)

Lemma undated_app_dated year4 mis bds l :
  Forall (fun mi => decodable year4 mi = true) l ->
  undated year4 mis (bds ++ List.map (row_of year4) l) = undated year4 mis bds.
Proof.
  intros Hl. unfold undated. apply filter_ext. intros m. f_equal.
  rewrite existsb_app.
  assert (existsb (fun b => Z.eqb (Id b) (mi_Id m) && is_null (BirthDate b))
                  (List.map (row_of year4) l) = false) as ->; [|apply orb_false_r].
  apply not_true_iff_false. rewrite existsb_exists. intros (b & Hb & E).
  apply in_map_iff in Hb as (mi & <- & Hmi).
  rewrite List.Forall_forall in Hl. specialize (Hl mi Hmi).
  destruct (decodable_dated _ _ Hl) as [d Hd].
  cbn [row_of BirthDate] in E. rewrite Hd in E. cbn [is_null] in E.
  now rewrite andb_false_r in E.
Qed.

Lemma filled_row_of year4 mis l :
  Forall (fun mi => decodable year4 mi = true) l ->
  List.map (filled year4 mis) (List.map (row_of year4) l) = List.map (row_of year4) l.
Proof.
  intros Hl. apply UpsertSpec.map_id_on. intros bd Hbd.
  apply in_map_iff in Hbd as (mi & <- & Hmi).
  rewrite List.Forall_forall in Hl. specialize (Hl mi Hmi).
  destruct (decodable_dated _ _ Hl) as [d Hd].
  now apply (filled_dated year4 mis _ d).
Qed.

Lemma sorted_missing_decodable year4 mis bds :
  Forall (fun mi => decodable year4 mi = true)
         (merge_sort by_mi_Id (missing year4 mis bds)).
Proof.
  apply List.Forall_forall. intros mi Hmi. apply list_elem_of_In in Hmi.
  rewrite merge_sort_Permutation in Hmi.
  apply list_elem_of_In, missing_In in Hmi. tauto.
Qed.

(** The whole batch, in closed form. *)
Lemma TSQL_closed year4 B mis bds fuel :
  (1 <= B)%nat -> keyed mis bds -> (length mis < fuel)%nat ->
  TSQL fuel year4 B mis bds =
    Some (mkSummary
            (List.map (filled year4 mis) bds
               ++ List.map (row_of year4) (merge_sort by_mi_Id (missing year4 mis bds)))
            (Z.of_nat (length (missing year4 mis bds)))
            (Z.of_nat (length (undated year4 mis bds)))).
Proof.
  intros HB [NDm NDb] Hf. unfold TSQL.
  pose proof (missing_length year4 mis bds).
  pose proof (undated_length year4 mis bds).
  pose proof (sorted_missing_decodable year4 mis bds) as Hdec.
  rewrite (Phase1_closed year4 B mis HB NDm) by lia.
  rewrite (Phase2_closed year4 B mis HB NDm).
  - rewrite List.map_app, filled_row_of, undated_app_dated by exact Hdec. reflexivity.
  - now apply NoDup_inserted.
  - rewrite undated_app_dated by exact Hdec. lia.
Qed.

Lemma Id_filled year4 mis bd :
  Id (filled year4 mis bd) = Id bd /\
  MasterItemId (filled year4 mis bd) = MasterItemId bd.
Proof.
  unfold filled. destruct (BirthDate bd); [auto|].
  destruct (item_of mis (Id bd)) as [mi|]; [|auto].
  destruct (decodable year4 mi); auto.
Qed.

Lemma map_Id_filled year4 mis bds :
  List.map Id (List.map (filled year4 mis) bds) = List.map Id bds.
Proof. rewrite List.map_map. apply map_ext. intros bd. apply Id_filled. Qed.

Local Abbreviation after year4 mis bds :=
  (List.map (filled year4 mis) bds
     ++ List.map (row_of year4) (merge_sort by_mi_Id (missing year4 mis bds)))%list.

Lemma after_keyed year4 mis bds :
  keyed mis bds -> keyed mis (after year4 mis bds).
Proof.
  intros [NDm NDb]. split; [exact NDm|].
  pose proof (NoDup_inserted year4 mis bds NDm NDb) as ND.
  rewrite List.map_app in *. now rewrite map_Id_filled.
Qed.

Lemma sorted_missing_In year4 mis bds mi :
  In mi (merge_sort by_mi_Id (missing year4 mis bds)) <-> In mi (missing year4 mis bds).
Proof. rewrite <- !list_elem_of_In. now rewrite merge_sort_Permutation. Qed.

(** After the batch no master item is left for Phase 1 ... *)
Lemma missing_after year4 mis bds :
  missing year4 mis (after year4 mis bds) = [].
Proof.
  unfold missing at 1. apply filter_none. intros mi Hmi.
  destruct (decodable year4 mi) eqn:Hdec; [|apply andb_false_r].
  rewrite andb_true_r. apply not_true_iff_false. rewrite unmatched_spec.
  intros H. apply H. rewrite List.map_app, map_Id_filled, Id_row_of.
  apply in_or_app.
  destruct (unmatched bds mi) eqn:Hun.
  - right. apply in_map, sorted_missing_In, missing_In. auto.
  - left. apply not_true_iff_false in Hun. rewrite unmatched_spec in Hun.
    destruct (in_dec Z.eq_dec (mi_Id mi) (List.map Id bds)); tauto.
Qed.

(** ... and none for Phase 2. *)
Lemma undated_after year4 mis bds :
  keyed mis bds -> undated year4 mis (after year4 mis bds) = [].
Proof.
  intros [NDm NDb].
  rewrite undated_app_dated by apply sorted_missing_decodable.
  unfold undated. apply filter_none. intros m Hm.
  destruct (decodable year4 m) eqn:Hdec; [|apply andb_false_r].
  rewrite andb_true_r. apply not_true_iff_false. rewrite existsb_exists.
  intros (b & Hb & E). apply andb_true_iff in E as [E Hnull]. apply Z.eqb_eq in E.
  apply in_map_iff in Hb as (bd & <- & Hbd).
  destruct (Id_filled year4 mis bd) as [EId _]. rewrite EId in E.
  unfold filled in Hnull.
  destruct (BirthDate bd) as [d|] eqn:Hbdnull; [now rewrite Hbdnull in Hnull|].
  rewrite E, (item_of_keyed mis m NDm Hm), Hdec in Hnull.
  destruct (decodable_dated _ _ Hdec) as [d Hd].
  cbn [BirthDate] in Hnull. now rewrite Hd in Hnull.
Qed.

Lemma filled_after year4 mis bds :
  keyed mis bds ->
  List.map (filled year4 mis) (after year4 mis bds) = after year4 mis bds.
Proof.
  intros Hk. apply UpsertSpec.map_id_on. intros bd Hbd.
  apply (filled_fix year4 mis (after year4 mis bds)); [|exact Hbd].
  now apply undated_after.
Qed.

(** X3. Phase 1, for any batch size of at least one and [Id] a key of
    [dbo.MasterItems]: the loop ends, and the rows it has added to
    [dbo.BirthDates] are, in ascending order of [Id] and each once, one
    row [(Id, Id, date)] for every master item that had no row, whose
    [IDNumber] starts with six digits and decodes to a date; the rows that
    were there are left as they were, and the total is the number of rows
    added. *)
Theorem Phase1_inserts_missing (year4 : string) (BatchSize fuel : nat)
    (MasterItems : list MasterItem) (BirthDates : list BirthDateRow) :
  (1 <= BatchSize)%nat -> NoDup (List.map mi_Id MasterItems) ->
  (length MasterItems < fuel)%nat ->
  exists inserted,
    Phase1 fuel year4 BatchSize MasterItems BirthDates 0
      = Some ((BirthDates ++ inserted)%list, Z.of_nat (length inserted)) /\
    (forall bd, In bd inserted <->
       exists mi d,
         In mi MasterItems /\ ~ In (mi_Id mi) (List.map Id BirthDates) /\
         LIKE_six_digits (IDNumber mi) = true /\
         DOB_of year4 (IDNumber mi) = Some d /\
         bd = mkBirthDateRow (mi_Id mi) (mi_Id mi) (Some d)) /\
    StronglySorted Z.le (List.map Id inserted) /\
    NoDup (List.map Id inserted).
Proof.
  intros HB ND Hf.
  exists (List.map (row_of year4) (merge_sort by_mi_Id (missing year4 MasterItems BirthDates))).
  pose proof (missing_length year4 MasterItems BirthDates).
  split; [|split; [|split]].
  - rewrite (Phase1_closed year4 BatchSize MasterItems HB ND) by lia.
    now rewrite List.length_map, length_merge_sort.
  - intros bd. rewrite in_map_iff. split.
    + intros (mi & <- & Hmi). apply sorted_missing_In, missing_In in Hmi as (Hmi & Hun & Hdec).
      destruct (decodable_dated _ _ Hdec) as [d Hd].
      exists mi, d. apply unmatched_spec in Hun.
      unfold decodable in Hdec. apply andb_true_iff in Hdec as [Hlike _].
      unfold row_of. rewrite Hd. auto.
    + intros (mi & d & Hmi & Hun & Hlike & Hd & ->). exists mi.
      split; [unfold row_of; now rewrite Hd|].
      apply sorted_missing_In, missing_In. split; [exact Hmi|].
      split; [now apply unmatched_spec|].
      unfold decodable. rewrite Hlike, Hd. apply andb_true_iff. split; [reflexivity|].
      apply bool_decide_eq_true. eauto.
  - rewrite Id_row_of.
    assert (HS : StronglySorted by_mi_Id
                   (merge_sort by_mi_Id (missing year4 MasterItems BirthDates)))
      by (apply StronglySorted_merge_sort; apply _).
    induction HS as [|a l _ IH Ha]; simpl; constructor; [exact IH|].
    apply List.Forall_forall. intros k Hk. apply in_map_iff in Hk as (x & <- & Hx).
    rewrite List.Forall_forall in Ha. exact (Ha x Hx).
  - rewrite Id_row_of.
    apply (NoDup_map_Permutation mi_Id (missing year4 MasterItems BirthDates)).
    + symmetry. apply merge_sort_Permutation.
    + now apply NoDup_map_filter.
Qed.

Lemma Phase1_inserts_missing_witness :
  let mis := [ mkMasterItem 3 (Some "9704201234083"); mkMasterItem 1 (Some "0102035000080");
               mkMasterItem 2 (Some "ABC"); mkMasterItem 4 None;
               mkMasterItem 5 (Some "9913011234081") ] in
  let bds := [ mkBirthDateRow 9 9 None ] in
  (1 <= 1)%nat /\ NoDup (List.map mi_Id mis) /\ (length mis < 6)%nat /\
  exists inserted,
    Phase1 6 "2025" 1 mis bds 0
      = Some ((bds ++ inserted)%list, Z.of_nat (length inserted)) /\
    (forall bd, In bd inserted <->
       exists mi d,
         In mi mis /\ ~ In (mi_Id mi) (List.map Id bds) /\
         LIKE_six_digits (IDNumber mi) = true /\
         DOB_of "2025" (IDNumber mi) = Some d /\
         bd = mkBirthDateRow (mi_Id mi) (mi_Id mi) (Some d)) /\
    StronglySorted Z.le (List.map Id inserted) /\
    NoDup (List.map Id inserted).
Proof.
  intros mis bds.
  assert (H1 : (1 <= 1)%nat) by lia.
  assert (H2 : NoDup (List.map mi_Id mis))
    by (apply (bool_decide_unpack (NoDup (List.map mi_Id mis))); vm_compute; exact I).
  assert (H3 : (length mis < 6)%nat) by (simpl; lia).
  split; [exact H1|]. split; [exact H2|]. split; [exact H3|].
  exact (Phase1_inserts_missing "2025" 1 6 mis bds H1 H2 H3).
Defined.

Example Phase1_example :
  Phase1 6 "2025" 1
    [ mkMasterItem 3 (Some "9704201234083"); mkMasterItem 1 (Some "0102035000080");
      mkMasterItem 2 (Some "ABC"); mkMasterItem 4 None;
      mkMasterItem 5 (Some "9913011234081") ]
    [ mkBirthDateRow 9 9 None ] 0
  = Some ([ mkBirthDateRow 9 9 None;
            mkBirthDateRow 1 1 (Some (mkdate 2001 2 3));
            mkBirthDateRow 3 3 (Some (mkdate 1997 4 20)) ], 2).
Proof. vm_compute. reflexivity. Qed.

(** X4. Phase 2, for any batch size of at least one and [Id] a key of both
    tables: the loop ends; a row without a date whose master item has an
    [IDNumber] that starts with six digits and decodes to a date gets that
    date, every other row (one with a date, one without a master item, one
    whose [IDNumber] gives no date) is left exactly as it was, no row is
    added or moved, and the total is the number of rows that got a date. *)
Theorem Phase2_fills_undated (year4 : string) (BatchSize fuel : nat)
    (MasterItems : list MasterItem) (BirthDates : list BirthDateRow) :
  (1 <= BatchSize)%nat -> keyed MasterItems BirthDates ->
  (length MasterItems < fuel)%nat ->
  exists updated,
    Phase2 fuel year4 BatchSize MasterItems BirthDates 0
      = Some (updated,
              Z.of_nat (length (List.filter
                                  (fun p => bool_decide (fst p <> snd p))
                                  (combine BirthDates updated)))) /\
    Forall2
      (fun bd bd' =>
         match BirthDate bd, item_of MasterItems (Id bd) with
         | None, Some mi =>
             if LIKE_six_digits (IDNumber mi)
             then match DOB_of year4 (IDNumber mi) with
                  | Some d => bd' = mkBirthDateRow (Id bd) (MasterItemId bd) (Some d)
                  | None => bd' = bd
                  end
             else bd' = bd
         | _, _ => bd' = bd
         end)
      BirthDates updated.
Proof.
  intros HB [NDm NDb] Hf.
  exists (List.map (filled year4 MasterItems) BirthDates).
  pose proof (undated_length year4 MasterItems BirthDates).
  rewrite (Phase2_closed year4 BatchSize MasterItems HB NDm) by (auto; lia).
  split.
  - rewrite Z.add_0_l. f_equal. f_equal. f_equal.
    rewrite <- (List.length_map mi_Id), <- (List.length_map (fun p => Id (fst p))).
    apply Permutation_length, NoDup_Permutation.
    + now apply NoDup_map_filter.
    + assert (E : List.map (fun p => Id (fst p))
                    (combine BirthDates (List.map (filled year4 MasterItems) BirthDates))
                  = List.map Id BirthDates).
      { clear. induction BirthDates as [|b l IH]; simpl; [reflexivity|]. now rewrite IH. }
      apply (NoDup_map_filter (fun p => Id (fst p))). now rewrite E.
    + intros k. rewrite !list_elem_of_In, !in_map_iff. split.
      * intros (m & <- & Hm). apply undated_In in Hm as (Hm & Hdec & b & Hb & E & Hnull).
        exists (b, filled year4 MasterItems b). split; [exact E|].
        apply filter_In. split.
        { clear -Hb. induction BirthDates as [|a l IH]; simpl in *; [tauto|].
          destruct Hb as [->|Hb]; auto. }
        apply bool_decide_eq_true. cbn [fst snd]. unfold filled.
        rewrite Hnull, E, (item_of_keyed _ _ NDm Hm), Hdec.
        destruct (decodable_dated _ _ Hdec) as [d Hd]. rewrite Hd.
        intros Eb. rewrite Eb in Hnull. discriminate Hnull.
      * intros ([b b'] & <- & Hp). apply filter_In in Hp as [Hp Hne].
        apply bool_decide_eq_true in Hne. cbn [fst snd] in *.
        assert (Hb : In b BirthDates /\ b' = filled year4 MasterItems b).
        { clear -Hp. induction BirthDates as [|a l IH]; simpl in *; [tauto|].
          destruct Hp as [[= -> <-]|Hp]; [auto|]. destruct (IH Hp). auto. }
        destruct Hb as [Hb ->]. unfold filled in Hne.
        destruct (BirthDate b) eqn:Hnull; [congruence|].
        destruct (item_of MasterItems (Id b)) as [mi|] eqn:Hitem; [|congruence].
        destruct (decodable year4 mi) eqn:Hdec; [|congruence].
        apply item_of_Some in Hitem as [Hmi E].
        exists mi. split; [exact E|]. apply undated_In. eauto 10.
  - clear. induction BirthDates as [|bd l IH]; simpl; constructor; [|exact IH].
    unfold filled, decodable. destruct (BirthDate bd); [reflexivity|].
    destruct (item_of MasterItems (Id bd)) as [mi|]; [|reflexivity].
    destruct (LIKE_six_digits (IDNumber mi)); [|reflexivity]. cbn [andb].
    destruct (DOB_of year4 (IDNumber mi)) as [d|] eqn:Hd.
    + rewrite bool_decide_eq_true_2 by eauto. reflexivity.
    + rewrite bool_decide_eq_false_2; [reflexivity|]. intros [? ?]. discriminate.
Qed.

Lemma Phase2_fills_undated_witness :
  let mis := [ mkMasterItem 3 (Some "9704201234083"); mkMasterItem 1 (Some "0102035000080");
               mkMasterItem 5 (Some "9913011234081") ] in
  let bds := [ mkBirthDateRow 5 5 None; mkBirthDateRow 3 3 None;
               mkBirthDateRow 1 1 (Some (mkdate 1950 1 1)); mkBirthDateRow 9 9 None ] in
  (1 <= 2)%nat /\ keyed mis bds /\ (length mis < 4)%nat /\
  exists updated,
    Phase2 4 "2025" 2 mis bds 0
      = Some (updated,
              Z.of_nat (length (List.filter
                                  (fun p => bool_decide (fst p <> snd p))
                                  (combine bds updated)))) /\
    Forall2
      (fun bd bd' =>
         match BirthDate bd, item_of mis (Id bd) with
         | None, Some mi =>
             if LIKE_six_digits (IDNumber mi)
             then match DOB_of "2025" (IDNumber mi) with
                  | Some d => bd' = mkBirthDateRow (Id bd) (MasterItemId bd) (Some d)
                  | None => bd' = bd
                  end
             else bd' = bd
         | _, _ => bd' = bd
         end)
      bds updated.
Proof.
  intros mis bds.
  assert (H1 : (1 <= 2)%nat) by lia.
  assert (H2 : keyed mis bds).
  { split.
    - apply (bool_decide_unpack (NoDup (List.map mi_Id mis))); vm_compute; exact I.
    - apply (bool_decide_unpack (NoDup (List.map Id bds))); vm_compute; exact I. }
  assert (H3 : (length mis < 4)%nat) by (simpl; lia).
  split; [exact H1|]. split; [exact H2|]. split; [exact H3|].
  exact (Phase2_fills_undated "2025" 2 4 mis bds H1 H2 H3).
Defined.

(** X5. The whole batch, for any batch size of at least one and [Id] a
    key of both tables: it ends; [Id] is still a key of [dbo.BirthDates];
    every row that had a date is still there as it was, and every row
    keeps its [Id] and [MasterItemId]; every master item whose [IDNumber]
    starts with six digits and decodes to a date now has a row, which
    carries that date unless it already had another one; every row of the
    table is either a row that was there or carries the decoded date of
    its master item; and [TotalInsertedInRun] is the number of rows the
    table has grown by. *)
Theorem TSQL_backfills (year4 : string) (BatchSize fuel : nat)
    (MasterItems : list MasterItem) (BirthDates : list BirthDateRow) :
  (1 <= BatchSize)%nat -> keyed MasterItems BirthDates ->
  (length MasterItems < fuel)%nat ->
  exists s,
    TSQL fuel year4 BatchSize MasterItems BirthDates = Some s /\
    keyed MasterItems (BirthDates_after s) /\
    (forall bd d, In bd BirthDates -> BirthDate bd = Some d ->
       In bd (BirthDates_after s)) /\
    (forall bd, In bd BirthDates ->
       exists bd', In bd' (BirthDates_after s) /\
                   Id bd' = Id bd /\ MasterItemId bd' = MasterItemId bd) /\
    (forall mi d, In mi MasterItems -> LIKE_six_digits (IDNumber mi) = true ->
       DOB_of year4 (IDNumber mi) = Some d ->
       exists bd, In bd (BirthDates_after s) /\ Id bd = mi_Id mi /\
                  (BirthDate bd = Some d \/
                   (In bd BirthDates /\ BirthDate bd <> None))) /\
    (forall bd', In bd' (BirthDates_after s) ->
       In bd' BirthDates \/
       exists mi d, In mi MasterItems /\ mi_Id mi = Id bd' /\
                    DOB_of year4 (IDNumber mi) = Some d /\ BirthDate bd' = Some d) /\
    TotalInsertedInRun s
      = Z.of_nat (length (BirthDates_after s)) - Z.of_nat (length BirthDates) /\
    0 <= TotalUpdatedInRun s <= Z.of_nat (length BirthDates).
Proof.
  intros HB Hk Hf. pose proof Hk as [NDm NDb].
  eexists. split; [apply TSQL_closed; eassumption|]. cbn [BirthDates_after
    TotalInsertedInRun TotalUpdatedInRun].
  split; [now apply after_keyed|].
  split; [|split; [|split; [|split; [|split]]]].
  - intros bd d Hbd Hd. apply in_or_app. left. apply in_map_iff.
    exists bd. split; [now apply (filled_dated _ _ _ d) | exact Hbd].
  - intros bd Hbd. exists (filled year4 MasterItems bd).
    split; [apply in_or_app; left; now apply in_map|]. apply Id_filled.
  - intros mi d Hmi Hlike Hd.
    assert (Hdec : decodable year4 mi = true).
    { unfold decodable. rewrite Hlike, Hd. apply andb_true_iff. split; [reflexivity|].
      apply bool_decide_eq_true. eauto. }
    destruct (unmatched BirthDates mi) eqn:Hun.
    + exists (row_of year4 mi). split; [|split; [reflexivity|]].
      * apply in_or_app. right. apply in_map, sorted_missing_In, missing_In. auto.
      * left. unfold row_of. cbn [BirthDate]. exact Hd.
    + apply not_true_iff_false in Hun. rewrite unmatched_spec in Hun.
      destruct (in_dec Z.eq_dec (mi_Id mi) (List.map Id BirthDates)) as [Hin|]; [|tauto].
      apply in_map_iff in Hin as (bd & E & Hbd).
      exists (filled year4 MasterItems bd).
      split; [apply in_or_app; left; now apply in_map|].
      destruct (Id_filled year4 MasterItems bd) as [-> _]. split; [exact E|].
      unfold filled. destruct (BirthDate bd) as [d0|] eqn:Hnull.
      * right. rewrite Hnull. split; [exact Hbd | discriminate].
      * left. rewrite E, (item_of_keyed _ _ NDm Hmi), Hdec. exact Hd.
  - intros bd' Hbd'. apply in_app_or in Hbd' as [Hbd'|Hbd'].
    + apply in_map_iff in Hbd' as (bd & <- & Hbd). unfold filled.
      destruct (BirthDate bd) as [d0|] eqn:Hnull; [now left|].
      destruct (item_of MasterItems (Id bd)) as [mi|] eqn:Hitem; [|now left].
      destruct (decodable year4 mi) eqn:Hdec; [|now left].
      right. apply item_of_Some in Hitem as [Hmi E].
      destruct (decodable_dated _ _ Hdec) as [d Hd]. exists mi, d. auto.
    + apply in_map_iff in Hbd' as (mi & <- & Hmi).
      apply sorted_missing_In, missing_In in Hmi as (Hmi & _ & Hdec).
      destruct (decodable_dated _ _ Hdec) as [d Hd]. right. exists mi, d. auto.
  - rewrite List.length_app, !List.length_map, length_merge_sort. lia.
  - split; [lia|]. apply inj_le.
    rewrite <- (List.length_map Id BirthDates), <- (List.length_map mi_Id).
    apply NoDup_incl_length.
    + apply NoDup_ListNoDup. now apply NoDup_map_filter.
    + intros k Hk'. apply in_map_iff in Hk' as (m & <- & Hm).
      apply undated_In in Hm as (_ & _ & b & Hb & <- & _). now apply in_map.
Qed.

Lemma TSQL_backfills_witness :
  let mis := [ mkMasterItem 3 (Some "9704201234083"); mkMasterItem 1 (Some "0102035000080");
               mkMasterItem 2 (Some "ABC"); mkMasterItem 5 (Some "9913011234081");
               mkMasterItem 6 (Some "8001015009087") ] in
  let bds := [ mkBirthDateRow 6 6 None; mkBirthDateRow 1 1 (Some (mkdate 1950 1 1));
               mkBirthDateRow 9 9 None ] in
  (1 <= 2)%nat /\ keyed mis bds /\ (length mis < 6)%nat /\
  exists s,
    TSQL 6 "2025" 2 mis bds = Some s /\
    keyed mis (BirthDates_after s) /\
    (forall bd d, In bd bds -> BirthDate bd = Some d -> In bd (BirthDates_after s)) /\
    (forall bd, In bd bds ->
       exists bd', In bd' (BirthDates_after s) /\
                   Id bd' = Id bd /\ MasterItemId bd' = MasterItemId bd) /\
    (forall mi d, In mi mis -> LIKE_six_digits (IDNumber mi) = true ->
       DOB_of "2025" (IDNumber mi) = Some d ->
       exists bd, In bd (BirthDates_after s) /\ Id bd = mi_Id mi /\
                  (BirthDate bd = Some d \/ (In bd bds /\ BirthDate bd <> None))) /\
    (forall bd', In bd' (BirthDates_after s) ->
       In bd' bds \/
       exists mi d, In mi mis /\ mi_Id mi = Id bd' /\
                    DOB_of "2025" (IDNumber mi) = Some d /\ BirthDate bd' = Some d) /\
    TotalInsertedInRun s
      = Z.of_nat (length (BirthDates_after s)) - Z.of_nat (length bds) /\
    0 <= TotalUpdatedInRun s <= Z.of_nat (length bds).
Proof.
  intros mis bds.
  assert (H1 : (1 <= 2)%nat) by lia.
  assert (H2 : keyed mis bds).
  { split.
    - apply (bool_decide_unpack (NoDup (List.map mi_Id mis))); vm_compute; exact I.
    - apply (bool_decide_unpack (NoDup (List.map Id bds))); vm_compute; exact I. }
  assert (H3 : (length mis < 6)%nat) by (simpl; lia).
  split; [exact H1|]. split; [exact H2|]. split; [exact H3|].
  exact (TSQL_backfills "2025" 2 6 mis bds H1 H2 H3).
Defined.

Example TSQL_example :
  TSQL 6 "2025" 2
    [ mkMasterItem 3 (Some "9704201234083"); mkMasterItem 1 (Some "0102035000080");
      mkMasterItem 2 (Some "ABC"); mkMasterItem 5 (Some "9913011234081");
      mkMasterItem 6 (Some "8001015009087") ]
    [ mkBirthDateRow 6 6 None; mkBirthDateRow 1 1 (Some (mkdate 1950 1 1));
      mkBirthDateRow 9 9 None ]
  = Some (mkSummary
            [ mkBirthDateRow 6 6 (Some (mkdate 1980 1 1));
              mkBirthDateRow 1 1 (Some (mkdate 1950 1 1));
              mkBirthDateRow 9 9 None;
              mkBirthDateRow 3 3 (Some (mkdate 1997 4 20)) ]
            1 1).
Proof. vm_compute. reflexivity. Qed.

(** X6. Running the batch again right after a run finds nothing to do: it
    inserts no row, updates none and leaves the table as the first run
    left it, whatever the batch sizes of the two runs. *)
Theorem TSQL_twice (year4 : string) (BatchSize BatchSize' fuel fuel' : nat)
    (MasterItems : list MasterItem) (BirthDates : list BirthDateRow) :
  (1 <= BatchSize)%nat -> (1 <= BatchSize')%nat -> keyed MasterItems BirthDates ->
  (length MasterItems < fuel)%nat -> (length MasterItems < fuel')%nat ->
  exists s,
    TSQL fuel year4 BatchSize MasterItems BirthDates = Some s /\
    TSQL fuel' year4 BatchSize' MasterItems (BirthDates_after s)
      = Some (mkSummary (BirthDates_after s) 0 0).
Proof.
  intros HB HB' Hk Hf Hf'.
  eexists. split; [apply TSQL_closed; eassumption|]. cbn [BirthDates_after].
  rewrite (TSQL_closed year4 BatchSize' MasterItems _ fuel' HB' (after_keyed _ _ _ Hk) Hf').
  rewrite filled_after, missing_after, undated_after by exact Hk.
  cbn [length List.map]. now rewrite List.app_nil_r.
Qed.

Lemma TSQL_twice_witness :
  let mis := [ mkMasterItem 3 (Some "9704201234083"); mkMasterItem 1 (Some "0102035000080");
               mkMasterItem 6 (Some "8001015009087") ] in
  let bds := [ mkBirthDateRow 6 6 None; mkBirthDateRow 9 9 None ] in
  (1 <= 1)%nat /\ (1 <= 5)%nat /\ keyed mis bds /\
  (length mis < 4)%nat /\ (length mis < 7)%nat /\
  exists s,
    TSQL 4 "2025" 1 mis bds = Some s /\
    TSQL 7 "2025" 5 mis (BirthDates_after s) = Some (mkSummary (BirthDates_after s) 0 0).
Proof.
  intros mis bds.
  assert (H1 : (1 <= 1)%nat) by lia.
  assert (H1' : (1 <= 5)%nat) by lia.
  assert (H2 : keyed mis bds).
  { split.
    - apply (bool_decide_unpack (NoDup (List.map mi_Id mis))); vm_compute; exact I.
    - apply (bool_decide_unpack (NoDup (List.map Id bds))); vm_compute; exact I. }
  assert (H3 : (length mis < 4)%nat) by (simpl; lia).
  assert (H3' : (length mis < 7)%nat) by (simpl; lia).
  split; [exact H1|]. split; [exact H1'|]. split; [exact H2|].
  split; [exact H3|]. split; [exact H3'|].
  exact (TSQL_twice "2025" 1 5 4 7 mis bds H1 H1' H2 H3 H3').
Defined.

Lemma UPDATE_zero year4 mis bds : UPDATE_undated year4 0 mis bds = (bds, 0).
Proof.
  unfold UPDATE_undated.
  change (todo year4 0 mis bds) with (@nil Z). unfold joined_item. cbn [existsb].
  rewrite filter_none by (intros bd _; now apply bool_decide_eq_false_2, is_Some_None).
  now rewrite List.map_id.
Qed.

Lemma Phase1_zero fuel year4 mis bds total :
  Phase1 (S fuel) year4 0 mis bds total = Some (bds, total).
Proof.
  cbn [Phase1]. change (SELECT_missing year4 0 mis bds) with (@nil BirthDateRow).
  simpl. now rewrite List.app_nil_r, Z.add_0_r.
Qed.

Lemma Phase2_zero fuel year4 mis bds total :
  Phase2 (S fuel) year4 0 mis bds total = Some (bds, total).
Proof.
  change (Phase2 (S fuel) year4 0 mis bds total)
    with (let '(bds', u) := UPDATE_undated year4 0 mis bds in
          if u =? 0 then Some (bds', total + u)
          else Phase2 fuel year4 0 mis bds' (total + u)).
  rewrite UPDATE_zero. simpl. now rewrite Z.add_0_r.
Qed.

(** X7. The batch size matters only in being zero or not: with
    [@BatchSize = 0] both loops end on their first pass and nothing is
    inserted or updated, whatever the tables hold; with [Id] a key of both
    tables every batch size of at least one gives the same table and the
    same totals. *)
Theorem TSQL_batch_size (year4 : string) (MasterItems : list MasterItem)
    (BirthDates : list BirthDateRow) :
  (forall fuel,
     TSQL (S fuel) year4 0 MasterItems BirthDates = Some (mkSummary BirthDates 0 0)) /\
  (keyed MasterItems BirthDates ->
   forall BatchSize BatchSize' fuel fuel',
     (1 <= BatchSize)%nat -> (1 <= BatchSize')%nat ->
     (length MasterItems < fuel)%nat -> (length MasterItems < fuel')%nat ->
     TSQL fuel year4 BatchSize MasterItems BirthDates
       = TSQL fuel' year4 BatchSize' MasterItems BirthDates).
Proof.
  split.
  - intros fuel. unfold TSQL. now rewrite Phase1_zero, Phase2_zero.
  - intros Hk B B' fuel fuel' HB HB' Hf Hf'.
    now rewrite !(TSQL_closed year4 _ MasterItems BirthDates _) by assumption.
Qed.

End BackfillSpec.

(** ** The retry loop for any ceiling *)

Module RetrySpec.
Import Py Prediction RetryTrace.

Section Client.
Variable json_loads : string -> result payload.
Variable RETRY_ATTEMPTS : nat.
Variable RETRY_DELAY_SECONDS : Z.
Variable service : nat -> reply.
Variable item_id : Z.

Local Abbreviation outcome := (attempt_outcome json_loads service).
Local Abbreviation loop :=
  (retry_loop json_loads RETRY_ATTEMPTS RETRY_DELAY_SECONDS service item_id).

(** A prediction comes from [json.loads]. *)
Lemma attempt_outcome_payload attempt p :
  outcome attempt = Returned (inl p) -> exists raw, json_loads raw = Returned p.
Proof.
  unfold attempt_outcome, attempt_body.
  destruct (service attempt) as [[raw|]|e].
  - destruct (json_loads raw) as [q|e] eqn:E.
    + intros [= <-]. eauto.
    + destruct e as [|m| |t m]; try (cbn; discriminate).
      destruct (is_Exception (OtherException t m)); discriminate.
  - discriminate.
  - destruct e as [|m| |t m]; try (cbn; discriminate).
    destruct (is_Exception (OtherException t m)); discriminate.
Qed.

(** The shape of every run of the loop that starts within the ceiling. *)
Lemma retry_loop_shape remaining : forall attempt,
  (attempt + remaining = RETRY_ATTEMPTS)%nat -> (1 <= remaining)%nat ->
  exists k, (k < remaining)%nat /\
    (forall j, (j < k)%nat ->
       exists msg, outcome (attempt + j) = Returned (inr msg)) /\
    snd (loop remaining attempt) = backoff_trace RETRY_DELAY_SECONDS attempt k /\
    match outcome (attempt + k) with
    | Returned (inl p) =>
        fst (loop remaining attempt) = Returned (prediction_result item_id p)
    | Returned (inr msg) =>
        S k = remaining /\
        fst (loop remaining attempt) = Returned (error_result item_id msg)
    | Raised e => fst (loop remaining attempt) = Raised e
    end.
Proof.
  induction remaining as [|remaining IH]; intros attempt Hsum Hpos; [lia|].
  cbn [retry_loop]. destruct (outcome attempt) as [[p|msg]|e] eqn:E.
  3: { exists 0%nat. rewrite Nat.add_0_r, E. split; [lia|].
       split; [intros j Hj; lia|]. auto. }
  - exists 0%nat. rewrite Nat.add_0_r, E. split; [lia|].
    split; [intros j Hj; lia|]. auto.
  - destruct (Nat.ltb_spec attempt (RETRY_ATTEMPTS - 1)) as [Hlt|Hge].
    + destruct (IH (S attempt) ltac:(lia) ltac:(lia)) as (k & Hk & Hfail & Htr & Hout).
      exists (S k). split; [lia|]. split.
      * intros [|j] Hj; [rewrite Nat.add_0_r; eauto|].
        replace (attempt + S j)%nat with (S attempt + j)%nat by lia.
        apply Hfail. lia.
      * destruct (loop remaining (S attempt)) as [r evs]. cbn [fst snd] in *.
        split; [cbn [backoff_trace]; now rewrite Htr|].
        replace (attempt + S k)%nat with (S attempt + k)%nat by lia.
        destruct (outcome (S attempt + k)) as [[p|msg']|e]; [exact Hout| |exact Hout].
        destruct Hout as [<- Hout]. auto.
    + exists 0%nat. rewrite Nat.add_0_r, E. split; [lia|].
      split; [intros j Hj; lia|]. cbn [fst snd backoff_trace].
      split; [reflexivity|]. split; [lia | reflexivity].
Qed.

Lemma retry_loop_payload remaining : forall attempt,
  (exists p raw, json_loads raw = Returned p /\
     fst (loop remaining attempt) = Returned (prediction_result item_id p)) \/
  (exists msg, fst (loop remaining attempt) = Returned (error_result item_id msg)) \/
  (exists e, fst (loop remaining attempt) = Raised e /\ is_Exception e = false).
Proof.
  induction remaining as [|remaining IH]; intros attempt.
  - right. left. eexists. reflexivity.
  - cbn [retry_loop]. destruct (outcome attempt) as [[p|msg]|e] eqn:E.
    + left. destruct (attempt_outcome_payload attempt p E) as [raw Hraw].
      exists p, raw. auto.
    + destruct (attempt <? RETRY_ATTEMPTS - 1)%nat.
      * specialize (IH (S attempt)).
        destruct (loop remaining (S attempt)) as [r evs]. exact IH.
      * right. left. eexists. reflexivity.
    + right. right. exists e. split; [reflexivity|].
      now apply (PredictionSpec.attempt_outcome_raised json_loads service attempt e).
Qed.

End Client.

Lemma calls_backoff D k : forall from, calls (backoff_trace D from k) = S k.
Proof.
  unfold calls. induction k as [|k IH]; intros from; [reflexivity|].
  cbn [backoff_trace List.filter length]. now rewrite IH.
Qed.

Lemma slept_backoff D k : forall from,
  2 * slept (backoff_trace D from k)
    = D * (Z.of_nat k * (2 * Z.of_nat from + Z.of_nat k + 1)).
Proof.
  unfold slept. induction k as [|k IH]; intros from.
  - cbn [backoff_trace fold_right]. lia.
  - cbn [backoff_trace fold_right]. specialize (IH (S from)). nia.
Qed.



Example retry_five_times :
  let run := get_person_prediction_async
    (fun raw => if String.eqb raw "payload"
                then Returned (JObject (Some "MALE") (Some "isiZulu"))
                else Raised (JSONDecodeError "Expecting value"))
    true 6 5
    (fun attempt => if (attempt <? 4)%nat
                    then Fault (OtherException "APITimeoutError" "Request timed out.")
                    else Response (Some "payload"))
    "Thabo" "Mokoena" 7 in
  fst run = Returned (prediction_result 7 (JObject (Some "MALE") (Some "isiZulu"))) /\
  calls (snd run) = 5%nat /\ slept (snd run) = 50 /\
  get_person_prediction_async (fun _ => Returned JOther) true 0 5
    (fun _ => Response (Some "payload")) "Thabo" "Mokoena" 7
  = (Returned (error_result 7 "All retry attempts failed."), []).
Proof. repeat split; vm_compute; reflexivity. Qed.

End RetrySpec.

(** ** The driver over a whole run *)

Module DriverRunSpec.
Import Py Upsert Prediction Driver DriverRun.

(** The loop that reads the results raises exceptions of class
    [Exception] only. *)
Lemma tally_raises rs : forall t e,
  tally t rs = Raised e -> is_Exception e = true.
Proof.
  induction rs as [|res rs IH]; intros t e; [discriminate|].
  cbn [tally]. destruct (tally_one t res) as [t'|e'] eqn:E; cbn [bind].
  - apply IH.
  - intros [= <-]. unfold tally_one in E.
    destruct (res !! "item_id") as [[k| |]|]; try (injection E as <-; reflexivity).
    destruct (res !! "prediction") as [v|]; [|discriminate].
    destruct v as [| |[g l|]]; cbn in E; try discriminate;
      injection E as <-; reflexivity.
Qed.

(** Every way one pass through the loop body can go. *)
Lemma loop_body_cases json_loads cfg w st db :
  let n := records_to_fetch cfg st in
  let page := fetch_page db n (last_processed_id st) in
  let tasks := omap task_of_row page in
  let st2 := add_fetched (next_batch st) (Z.of_nat (length page)) in
  let s := loop_body json_loads cfg w st db in
  let gathered :=
    fst (Scheduler.run_in_chunks (coroutine json_loads cfg w) (latency w)
           (API_CALL_CONCURRENCY cfg) (combine (seq 0 (length tasks)) tasks)) in
  (budget_reached cfg st = true /\ s = Break BudgetReached st db []) \/
  (budget_reached cfg st = false /\ n <= 0 /\ s = Break NothingToFetch st db []) \/
  (budget_reached cfg st = false /\ 0 < n /\
   ((conn_available w = false /\ s = Continue (next_batch st) db [Sleep 60]) \/
    (conn_available w = true /\ fetch_fault w = true /\
     s = Continue (next_batch st) db [Sleep 30]) \/
    (reachable w /\
     ((page = [] /\ s = Break EmptyPage (next_batch st) db [Fetch n (last_processed_id st)]) \/
      (page <> [] /\ tasks = [] /\
       exists tr, s = Abort closed_cursor (set_last_processed_id st2 page) db tr) \/
      (page <> [] /\ tasks <> [] /\
       (exists e,
          (gathered = Raised e \/
           exists rs, gathered = Returned rs /\ tally empty_tally rs = Raised e) /\
          is_Exception e = true) /\
       exists tr, s = Continue st2 db tr) \/
      (page <> [] /\ tasks <> [] /\
       exists rs t tr,
         gathered = Returned rs /\
         tally empty_tally rs = Returned t /\
         s = Continue
               (set_last_processed_id
                  (add_upserted (add_api_totals st2 t)
                     (snd (fst (write_genders w t db)))
                     (snd (fst (write_languages w t db))))
                  page)
               (mkStore (MasterItems db)
                        (fst (fst (write_genders w t db)))
                        (fst (fst (write_languages w t db))))
               tr) \/
      (page <> [] /\ tasks <> [] /\
       exists e tr,
         gathered = Raised e /\ is_Exception e = false /\
         s = Abort e st2 db tr))))).
Proof.
  intros n page tasks st2 s gathered. subst s gathered. unfold loop_body.
  destruct (budget_reached cfg st) eqn:Hb; [left; auto|]. right.
  fold n. destruct (Z.leb_spec n 0) as [Hn|Hn]; [left; auto|]. right.
  split; [reflexivity|]. split; [exact Hn|].
  destruct (conn_available w) eqn:Hc; cbn [negb]; [|left; auto]. right.
  destruct (fetch_fault w) eqn:Hf; [left; auto|]. right.
  split; [split; assumption|].
  change (last_processed_id (next_batch st)) with (last_processed_id st).
  fold page. subst st2 tasks. clearbody page.
  destruct page as [|row rows]; [left; auto|]. right.
  assert (Hne : row :: rows <> []) by discriminate.
  destruct (omap task_of_row (row :: rows)) as [|tk tks] eqn:Htasks.
  { left. eauto. }
  right. rewrite <- Htasks.
  assert (Hnt : omap task_of_row (row :: rows) <> []) by (rewrite Htasks; discriminate).
  destruct (Scheduler.run_in_chunks _ _ _ _) as [gathered fan] eqn:Hrun. cbn [fst].
  destruct gathered as [rs|e]; cbn [bind].
  - destruct (tally empty_tally rs) as [t|e] eqn:Ht.
    + right. left. split; [exact Hne|]. split; [exact Hnt|].
      exists rs, t. unfold reconcile.
      destruct (write_genders w t db) as [[g ag] evg].
      destruct (write_languages w t db) as [[l al] evl]. cbn [fst snd]. eauto.
    + pose proof (tally_raises _ _ _ Ht) as He. rewrite He.
      left. split; [exact Hne|]. split; [exact Hnt|]. split; [|eauto].
      exists e. split; [right; eauto | exact He].
  - destruct (is_Exception e) eqn:He.
    + left. split; [exact Hne|]. split; [exact Hnt|]. split; [|eauto].
      exists e. split; [now left | exact He].
    + right. right. split; [exact Hne|]. split; [exact Hnt|]. eauto.
Qed.

(** *** Reading the results *)

Lemma tally_one_readable t res :
  readable res ->
  tally_one t res =
    Returned
      (mkTally
         (genders_to_upsert t ++ from_option (fun p => [p]) [] (gender_pair res))%list
         (languages_to_upsert t ++ from_option (fun p => [p]) [] (language_pair res))%list
         (current_batch_api_success t + (if has_prediction res then 1 else 0))
         (current_batch_api_errors t + (if has_prediction res then 0 else 1))).
Proof.
  intros [[k Hk] Hp]. unfold tally_one, gender_pair, language_pair, has_prediction.
  rewrite Hk. destruct Hp as [Hp|(g & l & Hp)]; rewrite Hp.
  - rewrite bool_decide_eq_false_2 by (intros [? ?]; discriminate).
    cbn [from_option]. now rewrite !List.app_nil_r, Z.add_0_r.
  - rewrite bool_decide_eq_true_2 by eauto. cbn [get_gender get_language bind].
    rewrite Z.add_0_r. f_equal. f_equal.
    + destruct g as [g|]; cbn [truthy from_option default];
        [|now rewrite List.app_nil_r].
      destruct (falsy g); cbn [negb from_option]; [now rewrite List.app_nil_r | reflexivity].
    + destruct l as [l|]; cbn [truthy from_option default];
        [|now rewrite List.app_nil_r].
      destruct (falsy l); cbn [negb from_option]; [now rewrite List.app_nil_r | reflexivity].
Qed.

Lemma tally_one_returns t res t' :
  tally_one t res = Returned t' -> readable res.
Proof.
  unfold tally_one, readable.
  destruct (res !! "item_id") as [[k| |]|]; try discriminate.
  destruct (res !! "prediction") as [v|]; [|eauto].
  destruct v as [| |[g l|]]; try discriminate. eauto 6.
Qed.

Lemma omap_from_option {A B} (f : A -> option B) (l : list A) :
  omap f l = List.flat_map (fun x => from_option (fun p => [p]) [] (f x)) l.
Proof.
  induction l as [|a l IH]; [reflexivity|]. cbn [omap list_omap List.flat_map].
  rewrite <- IH. destruct (f a); reflexivity.
Qed.

Lemma tally_readable rs : forall t,
  Forall readable rs ->
  tally t rs =
    Returned
      (mkTally
         (genders_to_upsert t ++ omap gender_pair rs)%list
         (languages_to_upsert t ++ omap language_pair rs)%list
         (current_batch_api_success t
            + Z.of_nat (length (List.filter has_prediction rs)))
         (current_batch_api_errors t
            + (Z.of_nat (length rs) - Z.of_nat (length (List.filter has_prediction rs))))).
Proof.
  induction rs as [|res rs IH]; intros t Hall.
  - cbn. destruct t. cbn. now rewrite !List.app_nil_r, !Z.add_0_r.
  - apply Forall_cons in Hall as [Hres Hall]. cbn [tally].
    rewrite (tally_one_readable t res Hres). cbn [bind]. rewrite (IH _ Hall).
    cbn [genders_to_upsert languages_to_upsert current_batch_api_success
         current_batch_api_errors].
    rewrite !omap_from_option. cbn [List.flat_map List.filter length].
    rewrite <- !List.app_assoc.
    destruct (has_prediction res); cbn [length]; f_equal; f_equal; lia.
Qed.

Lemma tally_returns rs : forall t t',
  tally t rs = Returned t' -> Forall readable rs.
Proof.
  induction rs as [|res rs IH]; intros t t' H; [constructor|].
  cbn [tally] in H. destruct (tally_one t res) as [t1|e] eqn:E; [|discriminate].
  constructor; [eapply tally_one_returns; eauto | eapply IH; eauto].
Qed.

(** X9. The loop that reads the results either raises, which happens
    exactly when some result has no integer [item_id] or a [prediction]
    that is not an object, or ends with: one pair [(item_id, gender)] for
    every result whose prediction has a non-empty gender, in the order of
    the results, and likewise for the languages; the number of results
    with a prediction as the success count; and the number of the others
    as the error count, so that the two counts add up to the number of
    results. *)
Theorem tally_accounts (api_results : list (gmap string pyval)) :
  match tally empty_tally api_results with
  | Returned t =>
      Forall readable api_results /\
      genders_to_upsert t = omap gender_pair api_results /\
      languages_to_upsert t = omap language_pair api_results /\
      current_batch_api_success t
        = Z.of_nat (length (List.filter has_prediction api_results)) /\
      current_batch_api_success t + current_batch_api_errors t
        = Z.of_nat (length api_results) /\
      0 <= current_batch_api_errors t
  | Raised _ => ~ Forall readable api_results
  end.
Proof.
  destruct (tally empty_tally api_results) as [t|e] eqn:E.
  - pose proof (tally_returns _ _ _ E) as Hall. split; [exact Hall|].
    rewrite (tally_readable _ empty_tally Hall) in E. injection E as <-.
    cbn [genders_to_upsert languages_to_upsert current_batch_api_success
         current_batch_api_errors empty_tally List.app].
    pose proof (ListFacts.filter_length_le has_prediction api_results).
    repeat split; lia.
  - intros Hall. rewrite (tally_readable _ empty_tally Hall) in E. discriminate.
Qed.

(** *** The names handed to the client *)

Lemma lstrip_chars_nil l : lstrip_chars l = [] <-> forallb isspace l = true.
Proof.
  induction l as [|c l IH]; [simpl; tauto|]. simpl.
  destruct (isspace c); simpl; [exact IH|]. split; discriminate.
Qed.

Lemma lstrip_chars_spaces l :
  forallb isspace (lstrip_chars l) = true -> lstrip_chars l = [].
Proof.
  induction l as [|c l IH]; [reflexivity|]. simpl.
  destruct (isspace c) eqn:E; [exact IH|]. simpl. rewrite E. discriminate.
Qed.

Lemma forallb_rev {A} (f : A -> bool) l : forallb f (rev l) = forallb f l.
Proof.
  destruct (forallb f l) eqn:E.
  - rewrite forallb_forall in *. intros x Hx. apply E. now apply in_rev.
  - apply not_true_iff_false. apply not_true_iff_false in E.
    rewrite forallb_forall in *. intros H. apply E. intros x Hx.
    apply H. now apply in_rev in Hx.
Qed.

Lemma strip_empty s :
  strip s = EmptyString <-> forallb isspace (list_ascii_of_string s) = true.
Proof.
  unfold strip. split.
  - intros H. apply (f_equal list_ascii_of_string) in H.
    rewrite list_ascii_of_string_of_list_ascii in H. cbn in H.
    apply (f_equal (@rev ascii)) in H. rewrite rev_involutive in H. cbn in H.
    apply lstrip_chars_nil in H. rewrite forallb_rev in H.
    apply lstrip_chars_spaces in H. now apply lstrip_chars_nil.
  - intros H. apply lstrip_chars_nil in H. rewrite H. reflexivity.
Qed.

Lemma falsy_strip s :
  falsy (strip s) = forallb isspace (list_ascii_of_string s).
Proof.
  unfold falsy. destruct (forallb isspace (list_ascii_of_string s)) eqn:E.
  - apply strip_empty in E. now rewrite E.
  - apply String.eqb_neq. intros H. apply strip_empty in H. congruence.
Qed.

(** X10. The rows the driver turns into tasks.  A fetched row is skipped
    exactly when its [FullName] or its [Surname] is NULL or made of white
    space only.  For every other row the coroutine is created with the
    row's [Id] and the two names stripped, both non-empty: so the client,
    when it exists, goes straight into its retry loop, and its answer
    'Missing first name or last name.' cannot come from the driver. *)
Theorem task_of_row_names (row : MasterItem) :
  match task_of_row row with
  | Some (first_name, last_name, item_id) =>
      whitespace_only (FullName row) = false /\
      whitespace_only (Surname row) = false /\
      item_id = Id row /\
      FullName row = Some (default "" (FullName row)) /\
      first_name = strip (default "" (FullName row)) /\
      Surname row = Some (default "" (Surname row)) /\
      last_name = strip (default "" (Surname row)) /\
      falsy first_name = false /\ falsy last_name = false /\
      forall json_loads RETRY_ATTEMPTS RETRY_DELAY_SECONDS service,
        get_person_prediction_async json_loads true RETRY_ATTEMPTS
          RETRY_DELAY_SECONDS service first_name last_name item_id
        = retry_loop json_loads RETRY_ATTEMPTS RETRY_DELAY_SECONDS service item_id
            RETRY_ATTEMPTS 0
  | None =>
      whitespace_only (FullName row) = true \/ whitespace_only (Surname row) = true
  end.
Proof.
  unfold task_of_row.
  destruct (FullName row) as [f|], (Surname row) as [s|]; cbn [whitespace_only default].
  - rewrite !falsy_strip.
    destruct (forallb isspace (list_ascii_of_string f)) eqn:Ef; cbn [orb]; [auto|].
    destruct (forallb isspace (list_ascii_of_string s)) eqn:Es; [auto|].
    repeat (split; [reflexivity|]). rewrite !falsy_strip, Ef, Es.
    repeat (split; [reflexivity|]).
    intros. unfold get_person_prediction_async. now rewrite !falsy_strip, Ef, Es.
  - change (falsy "") with true. rewrite orb_true_r. auto.
  - change (falsy "") with true. cbn [orb]. auto.
  - change (falsy "") with true. cbn [orb]. auto.
Qed.

(** A name of tabs passes the filter of the page query, which trims
    spaces only, and is then skipped. *)
Example tab_name_is_fetched_and_skipped :
  let tab := String (ascii_of_nat 9) EmptyString in
  let row := mkMasterItem 4 (Some tab) (Some "Nkosi") in
  fetch_page (mkStore [row] [] []) 10 0 = [row] /\ task_of_row row = None.
Proof. split; vm_compute; reflexivity. Qed.

(** *** The results of a page *)

Lemma coroutine_shape json_loads cfg w t r :
  coroutine json_loads cfg w t = Returned r ->
  (exists p raw, json_loads raw = Returned p /\
                 r = prediction_result (snd (snd t)) p) \/
  (exists msg, r = error_result (snd (snd t)) msg).
Proof.
  destruct t as [pos [[first_name last_name] item_id]]. cbn [snd].
  unfold coroutine, get_person_prediction_async. cbn [negb].
  destruct (falsy first_name || falsy last_name); [cbn [fst]; intros [= <-]; eauto|].
  destruct (RetrySpec.retry_loop_payload json_loads (RETRY_ATTEMPTS cfg)
              (RETRY_DELAY_SECONDS cfg) (service w pos) item_id
              (RETRY_ATTEMPTS cfg) 0%nat)
    as [(p & raw & Hraw & Hp)|[[msg Hm]|(e & He & _)]].
  - rewrite Hp. intros [= <-]. eauto 6.
  - rewrite Hm. intros [= <-]. eauto.
  - rewrite He. discriminate.
Qed.

Lemma coroutine_readable json_loads cfg w t r :
  objects_only json_loads ->
  coroutine json_loads cfg w t = Returned r -> readable r.
Proof.
  intros Hobj Hr.
  destruct (coroutine_shape json_loads cfg w t r Hr) as [(p & raw & Hraw & ->)|[msg ->]].
  - destruct (Hobj raw p Hraw) as (g & l & ->).
    destruct (PredictionSpec.prediction_result_shape (snd (snd t)) (JObject g l))
      as (H1 & H2 & _).
    split; eauto.
  - destruct (PredictionSpec.error_result_shape (snd (snd t)) msg) as (H1 & _ & H3).
    split; eauto.
Qed.

(** With a ceiling of at least one and no coroutine cancelled or
    interrupted, the fan-out returns one result for each task. *)
Lemma run_in_chunks_results json_loads cfg w C
    (tasks : list (nat * (string * string * Z))) :
  (1 <= C)%nat -> uninterrupted json_loads w ->
  exists rs,
    fst (Scheduler.run_in_chunks (coroutine json_loads cfg w) (latency w) C tasks)
      = Returned rs /\
    Forall2 (fun t r => coroutine json_loads cfg w t = Returned r) tasks rs.
Proof.
  intros HC Hw.
  pose proof (SchedulerSpec.covers_all C tasks HC) as Hcov.
  destruct (SchedulerSpec.for_chunks_spec (coroutine json_loads cfg w) (latency w)
              C tasks HC (SchedulerSpec.tasks_return json_loads cfg w tasks Hw)
              _ 0%nat [] Hcov) as (rs & HF & Hrun).
  unfold Scheduler.run_in_chunks. rewrite (SchedulerSpec.range_step_pos _ C HC), Hrun.
  cbn [fst List.app Nat.mul skipn] in *. eauto.
Qed.

(** With a ceiling of 0 the fan-out raises before any task is started. *)
Lemma run_in_chunks_zero {T A} (run : T -> result A) lat (tasks : list T) :
  Scheduler.run_in_chunks run lat 0 tasks = (Raised ValueError, []).
Proof. reflexivity. Qed.

(** *** What one iteration keeps *)

Lemma begins_refl {A} (l : list A) : begins l l.
Proof. exists []. now rewrite List.app_nil_r. Qed.

Lemma begins_trans {A} (l1 l2 l3 : list A) : begins l1 l2 -> begins l2 l3 -> begins l1 l3.
Proof. intros [m1 ->] [m2 ->]. exists (m1 ++ m2)%list. now rewrite List.app_assoc. Qed.

(** A writer keeps the keys that are there, in their places, adds keys at
    the end only, and keeps them distinct; its count is not negative. *)
Lemma batch_upsert_keys {R : Type} `{Target R} fault now data (target : list R) :
  let out := batch_upsert fault now data target in
  begins (List.map MasterItemId target) (List.map MasterItemId (fst out)) /\
  (NoDup (List.map MasterItemId target) -> NoDup (List.map MasterItemId (fst out))) /\
  0 <= snd out.
Proof.
  unfold batch_upsert. destruct data as [|p data]; [cbn; auto using begins_refl with lia|].
  destruct (fault || negb (temp_table_ok (p :: data))) eqn:E;
    [cbn; auto using begins_refl with lia|].
  apply orb_false_iff in E as [_ E]. apply negb_false_iff in E.
  split; [|split].
  - rewrite UpsertSpec.MERGE_keys. eexists. reflexivity.
  - intros ND. apply UpsertSpec.MERGE_NoDup; [|exact ND].
    now apply UpsertSpec.temp_table_ok_NoDup.
  - unfold MERGE. cbn [snd]. lia.
Qed.

Lemma write_genders_keys w t db :
  begins (List.map g_MasterItemId (Genders db))
         (List.map g_MasterItemId (fst (fst (write_genders w t db)))) /\
  (NoDup (List.map g_MasterItemId (Genders db)) ->
   NoDup (List.map g_MasterItemId (fst (fst (write_genders w t db))))) /\
  0 <= snd (fst (write_genders w t db)).
Proof.
  unfold write_genders. destruct (genders_to_upsert t) as [|p data];
    [cbn; auto using begins_refl with lia|].
  pose proof (batch_upsert_keys (genders_fault w) (GETDATE w) (p :: data) (Genders db)) as H.
  unfold batch_upsert_genders.
  destruct (batch_upsert (genders_fault w) (GETDATE w) (p :: data) (Genders db)).
  exact H.
Qed.

Lemma write_languages_keys w t db :
  begins (List.map l_MasterItemId (Languages db))
         (List.map l_MasterItemId (fst (fst (write_languages w t db)))) /\
  (NoDup (List.map l_MasterItemId (Languages db)) ->
   NoDup (List.map l_MasterItemId (fst (fst (write_languages w t db))))) /\
  0 <= snd (fst (write_languages w t db)).
Proof.
  unfold write_languages. destruct (languages_to_upsert t) as [|p data];
    [cbn; auto using begins_refl with lia|].
  pose proof (batch_upsert_keys (languages_fault w) (GETDATE w) (p :: data) (Languages db)) as H.
  unfold batch_upsert_languages.
  destruct (batch_upsert (languages_fault w) (GETDATE w) (p :: data) (Languages db)).
  exact H.
Qed.

(** The watermark set from a page lies after the one it was fetched from. *)
Lemma set_last_processed_id_after st0 st db n :
  fetch_page db n (last_processed_id st) <> [] ->
  last_processed_id st <
    last_processed_id (set_last_processed_id st0 (fetch_page db n (last_processed_id st))) /\
  exists row, In row (MasterItems db) /\
    last_processed_id (set_last_processed_id st0 (fetch_page db n (last_processed_id st)))
      = Id row.
Proof.
  intros Hne. destruct (fetch_page db n (last_processed_id st)) as [|r rs] eqn:Hpage;
    [congruence|].
  destruct (DriverSpec.last_cons_is_Some r rs) as [row Hlast].
  rewrite (DriverSpec.set_last_processed_id_last _ _ row Hlast).
  apply last_Some_elem_of in Hlast. rewrite <- Hpage in Hlast.
  apply DriverSpec.fetch_page_sound in Hlast as (Hlt & Hin & _).
  split; [exact Hlt|]. exists row. split; [now apply list_elem_of_In | reflexivity].
Qed.

Lemma set_last_processed_id_others st rows :
  cumulative_records_fetched_for_processing (set_last_processed_id st rows)
    = cumulative_records_fetched_for_processing st /\
  total_api_predictions_successful (set_last_processed_id st rows)
    = total_api_predictions_successful st /\
  total_api_errors (set_last_processed_id st rows) = total_api_errors st /\
  total_genders_upserted (set_last_processed_id st rows) = total_genders_upserted st /\
  total_languages_upserted (set_last_processed_id st rows) = total_languages_upserted st /\
  batch_number (set_last_processed_id st rows) = batch_number st.
Proof. unfold set_last_processed_id. destruct (last rows); cbn; auto 10. Qed.

Lemma tally_counts rs t :
  tally empty_tally rs = Returned t ->
  0 <= current_batch_api_success t /\ 0 <= current_batch_api_errors t /\
  current_batch_api_success t + current_batch_api_errors t = Z.of_nat (length rs).
Proof.
  intros E. pose proof (tally_returns _ _ _ E) as Hall.
  rewrite (tally_readable _ empty_tally Hall) in E. injection E as <-.
  cbn [current_batch_api_success current_batch_api_errors empty_tally].
  pose proof (ListFacts.filter_length_le has_prediction rs). lia.
Qed.

Local Abbreviation kept st db st' db' :=
  (MasterItems db' = MasterItems db /\
   last_processed_id st <= last_processed_id st' /\
   batch_number st <= batch_number st' /\
   cumulative_records_fetched_for_processing st
     <= cumulative_records_fetched_for_processing st' /\
   total_api_predictions_successful st <= total_api_predictions_successful st' /\
   total_api_errors st <= total_api_errors st' /\
   total_genders_upserted st <= total_genders_upserted st' /\
   total_languages_upserted st <= total_languages_upserted st' /\
   begins (List.map g_MasterItemId (Genders db)) (List.map g_MasterItemId (Genders db')) /\
   begins (List.map l_MasterItemId (Languages db)) (List.map l_MasterItemId (Languages db')) /\
   (NoDup (List.map g_MasterItemId (Genders db)) ->
    NoDup (List.map g_MasterItemId (Genders db'))) /\
   (NoDup (List.map l_MasterItemId (Languages db)) ->
    NoDup (List.map l_MasterItemId (Languages db')))).

Lemma kept_refl st db : kept st db st db.
Proof. repeat split; auto using begins_refl with lia. Qed.

Lemma kept_same_store st st' db :
  last_processed_id st <= last_processed_id st' ->
  batch_number st <= batch_number st' ->
  cumulative_records_fetched_for_processing st
    <= cumulative_records_fetched_for_processing st' ->
  total_api_predictions_successful st = total_api_predictions_successful st' ->
  total_api_errors st = total_api_errors st' ->
  total_genders_upserted st = total_genders_upserted st' ->
  total_languages_upserted st = total_languages_upserted st' ->
  kept st db st' db.
Proof. intros. repeat split; auto using begins_refl with lia. Qed.

Lemma kept_trans st1 db1 st2 db2 st3 db3 :
  kept st1 db1 st2 db2 -> kept st2 db2 st3 db3 -> kept st1 db1 st3 db3.
Proof.
  intros (A1 & A2 & A3 & A4 & A5 & A6 & A7 & A8 & A9 & A10 & A11 & A12)
         (B1 & B2 & B3 & B4 & B5 & B6 & B7 & B8 & B9 & B10 & B11 & B12).
  repeat split; try lia; eauto using begins_trans; congruence.
Qed.

Lemma loop_body_kept json_loads cfg w st db :
  kept st db (state_of (loop_body json_loads cfg w st db))
             (store_of (loop_body json_loads cfg w st db)).
Proof.
  pose proof (loop_body_cases json_loads cfg w st db) as H. cbv zeta in H.
  set (page := fetch_page db (records_to_fetch cfg st) (last_processed_id st)) in *.
  destruct H as [[_ ->]|[(_ & _ & ->)|(_ & _ & H)]]; [apply kept_refl..|].
  destruct H as [[_ ->]|[(_ & _ & ->)|(_ & H)]];
    [apply kept_same_store; cbn; lia..|].
  destruct H as [[_ ->]|[(Hne & _ & tr & ->)|[(Hne & _ & _ & tr & ->)|
                 [(Hne & _ & rs & t & tr & _ & Ht & ->)|
                  (Hne & _ & e & tr & _ & _ & ->)]]]]; cbn [state_of store_of].
  5: { apply kept_same_store; cbn; lia. }
  - apply kept_same_store; cbn; lia.
  - destruct (set_last_processed_id_after
                (add_fetched (next_batch st) (Z.of_nat (length page))) st db _ Hne)
      as [Hlt _]. fold page in Hlt.
    destruct (set_last_processed_id_others
                (add_fetched (next_batch st) (Z.of_nat (length page))) page)
      as (E1 & E2 & E3 & E4 & E5 & E6).
    apply kept_same_store; rewrite ?E1, ?E2, ?E3, ?E4, ?E5, ?E6; cbn; lia.
  - apply kept_same_store; cbn; lia.
  - set (st4 := add_upserted _ _ _).
    destruct (set_last_processed_id_after st4 st db _ Hne) as [Hlt _]. fold page in Hlt.
    destruct (set_last_processed_id_others st4 page) as (E1 & E2 & E3 & E4 & E5 & E6).
    destruct (tally_counts rs t Ht) as (Hs & He & _).
    destruct (write_genders_keys w t db) as (G1 & G2 & G3).
    destruct (write_languages_keys w t db) as (L1 & L2 & L3).
    rewrite E1, E2, E3, E4, E5, E6. subst st4. cbn.
    repeat split; auto; lia.
Qed.

Lemma loop_body_batch_number json_loads cfg w st db :
  batch_number (state_of (loop_body json_loads cfg w st db)) <= batch_number st + 1.
Proof.
  pose proof (loop_body_cases json_loads cfg w st db) as H. cbv zeta in H.
  set (page := fetch_page db (records_to_fetch cfg st) (last_processed_id st)) in *.
  destruct H as [[_ ->]|[(_ & _ & ->)|(_ & _ & H)]]; [cbn; lia..|].
  destruct H as [[_ ->]|[(_ & _ & ->)|(_ & H)]]; [cbn; lia..|].
  destruct H as [[_ ->]|[(Hne & _ & tr & ->)|[(Hne & _ & _ & tr & ->)|
                 [(Hne & _ & rs & t & tr & _ & Ht & ->)|
                  (Hne & _ & e & tr & _ & _ & ->)]]]]; cbn [state_of];
    rewrite ?(proj2 (proj2 (proj2 (proj2 (proj2 (set_last_processed_id_others _ _))))));
    cbn; lia.
Qed.

Lemma after_iterations_cons json_loads cfg w worlds st db :
  after_iterations json_loads cfg (w :: worlds) st db =
    match loop_body json_loads cfg w st db with
    | Break _ st' db' _ => (st', db')
    | Continue st' db' _ => after_iterations json_loads cfg worlds st' db'
    | Abort _ st' db' _ => (st', db')
    end.
Proof. reflexivity. Qed.

Lemma after_iterations_kept json_loads cfg worlds : forall st db,
  kept st db (fst (after_iterations json_loads cfg worlds st db))
             (snd (after_iterations json_loads cfg worlds st db)) /\
  batch_number (fst (after_iterations json_loads cfg worlds st db))
    <= batch_number st + Z.of_nat (length worlds).
Proof.
  induction worlds as [|w worlds IH]; intros st db.
  - cbn [after_iterations fst snd length]. split; [apply kept_refl | lia].
  - rewrite after_iterations_cons.
    pose proof (loop_body_kept json_loads cfg w st db) as Hk.
    pose proof (loop_body_batch_number json_loads cfg w st db) as Hb.
    destruct (loop_body json_loads cfg w st db)
      as [why st' db' tr|st' db' tr|e st' db' tr];
      cbn [state_of store_of fst snd length] in *.
    + split; [exact Hk | lia].
    + destruct (IH st' db') as [IHk IHb]. split; [|lia].
      exact (kept_trans _ _ _ _ _ _ Hk IHk).
    + split; [exact Hk | lia].
Qed.

Lemma process_after_iterations json_loads cfg worlds : forall st db why st' db',
  process_master_items_in_batches_async json_loads cfg worlds st db = Some (why, st', db') ->
  after_iterations json_loads cfg worlds st db = (st', db').
Proof.
  induction worlds as [|w worlds IH]; intros st db why st' db' H; [discriminate|].
  cbn [process_master_items_in_batches_async] in H. rewrite after_iterations_cons.
  destruct (loop_body json_loads cfg w st db)
    as [why0 st0 db0 tr|st0 db0 tr|e st0 db0 tr].
  - now injection H as _ <- <-.
  - eapply IH; eauto.
  - now injection H as _ <- <-.
Qed.

(** X11. What a run of the driver keeps, whatever the database, the
    service and the faults do and however long it goes on: it never
    changes [dbo.MasterItems]; the watermark, the batch number and the
    five totals never decrease, and the batch number grows by at most one
    per iteration; the keys of [dbo.Genders] and of [dbo.Languages] that
    are there stay where they are (no row is deleted or re-keyed, new keys
    are added at the end); and a table with at most one row for each
    [MasterItemId] still has at most one.  A run that has left the loop
    ends in that state. *)
Theorem run_keeps (json_loads : string -> result payload) (cfg : Config)
    (worlds : list World) (st : State) (db : Store) :
  let st' := fst (after_iterations json_loads cfg worlds st db) in
  let db' := snd (after_iterations json_loads cfg worlds st db) in
  MasterItems db' = MasterItems db /\
  last_processed_id st <= last_processed_id st' /\
  batch_number st <= batch_number st' <= batch_number st + Z.of_nat (length worlds) /\
  cumulative_records_fetched_for_processing st
    <= cumulative_records_fetched_for_processing st' /\
  total_api_predictions_successful st <= total_api_predictions_successful st' /\
  total_api_errors st <= total_api_errors st' /\
  total_genders_upserted st <= total_genders_upserted st' /\
  total_languages_upserted st <= total_languages_upserted st' /\
  begins (List.map g_MasterItemId (Genders db)) (List.map g_MasterItemId (Genders db')) /\
  begins (List.map l_MasterItemId (Languages db)) (List.map l_MasterItemId (Languages db')) /\
  (NoDup (List.map g_MasterItemId (Genders db)) ->
   NoDup (List.map g_MasterItemId (Genders db'))) /\
  (NoDup (List.map l_MasterItemId (Languages db)) ->
   NoDup (List.map l_MasterItemId (Languages db'))) /\
  (forall why st1 db1,
     process_master_items_in_batches_async json_loads cfg worlds st db
       = Some (why, st1, db1) ->
     st1 = st' /\ db1 = db').
Proof.
  intros st' db'. subst st' db'.
  destruct (after_iterations_kept json_loads cfg worlds st db)
    as [(A1 & A2 & A3 & A4 & A5 & A6 & A7 & A8 & A9 & A10 & A11 & A12) Hb].
  repeat split; auto.
  - now rewrite (process_after_iterations _ _ _ _ _ _ _ _ H).
  - now rewrite (process_after_iterations _ _ _ _ _ _ _ _ H).
Qed.

(** *** The budget *)

Lemma length_omap_le {A B} (f : A -> option B) (l : list A) :
  (length (omap f l) <= length l)%nat.
Proof.
  induction l as [|a l IH]; [reflexivity|]. cbn [omap list_omap].
  destruct (f a); cbn [length]; lia.
Qed.

(** The results of a page are as many as its tasks. *)
Lemma results_length json_loads cfg w (tasks : list (string * string * Z)) rs :
  fst (Scheduler.run_in_chunks (coroutine json_loads cfg w) (latency w)
         (API_CALL_CONCURRENCY cfg) (combine (seq 0 (length tasks)) tasks)) = Returned rs ->
  (1 <= API_CALL_CONCURRENCY cfg)%nat /\
  Forall2 (fun t r => coroutine json_loads cfg w t = Returned r)
          (combine (seq 0 (length tasks)) tasks) rs /\
  length rs = length tasks.
Proof.
  intros Hrs. destruct (API_CALL_CONCURRENCY cfg) as [|C] eqn:EC.
  - rewrite run_in_chunks_zero in Hrs. discriminate.
  - destruct (SchedulerSpec.run_in_chunks_returned _ _ (S C) _ rs ltac:(lia) Hrs)
      as [HF _].
    split; [lia|]. split; [exact HF|].
    apply Forall2_length in HF. rewrite <- HF, List.length_combine, List.length_seq. lia.
Qed.

Lemma page_within_budget cfg st db m :
  MAX_TOTAL_RECORDS_TO_PROCESS cfg = Some m -> budget_reached cfg st = false ->
  0 < records_to_fetch cfg st ->
  cumulative_records_fetched_for_processing st
    + Z.of_nat (length (fetch_page db (records_to_fetch cfg st) (last_processed_id st)))
  <= m.
Proof.
  intros Hm Hb Hn.
  pose proof (DriverSpec.fetch_page_length db (records_to_fetch cfg st)
                (last_processed_id st)) as Hlen.
  unfold records_to_fetch in *. rewrite Hm in *. lia.
Qed.

Lemma loop_body_budget json_loads cfg w st db :
  let st' := state_of (loop_body json_loads cfg w st db) in
  (forall m, MAX_TOTAL_RECORDS_TO_PROCESS cfg = Some m ->
     cumulative_records_fetched_for_processing st'
       <= Z.max m (cumulative_records_fetched_for_processing st)) /\
  total_api_predictions_successful st' + total_api_errors st'
    - cumulative_records_fetched_for_processing st'
  <= total_api_predictions_successful st + total_api_errors st
    - cumulative_records_fetched_for_processing st.
Proof.
  pose proof (loop_body_cases json_loads cfg w st db) as H. cbv zeta in H. cbv zeta.
  set (page := fetch_page db (records_to_fetch cfg st) (last_processed_id st)) in *.
  destruct H as [[_ ->]|[(_ & _ & ->)|(Hb & Hn & H)]];
    [cbn [state_of]; split; [intros; lia | lia]..|].
  pose proof (fun m Hm => page_within_budget cfg st db m Hm Hb Hn) as Hpage.
  fold page in Hpage.
  destruct H as [[_ ->]|[(_ & _ & ->)|(_ & H)]];
    [cbn; split; [intros; lia | lia]..|].
  destruct H as [[_ ->]|[(Hne & _ & tr & ->)|[(Hne & _ & _ & tr & ->)|
                 [(Hne & _ & rs & t & tr & Hrs & Ht & ->)|
                  (Hne & _ & e & tr & _ & _ & ->)]]]]; cbn [state_of].
  5: { cbn. split; [intros m Hm; specialize (Hpage m Hm); lia | lia]. }
  - cbn. split; [intros; lia | lia].
  - destruct (set_last_processed_id_others
                (add_fetched (next_batch st) (Z.of_nat (length page))) page)
      as (E1 & E2 & E3 & _). rewrite E1, E2, E3. cbn.
    split; [intros m Hm; specialize (Hpage m Hm); lia | lia].
  - cbn. split; [intros m Hm; specialize (Hpage m Hm); lia | lia].
  - set (st4 := add_upserted _ _ _).
    destruct (set_last_processed_id_others st4 page) as (E1 & E2 & E3 & _).
    rewrite E1, E2, E3. subst st4. cbn.
    destruct (tally_counts rs t Ht) as (_ & _ & Hsum).
    destruct (results_length json_loads cfg w _ rs Hrs) as (_ & _ & Hlen).
    pose proof (length_omap_le task_of_row page).
    split; [intros m Hm; specialize (Hpage m Hm); lia | lia].
Qed.

Lemma after_iterations_budget json_loads cfg worlds : forall st db,
  let st' := fst (after_iterations json_loads cfg worlds st db) in
  (forall m, MAX_TOTAL_RECORDS_TO_PROCESS cfg = Some m ->
     cumulative_records_fetched_for_processing st'
       <= Z.max m (cumulative_records_fetched_for_processing st)) /\
  total_api_predictions_successful st' + total_api_errors st'
    - cumulative_records_fetched_for_processing st'
  <= total_api_predictions_successful st + total_api_errors st
    - cumulative_records_fetched_for_processing st.
Proof.
  induction worlds as [|w worlds IH]; intros st db; cbv zeta.
  - cbn [after_iterations fst]. split; [intros; lia | lia].
  - rewrite after_iterations_cons.
    pose proof (loop_body_budget json_loads cfg w st db) as Hs. cbv zeta in Hs.
    destruct (loop_body json_loads cfg w st db)
      as [why st' db' tr|st' db' tr|e st' db' tr];
      cbn [state_of fst] in *; [exact Hs| |exact Hs].
    destruct Hs as [Hs1 Hs2]. destruct (IH st' db') as [IH1 IH2].
    split; [|lia]. intros m Hm. specialize (Hs1 m Hm). specialize (IH1 m Hm). lia.
Qed.

(** X12. The budget.  From the start of a run and at any point of it:
    the successful and the failed predictions counted so far are together
    no more than the records fetched so far; and with
    [MAX_TOTAL_RECORDS_TO_PROCESS] set to [m], no more than [m] records
    (none, if [m] is not positive) have been fetched. *)
Theorem budget_respected (json_loads : string -> result payload) (cfg : Config)
    (worlds : list World) (db : Store) :
  let st' := fst (after_iterations json_loads cfg worlds initial_state db) in
  0 <= total_api_predictions_successful st' /\
  0 <= total_api_errors st' /\
  total_api_predictions_successful st' + total_api_errors st'
    <= cumulative_records_fetched_for_processing st' /\
  (forall m, MAX_TOTAL_RECORDS_TO_PROCESS cfg = Some m ->
     cumulative_records_fetched_for_processing st' <= Z.max 0 m).
Proof.
  cbv zeta.
  destruct (after_iterations_budget json_loads cfg worlds initial_state db) as [H1 H2].
  destruct (after_iterations_kept json_loads cfg worlds initial_state db)
    as [(_ & _ & _ & _ & A5 & A6 & _) _].
  cbn [initial_state total_api_predictions_successful total_api_errors
       cumulative_records_fetched_for_processing] in *.
  repeat split; try lia. intros m Hm. specialize (H1 m Hm). lia.
Qed.

Example budget_of_one :
  let cfg := mkConfig 10000 (Some 1) 2000 3 5 2 in
  let db := mkStore [ mkMasterItem 7 (Some "Thabo") (Some "Mokoena");
                      mkMasterItem 9 (Some "Sipho") (Some "Dlamini") ] [] [] in
  process_master_items_in_batches_async Samples.json_loads cfg
    [Samples.calm; Samples.calm] initial_state db
  = Some (BudgetReached, mkState 7 1 1 0 1 1 1,
          mkStore (MasterItems db) [ mkGenderRow 7 "MALE" ]
                  [ mkLanguageRow 7 "isiZulu" (Some 20250601) ]) /\
  process_master_items_in_batches_async Samples.json_loads
    (mkConfig 10000 (Some 0) 2000 3 5 2) [Samples.calm] initial_state db
  = Some (BudgetReached, initial_state, db).
Proof. split; vm_compute; reflexivity. Qed.

(** *** A ceiling of zero *)

Lemma loop_body_zero_concurrency json_loads cfg w st db :
  API_CALL_CONCURRENCY cfg = 0%nat ->
  let s := loop_body json_loads cfg w st db in
  store_of s = db /\
  total_api_predictions_successful (state_of s) = total_api_predictions_successful st /\
  total_api_errors (state_of s) = total_api_errors st /\
  total_genders_upserted (state_of s) = total_genders_upserted st /\
  total_languages_upserted (state_of s) = total_languages_upserted st.
Proof.
  intros HC. pose proof (loop_body_cases json_loads cfg w st db) as H. cbv zeta in H.
  cbv zeta.
  set (page := fetch_page db (records_to_fetch cfg st) (last_processed_id st)) in *.
  destruct H as [[_ ->]|[(_ & _ & ->)|(_ & _ & H)]]; [cbn; auto..|].
  destruct H as [[_ ->]|[(_ & _ & ->)|(_ & H)]]; [cbn; auto..|].
  destruct H as [[_ ->]|[(Hne & _ & tr & ->)|[(Hne & _ & _ & tr & ->)|
                 [(Hne & _ & rs & t & tr & Hrs & _)|
                  (Hne & _ & e & tr & _ & _ & ->)]]]]; cbn [state_of store_of].
  5: { cbn. auto. }
  - cbn. auto.
  - destruct (set_last_processed_id_others
                (add_fetched (next_batch st) (Z.of_nat (length page))) page)
      as (_ & E2 & E3 & E4 & E5 & _). rewrite E2, E3, E4, E5. cbn. auto.
  - cbn. auto.
  - rewrite HC, run_in_chunks_zero in Hrs. discriminate.
Qed.

(** X13. With [API_CALL_CONCURRENCY = 0] the [range] of the fan-out raises
    on every page that has a task, so that a run, however long, writes
    nothing: the three tables are as they were and no prediction, error or
    upsert is ever counted. *)
Theorem zero_concurrency_writes_nothing (json_loads : string -> result payload)
    (cfg : Config) (worlds : list World) (st : State) (db : Store) :
  API_CALL_CONCURRENCY cfg = 0%nat ->
  let st' := fst (after_iterations json_loads cfg worlds st db) in
  snd (after_iterations json_loads cfg worlds st db) = db /\
  total_api_predictions_successful st' = total_api_predictions_successful st /\
  total_api_errors st' = total_api_errors st /\
  total_genders_upserted st' = total_genders_upserted st /\
  total_languages_upserted st' = total_languages_upserted st.
Proof.
  intros HC. cbv zeta. revert st db.
  induction worlds as [|w worlds IH]; intros st db; [cbn; auto|].
  rewrite after_iterations_cons.
  pose proof (loop_body_zero_concurrency json_loads cfg w st db HC) as Hs. cbv zeta in Hs.
  destruct (loop_body json_loads cfg w st db)
    as [why st' db' tr|st' db' tr|e st' db' tr];
    cbn [state_of store_of fst snd] in *; [exact Hs| |exact Hs].
  destruct Hs as (-> & E1 & E2 & E3 & E4). rewrite <- E1, <- E2, <- E3, <- E4.
  apply IH.
Qed.

Lemma zero_concurrency_writes_nothing_witness :
  let cfg := mkConfig 10000 None 0 3 5 2 in
  let worlds := [Samples.calm; Samples.calm; Samples.calm] in
  API_CALL_CONCURRENCY cfg = 0%nat /\
  let st' := fst (after_iterations Samples.json_loads cfg worlds initial_state Samples.store) in
  snd (after_iterations Samples.json_loads cfg worlds initial_state Samples.store)
    = Samples.store /\
  total_api_predictions_successful st' = total_api_predictions_successful initial_state /\
  total_api_errors st' = total_api_errors initial_state /\
  total_genders_upserted st' = total_genders_upserted initial_state /\
  total_languages_upserted st' = total_languages_upserted initial_state.
Proof.
  intros cfg worlds. split; [reflexivity|].
  apply (zero_concurrency_writes_nothing Samples.json_loads cfg worlds initial_state
           Samples.store). reflexivity.
Defined.

(** The same page is fetched again and again, and the loop is not left. *)
Example zero_concurrency_spins :
  let cfg := mkConfig 10000 None 0 3 5 2 in
  process_master_items_in_batches_async Samples.json_loads cfg
    [Samples.calm; Samples.calm; Samples.calm] initial_state Samples.store = None /\
  after_iterations Samples.json_loads cfg
    [Samples.calm; Samples.calm; Samples.calm] initial_state Samples.store
  = (mkState 0 3 0 0 0 0 3, Samples.store).
Proof. split; vm_compute; reflexivity. Qed.

(** *** Progress *)

Lemma filter_length_lt {A} (f g : A -> bool) l a :
  (forall x, f x = true -> g x = true) -> In a l -> g a = true -> f a = false ->
  (length (List.filter f l) < length (List.filter g l))%nat.
Proof.
  intros Hfg. induction l as [|b l IH]; intros Hin Hg Hf; [destruct Hin|].
  cbn [List.filter].
  assert (Hle : (length (List.filter f l) <= length (List.filter g l))%nat).
  { clear -Hfg. induction l as [|c l IH]; [reflexivity|]. cbn [List.filter].
    destruct (f c) eqn:Ef; [rewrite (Hfg c Ef); cbn; lia|].
    destruct (g c); cbn; lia. }
  destruct Hin as [->|Hin].
  - rewrite Hf, Hg. cbn [length]. lia.
  - specialize (IH Hin Hg Hf). destruct (f b) eqn:Ef; [rewrite (Hfg b Ef); cbn; lia|].
    destruct (g b); cbn; lia.
Qed.

(** Moving the watermark to the end of a page leaves fewer master items
    ahead of it. *)
Lemma fewer_ahead st0 st db db' n :
  fetch_page db n (last_processed_id st) <> [] ->
  MasterItems db' = MasterItems db ->
  (length (ahead (last_processed_id
                    (set_last_processed_id st0 (fetch_page db n (last_processed_id st))))
                 db')
   < length (ahead (last_processed_id st) db))%nat.
Proof.
  intros Hne HMI.
  destruct (set_last_processed_id_after st0 st db n Hne) as (Hlt & row & Hrow & E).
  unfold ahead. rewrite HMI, E in *.
  apply (filter_length_lt _ _ _ row); [|exact Hrow|lia|lia].
  intros x Hx. lia.
Qed.

Lemma records_to_fetch_positive cfg st :
  1 <= DB_BATCH_SIZE cfg -> budget_reached cfg st = false -> 0 < records_to_fetch cfg st.
Proof.
  unfold budget_reached, records_to_fetch.
  destruct (MAX_TOTAL_RECORDS_TO_PROCESS cfg) as [m|]; lia.
Qed.

(** When the database answers and the predictions are objects, an
    iteration leaves the loop, moves the watermark forward, or is left by
    an exception: that of the cursor closed twice, on a page of skipped
    rows only, or one that is no [Exception]. *)
Lemma loop_body_progress json_loads cfg w st db :
  objects_only json_loads -> 1 <= DB_BATCH_SIZE cfg ->
  (1 <= API_CALL_CONCURRENCY cfg)%nat -> reachable w ->
  (loop_body json_loads cfg w st db = Break BudgetReached st db [] /\
   budget_reached cfg st = true) \/
  (exists st' tr,
     loop_body json_loads cfg w st db = Break EmptyPage st' db tr /\
     budget_reached cfg st = false /\
     last_processed_id st' = last_processed_id st /\
     fetch_page db (records_to_fetch cfg st) (last_processed_id st) = []) \/
  (exists st' db' tr,
     loop_body json_loads cfg w st db = Continue st' db' tr /\
     MasterItems db' = MasterItems db /\
     (length (ahead (last_processed_id st') db')
      < length (ahead (last_processed_id st) db))%nat) \/
  (exists e st' tr,
     loop_body json_loads cfg w st db = Abort e st' db tr /\
     ((e = closed_cursor /\
       exists row, In row (MasterItems db) /\ last_processed_id st' = Id row /\
                   task_of_row row = None) \/
      (is_Exception e = false /\ ~ uninterrupted json_loads w))).
Proof.
  intros Hobj HB HC [Hconn Hfetch].
  pose proof (loop_body_cases json_loads cfg w st db) as H. cbv zeta in H.
  set (page := fetch_page db (records_to_fetch cfg st) (last_processed_id st)) in *.
  destruct H as [[Hb ->]|[(Hb & Hn & _)|(Hb & _ & H)]].
  - left. auto.
  - pose proof (records_to_fetch_positive cfg st HB Hb). lia.
  - right. destruct H as [[Hc _]|[(_ & Hf & _)|(_ & H)]]; [congruence..|].
    destruct H as [[Hnil ->]|[(Hne & Htasks & tr & ->)|[(Hne & _ & Hraise & tr & _)|
                   [(Hne & _ & rs & t & tr & _ & _ & ->)|
                    (Hne & _ & e & tr & Hg & He & ->)]]]].
    + left. do 2 eexists. split; [reflexivity|]. auto.
    + right. right. do 3 eexists. split; [reflexivity|]. left. split; [reflexivity|].
      destruct page as [|r rs] eqn:Hpage; [congruence|].
      destruct (DriverSpec.last_cons_is_Some r rs) as [row Hlast].
      rewrite (DriverSpec.set_last_processed_id_last _ _ row Hlast).
      apply last_Some_elem_of in Hlast.
      exists row. split; [|split; [reflexivity|]].
      * rewrite <- Hpage in Hlast. subst page.
        apply DriverSpec.fetch_page_sound in Hlast as (_ & Hin & _).
        now apply list_elem_of_In.
      * destruct (task_of_row row) as [task|] eqn:Et; [|reflexivity]. exfalso.
        assert (Hin : task ∈ omap task_of_row (r :: rs))
          by (apply list_elem_of_omap; eauto).
        rewrite Htasks in Hin. inversion Hin.
    + exfalso. destruct Hraise as (e & Hwhere & He).
      destruct Hwhere as [Hg|(rs & Hrs & Ht)].
      * destruct (SchedulerSpec.run_in_chunks_raised _ _ _ _ e HC Hg) as (t & _ & Ht).
        destruct (SchedulerSpec.coroutine_outcomes json_loads cfg w t)
          as [[d Hd]|(e' & He' & Hne')]; congruence.
      * destruct (results_length json_loads cfg w _ rs Hrs) as (_ & HF & _).
        rewrite tally_readable in Ht; [discriminate|].
        clear -HF Hobj. induction HF as [|t r ts rs Hr _ IH]; constructor; [|exact IH].
        eapply coroutine_readable; eauto.
    + right. left. do 3 eexists. split; [reflexivity|]. split; [reflexivity|].
      now apply fewer_ahead.
    + right. right. do 3 eexists. split; [reflexivity|]. right. split; [exact He|].
      intros Hw.
      destruct (run_in_chunks_results json_loads cfg w (API_CALL_CONCURRENCY cfg)
                  (combine (seq 0 (length (omap task_of_row page)))
                           (omap task_of_row page)) HC Hw) as (rs & Hrs & _).
      congruence.
Qed.



(** A page whose only row is skipped: the watermark is moved, the cursor
    is closed twice, and the run is left by pyodbc's exception although
    an item is still to be enriched. *)
Example skipped_page_ends_the_run :
  let tab := String (ascii_of_nat 9) EmptyString in
  let db := mkStore [ mkMasterItem 4 (Some tab) (Some "Nkosi");
                      mkMasterItem 7 (Some "Thabo") (Some "Mokoena") ] [] [] in
  process_master_items_in_batches_async Samples.json_loads
    (mkConfig 1 None 2000 3 5 2) [Samples.calm; Samples.calm; Samples.calm]
    initial_state db
  = Some (Uncaught closed_cursor, mkState 4 1 0 0 0 0 1, db).
Proof. vm_compute. reflexivity. Qed.

(** A cancelled call ends the run with the cancellation; nothing has been
    written. *)
Example cancelled_call_ends_the_run :
  let w := mkWorld true false (fun _ _ => Fault (OtherException "CancelledError" ""))
                   (fun _ => 0) false false 0 in
  process_master_items_in_batches_async Samples.json_loads Samples.config
    [w; Samples.calm] initial_state Samples.store
  = Some (Uncaught (OtherException "CancelledError" ""), mkState 0 1 0 0 0 0 1,
          Samples.store).
Proof. vm_compute. reflexivity. Qed.

(** A prediction that is not an object makes the same page come back for
    ever: the loop is not left. *)
Example unreadable_prediction_spins :
  let w := mkWorld true false (fun _ _ => Response (Some "list")) (fun _ => 0)
                   false false 0 in
  process_master_items_in_batches_async Samples.json_loads Samples.config
    [w; w; w; w; w] initial_state Samples.store = None /\
  after_iterations Samples.json_loads Samples.config [w; w; w; w; w]
    initial_state Samples.store
  = (mkState 0 5 0 0 0 0 5, Samples.store).
Proof. split; vm_compute; reflexivity. Qed.

(** *** What is written *)

Lemma batch_upsert_rows {R : Type} `{Target R} fault now data (target : list R) r' :
  In r' (fst (batch_upsert fault now data target)) ->
  In r' target \/ In (MasterItemId r', Description r') data.
Proof.
  unfold batch_upsert. destruct data as [|p data]; [cbn; auto|].
  destruct (fault || negb (temp_table_ok (p :: data))); [cbn; auto|].
  set (src := p :: data). unfold MERGE. cbn [fst]. intros Hin.
  apply in_app_or in Hin as [Hin|Hin].
  - apply in_map_iff in Hin as (r & <- & Hr). unfold merge_matched, needs_update.
    destruct (source_find src (MasterItemId r)) as [d|] eqn:Hfind; [|now left].
    destruct (String.eqb (Description r) d); [now left|]. right.
    rewrite MasterItemId_update, Description_update.
    now apply UpsertSpec.source_find_In.
  - apply in_map_iff in Hin as ([k d] & <- & Hp). apply filter_In in Hp as [Hp _].
    right. cbn [fst snd]. now rewrite MasterItemId_insert, Description_insert.
Qed.

Lemma write_genders_rows w t db g :
  In g (fst (fst (write_genders w t db))) ->
  In g (Genders db) \/ In (g_MasterItemId g, g_Description g) (genders_to_upsert t).
Proof.
  unfold write_genders. destruct (genders_to_upsert t) as [|p data] eqn:E; [cbn; auto|].
  pose proof (batch_upsert_rows (genders_fault w) (GETDATE w) (p :: data) (Genders db) g) as H.
  unfold batch_upsert_genders.
  destruct (batch_upsert (genders_fault w) (GETDATE w) (p :: data) (Genders db)).
  exact H.
Qed.

Lemma write_languages_rows w t db l :
  In l (fst (fst (write_languages w t db))) ->
  In l (Languages db) \/ In (l_MasterItemId l, l_Description l) (languages_to_upsert t).
Proof.
  unfold write_languages. destruct (languages_to_upsert t) as [|p data] eqn:E; [cbn; auto|].
  pose proof (batch_upsert_rows (languages_fault w) (GETDATE w) (p :: data) (Languages db) l)
    as H.
  unfold batch_upsert_languages.
  destruct (batch_upsert (languages_fault w) (GETDATE w) (p :: data) (Languages db)).
  exact H.
Qed.

Lemma gender_pair_Some res k d :
  gender_pair res = Some (k, d) ->
  res !! "item_id" = Some (VInt k) /\ d <> "" /\
  exists l, res !! "prediction" = Some (VJson (JObject (Some d) l)).
Proof.
  unfold gender_pair. destruct (res !! "item_id") as [[k'| |]|]; try discriminate.
  destruct (res !! "prediction") as [[| |[[g|] l|]]|]; try discriminate.
  destruct (falsy g) eqn:Eg; [discriminate|]. intros [= <- <-].
  split; [reflexivity|]. split; [|eauto]. now apply String.eqb_neq in Eg.
Qed.

Lemma language_pair_Some res k d :
  language_pair res = Some (k, d) ->
  res !! "item_id" = Some (VInt k) /\ d <> "" /\
  exists g, res !! "prediction" = Some (VJson (JObject g (Some d))).
Proof.
  unfold language_pair. destruct (res !! "item_id") as [[k'| |]|]; try discriminate.
  destruct (res !! "prediction") as [[| |[g [l|]|]]|]; try discriminate.
  destruct (falsy l) eqn:El; [discriminate|]. intros [= <- <-].
  split; [reflexivity|]. split; [|eauto]. now apply String.eqb_neq in El.
Qed.

Lemma Forall2_In_r {A B} (P : A -> B -> Prop) l1 l2 b :
  Forall2 P l1 l2 -> In b l2 -> exists a, In a l1 /\ P a b.
Proof.
  induction 1 as [|a b' l1 l2 Hab _ IH]; intros Hin; [destruct Hin|].
  destruct Hin as [->|Hin]; [exists a; split; [now left | exact Hab]|].
  destruct (IH Hin) as (a' & Ha' & HP). exists a'. split; [now right | exact HP].
Qed.

Lemma coroutine_item_id json_loads cfg w t r :
  coroutine json_loads cfg w t = Returned r ->
  r !! "item_id" = Some (VInt (snd (snd t))).
Proof.
  intros Hr.
  destruct (coroutine_shape json_loads cfg w t r Hr) as [(p & raw & _ & ->)|[msg ->]].
  - apply PredictionSpec.prediction_result_shape.
  - apply PredictionSpec.error_result_shape.
Qed.

(** The results of a page carry the [Id]s of rows of the page. *)
Lemma result_of_page json_loads cfg w page rs res k :
  Forall2 (fun t r => coroutine json_loads cfg w t = Returned r)
          (combine (seq 0 (length (omap task_of_row page))) (omap task_of_row page)) rs ->
  In res rs -> res !! "item_id" = Some (VInt k) ->
  exists row, In row page /\ k = Id row /\ task_of_row row <> None.
Proof.
  intros HF Hres Hk.
  destruct (Forall2_In_r _ _ _ _ HF Hres) as (t & Ht & Hrun).
  apply coroutine_item_id in Hrun. rewrite Hk in Hrun. injection Hrun as ->.
  destruct t as [pos task]. apply in_combine_r in Ht. cbn [snd].
  apply list_elem_of_In, list_elem_of_omap in Ht as (row & Hrow & Htask).
  exists row. split; [now apply list_elem_of_In|].
  split; [|congruence].
  unfold task_of_row in Htask.
  destruct (falsy _ || falsy _); [discriminate|]. now injection Htask as <-.
Qed.

(** X15. What one iteration writes.  Every row of [dbo.Genders] after the
    iteration is a row that was there, or has a non-empty [Description]
    and the [Id] of a row of the page fetched in this iteration as its
    [MasterItemId], a row that was not skipped; and the same holds for
    [dbo.Languages].  So the driver writes under no other key than those
    of the page in hand, and never an empty description. *)
Theorem writes_only_for_page (json_loads : string -> result payload) (cfg : Config)
    (w : World) (st : State) (db : Store) :
  let db' := store_of (loop_body json_loads cfg w st db) in
  let page := fetch_page db (records_to_fetch cfg st) (last_processed_id st) in
  (forall g, In g (Genders db') ->
     In g (Genders db) \/
     (g_Description g <> "" /\
      exists row, In row page /\ g_MasterItemId g = Id row /\ task_of_row row <> None)) /\
  (forall l, In l (Languages db') ->
     In l (Languages db) \/
     (l_Description l <> "" /\
      exists row, In row page /\ l_MasterItemId l = Id row /\ task_of_row row <> None)).
Proof.
  cbv zeta. pose proof (loop_body_cases json_loads cfg w st db) as H. cbv zeta in H.
  set (page := fetch_page db (records_to_fetch cfg st) (last_processed_id st)) in *.
  destruct H as [[_ ->]|[(_ & _ & ->)|(_ & _ & H)]]; [cbn; auto..|].
  destruct H as [[_ ->]|[(_ & _ & ->)|(_ & H)]]; [cbn; auto..|].
  destruct H as [[_ ->]|[(_ & _ & tr & ->)|[(_ & _ & _ & tr & ->)|
                 [(_ & _ & rs & t & tr & Hrs & Ht & ->)|
                  (_ & _ & e & tr & _ & _ & ->)]]]]; [cbn; auto..| |cbn; auto].
  cbn [store_of Genders Languages].
  destruct (results_length json_loads cfg w _ rs Hrs) as (_ & HF & _).
  pose proof (tally_returns _ _ _ Ht) as Hall.
  rewrite (tally_readable _ empty_tally Hall) in Ht. injection Ht as <-.
  split.
  - intros g Hg. apply write_genders_rows in Hg as [Hg|Hg]; [now left|]. right.
    cbn [genders_to_upsert empty_tally List.app] in Hg.
    apply list_elem_of_In, list_elem_of_omap in Hg as (res & Hres & Hpair).
    apply gender_pair_Some in Hpair as (Hk & Hd & _). split; [exact Hd|].
    apply list_elem_of_In in Hres.
    exact (result_of_page json_loads cfg w page rs res _ HF Hres Hk).
  - intros l Hl. apply write_languages_rows in Hl as [Hl|Hl]; [now left|]. right.
    cbn [languages_to_upsert empty_tally List.app] in Hl.
    apply list_elem_of_In, list_elem_of_omap in Hl as (res & Hres & Hpair).
    apply language_pair_Some in Hpair as (Hk & Hd & _). split; [exact Hd|].
    apply list_elem_of_In in Hres.
    exact (result_of_page json_loads cfg w page rs res _ HF Hres Hk).
Qed.

End DriverRunSpec.

(** ** The correction pass: every run *)

Module CorrectionRunSpec.
Import Py Calendar Correction.

Lemma stored_dates_valid_intro r db :
  (forall d, BirthDate r = Some d -> valid d = true) -> stored_dates_valid db ->
  stored_dates_valid (r :: db).
Proof.
  intros Hr Hdb r' d Hin Hd. apply elem_of_cons in Hin as [->|Hin]; eauto.
Qed.

Lemma DATEADD_minus_100_None d :
  valid d = true -> DATEADD_year (-100) d = None -> year d <= 100.
Proof.
  intros Hv. destruct (Z.le_gt_cases (year d) 100) as [H|H]; [auto|].
  destruct (CorrectionSpec.DATEADD_minus_100 d Hv ltac:(lia)) as (new & -> & _).
  discriminate.
Qed.

Lemma DATEADD_minus_100_Some d new :
  valid d = true -> DATEADD_year (-100) d = Some new ->
  101 <= year d /\ hundred_years_earlier d new /\ valid new = true.
Proof.
  intros Hv E. assert (Hy : 101 <= year d).
  { unfold DATEADD_year in E.
    destruct (Z.leb_spec 1 (year d + -100)); [lia | discriminate]. }
  destruct (CorrectionSpec.DATEADD_minus_100 d Hv Hy) as (new' & E' & H1 & H2).
  rewrite E in E'. injection E' as <-. auto.
Qed.

(** What the [UPDATE] does on any table of dates: it fails exactly when a
    row over the threshold has a year that cannot go back a century, and
    otherwise rewrites the rows over the threshold and captures them. *)
Lemma UPDATE_BirthDates_result threshold db :
  stored_dates_valid db ->
  match UPDATE_BirthDates threshold db with
  | Some (updated, changed) =>
      changed = omap (change_of threshold) db /\
      Forall2 (corrected threshold) db updated /\
      stored_dates_valid updated /\
      (forall r d, r ∈ db -> BirthDate r = Some d -> ltb threshold d = true ->
                   101 <= year d)
  | None =>
      exists r d, r ∈ db /\ BirthDate r = Some d /\ ltb threshold d = true /\
                  year d <= 100
  end.
Proof.
  induction db as [|r db IH]; intros Hv.
  - cbn. repeat split; [constructor | intros r d H; inversion H | intros r d H; inversion H].
  - apply CorrectionSpec.stored_dates_valid_cons in Hv as [Hr Hv]. specialize (IH Hv).
    cbn [UPDATE_BirthDates omap list_omap]. unfold change_of at 1.
    destruct (BirthDate r) as [old|] eqn:Eb.
    + specialize (Hr old eq_refl).
      destruct (ltb threshold old) eqn:El.
      * destruct (DATEADD_year (-100) old) as [new|] eqn:Ed.
        -- destruct (DATEADD_minus_100_Some old new Hr Ed) as (Hy & Hh & Hvn).
           destruct (UPDATE_BirthDates threshold db) as [[updated changed]|].
           ++ destruct IH as (-> & HF & Hvu & Hyears).
              split; [reflexivity|]. split; [|split].
              ** constructor; [|exact HF]. unfold corrected. cbn. rewrite Eb, El. eauto.
              ** apply stored_dates_valid_intro; [|exact Hvu]. cbn. now intros d [= <-].
              ** intros r' d Hin Hd Hl. apply elem_of_cons in Hin as [->|Hin]; [|eauto].
                 rewrite Eb in Hd. now injection Hd as <-.
           ++ destruct IH as (r' & d & Hin & Hd & Hl & Hy').
              exists r', d. split; [now apply elem_of_cons; right | auto].
        -- exists r, old. split; [apply elem_of_cons; now left|].
           split; [exact Eb|]. split; [exact El|].
           now apply DATEADD_minus_100_None.
      * destruct (UPDATE_BirthDates threshold db) as [[updated changed]|].
        -- destruct IH as (-> & HF & Hvu & Hyears).
           split; [reflexivity|]. split; [|split].
           ** constructor; [|exact HF]. unfold corrected. now rewrite Eb, El.
           ** apply stored_dates_valid_intro; [|exact Hvu]. intros d Hd.
              rewrite Eb in Hd. now injection Hd as <-.
           ** intros r' d Hin Hd Hl. apply elem_of_cons in Hin as [->|Hin]; [|eauto].
              rewrite Eb in Hd. injection Hd as <-. congruence.
        -- destruct IH as (r' & d & Hin & Hd & Hl & Hy').
           exists r', d. split; [now apply elem_of_cons; right | auto].
    + destruct (UPDATE_BirthDates threshold db) as [[updated changed]|].
      * destruct IH as (-> & HF & Hvu & Hyears).
        split; [reflexivity|]. split; [|split].
        -- constructor; [|exact HF]. unfold corrected. now rewrite Eb.
        -- apply stored_dates_valid_intro; [|exact Hvu]. intros d Hd. congruence.
        -- intros r' d Hin Hd Hl. apply elem_of_cons in Hin as [->|Hin]; [|eauto].
           congruence.
      * destruct IH as (r' & d & Hin & Hd & Hl & Hy').
        exists r', d. split; [now apply elem_of_cons; right | auto].
Qed.

(** The script, case by case. *)
Lemma main_cases threshold DRY_RUN confirm db :
  main threshold DRY_RUN confirm db =
    if negb DRY_RUN && negb (String.eqb confirm "YES") then mkOutcome db None
    else match UPDATE_BirthDates threshold db with
         | None => mkOutcome db None
         | Some (updated, changed) =>
             mkOutcome (if DRY_RUN then db else updated)
                       (match ORDER_BY_OldBirthDate_Id changed with
                        | [] => None
                        | rows => Some rows
                        end)
         end.
Proof.
  unfold main. destruct (negb DRY_RUN && negb (String.eqb confirm "YES")); [reflexivity|].
  unfold TSQL_CORRECT_RECORDS. cbn.
  destruct (UPDATE_BirthDates threshold db) as [[updated changed]|]; [|reflexivity].
  destruct DRY_RUN; cbn; destruct (ORDER_BY_OldBirthDate_Id changed); reflexivity.
Qed.

(** X16. Every run of the correction script on a table of dates.  A live
    run that is not confirmed, and any run in which some date after the
    threshold lies in a year up to 100 (so that [DATEADD] overflows and
    the statement fails), leave the table as it was and write no file.
    Every other run exports the audit records of the rows after the
    threshold, and leaves the table as it was if it is a dry run and with
    exactly these rows a century earlier if it is a live run; the
    stored dates are still dates.  The table is never left partly
    corrected, and the dry run exports what the confirmed live run
    exports. *)
Theorem correction_all_or_nothing (threshold : date) (DRY_RUN : bool)
    (confirm : string) (db : list BirthDateRow) :
  stored_dates_valid db ->
  let out := main threshold DRY_RUN confirm db in
  let fails := exists r d, r ∈ db /\ BirthDate r = Some d /\
                           ltb threshold d = true /\ year d <= 100 in
  (DRY_RUN = false -> confirm <> "YES" -> out = mkOutcome db None) /\
  (fails -> out = mkOutcome db None) /\
  (~ fails -> DRY_RUN = true \/ confirm = "YES" ->
   (if DRY_RUN then database out = db
    else Forall2 (corrected threshold) db (database out)) /\
   csv_rows out =
     match ORDER_BY_OldBirthDate_Id (omap (change_of threshold) db) with
     | [] => None
     | rows => Some rows
     end) /\
  stored_dates_valid (database out) /\
  (database out = db \/ Forall2 (corrected threshold) db (database out)) /\
  csv_rows (main threshold true confirm db) = csv_rows (main threshold false "YES" db).
Proof.
  intros Hv out fails. subst out fails. rewrite !main_cases.
  pose proof (UPDATE_BirthDates_result threshold db Hv) as HU.
  split; [|split; [|split; [|split; [|split]]]].
  - intros -> Hc. apply String.eqb_neq in Hc. now rewrite Hc.
  - intros (r & d & Hin & Hd & Hl & Hy).
    destruct (negb DRY_RUN && negb (String.eqb confirm "YES")); [reflexivity|].
    destruct (UPDATE_BirthDates threshold db) as [[updated changed]|]; [|reflexivity].
    destruct HU as (_ & _ & _ & Hyears). specialize (Hyears r d Hin Hd Hl). lia.
  - intros Hnf Hgo.
    assert (negb DRY_RUN && negb (String.eqb confirm "YES") = false) as ->.
    { destruct Hgo as [-> | ->]; [reflexivity|]. cbn. apply andb_false_r. }
    destruct (UPDATE_BirthDates threshold db) as [[updated changed]|]; [|tauto].
    destruct HU as (-> & HF & _). destruct DRY_RUN; cbn; auto.
  - destruct (negb DRY_RUN && negb (String.eqb confirm "YES")); [exact Hv|].
    destruct (UPDATE_BirthDates threshold db) as [[updated changed]|]; [|exact Hv].
    destruct HU as (_ & _ & Hvu & _). destruct DRY_RUN; cbn; auto.
  - destruct (negb DRY_RUN && negb (String.eqb confirm "YES")); [now left|].
    destruct (UPDATE_BirthDates threshold db) as [[updated changed]|]; [|now left].
    destruct HU as (_ & HF & _). destruct DRY_RUN; cbn; auto.
  - cbn [negb andb]. rewrite String.eqb_refl. cbn [negb].
    destruct (UPDATE_BirthDates threshold db) as [[updated changed]|]; reflexivity.
Qed.

Lemma correction_all_or_nothing_witness :
  let threshold := mkdate 50 1 1 in
  let db := [ mkBirthDateRow 1 1 (Some (mkdate 2009 6 1));
              mkBirthDateRow 2 2 (Some (mkdate 99 3 14));
              mkBirthDateRow 3 3 None ] in
  stored_dates_valid db /\
  let out := main threshold false "YES" db in
  let fails := exists r d, r ∈ db /\ BirthDate r = Some d /\
                           ltb threshold d = true /\ year d <= 100 in
  (false = false -> "YES" <> "YES" -> out = mkOutcome db None) /\
  (fails -> out = mkOutcome db None) /\
  (~ fails -> false = true \/ "YES" = "YES" ->
   (if false then database out = db
    else Forall2 (corrected threshold) db (database out)) /\
   csv_rows out =
     match ORDER_BY_OldBirthDate_Id (omap (change_of threshold) db) with
     | [] => None
     | rows => Some rows
     end) /\
  stored_dates_valid (database out) /\
  (database out = db \/ Forall2 (corrected threshold) db (database out)) /\
  csv_rows (main threshold true "YES" db) = csv_rows (main threshold false "YES" db).
Proof.
  intros threshold db.
  assert (Hv : stored_dates_valid db).
  { intros r d Hin Hd. repeat (apply elem_of_cons in Hin as [->|Hin]);
      [cbn in Hd; injection Hd as <-; reflexivity..|discriminate|inversion Hin]. }
  split; [exact Hv|].
  exact (correction_all_or_nothing threshold false "YES" db Hv).
Defined.

(** A date of the year 99 after the threshold: the statement fails, the
    row of 2009 is not corrected either, and no file is written. *)
Example overflow_leaves_table :
  main (mkdate 50 1 1) false "YES"
       [ mkBirthDateRow 1 1 (Some (mkdate 2009 6 1));
         mkBirthDateRow 2 2 (Some (mkdate 99 3 14)) ]
  = mkOutcome [ mkBirthDateRow 1 1 (Some (mkdate 2009 6 1));
                mkBirthDateRow 2 2 (Some (mkdate 99 3 14)) ] None.
Proof. reflexivity. Qed.

Lemma UPDATE_BirthDates_nothing threshold db :
  (forall r, r ∈ db -> over_threshold threshold r = false) ->
  UPDATE_BirthDates threshold db = Some (db, []).
Proof.
  induction db as [|r db IH]; intros H; [reflexivity|].
  cbn [UPDATE_BirthDates].
  pose proof (H r ltac:(apply elem_of_cons; now left)) as Hr. unfold over_threshold in Hr.
  rewrite IH by (intros r' Hr'; apply H, elem_of_cons; now right).
  destruct (BirthDate r) as [old|]; [|reflexivity]. now rewrite Hr.
Qed.

Lemma corrected_not_over threshold db updated :
  (forall r d, r ∈ db -> BirthDate r = Some d -> ltb threshold d = true ->
               year d < year threshold + 100) ->
  Forall2 (corrected threshold) db updated ->
  forall r', r' ∈ updated -> over_threshold threshold r' = false.
Proof.
  intros Hnear HF. induction HF as [|r r' db updated Hc _ IH]; intros x Hx;
    [inversion Hx|].
  apply elem_of_cons in Hx as [->|Hx].
  - destruct Hc as (_ & _ & Hc). unfold over_threshold.
    destruct (BirthDate r) as [old|] eqn:Eb.
    + destruct (ltb threshold old) eqn:El.
      * destruct Hc as (new & -> & Hy & _).
        specialize (Hnear r old ltac:(apply elem_of_cons; now left) Eb El).
        destruct (ltb threshold new) eqn:El'; [|reflexivity].
        apply CorrectionSpec.ltb_year in El'. lia.
      * subst r'. now rewrite Eb.
    + subst r'. now rewrite Eb.
  - apply IH; [|exact Hx]. intros r0 d Hin. apply Hnear, elem_of_cons. now right.
Qed.

(** X17. A second pass.  When every date after the threshold lies in a
    year from 101 on and less than a hundred years after the threshold
    year, a confirmed live run leaves a table on which the same script,
    live or dry, finds nothing: it changes no row and writes no file. *)
Theorem second_pass_finds_nothing (threshold : date) (DRY_RUN : bool)
    (confirm : string) (db : list BirthDateRow) :
  stored_dates_valid db ->
  (forall r d, r ∈ db -> BirthDate r = Some d -> ltb threshold d = true ->
               101 <= year d < year threshold + 100) ->
  let corrected_db := database (main threshold false "YES" db) in
  Forall2 (corrected threshold) db corrected_db /\
  (forall r, r ∈ corrected_db -> over_threshold threshold r = false) /\
  main threshold DRY_RUN confirm corrected_db = mkOutcome corrected_db None.
Proof.
  intros Hv Hnear. cbv zeta.
  pose proof (UPDATE_BirthDates_result threshold db Hv) as HU.
  assert (Hmain : main threshold false "YES" db =
                  match UPDATE_BirthDates threshold db with
                  | None => mkOutcome db None
                  | Some (updated, changed) =>
                      mkOutcome updated
                        (match ORDER_BY_OldBirthDate_Id changed with
                         | [] => None
                         | rows => Some rows
                         end)
                  end).
  { rewrite main_cases. cbn [negb andb]. rewrite String.eqb_refl. reflexivity. }
  rewrite Hmain. clear Hmain.
  destruct (UPDATE_BirthDates threshold db) as [[updated changed]|].
  - destruct HU as (_ & HF & _). cbn [database].
    assert (Hnone : forall r, r ∈ updated -> over_threshold threshold r = false).
    { apply (corrected_not_over threshold db); [|exact HF].
      intros r d Hin Hd Hl. apply (Hnear r d Hin Hd Hl). }
    split; [exact HF|]. split; [exact Hnone|].
    rewrite main_cases, (UPDATE_BirthDates_nothing threshold updated Hnone).
    destruct (negb DRY_RUN && negb (String.eqb confirm "YES")); [reflexivity|].
    destruct DRY_RUN; reflexivity.
  - destruct HU as (r & d & Hin & Hd & Hl & Hy).
    specialize (Hnear r d Hin Hd Hl). lia.
Qed.

Lemma second_pass_finds_nothing_witness :
  let threshold := mkdate 2008 2 23 in
  let db := [ mkBirthDateRow 4 4 (Some (mkdate 2012 2 29));
              mkBirthDateRow 1 1 (Some (mkdate 2009 6 1));
              mkBirthDateRow 2 2 (Some (mkdate 2008 2 23));
              mkBirthDateRow 3 3 None ] in
  stored_dates_valid db /\
  (forall r d, r ∈ db -> BirthDate r = Some d -> ltb threshold d = true ->
               101 <= year d < year threshold + 100) /\
  let corrected_db := database (main threshold false "YES" db) in
  Forall2 (corrected threshold) db corrected_db /\
  (forall r, r ∈ corrected_db -> over_threshold threshold r = false) /\
  main threshold false "YES" corrected_db = mkOutcome corrected_db None.
Proof.
  intros threshold db.
  assert (Hv : stored_dates_valid db).
  { intros r d Hin Hd. repeat (apply elem_of_cons in Hin as [->|Hin]);
      [cbn in Hd; injection Hd as <-; reflexivity..|discriminate|inversion Hin]. }
  assert (Hnear : forall r d, r ∈ db -> BirthDate r = Some d -> ltb threshold d = true ->
                              101 <= year d < year threshold + 100).
  { intros r d Hin Hd Hl. repeat (apply elem_of_cons in Hin as [->|Hin]);
      [cbn in Hd; injection Hd as <-; cbn; lia..|discriminate|inversion Hin]. }
  split; [exact Hv|]. split; [exact Hnear|].
  exact (second_pass_finds_nothing threshold false "YES" db Hv Hnear).
Defined.

(** With a threshold more than a century back, a date is moved by each
    pass. *)
Example second_pass_shifts_again :
  let db := [ mkBirthDateRow 1 1 (Some (mkdate 2009 6 1)) ] in
  let once := database (main (mkdate 1900 1 1) false "YES" db) in
  once = [ mkBirthDateRow 1 1 (Some (mkdate 1909 6 1)) ] /\
  database (main (mkdate 1900 1 1) false "YES" once)
    = [ mkBirthDateRow 1 1 (Some (mkdate 1809 6 1)) ].
Proof. split; reflexivity. Qed.

End CorrectionRunSpec.

(** ** The schedule of the fan-out *)

Module FanoutSpec.
Import Py Scheduler FanoutTrace.


Example fanout_schedule_of_five :
  let run := run_in_chunks
               (Driver.coroutine Samples.json_loads Samples.config Samples.calm)
               (Driver.latency Samples.calm) 2 Samples.five_tasks in
  started (snd run) = [0; 1; 2; 3; 4]%nat /\
  settled (snd run) = [1; 0; 3; 2; 4]%nat /\
  paused (snd run) = [1; 1].
Proof. repeat split; vm_compute; reflexivity. Qed.

End FanoutSpec.

(** ** The date test on any strings *)

Module DateTestSpec.
Import Py Calendar IdNumbers PyFacts.


Example valid_date_odd_literals :
  valid_date 2025 " 97" "+4" "2_0" = Returned true /\
  valid_date 2025 "-3" "04" "20" = Returned true /\
  valid_date 2025 "1997" "04" "20" = Returned true /\
  valid_date 2025 "97" "4.0" "20" = Returned false /\
  valid_date 2025 "" "04" "20" = Returned false.
Proof. repeat split; vm_compute; reflexivity. Qed.

(** A number beyond a C [int] is raised on, whichever part holds it, unless
    another part is no literal; a literal of 4301 digits is none, whatever
    its value. *)
Example valid_date_beyond_the_limits :
  valid_date 2025 "2147483648" "04" "20" = Raised OverflowError /\
  valid_date 2025 "97" "04" "-2147483649" = Raised OverflowError /\
  valid_date 2025 "2147483648" "4.0" "20" = Returned false /\
  valid_date 2025 "2147481647" "04" "20" = Returned false /\
  valid_date 2025 (string_of_list_ascii (List.repeat "0"%char 4299 ++ ["9"; "7"]%char))
             "04" "20" = Returned false /\
  valid_date 2025 (string_of_list_ascii (List.repeat "0"%char 4298 ++ ["9"; "7"]%char))
             "04" "20" = Returned true.
Proof. repeat split; vm_compute; reflexivity. Qed.

(** X20. The window of the pivot.  While the clock is in the years 2000 to
    2099, the year decoded from a two-digit block is never after the
    current year and never a hundred years or more before it. *)
Theorem decoded_year_window (now_year : Z) (yy : string) :
  2000 <= now_year < 2100 -> digit_block 2 yy = true ->
  exists y, int yy = Returned y /\ 0 <= y < 100 /\
            now_year - 100 < y + century now_year y <= now_year.
Proof.
  intros Hnow Hyy. apply digit_block_inv in Hyy as [Hlen Hd].
  destruct (int_digit_run yy Hd) as (y & Hy & Hb).
  { intros ->. discriminate Hlen. }
  { rewrite Hlen. unfold max_str_digits. lia. }
  rewrite Hlen in Hb. exists y. split; [exact Hy|].
  change (10 ^ Z.of_nat 2) with 100 in Hb. split; [lia|].
  unfold century, now_yy.
  assert (Hmod : now_year mod 100 = now_year - 2000).
  { symmetry. apply (Z.mod_unique_pos now_year 100 20); lia. }
  rewrite Hmod. destruct (Z.gtb_spec y (now_year - 2000)); lia.
Qed.

Lemma decoded_year_window_witness :
  2000 <= 2025 < 2100 /\ digit_block 2 "97" = true /\
  exists y, int "97" = Returned y /\ 0 <= y < 100 /\
            2025 - 100 < y + century 2025 y <= 2025.
Proof.
  assert (H1 : 2000 <= 2025 < 2100) by lia.
  assert (H2 : digit_block 2 "97" = true) by reflexivity.
  split; [exact H1|]. split; [exact H2|].
  exact (decoded_year_window 2025 "97" H1 H2).
Defined.

(** Once the clock has left the 2000s the two fixed centuries no longer
    bracket it. *)
Example pivot_after_2099 :
  century 2100 0 + 0 = 2000 /\ century 2100 1 + 1 = 1901 /\
  century 1999 99 + 99 = 2099.
Proof. repeat split; reflexivity. Qed.

End DateTestSpec.

(** ** The single-record tool and the check of what is missing *)

Module BirthDateToolsSpec.
Import Py Calendar IdNumbers Backfill Correction BackfillRun BirthDateTools PyFacts ListFacts.

(** *** The six digits *)

Lemma substring_nil n m : String.substring n m EmptyString = EmptyString.
Proof. destruct n, m; reflexivity. Qed.

(** X21. [first_six] returns the leftmost window of six consecutive
    digits of the text: when it returns a block, the block is six digits
    found at some position, and no window at an earlier position is six
    digits; when it returns [None], no window of the text is. *)
Theorem first_six_leftmost (idnum : string) :
  match first_six idnum with
  | Some six =>
      digit_block 6 six = true /\
      exists i, String.substring i 6 idnum = six /\
                forall j, (j < i)%nat ->
                          digit_block 6 (String.substring j 6 idnum) = false
  | None => forall j, digit_block 6 (String.substring j 6 idnum) = false
  end.
Proof.
  induction idnum as [|c rest IH].
  - cbn [first_six]. intros j. now rewrite substring_nil.
  - cbn [first_six].
    destruct (digit_block 6 (String.substring 0 6 (String c rest))) eqn:E.
    + split; [exact E|]. exists 0%nat. split; [reflexivity|]. intros j Hj. lia.
    + destruct (first_six rest) as [six|].
      * destruct IH as (Hsix & i & Hi & Hbefore). split; [exact Hsix|].
        exists (S i). split; [exact Hi|].
        intros [|j] Hj; [exact E|]. apply Hbefore. lia.
      * intros [|j]; [exact E | apply IH].
Qed.

Example first_six_examples :
  first_six "9704201234083" = Some "970420" /\
  first_six "ZA 9704201234083" = Some "970420" /\
  first_six "12345-678901" = Some "678901" /\
  first_six "12345" = None.
Proof. repeat split; reflexivity. Qed.

Lemma first_six_digits idnum six :
  first_six idnum = Some six -> digit_block 6 six = true.
Proof.
  revert six. induction idnum as [|c rest IH]; intros six; [discriminate|].
  cbn [first_six].
  destruct (digit_block 6 (String.substring 0 6 (String c rest))) eqn:E.
  - now intros [= <-].
  - apply IH.
Qed.

Lemma first_six_prefix idnum :
  digit_block 6 (LEFT idnum 6) = true -> first_six idnum = Some (LEFT idnum 6).
Proof.
  unfold LEFT. destruct idnum as [|c rest]; [discriminate|].
  cbn [first_six]. now intros ->.
Qed.

(** *** The date *)

Lemma int_pair block i :
  digit_block 6 block = true -> (i + 2 <= 6)%nat ->
  int (slice block i (i + 2)) = Returned (digits_value (slice block i (i + 2))) /\
  0 <= digits_value (slice block i (i + 2)) < 100.
Proof.
  intros Hb Hi. apply digit_block_inv in Hb as [Hl Hd].
  assert (Hs : all_digits (slice block i (i + 2)) = true)
    by (apply all_digits_substring; exact Hd).
  assert (Hsl : String.length (slice block i (i + 2)) = 2%nat).
  { unfold slice. rewrite length_substring; lia. }
  split.
  - apply int_value; [exact Hs| |].
    + intros E. rewrite E in Hsl. discriminate.
    + rewrite Hsl. unfold max_str_digits. lia.
  - pose proof (digits_value_bounds _ Hs) as B. rewrite Hsl in B. exact B.
Qed.

(** [derive_dob] on six digits. *)
Lemma derive_dob_block today_year six :
  digit_block 6 six = true ->
  derive_dob today_year six =
    Returned
      (let y := digits_value (slice six 0 2) in
       let m := digits_value (slice six 2 4) in
       let d := digits_value (slice six 4 6) in
       if is_date (century today_year y + y) m d
       then Some (mkdate (century today_year y + y) m d) else None).
Proof.
  intros Hb. unfold derive_dob.
  destruct (int_pair six 0 Hb ltac:(lia)) as [Iy By].
  destruct (int_pair six 2 Hb ltac:(lia)) as [Im Bm].
  destruct (int_pair six 4 Hb ltac:(lia)) as [Id Bd].
  cbn [Nat.add] in *. rewrite Iy, Im, Id. cbn [bind]. unfold datetime, century, now_yy.
  set (c := if _ >? _ then 1900 else 2000).
  assert (Hc : c = 1900 \/ c = 2000) by (subst c; destruct (_ >? _); auto).
  assert (Hfit : c_int (c + digits_value (slice six 0 2))
                 && c_int (digits_value (slice six 2 4))
                 && c_int (digits_value (slice six 4 6)) = true).
  { rewrite !andb_true_iff, !IdNumbersSpec.c_int_spec. lia. }
  rewrite Hfit. destruct (is_date _ _ _); reflexivity.
Qed.

(** The back-fill's expression on six digits. *)
Lemma DOB_block now_year year4 block :
  digit_block 6 block = true -> digit_block 4 year4 = true ->
  digits_value (RIGHT year4 2) = now_year mod 100 ->
  DOB year4 block =
    (let y := digits_value (slice block 0 2) in
     let m := digits_value (slice block 2 4) in
     let d := digits_value (slice block 4 6) in
     if is_date (century now_year y + y) m d
     then Some (mkdate (century now_year y + y) m d) else None).
Proof.
  intros Hb H4 Hp. pose proof Hb as Hb'. apply digit_block_inv in Hb' as [Hl Hd].
  apply digit_block_inv in H4 as [L4 D4].
  assert (Dy : all_digits (slice block 0 2) = true)
    by (apply all_digits_substring; exact Hd).
  assert (Ly : String.length (slice block 0 2) = 2%nat)
    by (unfold slice; rewrite length_substring; lia).
  assert (Hleft6 : LEFT block 6 = block).
  { unfold LEFT. clear -Hl.
    do 6 (destruct block as [|? block]; [discriminate|]).
    destruct block; [reflexivity | discriminate]. }
  assert (Hcmp : str_gt (LEFT block 2) (RIGHT year4 2)
                 = (digits_value (slice block 0 2) >? now_year mod 100)).
  { unfold str_gt. change (LEFT block 2) with (slice block 0 2).
    rewrite compare_digit_runs.
    - rewrite Hp. unfold Z.gtb. reflexivity.
    - exact Dy.
    - apply all_digits_substring. exact D4.
    - rewrite Ly. unfold RIGHT. rewrite length_substring; lia. }
  unfold DOB, century_prefix. rewrite Hcmp, Hleft6. unfold century, now_yy. cbv zeta.
  destruct (Z.gtb_spec (digits_value (slice block 0 2)) (now_year mod 100)) as [G|G].
  - change (String.append "19" block) with (String "1" (String "9" block)).
    rewrite (IdNumbersSpec.TRY_CONVERT_prefixed "1" "9" block Hb eq_refl).
    reflexivity.
  - change (String.append "20" block) with (String "2" (String "0" block)).
    rewrite (IdNumbersSpec.TRY_CONVERT_prefixed "2" "0" block Hb eq_refl).
    reflexivity.
Qed.

Lemma DOB_LEFT year4 s :
  digit_block 6 (LEFT s 6) = true -> DOB year4 s = DOB year4 (LEFT s 6).
Proof.
  intros H. apply digit_block_inv in H as [Hl _]. unfold LEFT in Hl.
  do 6 (destruct s as [|? s]; [discriminate|]).
  unfold DOB, century_prefix, LEFT. destruct s; reflexivity.
Qed.

(** X22. The single-record tool and the back-fill decode alike.  For an
    [IDNumber] that starts with six digits, which is what the back-fill
    asks for, [first_six] returns these six digits, [derive_dob] does not
    raise on them, and its answer is the back-fill's [DOB]: the same date,
    or none in both, when both read the same clock. *)
Theorem derive_dob_agrees_with_backfill (today_year : Z) (year4 IDNumber : string) :
  LIKE_six_digits (Some IDNumber) = true ->
  digit_block 4 year4 = true ->
  digits_value (RIGHT year4 2) = today_year mod 100 ->
  first_six IDNumber = Some (LEFT IDNumber 6) /\
  derive_dob today_year (LEFT IDNumber 6) = Returned (DOB year4 IDNumber).
Proof.
  intros Hlike H4 Hp. cbn [LIKE_six_digits] in Hlike.
  split; [now apply first_six_prefix|].
  rewrite (DOB_LEFT year4 IDNumber Hlike).
  rewrite (derive_dob_block today_year _ Hlike).
  now rewrite (DOB_block today_year year4 _ Hlike H4 Hp).
Qed.

Lemma derive_dob_agrees_with_backfill_witness :
  LIKE_six_digits (Some "9704201234083") = true /\
  digit_block 4 "2025" = true /\
  digits_value (RIGHT "2025" 2) = 2025 mod 100 /\
  first_six "9704201234083" = Some (LEFT "9704201234083" 6) /\
  derive_dob 2025 (LEFT "9704201234083" 6) = Returned (DOB "2025" "9704201234083").
Proof.
  assert (H1 : LIKE_six_digits (Some "9704201234083") = true) by reflexivity.
  assert (H2 : digit_block 4 "2025" = true) by reflexivity.
  assert (H3 : digits_value (RIGHT "2025" 2) = 2025 mod 100) by reflexivity.
  split; [exact H1|]. split; [exact H2|]. split; [exact H3|].
  exact (derive_dob_agrees_with_backfill 2025 "2025" "9704201234083" H1 H2 H3).
Defined.

(** Where the [IDNumber] does not start with its six digits the two part:
    the tool finds them further on, the back-fill passes the row by. *)
Example tool_decodes_what_backfill_skips :
  first_six "ZA9704201234083" = Some "970420" /\
  derive_dob 2025 "970420" = Returned (Some (mkdate 1997 4 20)) /\
  LIKE_six_digits (Some "ZA9704201234083") = false.
Proof. repeat split; vm_compute; reflexivity. Qed.

(** *** The single-record tool *)

Lemma upsert_birthdate_others bds master_id dob bd :
  Id bd <> master_id ->
  (In bd (upsert_birthdate bds master_id dob) <-> In bd bds).
Proof.
  intros Hne. unfold upsert_birthdate.
  destruct (0 <? length (List.filter (fun bd => Z.eqb (Id bd) master_id) bds))%nat.
  - rewrite in_map_iff. split.
    + intros (x & E & Hx). destruct (Z.eqb_spec (Id x) master_id) as [Ex|Ex].
      * subst bd. cbn [Id] in Hne. congruence.
      * now subst bd.
    + intros Hin. exists bd. split; [|exact Hin].
      destruct (Z.eqb_spec (Id bd) master_id); [congruence | reflexivity].
  - rewrite in_app_iff. cbn [In]. split; [|auto].
    intros [H|[<-|[]]]; [exact H|]. cbn [Id] in Hne. congruence.
Qed.

Lemma upsert_birthdate_written bds master_id dob :
  (exists bd, In bd (upsert_birthdate bds master_id dob) /\ Id bd = master_id) /\
  (forall bd, In bd (upsert_birthdate bds master_id dob) -> Id bd = master_id ->
              BirthDate bd = Some dob).
Proof.
  unfold upsert_birthdate.
  destruct (List.filter (fun bd => Z.eqb (Id bd) master_id) bds) as [|r rs] eqn:F;
    cbn [length Nat.ltb Nat.leb].
  - split.
    + eexists. split; [apply in_or_app; right; now left | reflexivity].
    + intros bd Hin E. apply in_app_or in Hin as [Hin|[<-|[]]]; [|reflexivity].
      assert (Hf : In bd (List.filter (fun bd => Z.eqb (Id bd) master_id) bds)).
      { apply filter_In. split; [exact Hin | now apply Z.eqb_eq]. }
      rewrite F in Hf. destruct Hf.
  - assert (Hr : In r bds /\ Id r = master_id).
    { assert (Hf : In r (List.filter (fun bd => Z.eqb (Id bd) master_id) bds))
        by (rewrite F; now left).
      apply filter_In in Hf as [Hf E]. apply Z.eqb_eq in E. auto. }
    destruct Hr as [Hr Er]. split.
    + exists (mkBirthDateRow (Id r) (MasterItemId r) (Some dob)).
      split; [|exact Er]. apply in_map_iff. exists r. split; [|exact Hr].
      now rewrite (proj2 (Z.eqb_eq _ _) Er).
    + intros bd Hin E. apply in_map_iff in Hin as (x & <- & Hx).
      destruct (Z.eqb_spec (Id x) master_id); [reflexivity | congruence].
Qed.

Lemma upsert_birthdate_twice bds master_id dob :
  upsert_birthdate (upsert_birthdate bds master_id dob) master_id dob
    = upsert_birthdate bds master_id dob.
Proof.
  destruct (upsert_birthdate_written bds master_id dob) as [(r & Hr & Er) Hall].
  set (bds1 := upsert_birthdate bds master_id dob) in *.
  unfold upsert_birthdate at 1.
  destruct (List.filter (fun bd => Z.eqb (Id bd) master_id) bds1) as [|x xs] eqn:F.
  - assert (Hf : In r (List.filter (fun bd => Z.eqb (Id bd) master_id) bds1)).
    { apply filter_In. split; [exact Hr | now apply Z.eqb_eq]. }
    rewrite F in Hf. destruct Hf.
  - cbn [length Nat.ltb Nat.leb]. apply UpsertSpec.map_id_on. intros bd Hbd.
    destruct (Z.eqb_spec (Id bd) master_id) as [E|E]; [|reflexivity].
    specialize (Hall bd Hbd E). destruct bd as [i m b]. cbn in *. now subst b.
Qed.

Lemma upsert_birthdate_keys bds master_id dob :
  exists more, List.map Id (upsert_birthdate bds master_id dob)
               = (List.map Id bds ++ more)%list /\ (length more <= 1)%nat.
Proof.
  unfold upsert_birthdate.
  destruct (0 <? length (List.filter (fun bd => Z.eqb (Id bd) master_id) bds))%nat.
  - exists []. rewrite List.app_nil_r, List.map_map. split; [|cbn; lia].
    apply map_ext. intros bd. destruct (Z.eqb (Id bd) master_id); reflexivity.
  - exists [master_id]. rewrite List.map_app. split; [reflexivity | cbn; lia].
Qed.

(** X23. [main(master_id)] of the single-record tool, on any tables: it
    never raises (the block [first_six] hands to [derive_dob] is six
    digits, so the [int] calls outside the [try] cannot fail); it either
    leaves [dbo.BirthDates] as it was, or there is a date after which
    every row with this [Id] carries that date and there is such a row;
    rows with another [Id] are as they were, the keys that were there stay
    in place and at most one row is added; and running it again changes
    nothing more. *)
Theorem main_sets_one_date (today_year master_id : Z)
    (MasterItems : list MasterItem) (BirthDates : list BirthDateRow) :
  exists after,
    main today_year master_id MasterItems BirthDates = Returned after /\
    (forall bd, Id bd <> master_id -> (In bd after <-> In bd BirthDates)) /\
    (after = BirthDates \/
     exists d, valid d = true /\
       (exists bd, In bd after /\ Id bd = master_id) /\
       (forall bd, In bd after -> Id bd = master_id -> BirthDate bd = Some d)) /\
    (exists more, List.map Id after = (List.map Id BirthDates ++ more)%list /\
                  (length more <= 1)%nat) /\
    main today_year master_id MasterItems after = Returned after.
Proof.
  unfold main.
  assert (Hsame : forall bds : list BirthDateRow,
            (forall bd, Id bd <> master_id -> (In bd bds <-> In bd bds)) /\
            (bds = bds \/
             exists d, valid d = true /\
               (exists bd, In bd bds /\ Id bd = master_id) /\
               (forall bd, In bd bds -> Id bd = master_id -> BirthDate bd = Some d)) /\
            (exists more, List.map Id bds = (List.map Id bds ++ more)%list /\
                          (length more <= 1)%nat)).
  { intros bds. split; [tauto|]. split; [now left|].
    exists []. rewrite List.app_nil_r. split; [reflexivity | cbn; lia]. }
  destruct (get_idnumber MasterItems master_id) as [idnum|];
    [|exists BirthDates; split; [reflexivity|]; repeat split; try apply Hsame; tauto].
  destruct (first_six idnum) as [six|] eqn:Hsix;
    [|exists BirthDates; split; [reflexivity|]; repeat split; try apply Hsame; tauto].
  rewrite (derive_dob_block today_year six (first_six_digits idnum six Hsix)).
  cbv zeta. cbn [bind].
  set (y := digits_value (slice six 0 2)). set (m := digits_value (slice six 2 4)).
  set (d := digits_value (slice six 4 6)).
  destruct (is_date (century today_year y + y) m d) eqn:Hdate;
    [|exists BirthDates; split; [reflexivity|]; repeat split; try apply Hsame; tauto].
  eexists. split; [reflexivity|].
  split; [intros bd Hne; now apply upsert_birthdate_others|].
  split; [|split].
  - right. exists (mkdate (century today_year y + y) m d).
    split; [exact Hdate|]. apply upsert_birthdate_written.
  - apply upsert_birthdate_keys.
  - now rewrite upsert_birthdate_twice.
Qed.

(** The tool overwrites a date that is there, which the back-fill never
    does. *)
Example tool_overwrites_a_date :
  main 2025 3 [ mkMasterItem 3 (Some "9704201234083") ]
       [ mkBirthDateRow 3 3 (Some (mkdate 1950 1 1)); mkBirthDateRow 4 4 None ]
  = Returned [ mkBirthDateRow 3 3 (Some (mkdate 1997 4 20)); mkBirthDateRow 4 4 None ] /\
  main 2025 5 [ mkMasterItem 5 (Some "no digits") ] [ mkBirthDateRow 4 4 None ]
  = Returned [ mkBirthDateRow 4 4 None ] /\
  main 2025 6 [ mkMasterItem 6 (Some "x 000229 y") ] []
  = Returned [ mkBirthDateRow 6 6 (Some (mkdate 2000 2 29)) ].
Proof. repeat split; vm_compute; reflexivity. Qed.

(** *** What is still missing *)

Lemma QUERY_In mis bds mi :
  In mi (QUERY mis bds) <->
  In mi mis /\
  ((forall bd, In bd bds -> Id bd <> mi_Id mi) \/
   exists bd, In bd bds /\ Id bd = mi_Id mi /\ BirthDate bd = None).
Proof.
  unfold QUERY. rewrite in_flat_map. split.
  - intros (x & Hx & Hin).
    destruct (List.filter (fun bd => Z.eqb (Id bd) (mi_Id x)) bds) as [|r rs] eqn:F.
    + destruct Hin as [<-|[]]. split; [exact Hx|]. left. intros bd Hbd E.
      assert (Hf : In bd (List.filter (fun bd => Z.eqb (Id bd) (mi_Id x)) bds)).
      { apply filter_In. split; [exact Hbd | now apply Z.eqb_eq]. }
      rewrite F in Hf. destruct Hf.
    + apply in_map_iff in Hin as (b & <- & Hb). split; [exact Hx|]. right.
      apply filter_In in Hb as [Hb Hnull]. rewrite <- F in Hb.
      apply filter_In in Hb as [Hb E]. apply Z.eqb_eq in E.
      exists b. destruct (BirthDate b); [discriminate | auto].
  - intros (Hmi & H). exists mi. split; [exact Hmi|].
    destruct (List.filter (fun bd => Z.eqb (Id bd) (mi_Id mi)) bds) as [|r rs] eqn:F;
      [now left|].
    destruct H as [Hnone|(b & Hb & E & Hnull)].
    + exfalso. assert (Hr : In r (List.filter (fun bd => Z.eqb (Id bd) (mi_Id mi)) bds))
        by (rewrite F; now left).
      apply filter_In in Hr as [Hr Er]. apply Z.eqb_eq in Er. exact (Hnone r Hr Er).
    + apply in_map_iff. exists b. split; [reflexivity|].
      apply filter_In. split; [|now rewrite Hnull].
      rewrite <- F. apply filter_In. split; [exact Hb | now apply Z.eqb_eq].
Qed.

(** X24. After a run of the back-fill, what check_missing_birthdates.py
    lists is exactly the master items whose [IDNumber] gives no date (it
    is NULL, does not start with six digits, or is no date) and that had
    no dated row: nothing that could be derived is left missing. *)
Theorem QUERY_after_backfill (year4 : string) (BatchSize fuel : nat)
    (MasterItems : list MasterItem) (BirthDates : list BirthDateRow) :
  (1 <= BatchSize)%nat -> keyed MasterItems BirthDates ->
  (length MasterItems < fuel)%nat ->
  exists s,
    TSQL fuel year4 BatchSize MasterItems BirthDates = Some s /\
    forall mi,
      In mi (QUERY MasterItems (BirthDates_after s)) <->
      In mi MasterItems /\ decodable year4 mi = false /\
      ~ (exists bd d, In bd BirthDates /\ Id bd = mi_Id mi /\ BirthDate bd = Some d).
Proof.
  intros HB Hk Hf. pose proof Hk as [NDm NDb].
  eexists. split; [apply BackfillSpec.TSQL_closed; eassumption|].
  cbn [BirthDates_after]. intros mi. rewrite QUERY_In. split.
  - intros (Hmi & [Hnone|(b & Hb & E & Hnull)]).
    + split; [exact Hmi|].
      assert (Hnobd : forall bd, In bd BirthDates -> Id bd <> mi_Id mi).
      { intros bd Hbd Ebd. apply (Hnone (filled year4 MasterItems bd)).
        - apply in_or_app. left. now apply in_map.
        - now rewrite (proj1 (BackfillSpec.Id_filled year4 MasterItems bd)). }
      split.
      * destruct (decodable year4 mi) eqn:Hdec; [|reflexivity]. exfalso.
        apply (Hnone (row_of year4 mi)); [|reflexivity].
        apply in_or_app. right. apply in_map.
        apply BackfillSpec.sorted_missing_In, BackfillSpec.missing_In.
        split; [exact Hmi|]. split; [|exact Hdec].
        apply BackfillSpec.unmatched_spec. intros Hin.
        apply in_map_iff in Hin as (bd & Ebd & Hbd). exact (Hnobd bd Hbd Ebd).
      * intros (bd & d & Hbd & Ebd & _). exact (Hnobd bd Hbd Ebd).
    + split; [exact Hmi|].
      apply in_app_or in Hb as [Hb|Hb].
      * apply in_map_iff in Hb as (bd & <- & Hbd).
        rewrite (proj1 (BackfillSpec.Id_filled year4 MasterItems bd)) in E.
        unfold filled in Hnull.
        destruct (BirthDate bd) as [d0|] eqn:Hbdnull; [now rewrite Hbdnull in Hnull|].
        rewrite E, (BackfillSpec.item_of_keyed MasterItems mi NDm Hmi) in Hnull.
        destruct (decodable year4 mi) eqn:Hdec.
        -- destruct (BackfillSpec.decodable_dated _ _ Hdec) as [d Hd].
           cbn [BirthDate] in Hnull. now rewrite Hd in Hnull.
        -- split; [reflexivity|]. intros (bd' & d & Hbd' & Ebd' & Hd).
           assert (bd' = bd) as -> by (apply (key_inj Id BirthDates); auto; congruence).
           congruence.
      * exfalso. apply in_map_iff in Hb as (m & <- & Hm).
        apply BackfillSpec.sorted_missing_In, BackfillSpec.missing_In in Hm as (_ & _ & Hdec).
        destruct (BackfillSpec.decodable_dated _ _ Hdec) as [d Hd].
        cbn [row_of BirthDate] in Hnull. now rewrite Hd in Hnull.
  - intros (Hmi & Hdec & Hnodate). split; [exact Hmi|].
    destruct (in_dec Z.eq_dec (mi_Id mi) (List.map Id BirthDates)) as [Hin|Hnin].
    + right. apply in_map_iff in Hin as (bd & E & Hbd).
      exists bd. split; [|split; [exact E|]].
      * apply in_or_app. left. apply in_map_iff. exists bd. split; [|exact Hbd].
        unfold filled. destruct (BirthDate bd); [reflexivity|].
        now rewrite E, (BackfillSpec.item_of_keyed MasterItems mi NDm Hmi), Hdec.
      * destruct (BirthDate bd) as [d|] eqn:Hd; [|reflexivity].
        exfalso. apply Hnodate. eauto.
    + left. intros b Hb E. apply in_app_or in Hb as [Hb|Hb].
      * apply in_map_iff in Hb as (bd & <- & Hbd).
        rewrite (proj1 (BackfillSpec.Id_filled year4 MasterItems bd)) in E.
        apply Hnin. rewrite <- E. now apply in_map.
      * apply in_map_iff in Hb as (m & <- & Hm).
        apply BackfillSpec.sorted_missing_In, BackfillSpec.missing_In in Hm
          as (Hm & _ & Hdecm).
        cbn [row_of Id] in E.
        assert (m = mi) as -> by (apply (key_inj mi_Id MasterItems); auto).
        congruence.
Qed.

Lemma QUERY_after_backfill_witness :
  let mis := [ mkMasterItem 3 (Some "9704201234083"); mkMasterItem 1 (Some "0102035000080");
               mkMasterItem 2 (Some "ABC"); mkMasterItem 5 (Some "9913011234081");
               mkMasterItem 6 (Some "8001015009087") ] in
  let bds := [ mkBirthDateRow 6 6 None; mkBirthDateRow 1 1 (Some (mkdate 1950 1 1));
               mkBirthDateRow 5 5 None ] in
  (1 <= 2)%nat /\ keyed mis bds /\ (length mis < 6)%nat /\
  exists s,
    TSQL 6 "2025" 2 mis bds = Some s /\
    forall mi,
      In mi (QUERY mis (BirthDates_after s)) <->
      In mi mis /\ decodable "2025" mi = false /\
      ~ (exists bd d, In bd bds /\ Id bd = mi_Id mi /\ BirthDate bd = Some d).
Proof.
  intros mis bds.
  assert (H1 : (1 <= 2)%nat) by lia.
  assert (H2 : keyed mis bds).
  { split.
    - apply (bool_decide_unpack (NoDup (List.map mi_Id mis))); vm_compute; exact I.
    - apply (bool_decide_unpack (NoDup (List.map Id bds))); vm_compute; exact I. }
  assert (H3 : (length mis < 6)%nat) by (simpl; lia).
  split; [exact H1|]. split; [exact H2|]. split; [exact H3|].
  exact (QUERY_after_backfill "2025" 2 6 mis bds H1 H2 H3).
Defined.

Example QUERY_after_backfill_example :
  let mis := [ mkMasterItem 3 (Some "9704201234083"); mkMasterItem 1 (Some "0102035000080");
               mkMasterItem 2 (Some "ABC"); mkMasterItem 5 (Some "9913011234081");
               mkMasterItem 6 (Some "8001015009087") ] in
  let bds := [ mkBirthDateRow 6 6 None; mkBirthDateRow 1 1 (Some (mkdate 1950 1 1));
               mkBirthDateRow 5 5 None ] in
  remaining mis bds = 4 /\
  (BirthDates_after <$> TSQL 6 "2025" 2 mis bds)
    = Some [ mkBirthDateRow 6 6 (Some (mkdate 1980 1 1));
             mkBirthDateRow 1 1 (Some (mkdate 1950 1 1));
             mkBirthDateRow 5 5 None;
             mkBirthDateRow 3 3 (Some (mkdate 1997 4 20)) ] /\
  (QUERY mis <$> (BirthDates_after <$> TSQL 6 "2025" 2 mis bds))
    = Some [ mkMasterItem 2 (Some "ABC"); mkMasterItem 5 (Some "9913011234081") ].
Proof. repeat split; vm_compute; reflexivity. Qed.

End BirthDateToolsSpec.

(** ** What the writers' return value says *)

Module UpsertCountSpec.
Import Py Upsert.

Section Generic.
Context {R : Type} `{Target R}.

Lemma update_row_changes d (r : R) : Description r <> d -> update_row d r <> r.
Proof.
  intros Hne Heq. apply Hne. rewrite <- Heq at 1. apply Description_update.
Qed.

Lemma merge_matched_same src (r : R) :
  merge_matched src r = r <-> needs_update src r = None.
Proof.
  split; [|apply UpsertSpec.merge_matched_fix].
  unfold merge_matched. destruct (needs_update src r) as [d|] eqn:E; [|reflexivity].
  intros Heq. exfalso. revert Heq. apply update_row_changes.
  unfold needs_update in E.
  destruct (source_find src (MasterItemId r)) as [d'|]; [|discriminate].
  destruct (String.eqb_spec (Description r) d') as [|Hne]; [discriminate|].
  now injection E as <-.
Qed.

Lemma map_merge_matched_same src (target : list R) :
  List.map (merge_matched src) target = target <->
  List.filter (fun r => bool_decide (is_Some (needs_update src r))) target = [].
Proof.
  induction target as [|r target IH]; [easy|].
  cbn [List.map List.filter]. split.
  - intros [= Hr Ht]. apply merge_matched_same in Hr. rewrite Hr.
    rewrite bool_decide_eq_false_2 by (intros [? [=]]). now apply IH.
  - destruct (needs_update src r) as [d|] eqn:E.
    + rewrite bool_decide_eq_true_2 by eauto. discriminate.
    + rewrite bool_decide_eq_false_2 by (intros [? [=]]).
      intros Ht. f_equal; [now apply merge_matched_same | now apply IH].
Qed.

Lemma MERGE_zero_iff now (target : list R) src :
  snd (MERGE now target src) = 0 <-> fst (MERGE now target src) = target.
Proof.
  unfold MERGE. cbn [fst snd].
  set (updates := List.filter _ target).
  set (inserts := List.filter (not_matched target) src).
  split.
  - intros Hz.
    assert (Hu : updates = []) by (apply length_zero_iff_nil; lia).
    assert (Hi : inserts = []) by (apply length_zero_iff_nil; lia).
    rewrite Hi. cbn [List.map]. rewrite app_nil_r.
    now apply map_merge_matched_same.
  - intros Heq.
    assert (Hi : inserts = []).
    { apply (f_equal (@length R)) in Heq.
      rewrite length_app, !length_map in Heq.
      apply length_zero_iff_nil. lia. }
    rewrite Hi in Heq |- *. cbn [List.map] in Heq. rewrite app_nil_r in Heq.
    apply map_merge_matched_same in Heq. fold updates in Heq. now rewrite Heq.
Qed.

Lemma MERGE_count_bounds now (target : list R) src :
  Z.of_nat (length (fst (MERGE now target src))) - Z.of_nat (length target)
    <= snd (MERGE now target src)
    <= Z.of_nat (length (fst (MERGE now target src))).
Proof.
  unfold MERGE. cbn [fst snd]. rewrite length_app, !length_map.
  pose proof (List.filter_length_le
                (fun r => bool_decide (is_Some (needs_update src r))) target).
  lia.
Qed.

Lemma batch_upsert_count fault now data (target : list R) :
  (snd (batch_upsert fault now data target) = 0 <->
   fst (batch_upsert fault now data target) = target) /\
  Z.of_nat (length (fst (batch_upsert fault now data target)))
    - Z.of_nat (length target)
    <= snd (batch_upsert fault now data target)
    <= Z.of_nat (length (fst (batch_upsert fault now data target))).
Proof.
  unfold batch_upsert. destruct data as [|p data]; [cbn; split; [easy|lia]|].
  destruct (fault || negb (temp_table_ok (p :: data))); [cbn; split; [easy|lia]|].
  split; [apply MERGE_zero_iff | apply MERGE_count_bounds].
Qed.
End Generic.


End UpsertCountSpec.

(** ** The order in which the mask solver yields *)

Module MaskOrderSpec.
Import Py IdNumbers StringOrder.

Lemma ltb_cons_lt c c' s s' :
  code_lt c c' -> str_lt (String c s) (String c' s').
Proof.
  unfold code_lt, str_lt, String.ltb. intros Hlt. cbn [String.compare].
  unfold Ascii.compare. now rewrite (proj2 (N.compare_lt_iff _ _) Hlt).
Qed.

Lemma ltb_cons_eq c s s' :
  str_lt s s' -> str_lt (String c s) (String c s').
Proof.
  unfold str_lt, String.ltb. cbn [String.compare].
  unfold Ascii.compare. now rewrite N.compare_refl.
Qed.

Lemma StronglySorted_append {A} (R : A -> A -> Prop) (l1 l2 : list A) :
  StronglySorted R l1 -> StronglySorted R l2 ->
  (forall x y, In x l1 -> In y l2 -> R x y) ->
  StronglySorted R (l1 ++ l2)%list.
Proof.
  induction 1 as [|a l1 Hs IH Ha]; intros H2 Hx; [exact H2|].
  cbn [app]. constructor.
  - apply IH; [exact H2|]. intros x y Hi. apply Hx. now right.
  - apply List.Forall_app. split; [exact Ha|].
    apply List.Forall_forall. intros y Hy. apply Hx; [now left|exact Hy].
Qed.

Lemma StronglySorted_mapped {A B} (R : A -> A -> Prop) (R' : B -> B -> Prop)
    (f : A -> B) (l : list A) :
  (forall x y, R x y -> R' (f x) (f y)) ->
  StronglySorted R l -> StronglySorted R' (List.map f l).
Proof.
  intros Hf. induction 1 as [|a l Hs IH Ha]; cbn [List.map]; constructor.
  - exact IH.
  - apply List.Forall_forall. intros y Hy.
    apply in_map_iff in Hy as (x & <- & Hx). apply Hf.
    now apply (proj1 (List.Forall_forall _ _) Ha).
Qed.

Lemma StronglySorted_filtered {A} (R : A -> A -> Prop) (f : A -> bool) (l : list A) :
  StronglySorted R l -> StronglySorted R (List.filter f l).
Proof.
  induction 1 as [|a l Hs IH Ha]; cbn [List.filter]; [constructor|].
  destruct (f a); [|exact IH]. constructor; [exact IH|].
  apply List.Forall_forall. intros y Hy. apply filter_In in Hy as [Hy _].
  now apply (proj1 (List.Forall_forall _ _) Ha).
Qed.

Lemma product_sorted (opts : list (list ascii)) :
  Forall (StronglySorted code_lt) opts ->
  StronglySorted (fun l l' => str_lt (string_of_list_ascii l) (string_of_list_ascii l'))
                 (product opts).
Proof.
  induction 1 as [|o opts Ho _ IH]; cbn [product].
  - repeat constructor.
  - induction Ho as [|a o Ho IHo Ha]; cbn [List.flat_map]; [constructor|].
    apply StronglySorted_append; [|exact IHo|].
    + revert IH. apply StronglySorted_mapped. intros x y.
      cbn [string_of_list_ascii]. apply ltb_cons_eq.
    + intros x y Hx Hy.
      apply in_map_iff in Hx as (l1 & <- & _).
      apply in_flat_map in Hy as (c & Hc & Hy).
      apply in_map_iff in Hy as (l2 & <- & _).
      cbn [string_of_list_ascii]. apply ltb_cons_lt.
      now apply (proj1 (List.Forall_forall _ _) Ha).
Qed.

Lemma options_sorted mask : Forall (StronglySorted code_lt) (options mask).
Proof.
  unfold options. apply Forall_forall. intros o Ho.
  apply list_elem_of_In, in_map_iff in Ho as (ch & <- & _).
  destruct (Ascii.eqb ch "*").
  - cbn [list_ascii_of_string]. unfold code_lt.
    repeat (constructor; [|repeat (constructor; [reflexivity|]); constructor]).
    constructor.
  - repeat constructor.
Qed.

Lemma generate_from_sorted (R : string -> string -> Prop) now_year GENDER cands :
  StronglySorted R cands ->
  forall ids, generate_from now_year GENDER cands = Returned ids ->
  StronglySorted R ids /\ (forall x, In x ids -> In x cands).
Proof.
  induction 1 as [|cand cands Hs IH Ha]; intros ids.
  - intros [= <-]. split; [constructor | auto].
  - cbn [generate_from].
    destruct (yields now_year GENDER cand) as [y|e]; [|discriminate].
    destruct (generate_from now_year GENDER cands) as [more|e]; [|discriminate].
    destruct (IH more eq_refl) as (Hm & Hin).
    cbn. intros [= <-]. destruct y.
    + split.
      * constructor; [exact Hm|]. apply List.Forall_forall. intros x Hx.
        apply (proj1 (List.Forall_forall _ _) Ha). now apply Hin.
      * intros x [<-|Hx]; [now left | right; now apply Hin].
    + split; [exact Hm|]. intros x Hx. right. now apply Hin.
Qed.

(** X26.  Whatever the mask, the identity numbers [generate_ids] yields
    come in strictly ascending order (as Python compares strings): the
    first position of [itertools.product] varies slowest, and the loop
    only leaves candidates out. *)
Theorem generate_ids_ascending (now_year : Z) (GENDER mask : string) :
  match generate_ids now_year GENDER mask with
  | Returned ids => StronglySorted str_lt ids
  | Raised _ => True
  end.
Proof.
  destruct (generate_ids now_year GENDER mask) as [ids|e] eqn:E; [|exact I].
  unfold generate_ids in E.
  eapply generate_from_sorted; [|exact E].
  eapply StronglySorted_mapped; [|apply product_sorted, options_sorted].
  intros x y Hxy. exact Hxy.
Qed.

End MaskOrderSpec.

(** ** A run in which nothing goes wrong *)

Module QuietRunSpec.
Import Py Upsert Prediction Driver DriverRun QuietRun.

(** *** The page *)

Lemma filter_key_length {A} (key : A -> Z) (k : Z) (l : list A) :
  NoDup (List.map key l) ->
  (length (List.filter (fun r => Z.eqb k (key r)) l) <= 1)%nat.
Proof.
  induction l as [|a l IH]; intros ND; [cbn; lia|].
  cbn [List.map] in ND. apply NoDup_cons in ND as [Ha ND].
  cbn [List.filter]. destruct (Z.eqb_spec k (key a)) as [->|Hne]; [|now apply IH].
  assert (List.filter (fun r => Z.eqb (key a) (key r)) l = []) as ->; [|cbn; lia].
  apply ListFacts.filter_none. intros x Hx. apply Z.eqb_neq. intros E.
  apply Ha. rewrite E. apply list_elem_of_In. now apply in_map.
Qed.

Lemma joined_at_most_one db mi :
  NoDup (List.map g_MasterItemId (Genders db)) ->
  NoDup (List.map l_MasterItemId (Languages db)) ->
  joined db mi = [] \/ joined db mi = [mi].
Proof.
  intros NG NL. unfold joined.
  pose proof (filter_key_length g_MasterItemId (Id mi) (Genders db) NG) as HG.
  pose proof (filter_key_length l_MasterItemId (Id mi) (Languages db) NL) as HL.
  destruct (List.filter _ (Genders db)) as [|g [|g' gs]];
    destruct (List.filter _ (Languages db)) as [|l [|l' ls]];
    cbn in HG, HL |- *; auto; lia.
Qed.

Lemma joined_or_enriched db mi :
  enriched db (Id mi) \/ In mi (joined db mi).
Proof.
  unfold joined, enriched.
  destruct (List.filter _ (Genders db)) as [|g gs] eqn:Eg;
    destruct (List.filter _ (Languages db)) as [|l ls] eqn:El;
    [right; now left | right; now left | right; now left |].
  left. split.
  - assert (Hg : In g (List.filter (fun r => Z.eqb (Id mi) (g_MasterItemId r)) (Genders db)))
      by (rewrite Eg; now left).
    apply filter_In in Hg as [Hg Hk]. apply Z.eqb_eq in Hk. rewrite Hk. now apply in_map.
  - assert (Hl : In l (List.filter (fun r => Z.eqb (Id mi) (l_MasterItemId r)) (Languages db)))
      by (rewrite El; now left).
    apply filter_In in Hl as [Hl Hk]. apply Z.eqb_eq in Hk. rewrite Hk. now apply in_map.
Qed.

Lemma joined_rows_NoDup db :
  one_row_per_key db ->
  NoDup (List.map Id (List.concat (List.map (joined db) (MasterItems db)))).
Proof.
  intros (NM & NG & NL). revert NM.
  induction (MasterItems db) as [|mi mis IH]; intros NM; [constructor|].
  cbn [List.map] in NM. apply NoDup_cons in NM as [Hmi NM].
  cbn [List.map List.concat].
  destruct (joined_at_most_one db mi NG NL) as [->| ->]; [now apply IH|].
  cbn [List.app List.map]. apply NoDup_cons. split; [|now apply IH].
  intros Hin. apply Hmi. apply list_elem_of_In in Hin. apply list_elem_of_In.
  apply in_map_iff in Hin as (x & Ex & Hx). rewrite <- Ex.
  apply in_concat in Hx as (l & Hl & Hx). apply in_map_iff in Hl as (m & <- & Hm).
  apply DriverSpec.joined_sound in Hx as [-> _]. now apply in_map.
Qed.

Lemma page_NoDup db n last_id :
  one_row_per_key db -> NoDup (List.map Id (fetch_page db n last_id)).
Proof.
  intros Hk. unfold fetch_page. rewrite <- List.firstn_map.
  eapply sublist_NoDup; [|apply sublist_take].
  eapply ListFacts.NoDup_map_Permutation; [symmetry; apply merge_sort_Permutation|].
  apply ListFacts.NoDup_map_filter. now apply joined_rows_NoDup.
Qed.

Lemma sorted_across {A} (R : A -> A -> Prop) (l1 l2 : list A) :
  StronglySorted R (l1 ++ l2)%list ->
  forall x y, In x l1 -> In y l2 -> R x y.
Proof.
  induction l1 as [|a l1 IH]; intros Hs x y Hx Hy; [destruct Hx|].
  cbn [app] in Hs. apply StronglySorted_inv in Hs as [Hs Ha].
  destruct Hx as [<-|Hx]; [|now apply IH].
  apply (proj1 (List.Forall_forall _ _) Ha). apply in_or_app. now right.
Qed.

(** With distinct [Id]s the page leaves out no candidate that is not
    after one of its rows. *)
Lemma page_prefix db n last_id row mi :
  NoDup (List.map Id (MasterItems db)) ->
  In row (fetch_page db n last_id) -> In mi (MasterItems db) ->
  eligible last_id mi = true -> In mi (joined db mi) -> Id mi <= Id row ->
  In mi (fetch_page db n last_id).
Proof.
  intros NM Hrow Hmi He Hj Hle.
  pose proof (DriverSpec.fetch_page_sound db n last_id row
                (proj2 (list_elem_of_In _ _) Hrow)) as (_ & Hrow' & _).
  apply list_elem_of_In in Hrow'.
  unfold fetch_page in *.
  set (l := merge_sort by_Id _) in *.
  assert (Hl : In mi l).
  { apply list_elem_of_In. subst l. rewrite merge_sort_Permutation.
    apply list_elem_of_In, filter_In. split; [|exact He].
    apply in_concat. exists (joined db mi). split; [now apply in_map | exact Hj]. }
  assert (Hs : StronglySorted by_Id l) by (apply StronglySorted_merge_sort; apply _).
  rewrite <- (firstn_skipn (Z.to_nat n) l) in Hl, Hs.
  apply in_app_or in Hl as [Hl|Hl]; [exact Hl|].
  pose proof (sorted_across _ _ _ Hs row mi Hrow Hl) as Hge. unfold by_Id in Hge.
  assert (row = mi) as <-; [|exact Hrow].
  apply (ListFacts.key_inj Id (MasterItems db)); auto. lia.
Qed.

Lemma sorted_strictly rows :
  StronglySorted by_Id rows -> NoDup (List.map Id rows) ->
  StronglySorted (fun a b => Id a < Id b) rows.
Proof.
  induction 1 as [|a rows Hs IH Ha]; intros ND; [constructor|].
  cbn [List.map] in ND. apply NoDup_cons in ND as [Hn ND].
  constructor; [now apply IH|].
  apply List.Forall_forall. intros b Hb.
  pose proof (proj1 (List.Forall_forall _ _) Ha b Hb) as Hle. unfold by_Id in Hle.
  destruct (Z.eq_dec (Id a) (Id b)) as [E|Hne]; [|lia].
  exfalso. apply Hn. rewrite E. apply list_elem_of_In. now apply in_map.
Qed.

(** X27.  With at most one row per key in the three tables, the page
    query returns its rows in strictly ascending order of [Id], none
    twice, and it passes over nothing: a master item with both names
    that lies after the watermark and not after some row of the page
    either has a gender row and a language row already, or is in the
    page.  So moving the watermark to the last row of the page leaves no
    outstanding item behind. *)
Theorem page_passes_over_nothing (db : Store) (n last_id : Z) :
  one_row_per_key db ->
  let page := fetch_page db n last_id in
  StronglySorted (fun a b => Id a < Id b) page /\
  forall row mi,
    In row page -> In mi (MasterItems db) -> eligible last_id mi = true ->
    Id mi <= Id row ->
    enriched db (Id mi) \/ In mi page.
Proof.
  intros Hk page. split.
  - apply sorted_strictly; [apply DriverSpec.fetch_page_sorted | now apply page_NoDup].
  - intros row mi Hrow Hmi He Hle.
    destruct (joined_or_enriched db mi) as [Hen|Hj]; [now left|]. right.
    destruct Hk as (NM & _). now apply (page_prefix db n last_id row mi).
Qed.

Lemma page_passes_over_nothing_witness :
  one_row_per_key Samples.store /\
  let page := fetch_page Samples.store 10 0 in
  StronglySorted (fun a b => Id a < Id b) page /\
  forall row mi,
    In row page -> In mi (MasterItems Samples.store) -> eligible 0 mi = true ->
    Id mi <= Id row ->
    enriched Samples.store (Id mi) \/ In mi page.
Proof.
  assert (H : one_row_per_key Samples.store).
  { repeat split.
    - apply (bool_decide_unpack (NoDup (List.map Id (MasterItems Samples.store)))).
      vm_compute. exact I.
    - apply (bool_decide_unpack
               (NoDup (List.map g_MasterItemId (Genders Samples.store)))).
      vm_compute. exact I.
    - apply (bool_decide_unpack
               (NoDup (List.map l_MasterItemId (Languages Samples.store)))).
      vm_compute. exact I. }
  split; [exact H|].
  exact (page_passes_over_nothing Samples.store 10 0 H).
Defined.

(** Two language rows for one master item without a gender row make the
    page hold that item twice. *)
Example page_repeats_without_keys :
  let mi := mkMasterItem 4 (Some "Anna") (Some "Botha") in
  fetch_page (mkStore [mi] [] [mkLanguageRow 4 "Afrikaans" None;
                                mkLanguageRow 4 "English" None]) 10 0
  = [mi; mi].
Proof. vm_compute. reflexivity. Qed.

(** *** The tasks and their results *)

Lemma task_of_row_Some row f l id :
  task_of_row row = Some (f, l, id) ->
  falsy f = false /\ falsy l = false /\ id = Id row.
Proof.
  unfold task_of_row. destruct (falsy _ || falsy _) eqn:E; [discriminate|].
  intros [= <- <- <-]. apply orb_false_iff in E. tauto.
Qed.

Lemma tasks_well_formed page :
  Forall (fun t : string * string * Z =>
            falsy (fst (fst t)) = false /\ falsy (snd (fst t)) = false)
         (omap task_of_row page).
Proof.
  apply Forall_forall. intros [[f l] id] Ht.
  apply list_elem_of_omap in Ht as (row & _ & Ht).
  apply task_of_row_Some in Ht. cbn. tauto.
Qed.

Lemma task_ids page :
  NoDup (List.map Id page) ->
  NoDup (List.map snd (omap task_of_row page)) /\
  forall k, In k (List.map snd (omap task_of_row page)) -> In k (List.map Id page).
Proof.
  induction page as [|row page IH]; intros ND; [split; [constructor | auto]|].
  cbn [List.map] in ND. apply NoDup_cons in ND as [Hrow ND].
  destruct (IH ND) as [IH1 IH2]. cbn [omap list_omap].
  destruct (task_of_row row) as [[[f l] id]|] eqn:E.
  - apply task_of_row_Some in E as (_ & _ & ->). cbn [List.map snd]. split.
    + apply NoDup_cons. split; [|exact IH1].
      intros Hin. apply Hrow. apply list_elem_of_In. apply IH2.
      now apply list_elem_of_In.
    + intros k [<-|Hk]; [now left | right; now apply IH2].
  - split; [exact IH1|]. intros k Hk. right. now apply IH2.
Qed.

Lemma task_of_page page mi :
  In mi page -> task_of_row mi <> None ->
  In (Id mi) (List.map snd (omap task_of_row page)).
Proof.
  intros Hin Ht. destruct (task_of_row mi) as [[[f l] id]|] eqn:E; [|congruence].
  pose proof (task_of_row_Some _ _ _ _ E) as (_ & _ & ->).
  apply in_map_iff. exists (f, l, Id mi). split; [reflexivity|].
  apply list_elem_of_In, list_elem_of_omap. exists mi.
  split; [now apply list_elem_of_In | exact E].
Qed.

Lemma coroutine_quiet json_loads cfg w pos f l id :
  quiet json_loads w -> (1 <= RETRY_ATTEMPTS cfg)%nat ->
  falsy f = false -> falsy l = false ->
  exists p, coroutine json_loads cfg w (pos, (f, l, id))
              = Returned (prediction_result id p) /\ storable p.
Proof.
  intros (_ & _ & _ & _ & Hs) HR Hf Hl.
  destruct (Hs pos) as (raw & p & Hsv & Hj & Hp).
  exists p. split; [|exact Hp].
  unfold coroutine, get_person_prediction_async. cbn [negb].
  rewrite Hf, Hl. cbn [orb].
  destruct (RETRY_ATTEMPTS cfg) as [|k]; [lia|].
  cbn [retry_loop]. unfold attempt_outcome, attempt_body. rewrite Hsv, Hj.
  reflexivity.
Qed.

Local Abbreviation answered :=
  (fun (task : string * string * Z) (r : gmap string pyval) =>
     exists p, r = prediction_result (snd task) p /\ storable p).

Lemma quiet_results json_loads cfg w (tasks : list (string * string * Z)) :
  quiet json_loads w -> (1 <= RETRY_ATTEMPTS cfg)%nat ->
  Forall (fun t : string * string * Z =>
            falsy (fst (fst t)) = false /\ falsy (snd (fst t)) = false) tasks ->
  forall s rs,
    Forall2 (fun t r => coroutine json_loads cfg w t = Returned r)
            (combine (seq s (length tasks)) tasks) rs ->
    Forall2 answered tasks rs.
Proof.
  intros Hq HR. induction 1 as [|[[f l] id] tasks [Hf Hl] _ IH]; intros s rs HF.
  - cbn in HF. inversion HF. constructor.
  - cbn [length seq combine] in HF.
    inversion HF as [|t r ts rs' Hr HF']; subst.
    constructor; [|now apply (IH (S s))].
    destruct (coroutine_quiet json_loads cfg w s f l id Hq HR Hf Hl) as (p & Hp & Hst).
    rewrite Hp in Hr. injection Hr as <-. exists p. auto.
Qed.

Lemma gender_pair_storable k g l :
  g <> "" -> gender_pair (prediction_result k (JObject (Some g) l)) = Some (k, g).
Proof.
  intros Hg. unfold gender_pair.
  destruct (PredictionSpec.prediction_result_shape k (JObject (Some g) l))
    as (-> & -> & _).
  unfold falsy. now rewrite (proj2 (String.eqb_neq _ _) Hg).
Qed.

Lemma language_pair_storable k g l :
  l <> "" -> language_pair (prediction_result k (JObject g (Some l))) = Some (k, l).
Proof.
  intros Hl. unfold language_pair.
  destruct (PredictionSpec.prediction_result_shape k (JObject g (Some l)))
    as (-> & -> & _).
  unfold falsy. now rewrite (proj2 (String.eqb_neq _ _) Hl).
Qed.

Local Abbreviation short :=
  (forallb (fun p : Z * string => (String.length (snd p) <=? 50)%nat)).

Lemma answered_pairs (tasks : list (string * string * Z)) rs :
  Forall2 answered tasks rs ->
  Forall readable rs /\
  List.map fst (omap gender_pair rs) = List.map snd tasks /\
  List.map fst (omap language_pair rs) = List.map snd tasks /\
  short (omap gender_pair rs) = true /\
  short (omap language_pair rs) = true.
Proof.
  induction 1 as [|task r tasks rs (p & -> & g & l & -> & Hg & Hl & Hlg & Hll) _
                    (IH1 & IH2 & IH3 & IH4 & IH5)].
  - repeat split; constructor.
  - cbn [omap list_omap].
    rewrite (gender_pair_storable _ g (Some l) Hg),
            (language_pair_storable _ (Some g) l Hl).
    cbn [List.map fst snd forallb]. rewrite IH2, IH3, IH4, IH5.
    rewrite (proj2 (Nat.leb_le _ _) Hlg), (proj2 (Nat.leb_le _ _) Hll).
    repeat split; try reflexivity.
    constructor; [|exact IH1].
    destruct (PredictionSpec.prediction_result_shape (snd task) (JObject (Some g) (Some l)))
      as (H1 & H2 & _).
    split; eauto.
Qed.

(** *** The writers *)

Lemma batch_upsert_covers {R : Type} `{Target R} now data (target : list R) k :
  temp_table_ok data = true -> In k (List.map fst data) ->
  In k (List.map MasterItemId (fst (batch_upsert false now data target))).
Proof.
  unfold batch_upsert. destruct data as [|p data]; [intros _ []|].
  intros -> Hk. cbn [orb negb]. rewrite UpsertSpec.MERGE_keys.
  apply in_or_app.
  destruct (in_dec Z.eq_dec k (List.map MasterItemId target)) as [Hin|Hout];
    [now left|]. right.
  apply in_map_iff in Hk as (q & <- & Hq). apply in_map. apply filter_In.
  split; [exact Hq|].
  destruct (not_matched target q) eqn:E; [reflexivity|].
  apply UpsertSpec.not_matched_false in E. contradiction.
Qed.

Lemma temp_table_ok_intro data :
  NoDup (List.map fst data) -> short data = true -> temp_table_ok data = true.
Proof.
  intros ND Hs. unfold temp_table_ok. rewrite Hs.
  now rewrite bool_decide_eq_true_2.
Qed.

Lemma write_genders_covers w t db k :
  genders_fault w = false -> temp_table_ok (genders_to_upsert t) = true ->
  In k (List.map fst (genders_to_upsert t)) ->
  In k (List.map g_MasterItemId (fst (fst (write_genders w t db)))).
Proof.
  intros Hf Hok Hk. unfold write_genders.
  destruct (genders_to_upsert t) as [|p data] eqn:E; [destruct Hk|].
  rewrite Hf. unfold batch_upsert_genders.
  pose proof (batch_upsert_covers (GETDATE w) (p :: data) (Genders db) k Hok Hk) as Hc.
  destruct (batch_upsert false (GETDATE w) (p :: data) (Genders db)). exact Hc.
Qed.

Lemma write_languages_covers w t db k :
  languages_fault w = false -> temp_table_ok (languages_to_upsert t) = true ->
  In k (List.map fst (languages_to_upsert t)) ->
  In k (List.map l_MasterItemId (fst (fst (write_languages w t db)))).
Proof.
  intros Hf Hok Hk. unfold write_languages.
  destruct (languages_to_upsert t) as [|p data] eqn:E; [destruct Hk|].
  rewrite Hf. unfold batch_upsert_languages.
  pose proof (batch_upsert_covers (GETDATE w) (p :: data) (Languages db) k Hok Hk) as Hc.
  destruct (batch_upsert false (GETDATE w) (p :: data) (Languages db)). exact Hc.
Qed.

Lemma begins_In {A} (l1 l2 : list A) x : begins l1 l2 -> In x l1 -> In x l2.
Proof. intros [more ->] Hx. apply in_or_app. now left. Qed.

(** A name that is not blank for the page query is one the driver does
    not skip only if it has a character that is no white space; the
    converse holds for every name. *)
Lemma only_spaces_whitespace s :
  only_spaces s = true -> forallb isspace (list_ascii_of_string s) = true.
Proof.
  induction s as [|c s IH]; [reflexivity|]. cbn [only_spaces list_ascii_of_string forallb].
  intros H. apply andb_true_iff in H as [Hc Hs]. apply Ascii.eqb_eq in Hc. subst c.
  rewrite (IH Hs). reflexivity.
Qed.

Lemma task_eligible last_id mi :
  task_of_row mi <> None -> last_id < Id mi -> eligible last_id mi = true.
Proof.
  intros Ht Hlt. unfold eligible. rewrite (proj2 (Z.ltb_lt _ _) Hlt). cbn [andb].
  unfold task_of_row in Ht.
  destruct (FullName mi) as [f|], (Surname mi) as [s|]; cbn [non_blank];
    try (exfalso; apply Ht; first [reflexivity | now rewrite orb_true_r]).
  rewrite !DriverRunSpec.falsy_strip in Ht.
  destruct (only_spaces f) eqn:Ef.
  { exfalso. apply Ht. now rewrite (only_spaces_whitespace f Ef). }
  destruct (only_spaces s) eqn:Es.
  { exfalso. apply Ht. rewrite (only_spaces_whitespace s Es). now rewrite orb_true_r. }
  reflexivity.
Qed.

(** *** One quiet iteration *)

Lemma behind_watermark st0 db n last_id mi :
  NoDup (List.map Id (MasterItems db)) ->
  fetch_page db n last_id <> [] ->
  In mi (MasterItems db) -> last_id < Id mi ->
  Id mi <= last_processed_id (set_last_processed_id st0 (fetch_page db n last_id)) ->
  task_of_row mi <> None ->
  enriched db (Id mi) \/ In mi (fetch_page db n last_id).
Proof.
  intros NM Hne Hmi Hlt Hle Ht.
  destruct (joined_or_enriched db mi) as [Hen|Hj]; [now left|]. right.
  destruct (fetch_page db n last_id) as [|r rs] eqn:Hpage; [congruence|].
  destruct (DriverSpec.last_cons_is_Some r rs) as [row Hlast].
  rewrite (DriverSpec.set_last_processed_id_last _ _ row Hlast) in Hle.
  apply last_Some_elem_of, list_elem_of_In in Hlast.
  rewrite <- Hpage in Hlast |- *.
  apply (page_prefix db n last_id row mi); auto.
  now apply task_eligible.
Qed.

Lemma quiet_tasks_return json_loads cfg w (tasks : list (string * string * Z)) :
  quiet json_loads w -> (1 <= RETRY_ATTEMPTS cfg)%nat ->
  Forall (fun t : string * string * Z =>
            falsy (fst (fst t)) = false /\ falsy (snd (fst t)) = false) tasks ->
  forall s,
    Forall (fun t => exists r, coroutine json_loads cfg w t = Returned r)
           (combine (seq s (length tasks)) tasks).
Proof.
  intros Hq HR. induction 1 as [|[[f l] id] tasks [Hf Hl] _ IH]; intros s.
  - constructor.
  - cbn [length seq combine]. constructor; [|apply IH].
    destruct (coroutine_quiet json_loads cfg w s f l id Hq HR Hf Hl) as (p & Hp & _).
    eauto.
Qed.

(** In a quiet iteration the fan-out does not raise. *)
Lemma quiet_fanout_returns json_loads cfg w page e :
  quiet json_loads w -> (1 <= RETRY_ATTEMPTS cfg)%nat ->
  (1 <= API_CALL_CONCURRENCY cfg)%nat ->
  fst (Scheduler.run_in_chunks (coroutine json_loads cfg w) (latency w)
         (API_CALL_CONCURRENCY cfg)
         (combine (seq 0 (length (omap task_of_row page))) (omap task_of_row page)))
    <> Raised e.
Proof.
  intros Hq HR HC Hg.
  destruct (SchedulerSpec.run_in_chunks_raised _ _ _ _ e HC Hg) as (t & Ht & Hraise).
  pose proof (quiet_tasks_return json_loads cfg w _ Hq HR (tasks_well_formed page) 0%nat)
    as Hall.
  destruct (proj1 (List.Forall_forall _ _) Hall t Ht) as [r Hr]. congruence.
Qed.

Lemma loop_body_quiet json_loads cfg w st db :
  one_row_per_key db -> none_skipped db -> quiet json_loads w ->
  MAX_TOTAL_RECORDS_TO_PROCESS cfg = None -> 1 <= DB_BATCH_SIZE cfg ->
  (1 <= API_CALL_CONCURRENCY cfg)%nat -> (1 <= RETRY_ATTEMPTS cfg)%nat ->
  (exists st' tr,
     loop_body json_loads cfg w st db = Break EmptyPage st' db tr /\
     fetch_page db (DB_BATCH_SIZE cfg) (last_processed_id st) = []) \/
  (exists st' db' tr,
     loop_body json_loads cfg w st db = Continue st' db' tr /\
     MasterItems db' = MasterItems db /\ one_row_per_key db' /\
     (length (ahead (last_processed_id st') db')
      < length (ahead (last_processed_id st) db))%nat /\
     (forall k, enriched db k -> enriched db' k) /\
     forall mi, In mi (MasterItems db) -> last_processed_id st < Id mi ->
       Id mi <= last_processed_id st' -> task_of_row mi <> None ->
       enriched db' (Id mi)).
Proof.
  intros Hk Hskip Hq HM HB HC HR.
  pose proof (DriverRunSpec.loop_body_cases json_loads cfg w st db) as H. cbv zeta in H.
  assert (Hn : records_to_fetch cfg st = DB_BATCH_SIZE cfg)
    by (unfold records_to_fetch; now rewrite HM).
  assert (Hb : budget_reached cfg st = false)
    by (unfold budget_reached; now rewrite HM).
  rewrite Hn in H.
  set (page := fetch_page db (DB_BATCH_SIZE cfg) (last_processed_id st)) in *.
  pose proof Hq as (Hconn & Hfetch & Hgf & Hlf & _).
  pose proof Hk as (NM & NG & NL).
  destruct H as [[Hb' _]|[(_ & Hle & _)|(_ & _ & H)]]; [congruence | lia |].
  destruct H as [[Hc _]|[(_ & Hf & _)|(_ & H)]]; [congruence..|].
  destruct H as [[Hnil ->]|[(Hne & Htasks & tr & _)|[(Hne & _ & Hraise & tr & _)|
                 [(Hne & _ & rs & t & tr & Hrs & Ht & ->)|
                  (Hne & _ & e & tr & Hg & _ & _)]]]].
  - left. eauto.
  - (* a page of skipped rows only: there is none *)
    exfalso. destruct page as [|r rows] eqn:Hpage; [congruence|].
    assert (Hr : r ∈ fetch_page db (DB_BATCH_SIZE cfg) (last_processed_id st)).
    { fold page. rewrite Hpage. apply list_elem_of_here. }
    apply DriverSpec.fetch_page_sound in Hr as (_ & Hin & _ & Hf & Hs).
    apply list_elem_of_In in Hin.
    pose proof (Hskip r Hin Hf Hs) as Ht.
    cbn [omap list_omap] in Htasks.
    destruct (task_of_row r); [discriminate | congruence].
  - exfalso. destruct Hraise as (e & [Hg|(rs & Hrs & Ht)] & _).
    + exact (quiet_fanout_returns json_loads cfg w page e Hq HR HC Hg).
    + destruct (DriverRunSpec.results_length json_loads cfg w _ rs Hrs) as (_ & HF & _).
      apply (quiet_results json_loads cfg w _ Hq HR (tasks_well_formed page)) in HF.
      apply answered_pairs in HF as (Hread & _).
      rewrite (DriverRunSpec.tally_readable _ empty_tally Hread) in Ht. discriminate.
  - right. do 3 eexists. split; [reflexivity|]. cbn [MasterItems].
    split; [reflexivity|].
    destruct (DriverRunSpec.write_genders_keys w t db) as (BG & KG & _).
    destruct (DriverRunSpec.write_languages_keys w t db) as (BL & KL & _).
    split; [repeat split; cbn [MasterItems Genders Languages]; auto|].
    split; [now apply DriverRunSpec.fewer_ahead|].
    assert (Hkeep : forall k, enriched db k ->
              enriched (mkStore (MasterItems db)
                                (fst (fst (write_genders w t db)))
                                (fst (fst (write_languages w t db)))) k).
    { intros k [HG HL]. split; cbn [Genders Languages];
        [exact (begins_In _ _ _ BG HG) | exact (begins_In _ _ _ BL HL)]. }
    split; [exact Hkeep|].
    intros mi Hmi Hlt Hle Htask.
    assert (Hle' : Id mi <= last_processed_id
                     (set_last_processed_id
                        (add_upserted
                           (add_api_totals
                              (add_fetched (next_batch st) (Z.of_nat (length page))) t)
                           (snd (fst (write_genders w t db)))
                           (snd (fst (write_languages w t db))))
                        page)) by exact Hle.
    destruct (behind_watermark _ db _ _ mi NM Hne Hmi Hlt Hle' Htask) as [Hen|Hin];
      [now apply Hkeep|].
    apply (task_of_page _ _ Hin) in Htask. fold page in Htask.
    destruct (DriverRunSpec.results_length json_loads cfg w _ rs Hrs) as (_ & HF & _).
    apply (quiet_results json_loads cfg w _ Hq HR (tasks_well_formed page)) in HF.
    apply answered_pairs in HF as (Hread & EG & EL & SG & SL).
    rewrite (DriverRunSpec.tally_readable _ empty_tally Hread) in Ht. injection Ht as <-.
    destruct (task_ids page (page_NoDup db _ _ Hk)) as [NT _].
    split; cbn [Genders Languages].
    + apply write_genders_covers; cbn [genders_to_upsert empty_tally List.app];
        [exact Hgf | apply temp_table_ok_intro; [now rewrite EG | exact SG]
        | now rewrite EG].
    + apply write_languages_covers; cbn [languages_to_upsert empty_tally List.app];
        [exact Hlf | apply temp_table_ok_intro; [now rewrite EL | exact SL]
        | now rewrite EL].
  - exfalso. exact (quiet_fanout_returns json_loads cfg w page e Hq HR HC Hg).
Qed.

(** *** A quiet run *)



(** The sample run: two items are enriched in the first iteration, the
    second finds nothing more to do. *)
Example quiet_sample_run :
  process_master_items_in_batches_async Samples.json_loads Samples.config
    [Samples.calm; Samples.calm] initial_state Samples.store
  = Some (EmptyPage,
          mkState 7 1 1 0 1 1 2,
          mkStore (MasterItems Samples.store)
                  [ mkGenderRow 9 "MALE"; mkGenderRow 7 "MALE" ]
                  [ mkLanguageRow 9 "isiZulu" None;
                    mkLanguageRow 7 "isiZulu" (Some 20250601) ]).
Proof. vm_compute. reflexivity. Qed.

(** It is the hypothesis on skipped names that keeps a quiet run going: a
    first name of one tab, on a page of its own, ends it before the next
    item is enriched. *)
Example quiet_run_with_a_skipped_name :
  let tab := String (ascii_of_nat 9) EmptyString in
  let db := mkStore [ mkMasterItem 4 (Some tab) (Some "Nkosi");
                      mkMasterItem 7 (Some "Thabo") (Some "Mokoena") ] [] [] in
  process_master_items_in_batches_async Samples.json_loads
    (mkConfig 1 None 2000 3 5 2) [Samples.calm; Samples.calm; Samples.calm]
    initial_state db
  = Some (Uncaught closed_cursor, mkState 4 1 0 0 0 0 1, db).
Proof. vm_compute. reflexivity. Qed.

End QuietRunSpec.
